(** * url-tools: the recursive link crawler, embedded and verified

    Sources embedded here:
    - [server/utils/link-analyzer.ts]: normalizeUrl, isInternalLink,
      getRedirectChain, isSitemap, extractLinksFromSitemap, extractLinks,
      formatRedirectChain;
    - [server/utils/url-validator.ts]: isAllowedUrl, filterAllowedUrls;
    - [server/api/scrape-links-stream.post.ts]: fetchWithRetry and the
      streaming crawl handler (clamped budgets, gate on the seeds, length
      guard on the regex filter, path filters);
    - the older copy of that handler, the second half of
      [server/api/scrape-json.post.ts] (nothing clamped, no gate, no
      length guard, no path filters).  The two loops are the same text up
      to the names of their locals, so the loop is embedded once
      ([runCrawl]) and each handler supplies its locals ([streamConfig],
      [legacyConfig]) and its check on seeds;
    - the first half of [server/api/scrape-json.post.ts]: the handler of
      JSON-LD, Open Graph and Twitter tags;
    - [server/api/scrape-html.post.ts]: the handler, in batches of five;
    - [server/api/seo-audit.post.ts]: fetchWithRetry, checkLinkStatus,
      auditUrl;
    - [server/api/save-results.post.ts]: getTimestamp, sanitizeFilename and
      the lines of the text export;
    - [server/utils/path-guard.ts]: assertWithinOutput, and the guard of
      the endpoint that opens a folder;
    - the image scraper: resolveUrl, isValidImageFormat and the three
      passes that collect the images of a page;
    - the page and the results table of the user interface: parseUrls,
      addLog, the selection of rows, getStatusClass, linkStats.
    The handlers that start their tasks together ([Promise.all]) take
    what each task's fetch comes to as a parameter, [None] for a fetch
    that never comes back.

    Conventions.  JavaScript strings are byte strings here ([string]), so
    [length] counts bytes and case folding and white space are those of
    ASCII.  The numbers of a request (the budget, the depth, the rate
    limit, the timeout and the retry count) are [JNum]s: a rational, an
    infinity or NaN (rounding and the sign of zero are not modelled); the
    counters of the code are [Z] or [nat].  A loop that need not end (the
    retry loop under an infinite retry count, and what calls it) takes
    fuel and gives [None] when the fuel runs out.  The platform (the
    WHATWG URL class, RegExp, cheerio, fetch, timers and the response
    stream) is a set of interfaces the embedded code is generic in;
    effects are threaded as an explicit world plus a trace of what the
    handler did to it.  The request body is taken to have the shape of
    [ScrapeLinksRequest], so the handler's 400 answer to a body without a
    [urls] array is left out. *)

From Stdlib Require Import ZArith QArith Qround String Ascii List Lia.
From stdpp Require Import gmap strings list pretty.

(* [set_solver] tries to clear section variables. *)
#[local] Set Warnings "-clear-no-such-hyp".

Open Scope Z_scope.

(* ===================================================================== *)
(** * Strings, the way the code uses them *)
(* ===================================================================== *)

Definition startsWith (s p : string) : bool := String.prefix p s.

Fixpoint includes (s p : string) : bool :=
  String.prefix p s ||
  match s with
  | EmptyString => false
  | String _ s' => includes s' p
  end.

(** Some suffix of [s] is [p]. *)
Fixpoint endsWith (s p : string) : bool :=
  String.eqb s p ||
  match s with
  | EmptyString => false
  | String _ s' => endsWith s' p
  end.

(** [s.slice(0, -1)] *)
Fixpoint dropLast (s : string) : string :=
  match s with
  | EmptyString => EmptyString
  | String _ EmptyString => EmptyString
  | String c s' => String c (dropLast s')
  end.

Definition lowerChar (c : ascii) : ascii :=
  let n := nat_of_ascii c in
  if (65 <=? n)%nat && (n <=? 90)%nat then ascii_of_nat (n + 32) else c.

Fixpoint toLowerCase (s : string) : string :=
  match s with
  | EmptyString => EmptyString
  | String c s' => String (lowerChar c) (toLowerCase s')
  end.

(** White space and line terminators of the byte range. *)
Definition isSpace (c : ascii) : bool :=
  let n := nat_of_ascii c in
  ((9 <=? n)%nat && (n <=? 13)%nat) || (n =? 32)%nat.

Fixpoint trimStart (s : string) : string :=
  match s with
  | EmptyString => EmptyString
  | String c s' => if isSpace c then trimStart s' else s
  end.

Definition trim (s : string) : string :=
  String.rev (trimStart (String.rev (trimStart s))).

(** [s.replace(/\/+$/, '')] *)
Fixpoint dropSlashesStart (s : string) : string :=
  match s with
  | String "/" s' => dropSlashesStart s'
  | _ => s
  end.

Definition stripTrailingSlashes (s : string) : string :=
  String.rev (dropSlashesStart (String.rev s)).

(** [s.split(sep)] for a one-character separator; [acc] is the piece being
    read, reversed. *)
Fixpoint splitOn (sep : ascii) (s : string) (acc : string) : list string :=
  match s with
  | EmptyString => [String.rev acc]
  | String c s' =>
      if Ascii.eqb c sep then String.rev acc :: splitOn sep s' EmptyString
      else splitOn sep s' (String c acc)
  end.

Definition truthy (s : string) : bool := negb (String.eqb s "").

(** [s.split(/\s+/).filter(Boolean)] *)
Fixpoint wordsAux (s : string) (acc : string) : list string :=
  match s with
  | EmptyString => if truthy acc then [String.rev acc] else []
  | String c s' =>
      if isSpace c
      then (if truthy acc then [String.rev acc] else []) ++ wordsAux s' EmptyString
      else wordsAux s' (String c acc)
  end.

Definition words (s : string) : list string := wordsAux s EmptyString.

(** [xs.join(sep)] *)
Fixpoint join (sep : string) (xs : list string) : string :=
  match xs with
  | [] => EmptyString
  | [x] => x
  | x :: rest => x +:+ sep +:+ join sep rest
  end.

(* ===================================================================== *)
(** * Numbers *)
(* ===================================================================== *)

(** A JavaScript number as far as the handlers can tell numbers apart. *)
Inductive JNum : Type :=
  | JFin (q : Q)
  | JPosInf
  | JNegInf
  | JNaN.

Definition falsyNum (x : JNum) : bool :=
  match x with
  | JFin q => Qeq_bool q 0
  | JNaN => true
  | _ => false
  end.

(** [x || d] on a possibly missing number. *)
Definition numOr (x : option JNum) (d : JNum) : JNum :=
  match x with
  | Some v => if falsyNum v then d else v
  | None => d
  end.

Definition Math_max (a b : JNum) : JNum :=
  match a, b with
  | JNaN, _ | _, JNaN => JNaN
  | JPosInf, _ | _, JPosInf => JPosInf
  | JNegInf, x | x, JNegInf => x
  | JFin p, JFin q => if Qle_bool p q then JFin q else JFin p
  end.

Definition signOf (q : Q) : comparison := (0 ?= q)%Q.

(** [a / b]; the sign of a zero is not tracked. *)
Definition numDiv (a b : JNum) : JNum :=
  match a, b with
  | JNaN, _ | _, JNaN => JNaN
  | JFin p, JFin q =>
      if Qeq_bool q 0
      then match signOf p with Lt => JPosInf | Gt => JNegInf | Eq => JNaN end
      else JFin (p / q)
  | JFin _, _ => JFin 0
  | JPosInf, JFin q => match signOf q with Gt => JNegInf | _ => JPosInf end
  | JNegInf, JFin q => match signOf q with Gt => JPosInf | _ => JNegInf end
  | _, _ => JNaN
  end.

(** [a <= b] *)
Definition numLeb (a b : JNum) : bool :=
  match a, b with
  | JNaN, _ | _, JNaN => false
  | JNegInf, _ | _, JPosInf => true
  | JFin p, JFin q => Qle_bool p q
  | _, _ => false
  end.

(** [a < b] *)
Definition numLtb (a b : JNum) : bool :=
  match a, b with
  | JNaN, _ | _, JNaN => false
  | JPosInf, _ | _, JNegInf => false
  | JNegInf, _ | _, JPosInf => true
  | JFin p, JFin q => negb (Qle_bool q p)
  end.

Definition Math_min (a b : JNum) : JNum :=
  match a, b with
  | JNaN, _ | _, JNaN => JNaN
  | JNegInf, _ | _, JNegInf => JNegInf
  | JPosInf, x | x, JPosInf => x
  | JFin p, JFin q => if Qle_bool p q then JFin p else JFin q
  end.

Definition numNeg (a : JNum) : JNum :=
  match a with
  | JFin q => JFin (- q)
  | JPosInf => JNegInf
  | JNegInf => JPosInf
  | JNaN => JNaN
  end.

(** [a * b] *)
Definition numMul (a b : JNum) : JNum :=
  match a, b with
  | JNaN, _ | _, JNaN => JNaN
  | JFin p, JFin q => JFin (p * q)
  | JFin p, x | x, JFin p =>
      match signOf p with Lt => x | Gt => numNeg x | Eq => JNaN end
  | JPosInf, JPosInf | JNegInf, JNegInf => JPosInf
  | _, _ => JNegInf
  end.

(** A whole number, such as a loop counter or a length, as a JavaScript
    number. *)
Definition ofInt (n : Z) : JNum := JFin (inject_Z n).

Definition ofNat (n : nat) : JNum := ofInt (Z.of_nat n).

(** [x ?? d] on a possibly missing number. *)
Definition nullish (x : option JNum) (d : JNum) : JNum := default d x.

(** [Math.min(Math.max(x, lo), hi)] *)
Definition clamp (lo hi x : JNum) : JNum := Math_min (Math_max x lo) hi.

(** [x || d] on a possibly missing whole number. *)
Definition intOr (x : option Z) (d : Z) : Z :=
  match x with
  | Some 0 | None => d
  | Some v => v
  end.

(* ===================================================================== *)
(** * The URL class *)
(* ===================================================================== *)

(** What the code asks of [URL]: the constructor (which throws, [None]),
    four getters and the one setter it uses, [parsed.hash = '']. *)
Class URLApi := {
  URL : Type;
  new_URL : string -> option string -> option URL;
  href : URL -> string;
  pathname : URL -> string;
  hostname : URL -> string;
  protocol : URL -> string;
  clearHash : URL -> URL
}.

Section LinkAnalyzer.
Context `{URLApi}.

Definition isInternalLink (baseUrl targetUrl : string) : bool :=
  match new_URL baseUrl None, new_URL targetUrl (Some baseUrl) with
  | Some base, Some target => String.eqb (hostname base) (hostname target)
  | _, _ => false
  end.

Definition normalizeUrl (url : string) (baseUrl : option string) : option string :=
  match new_URL url baseUrl with
  | None => None
  | Some parsed0 =>
      let parsed := clearHash parsed0 in
      let normalized := href parsed in
      Some (if endsWith normalized "/" && negb (String.eqb (pathname parsed) "/")
            then dropLast normalized
            else normalized)
  end.

(** ** url-validator.ts *)

Definition isDigit (c : ascii) : bool :=
  let n := nat_of_ascii c in (48 <=? n)%nat && (n <=? 57)%nat.

(** [/^172\.(1[6-9]|2\d|3[01])\./] *)
Definition isPrivate172 (hostname : string) : bool :=
  match hostname with
  | String "1" (String "7" (String "2" (String "."
      (String a (String b (String "." _)))))) =>
      (Ascii.eqb a "1" && (54 <=? nat_of_ascii b)%nat && (nat_of_ascii b <=? 57)%nat)
      || (Ascii.eqb a "2" && isDigit b)
      || (Ascii.eqb a "3" && (Ascii.eqb b "0" || Ascii.eqb b "1"))
  | _ => false
  end.

Definition isAllowedUrl (url : string) : bool :=
  match new_URL url None with
  | None => false
  | Some parsed =>
      if negb (String.eqb (protocol parsed) "http:" || String.eqb (protocol parsed) "https:")
      then false
      else
        let hostname := toLowerCase (hostname parsed) in
        if String.eqb hostname "localhost" || String.eqb hostname "127.0.0.1"
           || String.eqb hostname "::1" then false
        else if endsWith hostname ".localhost" then false
        else if startsWith hostname "10." then false
        else if startsWith hostname "192.168." then false
        else if isPrivate172 hostname then false
        else if startsWith hostname "169.254." then false
        else if String.eqb hostname "0.0.0.0" then false
        else true
  end.

Definition filterAllowedUrls (urls : list string) : list string :=
  List.filter isAllowedUrl urls.
End LinkAnalyzer.

(* ===================================================================== *)
(** * link-analyzer.ts: link extraction *)
(* ===================================================================== *)

Record LinkInfo := {
  li_sourceUrl : string;
  li_targetUrl : string;
  li_anchorText : string;
  li_rel : list string;
  li_isInternal : bool
}.

(** An element matched by [$('a[href]')]: its [href] and [rel] attributes
    and its text. *)
Record Anchor := {
  a_href : string;
  a_rel : option string;
  a_text : string
}.

(** The two cheerio queries the extractor runs on a body. *)
Class CheerioApi := {
  (** [cheerio.load(xml, { xmlMode: true })('loc')], the text of each *)
  select_loc : string -> list string;
  (** [cheerio.load(html)('a[href]')] *)
  select_anchors : string -> list Anchor
}.

Definition isSitemap (html : string) : bool :=
  let trimmed := toLowerCase (trim html) in
  startsWith trimmed "<?xml"
  || includes trimmed "<urlset"
  || includes trimmed "<sitemapindex".

Section Extraction.
Context `{URLApi} `{CheerioApi}.

(** The [.each] callback of [extractLinksFromSitemap], folded over the
    matched elements; [links] is in push order. *)
Fixpoint eachLoc (baseUrl : string) (texts : list string)
    (seenUrls : gset string) (links : list LinkInfo) : list LinkInfo :=
  match texts with
  | [] => links
  | text :: rest =>
      let url := trim text in
      if negb (truthy url) then eachLoc baseUrl rest seenUrls links
      else match normalizeUrl url None with
      | None => eachLoc baseUrl rest seenUrls links
      | Some normalizedUrl =>
          if negb (truthy normalizedUrl) then eachLoc baseUrl rest seenUrls links
          else if decide (normalizedUrl ∈ seenUrls) then eachLoc baseUrl rest seenUrls links
          else eachLoc baseUrl rest ({[ normalizedUrl ]} ∪ seenUrls)
                 (links ++ [ {| li_sourceUrl := baseUrl;
                                li_targetUrl := normalizedUrl;
                                li_anchorText := "";
                                li_rel := [];
                                li_isInternal := isInternalLink baseUrl normalizedUrl |} ])
      end
  end.

Definition extractLinksFromSitemap (xml baseUrl : string) : list LinkInfo :=
  eachLoc baseUrl (select_loc xml) ∅ [].

Definition skippedScheme (href : string) : bool :=
  startsWith href "javascript:" || startsWith href "mailto:"
  || startsWith href "tel:" || startsWith href "#".

(** The [.each] callback of the HTML branch of [extractLinks]. *)
Fixpoint eachAnchor (baseUrl : string) (elements : list Anchor)
    (seenUrls : gset string) (links : list LinkInfo) : list LinkInfo :=
  match elements with
  | [] => links
  | element :: rest =>
      let href := a_href element in
      if negb (truthy href) then eachAnchor baseUrl rest seenUrls links
      else if skippedScheme href then eachAnchor baseUrl rest seenUrls links
      else match normalizeUrl href (Some baseUrl) with
      | None => eachAnchor baseUrl rest seenUrls links
      | Some normalizedUrl =>
          if negb (truthy normalizedUrl) then eachAnchor baseUrl rest seenUrls links
          else if decide (normalizedUrl ∈ seenUrls) then eachAnchor baseUrl rest seenUrls links
          else
            let relAttr := default "" (a_rel element) in
            eachAnchor baseUrl rest ({[ normalizedUrl ]} ∪ seenUrls)
              (links ++ [ {| li_sourceUrl := baseUrl;
                             li_targetUrl := normalizedUrl;
                             li_anchorText := String.substring 0 200 (trim (a_text element));
                             li_rel := words relAttr;
                             li_isInternal := isInternalLink baseUrl normalizedUrl |} ])
      end
  end.

Definition extractLinksFromHtml (html baseUrl : string) : list LinkInfo :=
  eachAnchor baseUrl (select_anchors html) ∅ [].

Definition extractLinks (html baseUrl : string) : list LinkInfo :=
  if isSitemap html then extractLinksFromSitemap html baseUrl
  else extractLinksFromHtml html baseUrl.
End Extraction.

(* ===================================================================== *)
(** * The network, the clock and the response stream *)
(* ===================================================================== *)

(** What a [catch] clause receives: an [Error] object, of which the code
    reads [name] and [message], or any other value ([throw null]). *)
Inductive Thrown : Type :=
  | JsError (name message : string)
  | JsNonError.

Inductive Outcome (A : Type) : Type :=
  | Returned (a : A)
  | Threw (e : Thrown).
Arguments Returned {A} a.
Arguments Threw {A} e.

(** [error instanceof Error ? error.message : 'Unknown error'] *)
Definition messageOf (e : Thrown) : string :=
  match e with
  | JsError _ message => message
  | JsNonError => "Unknown error"
  end.

(** A [Response]: its status, its [location] header, and what [text()]
    gives.  The body is taken to arrive with the response: reading it is
    no wait of its own. *)
Record Response := {
  resp_status : Z;
  resp_location : option string;
  resp_text : Outcome string
}.

Inductive Method := GET | HEAD.

(** The options of one [fetch] call that come from the request. *)
Record FetchInit := {
  fi_timeoutMs : JNum;
  fi_headers : list (string * string)
}.

(** The handler's surroundings.  One [fetch] is one awaited call, abort by
    the timer included; the world moves on at every await, and
    [streamClosed] says that the client has closed the stream by then. *)
Class Platform := {
  World : Type;
  fetch : Method -> string -> FetchInit -> World -> Outcome Response * World;
  elapse : JNum -> World -> World;
  streamClosed : World -> bool
}.

Record RedirectStep := {
  rs_url : string;
  rs_status : Z
}.

Record LinkResult := {
  sourceUrl : string;
  targetUrl : string;
  status : Z;
  redirectChain : string;
  isInternalType : bool;   (* type: 'internal' | 'external' *)
  anchorText : string;
  rel : string;
  depth : Z;
  error : option string;
  retryCount : option Z
}.

(** The data of an emitted event. *)
Inductive Payload : Type :=
  | PLog (message type : string)
  | PProgress (done total : Z) (currentUrl : string)
  | PResult (r : LinkResult)
  | PDone (totalLinks visited : Z)
  | PError (message : string).

(** What the handler did, in order. *)
Inductive Event : Type :=
  | EvSleep (ms : JNum)
  | EvFetch (m : Method) (url : string) (answer : Outcome Response)
  | EvWrite (eventName : string) (data : Payload)
  | EvEnd.

Section Effects.
Context `{Platform}.

(** The world, what the handler did to it so far, and the flag that the
    listener for the stream's [close] event sets. *)
Record Env := {
  world : World;
  trace : list Event;
  isClosed : bool
}.

(** [let isClosed = false; res.on('close', () => { isClosed = true })] *)
Definition listen (env : Env) : Env :=
  {| world := world env; trace := trace env; isClosed := false |}.

(** Back from an await: the world has moved on to [w], and the listener
    has run if the stream is closed by now. *)
Definition resume (w : World) (done : Event) (env : Env) : Env :=
  {| world := w; trace := trace env ++ [done];
     isClosed := isClosed env || streamClosed w |}.

Definition sleep (ms : JNum) (env : Env) : Env :=
  resume (elapse ms (world env)) (EvSleep ms) env.

Definition doFetch (m : Method) (url : string) (init : FetchInit) (env : Env)
    : Outcome Response * Env :=
  let '(r, w) := fetch m url init (world env) in
  (r, resume w (EvFetch m url r) env).

(** [emit(eventName, data)] *)
Definition emit (eventName : string) (data : Payload) (env : Env) : Env :=
  if isClosed env then env
  else {| world := world env; trace := trace env ++ [EvWrite eventName data];
          isClosed := isClosed env |}.
End Effects.

(* ===================================================================== *)
(** * link-analyzer.ts: redirect chains *)
(* ===================================================================== *)

Record RedirectInfo := {
  ri_chain : list RedirectStep;
  ri_finalUrl : string;
  ri_finalStatus : Z;
  ri_error : option string
}.

Definition formatRedirectChain (chain : list RedirectStep) : string :=
  join " → " (map (fun step => pretty (rs_status step)) chain).

Section Redirects.
Context `{URLApi} `{Platform}.

Definition headInit (timeoutMs : Z) : FetchInit :=
  {| fi_timeoutMs := ofInt timeoutMs;
     fi_headers := [("User-Agent", "Mozilla/5.0 (compatible; HTMLScraper/1.0)")] |}.

Definition redirectErrorMsg (e : Thrown) : string :=
  match e with
  | JsError name message => if String.eqb name "AbortError" then "Timeout" else message
  | JsNonError => "Unknown error"
  end.

(** What [new URL] throws. *)
Definition invalidUrl : Thrown := JsError "TypeError" "Invalid URL".

(** The [while (redirectCount < maxRedirects)] loop, on the number of
    redirects still allowed. *)
Fixpoint redirectLoop (remaining : nat) (timeoutMs : Z) (chain : list RedirectStep)
    (currentUrl : string) (env : Env) : RedirectInfo * Env :=
  match remaining with
  | O => ({| ri_chain := chain; ri_finalUrl := currentUrl;
             ri_finalStatus := 0; ri_error := Some "Too many redirects" |}, env)
  | S remaining' =>
      let '(r, env1) := doFetch HEAD currentUrl (headInit timeoutMs) env in
      match r with
      | Threw e =>
          ({| ri_chain := chain; ri_finalUrl := currentUrl;
              ri_finalStatus := 0; ri_error := Some (redirectErrorMsg e) |}, env1)
      | Returned response =>
          let chain1 := chain ++ [ {| rs_url := currentUrl; rs_status := resp_status response |} ] in
          let terminal := ({| ri_chain := chain1; ri_finalUrl := currentUrl;
                              ri_finalStatus := resp_status response; ri_error := None |}, env1) in
          if (300 <=? resp_status response) && (resp_status response <? 400) then
            match resp_location response with
            | Some location =>
                if truthy location then
                  match new_URL location (Some currentUrl) with
                  | Some next => redirectLoop remaining' timeoutMs chain1 (href next) env1
                  | None =>
                      ({| ri_chain := chain1; ri_finalUrl := currentUrl;
                          ri_finalStatus := 0;
                          ri_error := Some (redirectErrorMsg invalidUrl) |}, env1)
                  end
                else terminal
            | None => terminal
            end
          else terminal
      end
  end.

Definition getRedirectChainWith (url : string) (maxRedirects : nat) (timeoutMs : Z)
    (env : Env) : RedirectInfo * Env :=
  redirectLoop maxRedirects timeoutMs [] url env.

(** [getRedirectChain(url)], with the default parameters. *)
Definition getRedirectChain (url : string) (env : Env) : RedirectInfo * Env :=
  getRedirectChainWith url 10 10000 env.
End Redirects.

(* ===================================================================== *)
(** * fetchWithRetry *)
(* ===================================================================== *)

Record RequestSettings := {
  timeout : JNum;
  retries : JNum;
  proxy : option string;
  headers : list (string * string)
}.

Section Retry.
Context `{Platform}.

Definition getInit (settings : RequestSettings) : FetchInit :=
  {| fi_timeoutMs := numMul (timeout settings) (ofInt 1000);
     fi_headers := ("User-Agent", "Mozilla/5.0 (compatible; HTMLScraper/1.0)")
                   :: headers settings |}.

Definition backoff (attempt : Z) : JNum := JFin (inject_Z (1000 * (attempt + 1))).

(** [error instanceof Error ? error : new Error('Unknown error')] *)
Definition asError (e : Thrown) : Thrown :=
  match e with
  | JsError _ _ => e
  | JsNonError => JsError "Error" "Unknown error"
  end.

(** The [for (attempt = 0; attempt <= retries; attempt++)] loop;
    [lastError] starts as [null].  [None] when [fuel] attempts do not
    finish it. *)
Fixpoint retryLoop (fuel : nat) (attempt : Z) (lastError : Thrown)
    (url : string) (settings : RequestSettings) (env : Env)
    : option (Outcome (Response * Z) * Env) :=
  if numLeb (ofInt attempt) (retries settings) then
    match fuel with
    | O => None
    | S fuel' =>
        let '(r, env1) := doFetch GET url (getInit settings) env in
        match r with
        | Returned response =>
            if (500 <=? resp_status response) && numLtb (ofInt attempt) (retries settings) then
              let lastError1 :=
                JsError "Error" ("Server error: " +:+ pretty (resp_status response)) in
              retryLoop fuel' (attempt + 1) lastError1 url settings
                (sleep (backoff attempt) env1)
            else Some (Returned (response, attempt), env1)
        | Threw e =>
            let lastError1 := asError e in
            if numLtb (ofInt attempt) (retries settings) then
              retryLoop fuel' (attempt + 1) lastError1 url settings
                (sleep (backoff attempt) env1)
            else retryLoop fuel' (attempt + 1) lastError1 url settings env1
        end
    end
  else Some (Threw lastError, env).

Definition fetchWithRetry (fuel : nat) (url : string) (settings : RequestSettings)
    (env : Env) : option (Outcome (Response * Z) * Env) :=
  retryLoop fuel 0 JsNonError url settings env.
End Retry.

(* ===================================================================== *)
(** * The crawl handlers *)
(* ===================================================================== *)

Class RegExpApi := {
  RegExp : Type;
  (** [new RegExp(source)], [None] when it throws *)
  new_RegExp : string -> option RegExp;
  test : RegExp -> string -> bool
}.

Record RawSettings := {
  raw_timeout : option JNum;
  raw_retries : option JNum;
  raw_proxy : option string;
  raw_headers : list (string * string)
}.

(** The body of a request.  A number that is missing reads [undefined];
    [maxDepth] is only ever compared, where [undefined] does what NaN
    does, so a missing [maxDepth] is [JNaN] here. *)
Record ScrapeLinksRequest := {
  urls : list string;
  recursive : bool;
  maxUrls : option JNum;
  maxDepth : JNum;
  rateLimit : option JNum;
  sameDomainOnly : bool;
  urlFilter : option string;
  pathInclude : option string;
  pathExclude : option string;
  settings : option RawSettings
}.

Record FrontierItem := {
  item_url : string;
  item_depth : Z;
  item_sourceUrl : option string
}.

(** [body.pathInclude ? body.pathInclude.split(',').map(p => p.trim()).filter(Boolean) : []] *)
Definition pathList (field : option string) : list string :=
  match field with
  | Some s => if truthy s then List.filter truthy (map trim (splitOn "," s EmptyString)) else []
  | None => []
  end.

Section Crawl.
Context `{URLApi} `{CheerioApi} `{RegExpApi} `{Platform}.

(** The locals of a handler that its loop reads. *)
Record CrawlConfig := {
  cfg_body : ScrapeLinksRequest;
  cfg_settings : RequestSettings;
  cfg_maxUrls : JNum;
  cfg_delayMs : JNum;
  cfg_urlFilterRegex : option RegExp;
  cfg_pathIncludes : list string;
  cfg_pathExcludes : list string;
  cfg_baseDomains : gset string
}.

Record CrawlState := {
  results : list LinkResult;
  visited : gset string;
  queue : list FrontierItem;
  env : Env
}.

Definition onEnv (f : Env -> Env) (st : CrawlState) : CrawlState :=
  {| results := results st; visited := visited st; queue := queue st; env := f (env st) |}.

Definition pushResult (r : LinkResult) (st : CrawlState) : CrawlState :=
  {| results := results st ++ [r]; visited := visited st; queue := queue st; env := env st |}.

(** [results.length < maxUrls] *)
Definition belowBudget (cfg : CrawlConfig) (st : CrawlState) : bool :=
  numLtb (ofNat (length (results st))) (cfg_maxUrls cfg).

(** [results.length >= maxUrls] *)
Definition atBudget (cfg : CrawlConfig) (st : CrawlState) : bool :=
  numLeb (cfg_maxUrls cfg) (ofNat (length (results st))).

(** [urlFilterRegex && !urlFilterRegex.test(url)] *)
Definition regexRejects (cfg : CrawlConfig) (url : string) : bool :=
  match cfg_urlFilterRegex cfg with
  | Some re => negb (test re url)
  | None => false
  end.

Definition underPath (path prefix : string) : bool :=
  let p := stripTrailingSlashes prefix in
  String.eqb path p || startsWith path (p +:+ "/").

Definition matchesPathFilter (cfg : CrawlConfig) (url : string) : bool :=
  match new_URL url None with
  | None => true
  | Some u =>
      let path := pathname u in
      if existsb (underPath path) (cfg_pathExcludes cfg) then false
      else if (0 <? length (cfg_pathIncludes cfg))%nat
           then existsb (underPath path) (cfg_pathIncludes cfg)
           else true
  end.

Definition linkResult (item : FrontierItem) (link : LinkInfo)
    (redirectInfo : RedirectInfo) (retryCount : Z) : LinkResult :=
  {| sourceUrl := item_url item;
     targetUrl := li_targetUrl link;
     status := ri_finalStatus redirectInfo;
     redirectChain := formatRedirectChain (ri_chain redirectInfo);
     isInternalType := li_isInternal link;
     anchorText := li_anchorText link;
     rel := join ", " (li_rel link);
     depth := item_depth item;
     error := ri_error redirectInfo;
     retryCount := Some retryCount |}.

Definition errorResult (item : FrontierItem) (e : Thrown) : LinkResult :=
  {| sourceUrl := match item_sourceUrl item with
                  | Some s => if truthy s then s else item_url item
                  | None => item_url item
                  end;
     targetUrl := item_url item;
     status := 0;
     redirectChain := "";
     isInternalType := true;
     anchorText := "";
     rel := "";
     depth := item_depth item;
     error := Some (messageOf e);
     retryCount := None |}.

Definition enqueue (url : string) (depth : Z) (st : CrawlState) : CrawlState :=
  {| results := results st;
     visited := {[ url ]} ∪ visited st;
     queue := queue st ++ [ {| item_url := url; item_depth := depth; item_sourceUrl := None |} ];
     env := env st |}.

(** The [for (const link of links)] loop of one page.  An exception in
    its body leaves to the page's [catch]. *)
Fixpoint linkLoop (cfg : CrawlConfig) (item : FrontierItem) (retryCount : Z)
    (links : list LinkInfo) (st : CrawlState) : Outcome unit * CrawlState :=
  match links with
  | [] => (Returned tt, st)
  | link :: rest =>
      if atBudget cfg st || isClosed (env st) then (Returned tt, st)
      else if regexRejects cfg (li_targetUrl link) then linkLoop cfg item retryCount rest st
      else if negb (matchesPathFilter cfg (li_targetUrl link))
           then linkLoop cfg item retryCount rest st
      else
        let '(redirectInfo, env1) := getRedirectChain (li_targetUrl link) (env st) in
        let result := linkResult item link redirectInfo retryCount in
        let st1 := onEnv (fun _ => emit "result" (PResult result) env1) (pushResult result st) in
        let pause := onEnv (sleep (numDiv (cfg_delayMs cfg) (JFin 2))) in
        if recursive (cfg_body cfg) && li_isInternal link
           && numLtb (ofInt (item_depth item)) (maxDepth (cfg_body cfg))
           && negb (bool_decide (li_targetUrl link ∈ visited st1))
        then
          match new_URL (li_targetUrl link) None with
          | None => (Threw invalidUrl, st1)
          | Some target =>
              let targetDomain := hostname target in
              if negb (sameDomainOnly (cfg_body cfg))
                 || bool_decide (targetDomain ∈ cfg_baseDomains cfg)
              then linkLoop cfg item retryCount rest
                     (pause (enqueue (li_targetUrl link) (item_depth item + 1) st1))
              else linkLoop cfg item retryCount rest (pause st1)
          end
        else linkLoop cfg item retryCount rest (pause st1)
  end.

(** The page's [catch] clause. *)
Definition catchPage (item : FrontierItem) (e : Thrown) (st : CrawlState) : CrawlState :=
  let r := errorResult item e in
  onEnv (fun env0 =>
           emit "log" (PLog ("Error fetching " +:+ item_url item +:+ ": " +:+ messageOf e) "error")
             (emit "result" (PResult r) env0))
        (pushResult r st).

(** What the page's [try] block does with what [fetchWithRetry] came to:
    the body and the links found in it. *)
Definition readPage (cfg : CrawlConfig) (item : FrontierItem)
    (fetched : Outcome (Response * Z)) (st2 : CrawlState)
    : Outcome (Z * list LinkInfo) * CrawlState :=
  match fetched with
  | Threw e => (Threw e, st2)
  | Returned (response, retryCount) =>
      match resp_text response with
      | Threw e => (Threw e, st2)
      | Returned html =>
          let links := extractLinks html (item_url item) in
          (Returned (retryCount, links),
           onEnv (emit "log"
                    (PLog ("Found " +:+ pretty (length links) +:+ " links on " +:+ item_url item)
                          "success")) st2)
      end
  end.

(** The page's [try] block up to its link loop: the rate-limit sleep, the
    fetch, then the body and the links.  [None] when the fetch does not
    come back within [fuel] attempts. *)
Definition fetchPage (fuel : nat) (cfg : CrawlConfig) (item : FrontierItem) (st : CrawlState)
    : option (Outcome (Z * list LinkInfo) * CrawlState) :=
  let st1 := if (0 <? length (results st))%nat then onEnv (sleep (cfg_delayMs cfg)) st else st in
  match fetchWithRetry fuel (item_url item) (cfg_settings cfg) (env st1) with
  | Some (fetched, env2) => Some (readPage cfg item fetched (onEnv (fun _ => env2) st1))
  | None => None
  end.

(** The page's [try] block. *)
Definition tryPage (fuel : nat) (cfg : CrawlConfig) (item : FrontierItem) (st : CrawlState)
    : option (Outcome unit * CrawlState) :=
  match fetchPage fuel cfg item st with
  | Some (Threw e, st2) => Some (Threw e, st2)
  | Some (Returned (retryCount, links), st3) => Some (linkLoop cfg item retryCount links st3)
  | None => None
  end.

(** The filters a dequeued URL has to pass to be fetched. *)
Definition passesFilters (cfg : CrawlConfig) (url : string) : bool :=
  negb (regexRejects cfg url) && matchesPathFilter cfg url.

(** [queue.shift()] *)
Definition dequeue (st : CrawlState) : CrawlState :=
  {| results := results st; visited := visited st; queue := tail (queue st); env := env st |}.

(** The [progress] event and the log line before a fetch. *)
Definition announce (item : FrontierItem) (st : CrawlState) : CrawlState :=
  onEnv (fun env0 =>
           emit "log" (PLog ("Fetching " +:+ item_url item +:+ " (depth: "
                             +:+ pretty (item_depth item) +:+ ")") "progress")
             (emit "progress"
                (PProgress (Z.of_nat (length (results st)))
                           (Z.of_nat (length (results st) + length (queue st) + 1))
                           (item_url item)) env0)) st.

(** One turn of the [while] loop, entered with a non-empty queue. *)
Definition crawlStep (fuel : nat) (cfg : CrawlConfig) (st : CrawlState) : option CrawlState :=
  match queue st with
  | [] => Some st
  | item :: _ =>
      if passesFilters cfg (item_url item) then
        match tryPage fuel cfg item (announce item (dequeue st)) with
        | Some (Returned _, st2) => Some st2
        | Some (Threw e, st2) => Some (catchPage item e st2)
        | None => None
        end
      else Some (dequeue st)
  end.

(** [queue.length > 0 && results.length < maxUrls && !isClosed] *)
Definition running (cfg : CrawlConfig) (st : CrawlState) : bool :=
  (0 <? length (queue st))%nat && belowBudget cfg st && negb (isClosed (env st)).

(** The [while] loop; [None] when [fuel] turns do not finish it, or when
    within a turn the fuel left does not finish the fetch. *)
Fixpoint crawlLoop (fuel : nat) (cfg : CrawlConfig) (st : CrawlState) : option CrawlState :=
  if running cfg st then
    match fuel with
    | O => None
    | S fuel' =>
        match crawlStep fuel' cfg st with
        | Some st1 => crawlLoop fuel' cfg st1
        | None => None
        end
    end
  else Some st.

(** The states the [while] loop goes through from a given one. *)
Inductive turns (cfg : CrawlConfig) : CrawlState -> CrawlState -> Prop :=
  | turns_here st : turns cfg st st
  | turns_next fuel st st1 st' :
      running cfg st = true -> crawlStep fuel cfg st = Some st1 -> turns cfg st1 st' ->
      turns cfg st st'.

(** The seed loop; [gate] is the check a handler applies to a seed. *)
Fixpoint seedLoop (gate : string -> bool) (seeds : list string)
    (visited : gset string) (queue : list FrontierItem)
    : gset string * list FrontierItem :=
  match seeds with
  | [] => (visited, queue)
  | url :: rest =>
      match normalizeUrl url None with
      | Some normalized =>
          if truthy normalized && negb (bool_decide (normalized ∈ visited)) && gate normalized
          then seedLoop gate rest ({[ normalized ]} ∪ visited)
                 (queue ++ [ {| item_url := normalized; item_depth := 0; item_sourceUrl := None |} ])
          else seedLoop gate rest visited queue
      | None => seedLoop gate rest visited queue
      end
  end.

(** [new Set(body.urls.map(url => hostname or null).filter(Boolean))] *)
Definition seedDomains (seeds : list string) : gset string :=
  list_to_set (List.filter truthy
    (omap (fun url => hostname <$> new_URL url None) seeds)).

(** The state the [while] loop starts in: the listener set, the seeds on
    the queue and the first log line written. *)
Definition startCrawl (gate : string -> bool) (cfg : CrawlConfig) (env0 : Env) : CrawlState :=
  let '(visited0, queue0) := seedLoop gate (urls (cfg_body cfg)) ∅ [] in
  {| results := []; visited := visited0; queue := queue0;
     env := emit "log" (PLog ("Starting crawl with " +:+ pretty (length queue0)
                              +:+ " seed URL(s)") "info") (listen env0) |}.

(** After the loop: the [done] event, the last log line, [res.end()]. *)
Definition finishCrawl (st : CrawlState) : CrawlState :=
  let env2 :=
    emit "log" (PLog ("Crawl complete: " +:+ pretty (length (results st)) +:+ " links found")
                     "success")
      (emit "done" (PDone (Z.of_nat (length (results st))) (Z.of_nat (size (visited st))))
         (env st)) in
  onEnv (fun _ => {| world := world env2; trace := trace env2 ++ [EvEnd];
                     isClosed := isClosed env2 |}) st.

Definition runCrawl (fuel : nat) (gate : string -> bool) (cfg : CrawlConfig) (env0 : Env)
    : option CrawlState :=
  finishCrawl <$> crawlLoop fuel cfg (startCrawl gate cfg env0).

(** ** scrape-links-stream.post.ts *)

Definition streamSettings (body : ScrapeLinksRequest) : RequestSettings :=
  {| timeout := clamp (ofInt 1) (ofInt 120)
                  (nullish (settings body ≫= raw_timeout) (ofInt 30));
     retries := clamp (ofInt 0) (ofInt 5)
                  (nullish (settings body ≫= raw_retries) (ofInt 1));
     proxy := settings body ≫= raw_proxy;
     headers := default [] (raw_headers <$> settings body) |}.

Definition streamMaxUrls (body : ScrapeLinksRequest) : JNum :=
  clamp (ofInt 1) (ofInt 10000) (numOr (maxUrls body) (ofInt 100)).

Definition streamRateLimit (body : ScrapeLinksRequest) : JNum :=
  Math_max (numOr (rateLimit body) (JFin 2)) (JFin (1 # 10)).

Definition streamDelayMs (body : ScrapeLinksRequest) : JNum :=
  numDiv (JFin 1000) (streamRateLimit body).

Definition streamUrlFilter (body : ScrapeLinksRequest) : option RegExp :=
  match urlFilter body with
  | Some f => if truthy f && (String.length f <=? 200)%nat then new_RegExp f else None
  | None => None
  end.

Definition streamConfig (body : ScrapeLinksRequest) : CrawlConfig :=
  {| cfg_body := body;
     cfg_settings := streamSettings body;
     cfg_maxUrls := streamMaxUrls body;
     cfg_delayMs := streamDelayMs body;
     cfg_urlFilterRegex := streamUrlFilter body;
     cfg_pathIncludes := pathList (pathInclude body);
     cfg_pathExcludes := pathList (pathExclude body);
     cfg_baseDomains := seedDomains (urls body) |}.

Definition scrapeLinksStream (fuel : nat) (body : ScrapeLinksRequest) (env0 : Env)
    : option CrawlState :=
  runCrawl fuel isAllowedUrl (streamConfig body) env0.

(** ** The older copy of the handler

    It reads [body.maxUrls] and [body.rateLimit] as they come, compiles
    any non-empty filter, has no path filters and enqueues every seed.
    Its loop only compares [body.maxUrls], where [undefined] does what
    NaN does. *)

Definition legacySettings (body : ScrapeLinksRequest) : RequestSettings :=
  {| timeout := nullish (settings body ≫= raw_timeout) (ofInt 30);
     retries := nullish (settings body ≫= raw_retries) (ofInt 1);
     proxy := settings body ≫= raw_proxy;
     headers := default [] (raw_headers <$> settings body) |}.

Definition legacyDelayMs (body : ScrapeLinksRequest) : JNum :=
  numDiv (JFin 1000) (default JNaN (rateLimit body)).

Definition legacyUrlFilter (body : ScrapeLinksRequest) : option RegExp :=
  match urlFilter body with
  | Some f => if truthy f then new_RegExp f else None
  | None => None
  end.

Definition legacyConfig (body : ScrapeLinksRequest) : CrawlConfig :=
  {| cfg_body := body;
     cfg_settings := legacySettings body;
     cfg_maxUrls := default JNaN (maxUrls body);
     cfg_delayMs := legacyDelayMs body;
     cfg_urlFilterRegex := legacyUrlFilter body;
     cfg_pathIncludes := [];
     cfg_pathExcludes := [];
     cfg_baseDomains := seedDomains (urls body) |}.

Definition scrapeLinksLegacy (fuel : nat) (body : ScrapeLinksRequest) (env0 : Env)
    : option CrawlState :=
  runCrawl fuel (fun _ => true) (legacyConfig body) env0.
End Crawl.

(* ===================================================================== *)
(** * More string operations *)
(* ===================================================================== *)

(** The line feed, ['\n']. *)
Definition LF : string := String (ascii_of_nat 10) EmptyString.

(** [s.replace(/[...]/g, by)] for a character class [bad]. *)
Fixpoint replaceChars (bad : ascii -> bool) (by_ : ascii) (s : string) : string :=
  match s with
  | EmptyString => EmptyString
  | String c s' => String (if bad c then by_ else c) (replaceChars bad by_ s')
  end.

(** [s.replace(c, by)] for one-character strings: the first [c] only. *)
Fixpoint replaceFirst (c by_ : ascii) (s : string) : string :=
  match s with
  | EmptyString => EmptyString
  | String x s' => if Ascii.eqb x c then String by_ s' else String x (replaceFirst c by_ s')
  end.

(** [s.replace(/_+/g, '_')] *)
Fixpoint collapseUnderscores (s : string) : string :=
  match s with
  | EmptyString => EmptyString
  | String c rest =>
      match rest with
      | String c' _ =>
          if Ascii.eqb c "_" && Ascii.eqb c' "_" then collapseUnderscores rest
          else String c (collapseUnderscores rest)
      | EmptyString => String c EmptyString
      end
  end.

(** [s.slice(0, n)] *)
Definition sliceTo (n : nat) (s : string) : string := String.substring 0 n s.

(** [s.split(sep)] for a regular expression [sep] that matches the
    non-empty runs of the characters in [isSep]; [acc] is the piece being
    read, reversed, and [inRun] says that the last character was a
    separator. *)
Fixpoint splitRuns (isSep : ascii -> bool) (s : string) (acc : string) (inRun : bool)
    : list string :=
  match s with
  | EmptyString => [String.rev acc]
  | String c s' =>
      if isSep c
      then if inRun then splitRuns isSep s' EmptyString true
           else String.rev acc :: splitRuns isSep s' EmptyString true
      else splitRuns isSep s' (String c acc) false
  end.

Definition isLetterOrDigit (c : ascii) : bool :=
  let n := nat_of_ascii c in
  ((97 <=? n)%nat && (n <=? 122)%nat) || ((65 <=? n)%nat && (n <=? 90)%nat)
  || ((48 <=? n)%nat && (n <=? 57)%nat).

(* ===================================================================== *)
(** * Handlers that answer once *)
(* ===================================================================== *)

(** What a handler gives back: a value, or the error of [createError]. *)
Inductive Reply (A : Type) : Type :=
  | Ok (a : A)
  | HttpError (statusCode : Z) (message : string).
Arguments Ok {A} a.
Arguments HttpError {A} statusCode message.

(* ===================================================================== *)
(** * path-guard.ts and the endpoint that opens a folder *)
(* ===================================================================== *)

Class PathApi := {
  (** [process.cwd()] *)
  cwd : string;
  (** [path.resolve(...segments)] *)
  path_resolve : list string -> string
}.

Section PathGuard.
Context `{PathApi}.

Definition OUTPUT_ROOT : string := path_resolve [cwd; "output"].

Definition assertWithinOutput (path : string) : Outcome string :=
  let resolved := path_resolve [path] in
  if negb (String.eqb resolved OUTPUT_ROOT) && negb (startsWith resolved (OUTPUT_ROOT +:+ "/"))
  then Threw (JsError "Error" "Path must be within output directory")
  else Returned resolved.

(** The endpoint that opens a path of the output folder, up to the call
    of [spawn]: the path it hands to [open], or the error it answers. *)
Definition openPathTarget (queryPath : option string) : Reply string :=
  match queryPath with
  | None => HttpError 400 "path parameter required"
  | Some inputPath =>
      if negb (truthy inputPath) then HttpError 400 "path parameter required"
      else
        let outputDir := path_resolve [cwd; "output"] in
        let resolvedPath := path_resolve [inputPath] in
        if negb (startsWith resolvedPath (outputDir +:+ "/"))
           && negb (String.eqb resolvedPath outputDir)
        then HttpError 403 "Access denied: path must be within output directory"
        else Ok resolvedPath
  end.
End PathGuard.

(* ===================================================================== *)
(** * save-results.post.ts: names of the files *)
(* ===================================================================== *)

(** [getTimestamp()], given what [new Date().toISOString()] reads. *)
Definition getTimestamp (iso : string) : string :=
  sliceTo 19
    (replaceFirst "T" "_"
       (replaceChars (fun c => Ascii.eqb c ":" || Ascii.eqb c ".") "-" iso)).

(** [[a-zA-Z0-9.-]] *)
Definition isFilenameChar (c : ascii) : bool :=
  isLetterOrDigit c || Ascii.eqb c "." || Ascii.eqb c "-".

Section SaveResults.
Context `{URLApi}.

Definition sanitizeFilename (url : string) : string :=
  match new_URL url None with
  | Some parsed =>
      let filename := hostname parsed +:+ pathname parsed in
      let filename := replaceChars (fun c => negb (isFilenameChar c)) "_" filename in
      let filename := collapseUnderscores filename in
      sliceTo 100 filename
  | None => "unknown"
  end.
End SaveResults.

(** [[...new Set(xs)]]: the first occurrence of each element, in order. *)
Fixpoint uniqueFrom (seen : gset string) (xs : list string) : list string :=
  match xs with
  | [] => []
  | x :: rest =>
      if decide (x ∈ seen) then uniqueFrom seen rest
      else x :: uniqueFrom ({[ x ]} ∪ seen) rest
  end.

(** [[...new Set(linkResults.map(r => r.targetUrl).filter(Boolean))]], on
    the [targetUrl] fields of the results, of which some may be missing. *)
Definition uniqueLinks (targets : list (option string)) : list string :=
  uniqueFrom ∅ (List.filter truthy (omap id targets)).

(* ===================================================================== *)
(** * scrape-html.post.ts *)
(* ===================================================================== *)

(** [xs.slice(i, j)] for [i <= j] *)
Definition slice {A} (i j : nat) (xs : list A) : list A := take (j - i) (drop i xs).

(** The loop over the allowed URLs: batches of [batchSize], the tasks of
    a batch started together ([Promise.all]) and their results appended
    in the order of the batch.  [task i url] is what the task for the URL
    at index [i] resolves to, [None] when it never settles; then neither
    does the [Promise.all] of its batch, and the loop does not go on.
    [None] also when [fuel] turns do not finish the loop. *)
Fixpoint batchLoop {R} (batchSize fuel i : nat) (task : nat -> string -> option R)
    (urls : list string) (results : list R) : option (list R) :=
  if (i <? length urls)%nat then
    match fuel with
    | O => None
    | S fuel' =>
        let batch := slice i (i + batchSize) urls in
        match mapM id (imap (fun k url => task (i + k)%nat url) batch) with
        | Some batchResults =>
            batchLoop batchSize fuel' (i + batchSize) task urls (results ++ batchResults)
        | None => None
        end
    end
  else Some results.

(** [timeout ?? 30], [retries ?? 1], as the handlers without clamping
    read their settings. *)
Definition plainSettings (raw : option RawSettings) : RequestSettings :=
  {| timeout := nullish (raw ≫= raw_timeout) (ofInt 30);
     retries := nullish (raw ≫= raw_retries) (ofInt 1);
     proxy := raw ≫= raw_proxy;
     headers := default [] (raw_headers <$> raw) |}.

(** A response as [scrape-html] reads it: with its [content-type]. *)
Record HtmlFetched := {
  hf_response : Response;
  hf_contentType : option string
}.

Record ScrapeHtmlRequest := {
  shr_urls : option (list string);
  shr_cssSelector : option string;
  shr_settings : option RawSettings
}.

Record ScrapeHtmlResult := {
  sh_url : string;
  sh_status : Z;
  sh_contentType : string;
  sh_size : nat;
  sh_html : string;
  sh_error : option string;
  sh_retryCount : option Z
}.

Class SelectorApi := {
  (** [cheerio.load(html)(selector)], each matched element as
      [$.html(el)]; a selector that does not parse throws *)
  select_outer : string -> string -> Outcome (list string)
}.

Section ScrapeHtml.
Context `{URLApi} `{SelectorApi}.

(** The [catch] clause of a task. *)
Definition htmlFailure (url : string) (e : Thrown) : ScrapeHtmlResult :=
  {| sh_url := url; sh_status := 0; sh_contentType := "error"; sh_size := 0;
     sh_html := ""; sh_error := Some (messageOf e); sh_retryCount := None |}.

(** What the selector leaves of a page. *)
Definition applySelector (cssSelector html : string) : Outcome string :=
  if truthy cssSelector then
    match select_outer html cssSelector with
    | Returned selected =>
        Returned (if (0 <? length selected)%nat then join LF selected
                  else "<!-- Kein Element gefunden für Selector: " +:+ cssSelector +:+ " -->"
                       +:+ LF +:+ html)
    | Threw e => Threw e
    end
  else Returned html.

(** The task of one URL, given what its [fetchWithRetry] came to. *)
Definition scrapeHtmlTask (cssSelector url : string) (fetched : Outcome (HtmlFetched * Z))
    : ScrapeHtmlResult :=
  match fetched with
  | Threw e => htmlFailure url e
  | Returned (page, retryCount) =>
      match resp_text (hf_response page) with
      | Threw e => htmlFailure url e
      | Returned body =>
          match applySelector cssSelector body with
          | Threw e => htmlFailure url e
          | Returned html =>
              {| sh_url := url;
                 sh_status := resp_status (hf_response page);
                 sh_contentType := match hf_contentType page with
                                   | Some t => if truthy t then t else "unknown"
                                   | None => "unknown"
                                   end;
                 sh_size := String.length html;
                 sh_html := html;
                 sh_error := None;
                 sh_retryCount := Some retryCount |}
          end
      end
  end.

(** The handler.  [fetched i url settings] is what [fetchWithRetry(url,
    settings)] comes to in the task for the URL at index [i], [None] when
    its loop never ends. *)
Definition scrapeHtml (fuel : nat) (body : ScrapeHtmlRequest)
    (fetched : nat -> string -> RequestSettings -> option (Outcome (HtmlFetched * Z)))
    : option (Reply (list ScrapeHtmlResult)) :=
  match shr_urls body with
  | None => Some (HttpError 400 "urls array required")
  | Some urls0 =>
      let urls := filterAllowedUrls urls0 in
      let settings := plainSettings (shr_settings body) in
      let cssSelector := match shr_cssSelector body with
                         | Some s => trim s
                         | None => ""
                         end in
      Ok <$> batchLoop 5 fuel 0
               (fun i url => scrapeHtmlTask cssSelector url <$> fetched i url settings)
               urls []
  end.
End ScrapeHtml.

(* ===================================================================== *)
(** * seo-audit.post.ts: the audit of one page *)
(* ===================================================================== *)

Record HeadingInfo := {
  hd_tag : string;
  hd_text : string;
  hd_count : Z
}.

(** The [LinkInfo] of this file: a link whose check failed. *)
Record BrokenLink := {
  bl_href : string;
  bl_text : string;
  bl_status : Z;
  bl_isInternal : bool;
  bl_isBroken : bool
}.

(** [{ text, length, isGood }] *)
Record TextCheck := {
  tc_text : string;
  tc_length : nat;
  tc_isGood : bool
}.

Record SeoAuditResult := {
  sa_url : string;
  sa_status : Z;
  sa_loadTime : Z;
  sa_size : nat;
  sa_title : TextCheck;
  sa_description : TextCheck;
  sa_canonical : option string;
  sa_robots : option string;
  sa_headings : list HeadingInfo;
  sa_h1Count : Z;
  sa_hasMultipleH1 : bool;
  sa_imagesWithoutAlt : Z;
  sa_totalImages : nat;
  sa_internalLinks : Z;
  sa_externalLinks : Z;
  sa_brokenLinks : list BrokenLink;
  sa_hasViewport : bool;
  sa_hasCharset : bool;
  sa_hasFavicon : bool;
  sa_hasJsonLd : bool;
  sa_hasOpenGraph : bool;
  sa_hasTwitterCard : bool;
  sa_score : Z;
  sa_issues : list string;
  sa_error : option string
}.

(** The selectors of the audit that are read by attribute or counted. *)
Inductive Selected : Type :=
  | MetaDescription    (* meta[name="description"] *)
  | LinkCanonical      (* link[rel="canonical"] *)
  | MetaRobots         (* meta[name="robots"] *)
  | MetaViewport       (* meta[name="viewport"] *)
  | MetaCharset        (* meta[charset] *)
  | MetaContentType    (* meta[http-equiv="Content-Type"] *)
  | LinkIcon           (* link[rel="icon"], link[rel="shortcut icon"] *)
  | ScriptJsonLd       (* script[type="application/ld+json"] *)
  | MetaOpenGraph      (* meta[property^="og:"] *)
  | MetaTwitter.       (* meta[name^="twitter:"] *)

(** The cheerio queries of the audit, on a loaded page. *)
Class AuditCheerio := {
  (** [$('title').first().text()] *)
  q_title : string -> string;
  (** [$(selector).attr(name)] *)
  q_attr : string -> Selected -> string -> option string;
  (** [$(selector).length] *)
  q_count : string -> Selected -> nat;
  (** [$('h1, h2, h3, h4, h5, h6')]: [tagName] and [text()] of each *)
  q_headings : string -> list (string * string);
  (** [$('img')]: the [alt] attribute of each *)
  q_imageAlts : string -> list (option string);
  (** [$('a[href]')]: the [href] attribute and [text()] of each *)
  q_anchors : string -> list (option string * string)
}.

(** [Date.now()] *)
Class ClockApi `{Platform} := {
  Date_now : World -> Z
}.

(** The issues found so far and the score left. *)
Definition Audit : Type := list string * Z.

(** [issues.push(issue); score -= penalty] *)
Definition report (issue : string) (penalty : Z) (a : Audit) : Audit :=
  (a.1 ++ [issue], a.2 - penalty).

(** [x || null] and [x || d] on an attribute that may be missing. *)
Definition orNull (x : option string) : option string :=
  match x with
  | Some s => if truthy s then Some s else None
  | None => None
  end.

Definition strOr (x : option string) (d : string) : string :=
  match x with
  | Some s => if truthy s then s else d
  | None => d
  end.

Definition auditTitle (titleText : string) (a : Audit) : Audit :=
  let titleLength := String.length titleText in
  if negb (truthy titleText) then report "Kein Title-Tag gefunden" 15 a
  else if (titleLength <? 30)%nat then report "Title zu kurz (< 30 Zeichen)" 5 a
  else if (60 <? titleLength)%nat then report "Title zu lang (> 60 Zeichen)" 5 a
  else a.

Definition auditDescription (descText : string) (a : Audit) : Audit :=
  let descLength := String.length descText in
  if negb (truthy descText) then report "Keine Meta-Description gefunden" 10 a
  else if (descLength <? 120)%nat then report "Meta-Description zu kurz (< 120 Zeichen)" 3 a
  else if (160 <? descLength)%nat then report "Meta-Description zu lang (> 160 Zeichen)" 3 a
  else a.

(** The [.each] callback over the headings; [headingCounts] maps a tag to
    the number of its headings met so far (the selector gives the tags
    [h1] to [h6] only). *)
Fixpoint eachHeading (elements : list (string * string)) (headingCounts : gmap string Z)
    (headings : list HeadingInfo) : gmap string Z * list HeadingInfo :=
  match elements with
  | [] => (headingCounts, headings)
  | (tagName, text) :: rest =>
      let tag := toLowerCase tagName in
      let text := String.substring 0 100 (trim text) in
      let n := intOr (headingCounts !! tag) 0 + 1 in
      eachHeading rest (<[ tag := n ]> headingCounts)
        (headings ++ [ {| hd_tag := tag; hd_text := text; hd_count := n |} ])
  end.

Definition auditH1 (h1Count : Z) (a : Audit) : Audit :=
  if h1Count =? 0 then report "Kein H1-Tag gefunden" 10 a
  else if 1 <? h1Count
       then report ("Mehrere H1-Tags gefunden (" +:+ pretty h1Count +:+ ")") 5 a
       else a.

(** The number of images whose [alt] is missing or empty. *)
Definition countWithoutAlt (alts : list (option string)) : Z :=
  Z.of_nat (length (List.filter (fun alt => negb (truthy (default "" alt))) alts)).

Definition auditImages (imagesWithoutAlt : Z) (a : Audit) : Audit :=
  if 0 <? imagesWithoutAlt
  then report (pretty imagesWithoutAlt +:+ " Bilder ohne Alt-Text")
              (Z.min (imagesWithoutAlt * 2) 10) a
  else a.

(** [!href || href.startsWith('#') || href.startsWith('javascript:')] *)
Definition skippedHref (href : option string) : bool :=
  match href with
  | Some h => negb (truthy h) || startsWith h "#" || startsWith h "javascript:"
  | None => true
  end.

Section SeoAudit.
Context `{URLApi} `{AuditCheerio} `{ClockApi}.

(** The [.each] callback that counts the links of the page. *)
Fixpoint eachLink (url : string) (baseUrl : URL) (elements : list (option string * string))
    (internalLinks externalLinks : Z) : Z * Z :=
  match elements with
  | [] => (internalLinks, externalLinks)
  | (hrefAttr, _) :: rest =>
      if skippedHref hrefAttr then eachLink url baseUrl rest internalLinks externalLinks
      else match new_URL (default "" hrefAttr) (Some url) with
      | Some linkUrl =>
          if String.eqb (hostname linkUrl) (hostname baseUrl)
          then eachLink url baseUrl rest (internalLinks + 1) externalLinks
          else eachLink url baseUrl rest internalLinks (externalLinks + 1)
      | None => eachLink url baseUrl rest internalLinks externalLinks
      end
  end.

Definition checkLinkStatus (url : string) (env : Env) : Z * Env :=
  let '(r, env1) := doFetch HEAD url {| fi_timeoutMs := ofInt 5000; fi_headers := [] |} env in
  (match r with Returned response => resp_status response | Threw _ => 0 end, env1).

(** The loop over the links to check. *)
Fixpoint checkEach (url : string) (baseUrl : URL) (linksToCheck : list (option string * string))
    (brokenLinks : list BrokenLink) (env : Env) : list BrokenLink * Env :=
  match linksToCheck with
  | [] => (brokenLinks, env)
  | (hrefAttr, text) :: rest =>
      let text := String.substring 0 50 (trim text) in
      if skippedHref hrefAttr then checkEach url baseUrl rest brokenLinks env
      else match new_URL (default "" hrefAttr) (Some url) with
      | Some linkUrl =>
          let '(status, env1) := checkLinkStatus (href linkUrl) env in
          if (400 <=? status) || (status =? 0)
          then checkEach url baseUrl rest
                 (brokenLinks ++ [ {| bl_href := href linkUrl; bl_text := text;
                                      bl_status := status;
                                      bl_isInternal := String.eqb (hostname linkUrl)
                                                                  (hostname baseUrl);
                                      bl_isBroken := true |} ]) env1
          else checkEach url baseUrl rest brokenLinks env1
      | None => checkEach url baseUrl rest brokenLinks env
      end
  end.

Definition auditBroken (brokenLinks : list BrokenLink) (a : Audit) : Audit :=
  if (0 <? length brokenLinks)%nat
  then report (pretty (length brokenLinks) +:+ " fehlerhafte Links gefunden")
              (Z.min (Z.of_nat (length brokenLinks) * 3) 15) a
  else a.

(** The [for] loop of this file's [fetchWithRetry], which also times the
    request.  [None] when [fuel] attempts do not finish it. *)
Fixpoint auditRetryLoop (fuel : nat) (attempt : Z) (lastError : Thrown)
    (url : string) (settings : RequestSettings) (env : Env)
    : option (Outcome (Response * Z) * Env) :=
  if numLeb (ofInt attempt) (retries settings) then
    match fuel with
    | O => None
    | S fuel' =>
        let startTime := Date_now (world env) in
        let '(r, env1) := doFetch GET url (getInit settings) env in
        match r with
        | Returned response =>
            let loadTime := Date_now (world env1) - startTime in
            if (500 <=? resp_status response) && numLtb (ofInt attempt) (retries settings) then
              let lastError1 :=
                JsError "Error" ("Server error: " +:+ pretty (resp_status response)) in
              auditRetryLoop fuel' (attempt + 1) lastError1 url settings
                (sleep (backoff attempt) env1)
            else Some (Returned (response, loadTime), env1)
        | Threw e =>
            let lastError1 := asError e in
            if numLtb (ofInt attempt) (retries settings) then
              auditRetryLoop fuel' (attempt + 1) lastError1 url settings
                (sleep (backoff attempt) env1)
            else auditRetryLoop fuel' (attempt + 1) lastError1 url settings env1
        end
    end
  else Some (Threw lastError, env).

Definition auditFetchWithRetry (fuel : nat) (url : string) (settings : RequestSettings)
    (env : Env) : option (Outcome (Response * Z) * Env) :=
  auditRetryLoop fuel 0 JsNonError url settings env.

(** The [catch] clause of [auditUrl]. *)
Definition auditFailure (url : string) (e : Thrown) : SeoAuditResult :=
  {| sa_url := url; sa_status := 0; sa_loadTime := 0; sa_size := 0;
     sa_title := {| tc_text := ""; tc_length := 0; tc_isGood := false |};
     sa_description := {| tc_text := ""; tc_length := 0; tc_isGood := false |};
     sa_canonical := None; sa_robots := None;
     sa_headings := []; sa_h1Count := 0; sa_hasMultipleH1 := false;
     sa_imagesWithoutAlt := 0; sa_totalImages := 0;
     sa_internalLinks := 0; sa_externalLinks := 0; sa_brokenLinks := [];
     sa_hasViewport := false; sa_hasCharset := false; sa_hasFavicon := false;
     sa_hasJsonLd := false; sa_hasOpenGraph := false; sa_hasTwitterCard := false;
     sa_score := 0; sa_issues := []; sa_error := Some (messageOf e) |}.

(** The [try] block of [auditUrl] from the loaded page on. *)
Definition auditPage (url : string) (checkLinks : bool) (response : Response) (loadTime : Z)
    (html : string) (env : Env) : Outcome SeoAuditResult * Env :=
  let a : Audit := ([], 100) in
  let titleText := trim (q_title html) in
  let titleLength := String.length titleText in
  let titleIsGood := (30 <=? titleLength)%nat && (titleLength <=? 60)%nat in
  let a := auditTitle titleText a in
  let descText := strOr (trim <$> q_attr html MetaDescription "content") "" in
  let descLength := String.length descText in
  let descIsGood := (120 <=? descLength)%nat && (descLength <=? 160)%nat in
  let a := auditDescription descText a in
  let canonical := orNull (q_attr html LinkCanonical "href") in
  let a := match canonical with
           | Some _ => a
           | None => report "Kein Canonical-Tag gefunden" 5 a
           end in
  let robots := orNull (q_attr html MetaRobots "content") in
  let '(headingCounts, headings) := eachHeading (q_headings html) ∅ [] in
  let h1Count := intOr (headingCounts !! "h1") 0 in
  let a := auditH1 h1Count a in
  let totalImages := length (q_imageAlts html) in
  let imagesWithoutAlt := countWithoutAlt (q_imageAlts html) in
  let a := auditImages imagesWithoutAlt a in
  match new_URL url None with
  | None => (Threw invalidUrl, env)
  | Some baseUrl =>
      let '(internalLinks, externalLinks) := eachLink url baseUrl (q_anchors html) 0 0 in
      let '(brokenLinks, a, env1) :=
        if checkLinks then
          let '(brokenLinks, env1) :=
            checkEach url baseUrl (take 20 (q_anchors html)) [] env in
          (brokenLinks, auditBroken brokenLinks a, env1)
        else ([], a, env) in
      let hasViewport := (0 <? q_count html MetaViewport)%nat in
      let hasCharset := (0 <? q_count html MetaCharset)%nat
                        || (0 <? q_count html MetaContentType)%nat in
      let hasFavicon := (0 <? q_count html LinkIcon)%nat in
      let a := if hasViewport then a else report "Kein Viewport-Meta-Tag" 5 a in
      let hasJsonLd := (0 <? q_count html ScriptJsonLd)%nat in
      let hasOpenGraph := (0 <? q_count html MetaOpenGraph)%nat in
      let hasTwitterCard := (0 <? q_count html MetaTwitter)%nat in
      let a := if hasJsonLd then a else report "Kein JSON-LD Schema gefunden" 3 a in
      let a := if hasOpenGraph then a else report "Keine Open Graph Tags" 3 a in
      let score := Z.max 0 (Z.min 100 a.2) in
      (Returned
         {| sa_url := url; sa_status := resp_status response; sa_loadTime := loadTime;
            sa_size := String.length html;
            sa_title := {| tc_text := titleText; tc_length := titleLength;
                           tc_isGood := titleIsGood |};
            sa_description := {| tc_text := descText; tc_length := descLength;
                                 tc_isGood := descIsGood |};
            sa_canonical := canonical; sa_robots := robots;
            sa_headings := headings; sa_h1Count := h1Count;
            sa_hasMultipleH1 := 1 <? h1Count;
            sa_imagesWithoutAlt := imagesWithoutAlt; sa_totalImages := totalImages;
            sa_internalLinks := internalLinks; sa_externalLinks := externalLinks;
            sa_brokenLinks := brokenLinks;
            sa_hasViewport := hasViewport; sa_hasCharset := hasCharset;
            sa_hasFavicon := hasFavicon; sa_hasJsonLd := hasJsonLd;
            sa_hasOpenGraph := hasOpenGraph; sa_hasTwitterCard := hasTwitterCard;
            sa_score := score; sa_issues := a.1; sa_error := None |}, env1)
  end.

(** What [auditUrl] does with what [fetchWithRetry] came to. *)
Definition auditFetched (url : string) (checkLinks : bool)
    (fetched : Outcome (Response * Z)) (env1 : Env) : SeoAuditResult * Env :=
  match fetched with
  | Threw e => (auditFailure url e, env1)
  | Returned (response, loadTime) =>
      match resp_text response with
      | Threw e => (auditFailure url e, env1)
      | Returned html =>
          match auditPage url checkLinks response loadTime html env1 with
          | (Returned result, env2) => (result, env2)
          | (Threw e, env2) => (auditFailure url e, env2)
          end
      end
  end.

(** [None] when the fetch does not come back within [fuel] attempts. *)
Definition auditUrl (fuel : nat) (url : string) (checkLinks : bool)
    (settings : RequestSettings) (env : Env) : option (SeoAuditResult * Env) :=
  match auditFetchWithRetry fuel url settings env with
  | Some (fetched, env1) => Some (auditFetched url checkLinks fetched env1)
  | None => None
  end.
End SeoAudit.

(* ===================================================================== *)
(** * scrape-json.post.ts: structured data of a page *)
(* ===================================================================== *)

(** [JSON.parse], and [Array.isArray] with the elements of an array. *)
Class JsonApi := {
  Json : Type;
  JSON_parse : string -> Outcome Json;
  asArray : Json -> option (list Json)
}.

(** The cheerio queries of this handler that give several elements. *)
Class MetaCheerio := {
  (** [$('script[type="application/ld+json"]')]: [$(el).html()] of each *)
  q_jsonLdScripts : string -> list (option string);
  (** [$('meta[property^="og:"]')]: [property] and [content] of each *)
  q_ogMetas : string -> list (option string * option string);
  (** [$('meta[name^="twitter:"]')]: [name] and [content] of each *)
  q_twitterMetas : string -> list (option string * option string)
}.

(** [s.slice(n)] *)
Fixpoint sliceFrom (n : nat) (s : string) : string :=
  match n, s with
  | O, _ => s
  | S n', String _ s' => sliceFrom n' s'
  | S _, EmptyString => EmptyString
  end.

(** [s.replace(needle, '')] for a non-empty string [needle]: its first
    occurrence is taken out. *)
Fixpoint removeFirst (needle s : string) : string :=
  if String.prefix needle s then sliceFrom (String.length needle) s
  else match s with
       | EmptyString => EmptyString
       | String c s' => String c (removeFirst needle s')
       end.

(** [obj[key] = value] for a string [value] on an object made by [{}]:
    the key [__proto__] is the accessor of the prototype, which ignores a
    string; every other key becomes or stays an own property. *)
Definition setProperty (key value : string) (obj : gmap string string) : gmap string string :=
  if String.eqb key "__proto__" then obj else <[ key := value ]> obj.

(** [{ title, description, canonical, robots }] *)
Record PageMeta := {
  pm_title : option string;
  pm_description : option string;
  pm_canonical : option string;
  pm_robots : option string
}.

Record ScrapeJsonRequest := {
  sjr_urls : option (list string);
  sjr_settings : option RawSettings
}.

Section ScrapeJson.
Context `{URLApi} `{JsonApi} `{MetaCheerio} `{AuditCheerio}.

Record ScrapeJsonResult := {
  sj_url : string;
  sj_status : Z;
  sj_jsonLd : list Json;
  sj_openGraph : gmap string string;
  sj_twitterCard : gmap string string;
  sj_meta : PageMeta;
  sj_error : option string
}.

(** The [.each] callback over the JSON-LD scripts. *)
Fixpoint eachJsonLd (scripts : list (option string)) (jsonLd : list Json) : list Json :=
  match scripts with
  | [] => jsonLd
  | content :: rest =>
      match content with
      | Some c =>
          if truthy c then
            match JSON_parse c with
            | Returned parsed =>
                match asArray parsed with
                | Some items => eachJsonLd rest (jsonLd ++ items)
                | None => eachJsonLd rest (jsonLd ++ [parsed])
                end
            | Threw _ => eachJsonLd rest jsonLd
            end
          else eachJsonLd rest jsonLd
      | None => eachJsonLd rest jsonLd
      end
  end.

(** The [.each] callback over the Open Graph tags, and over the Twitter
    tags: the same text up to the names, with [prefix] for [og:] and
    [twitter:]. *)
Fixpoint eachMeta (prefix : string) (elements : list (option string * option string))
    (obj : gmap string string) : gmap string string :=
  match elements with
  | [] => obj
  | (attr, content) :: rest =>
      let property := removeFirst prefix <$> attr in
      match property, content with
      | Some p, Some c =>
          if truthy p && truthy c then eachMeta prefix rest (setProperty p c obj)
          else eachMeta prefix rest obj
      | _, _ => eachMeta prefix rest obj
      end
  end.

(** The [catch] clause of a task. *)
Definition jsonFailure (url : string) (e : Thrown) : ScrapeJsonResult :=
  {| sj_url := url; sj_status := 0; sj_jsonLd := []; sj_openGraph := ∅;
     sj_twitterCard := ∅;
     sj_meta := {| pm_title := None; pm_description := None; pm_canonical := None;
                   pm_robots := None |};
     sj_error := Some (messageOf e) |}.

(** The task of one URL, given what its [fetchWithRetry] came to. *)
Definition scrapeJsonTask (url : string) (fetched : Outcome Response) : ScrapeJsonResult :=
  match fetched with
  | Threw e => jsonFailure url e
  | Returned response =>
      match resp_text response with
      | Threw e => jsonFailure url e
      | Returned html =>
          {| sj_url := url;
             sj_status := resp_status response;
             sj_jsonLd := eachJsonLd (q_jsonLdScripts html) [];
             sj_openGraph := eachMeta "og:" (q_ogMetas html) ∅;
             sj_twitterCard := eachMeta "twitter:" (q_twitterMetas html) ∅;
             sj_meta := {| pm_title := orNull (Some (q_title html));
                           pm_description := orNull (q_attr html MetaDescription "content");
                           pm_canonical := orNull (q_attr html LinkCanonical "href");
                           pm_robots := orNull (q_attr html MetaRobots "content") |};
             sj_error := None |}
      end
  end.

(** [timeout ?? 30], [retries ?? 1] and the headers; this handler reads no
    proxy. *)
Definition jsonSettings (raw : option RawSettings) : RequestSettings :=
  {| timeout := nullish (raw ≫= raw_timeout) (ofInt 30);
     retries := nullish (raw ≫= raw_retries) (ofInt 1);
     proxy := None;
     headers := default [] (raw_headers <$> raw) |}.

(** The handler.  [fetched i url settings] is what [fetchWithRetry(url,
    settings)] comes to in the task for the URL at index [i], [None] when
    its loop never ends. *)
Definition scrapeJson (fuel : nat) (body : ScrapeJsonRequest)
    (fetched : nat -> string -> RequestSettings -> option (Outcome Response))
    : option (Reply (list ScrapeJsonResult)) :=
  match sjr_urls body with
  | None => Some (HttpError 400 "urls array required")
  | Some urls0 =>
      let urls := filterAllowedUrls urls0 in
      let settings := jsonSettings (sjr_settings body) in
      Ok <$> batchLoop 5 fuel 0
               (fun i url => scrapeJsonTask url <$> fetched i url settings) urls []
  end.
End ScrapeJson.

(* ===================================================================== *)
(** * The image scraper: the images of a page *)
(* ===================================================================== *)

(** An [img] element, by the attributes the handler reads. *)
Record ImgElement := {
  img_src : option string;
  img_dataSrc : option string;
  img_lazySrc : option string;
  img_width : option string;
  img_height : option string;
  img_alt : option string
}.

Record ImageResult := {
  im_src : string;
  im_alt : string;
  im_width : option Z;
  im_height : option Z
}.

Class ImageCheerio := {
  (** [$('img')] *)
  q_imgs : string -> list ImgElement;
  (** the elements whose [style] mentions [background]: the [style]
      attribute of each *)
  q_styled : string -> list (option string);
  (** [$('source[srcset], img[srcset]')]: the [srcset] attribute of each *)
  q_srcsets : string -> list (option string)
}.

Class ImagePlatform := {
  (** [path.extname] *)
  extname : string -> string;
  (** [parseInt(s, 10)]; [None] is NaN *)
  parseInt : string -> option Z;
  (** the first group of the match of a style against the pattern for
      [url(...)], if it matches *)
  styleUrl : string -> option string
}.

(** [x || y] on attributes that may be missing. *)
Definition orElse (x y : option string) : option string :=
  match orNull x with
  | Some s => Some s
  | None => y
  end.

(** [n || undefined] on what [parseInt] gives. *)
Definition nonZero (n : option Z) : option Z :=
  match n with
  | Some 0 | None => None
  | Some v => Some v
  end.

(** [min > 0 && n > 0 && n < min] *)
Definition tooSmall (min : Z) (n : option Z) : bool :=
  match n with
  | Some v => (0 <? min) && (0 <? v) && (v <? min)
  | None => false
  end.

(** [srcset.split(',').map(s => s.trim().split(/\s+/)[0])] *)
Definition srcsetSources (srcset : string) : list string :=
  map (fun s => default "" (head (splitRuns isSpace (trim s) EmptyString false)))
      (splitOn "," srcset EmptyString).

Section ImageScraper.
Context `{URLApi} `{ImageCheerio} `{ImagePlatform}.

Definition resolveUrl (base relative : string) : string :=
  match new_URL relative (Some base) with
  | Some u => href u
  | None => relative
  end.

Definition isValidImageFormat (imageUrl : string) (formats : option (list string)) : bool :=
  match formats with
  | None | Some [] => true
  | Some fs =>
      let ext := removeFirst "." (toLowerCase (extname imageUrl)) in
      let cleanExt := default "" (head (splitOn "?" ext EmptyString)) in
      existsb (fun f => String.eqb (toLowerCase f) cleanExt) fs
  end.

(** The set [seenUrls] and the array [images], in push order. *)
Definition Found : Type := gset string * list ImageResult.

(** The [.each] callback over the [img] elements. *)
Fixpoint eachImg (url : string) (formats : option (list string)) (minWidth minHeight : Z)
    (elements : list ImgElement) (found : Found) : Found :=
  match elements with
  | [] => found
  | el :: rest =>
      let '(seenUrls, images) := found in
      match orNull (orElse (img_src el) (orElse (img_dataSrc el) (img_lazySrc el))) with
      | None => eachImg url formats minWidth minHeight rest found
      | Some src =>
          let src := resolveUrl url src in
          if startsWith src "data:" || bool_decide (src ∈ seenUrls)
          then eachImg url formats minWidth minHeight rest found
          else
            let seenUrls := {[ src ]} ∪ seenUrls in
            if negb (isValidImageFormat src formats)
            then eachImg url formats minWidth minHeight rest (seenUrls, images)
            else
              let width := parseInt (strOr (img_width el) "0") in
              let height := parseInt (strOr (img_height el) "0") in
              if tooSmall minWidth width
              then eachImg url formats minWidth minHeight rest (seenUrls, images)
              else if tooSmall minHeight height
              then eachImg url formats minWidth minHeight rest (seenUrls, images)
              else eachImg url formats minWidth minHeight rest
                     (seenUrls,
                      images ++ [ {| im_src := src; im_alt := strOr (img_alt el) "";
                                     im_width := nonZero width;
                                     im_height := nonZero height |} ])
      end
  end.

(** What the other two callbacks do with a source they found: the same
    text in both. *)
Definition pushPlain (url : string) (formats : option (list string)) (src : string)
    (found : Found) : Found :=
  let '(seenUrls, images) := found in
  let src := resolveUrl url src in
  if negb (startsWith src "data:") && negb (bool_decide (src ∈ seenUrls)) then
    if isValidImageFormat src formats
    then ({[ src ]} ∪ seenUrls,
          images ++ [ {| im_src := src; im_alt := ""; im_width := None; im_height := None |} ])
    else found
  else found.

(** The [.each] callback over the elements with a background. *)
Fixpoint eachStyled (url : string) (formats : option (list string))
    (elements : list (option string)) (found : Found) : Found :=
  match elements with
  | [] => found
  | style :: rest =>
      match styleUrl (strOr style "") with
      | Some m =>
          if truthy m then eachStyled url formats rest (pushPlain url formats m found)
          else eachStyled url formats rest found
      | None => eachStyled url formats rest found
      end
  end.

(** The [for (const src of sources)] loop of the third callback. *)
Fixpoint eachSource (url : string) (formats : option (list string))
    (sources : list string) (found : Found) : Found :=
  match sources with
  | [] => found
  | src :: rest =>
      if negb (truthy src) then eachSource url formats rest found
      else eachSource url formats rest (pushPlain url formats src found)
  end.

(** The [.each] callback over the elements with a [srcset]. *)
Fixpoint eachSrcset (url : string) (formats : option (list string))
    (elements : list (option string)) (found : Found) : Found :=
  match elements with
  | [] => found
  | srcset :: rest =>
      eachSrcset url formats rest
        (eachSource url formats (srcsetSources (strOr srcset "")) found)
  end.

(** The images the handler finds on a loaded page: [images] after the
    three passes. *)
Definition collectImages (url : string) (formats : option (list string))
    (minWidth minHeight : Z) (html : string) : list ImageResult :=
  let found := eachImg url formats minWidth minHeight (q_imgs html) (∅, []) in
  let found := eachStyled url formats (q_styled html) found in
  let found := eachSrcset url formats (q_srcsets html) found in
  found.2.
End ImageScraper.

(* ===================================================================== *)
(** * The user interface: the page and the results table *)
(* ===================================================================== *)

(** [[\n,]] *)
Definition isUrlSeparator (c : ascii) : bool :=
  Ascii.eqb c (ascii_of_nat 10) || Ascii.eqb c ",".

Section ParseUrls.
Context `{URLApi}.

(** The [filter] callback of [parseUrls]. *)
Definition isValidUrl (url : string) : bool :=
  if negb (truthy url) then false
  else match new_URL url None with
       | Some _ => true
       | None => false
       end.

Definition parseUrls (input : string) : list string :=
  List.filter isValidUrl (map trim (splitRuns isUrlSeparator input EmptyString false)).
End ParseUrls.

Record LogEntry := {
  log_timestamp : string;
  log_message : string;
  log_type : string
}.

(** [addLog(message, type)], given what [toLocaleTimeString] reads, on
    the list of [logs.value]. *)
Definition addLog (timestamp message type : string) (logs : list LogEntry) : list LogEntry :=
  let logs := logs ++ [ {| log_timestamp := timestamp; log_message := message;
                           log_type := type |} ] in
  if (100 <? length logs)%nat then tail logs else logs.

(** ** The selection of rows

    [total] is the length of the results of the current mode, if there
    are any; [selectedRows] is the set of selected row indices. *)

Definition allSelected (total : option nat) (selectedRows : gset nat) : bool :=
  match total with
  | Some t => negb (t =? 0)%nat && (0 <? t)%nat && (size selectedRows =? t)%nat
  | None => false
  end.

Definition toggleSelectAll (total : option nat) (selectedRows : gset nat) : gset nat :=
  match total with
  | None | Some O => selectedRows
  | Some t => if allSelected total selectedRows then ∅ else set_seq 0 t
  end.

Definition toggleRow (index : nat) (selectedRows : gset nat) : gset nat :=
  if bool_decide (index ∈ selectedRows) then selectedRows ∖ {[ index ]}
  else {[ index ]} ∪ selectedRows.

(** ** The statistics of the links table *)

Definition getStatusClass (status : Z) : string :=
  if (200 <=? status) && (status <? 300) then "status-ok"
  else if (300 <=? status) && (status <? 400) then "status-redirect"
  else "status-error".

Record LinkStats := {
  ls_total : nat;
  ls_status200 : nat;
  ls_status3xx : nat;
  ls_status4xx : nat;
  ls_status5xx : nat;
  ls_errors : nat;
  ls_internal : nat;
  ls_external : nat
}.

Definition countIf {A} (p : A -> bool) (xs : list A) : nat := length (List.filter p xs).

Definition linkStats (linkResults : option (list LinkResult)) : option LinkStats :=
  match linkResults with
  | None | Some [] => None
  | Some rs =>
      Some {| ls_total := length rs;
              ls_status200 := countIf (fun r => (200 <=? status r) && (status r <? 300)) rs;
              ls_status3xx := countIf (fun r => (300 <=? status r) && (status r <? 400)) rs;
              ls_status4xx := countIf (fun r => (400 <=? status r) && (status r <? 500)) rs;
              ls_status5xx := countIf (fun r => 500 <=? status r) rs;
              ls_errors := countIf (fun r => status r =? 0) rs;
              ls_internal := countIf (fun r => isInternalType r) rs;
              ls_external := countIf (fun r => negb (isInternalType r)) rs |}
  end.

(* ===================================================================== *)
(** * A URL class to run the code on *)
(* ===================================================================== *)

(** The WHATWG parser on plain http(s) URLs: [scheme://host/path?query#fragment]
    with a lower-cased scheme and host, no port or credentials, no
    percent-encoding and no dot segments; with a base, only references
    that start with a single [/].  Every other string is rejected, as if
    the constructor threw.  Hosts are kept as written (a dotted quad is
    not renumbered). *)
Module Lite.

Inductive Scheme := Http | Https.

Record Url := {
  u_scheme : Scheme;
  u_host : string;
  u_path : string;
  u_query : option string;
  u_fragment : option string
}.

Definition schemeName (s : Scheme) : string :=
  match s with Http => "http" | Https => "https" end.

Definition parseScheme (s : string) : option Scheme :=
  if String.eqb s "http" then Some Http
  else if String.eqb s "https" then Some Https
  else None.

(** Split at the first [c]. *)
Fixpoint cut (c : ascii) (s : string) : string * option string :=
  match s with
  | EmptyString => (EmptyString, None)
  | String a s' =>
      if Ascii.eqb a c then (EmptyString, Some s')
      else let '(l, r) := cut c s' in (String a l, r)
  end.

Fixpoint allChars (ok : ascii -> bool) (s : string) : bool :=
  match s with
  | EmptyString => true
  | String a s' => ok a && allChars ok s'
  end.

Definition isLowerAlnum (c : ascii) : bool :=
  let n := nat_of_ascii c in
  ((97 <=? n)%nat && (n <=? 122)%nat) || ((48 <=? n)%nat && (n <=? 57)%nat).

Definition hostChar (c : ascii) : bool :=
  isLowerAlnum c || Ascii.eqb c "." || Ascii.eqb c "-".

Definition isUpper (c : ascii) : bool :=
  let n := nat_of_ascii c in (65 <=? n)%nat && (n <=? 90)%nat.

Definition pathChar (c : ascii) : bool :=
  isLowerAlnum c || isUpper c
  || existsb (Ascii.eqb c)
       ["-"; "."; "_"; "~"; "/"; ":"; "@"; "!"; "$"; "&"; "("; ")"; "*"; "+"; ","; ";"; "="]%char.

Definition queryChar (c : ascii) : bool := pathChar c || Ascii.eqb c "?".

(** Where a scan of a path stands inside the current segment. *)
Inductive SegState := SegStart | SegDot | SegDotDot | SegOther.

Definition segDone (st : SegState) : bool :=
  match st with SegDot | SegDotDot => false | _ => true end.

Definition segNext (st : SegState) (c : ascii) : SegState :=
  if Ascii.eqb c "." then
    match st with SegStart => SegDot | SegDot => SegDotDot | _ => SegOther end
  else SegOther.

(** No segment is [.] or [..]. *)
Fixpoint noDotSegments (st : SegState) (s : string) : bool :=
  match s with
  | EmptyString => segDone st
  | String c s' =>
      if Ascii.eqb c "/" then segDone st && noDotSegments SegStart s'
      else noDotSegments (segNext st c) s'
  end.

Definition hostOk (h : string) : bool := truthy h && allChars hostChar h.

Definition pathOk (p : string) : bool :=
  startsWith p "/" && allChars pathChar p && noDotSegments SegOther p.

Definition optOk (o : option string) : bool :=
  match o with Some q => allChars queryChar q | None => true end.

Definition wf (r : Url) : bool :=
  hostOk (u_host r) && pathOk (u_path r) && optOk (u_query r) && optOk (u_fragment r).

Definition parseAbsolute (s : string) : option Url :=
  let '(s1, fragment) := cut "#" s in
  let '(s2, query) := cut "?" s1 in
  let '(name, afterColon) := cut ":" s2 in
  match parseScheme (toLowerCase name), afterColon with
  | Some scheme, Some (String "/" (String "/" rest)) =>
      let '(host, path) := cut "/" rest in
      let r := {| u_scheme := scheme;
                  u_host := toLowerCase host;
                  u_path := String "/" (default EmptyString path);
                  u_query := query;
                  u_fragment := fragment |} in
      if wf r then Some r else None
  | _, _ => None
  end.

Definition origin (r : Url) : string :=
  schemeName (u_scheme r) +:+ "://" +:+ u_host r.

Definition optPart (mark : string) (o : option string) : string :=
  match o with Some q => mark +:+ q | None => EmptyString end.

Definition serialize (r : Url) : string :=
  origin r +:+ u_path r +:+ optPart "?" (u_query r) +:+ optPart "#" (u_fragment r).

Definition parse (s : string) (base : option string) : option Url :=
  match parseAbsolute s with
  | Some r => Some r
  | None =>
      match base ≫= parseAbsolute, s with
      | Some b, String "/" rest =>
          if startsWith rest "/" then None else parseAbsolute (origin b +:+ s)
      | _, _ => None
      end
  end.

Definition withoutFragment (r : Url) : Url :=
  {| u_scheme := u_scheme r; u_host := u_host r; u_path := u_path r;
     u_query := u_query r; u_fragment := None |}.

#[export] Instance api : URLApi := {|
  URL := Url;
  new_URL := parse;
  href := serialize;
  pathname := u_path;
  hostname := u_host;
  protocol := fun r => schemeName (u_scheme r) +:+ ":";
  clearHash := withoutFragment
|}.

End Lite.


(** [r] is the result the link loop emits for [link] on the page [item]. *)
Definition resultOf (item : FrontierItem) (retryCount : Z) (r : LinkResult) (link : LinkInfo)
    : Prop :=
  exists redirectInfo, r = linkResult item link redirectInfo retryCount.

(** The result of a page that could not be fetched, as opposed to the
    result of a link: only the former has no retry count. *)
Definition isPageError (r : LinkResult) : bool :=
  match retryCount r with None => true | Some _ => false end.

Section Parseable.
Context `{URLApi}.

(** The target of a link is a URL in its own right. *)
Definition parseable (l : LinkInfo) : Prop := is_Some (new_URL (li_targetUrl l) None).
End Parseable.

(** What the proofs about crawls ask of a URL class: the constructor
    accepts what [normalizeUrl] returns.  (That is what the serializer
    wrote for a URL without fragment, less at most a final slash that is
    not the whole path.) *)
Class URLLaws `{URLApi} : Prop := {
  normalized_parses : forall u b n,
    normalizeUrl u b = Some n -> is_Some (new_URL n None)
}.


(** [k] attempts fit the retry count [r]: the index of each of them is
    at most [r]. *)
Definition attemptsFit (r : JNum) (k : nat) : Prop :=
  forall i, (i < k)%nat -> numLeb (ofNat i) r = true.

(** [n] is zero or less, or [n - 1] is below [cap]: what a counter keeps
    to that is raised by one only while it is below [cap]. *)
Definition capped (cap : JNum) (n : Z) : Prop :=
  n <= 0 \/ numLtb (ofInt (n - 1)) cap = true.

(** [x] is the whole number [k]. *)
Definition wholeNum (x : JNum) (k : Z) : Prop :=
  match x with
  | JFin q => (q == inject_Z k)%Q
  | _ => False
  end.

(** The least whole number that is not below [x], for a finite [x]; 0
    for the others. *)
Definition numCeiling (x : JNum) : Z :=
  match x with
  | JFin q => Qceiling q
  | _ => 0
  end.

(** The results written to the stream in a stretch of trace, in order. *)
Definition written (t : list Event) : list LinkResult :=
  omap (fun ev => match ev with EvWrite _ (PResult r) => Some r | _ => None end) t.

(** The URLs of the page fetches (GET requests) of a stretch of trace. *)
Definition fetchedPages (t : list Event) : list string :=
  omap (fun ev => match ev with EvFetch GET url _ => Some url | _ => None end) t.

Section CrawlVocabulary.
Context `{URLApi} `{CheerioApi} `{RegExpApi} `{Platform}.

(** The link passes the filters of the crawl. *)
Definition passing (cfg : CrawlConfig) (l : LinkInfo) : bool :=
  passesFilters cfg (li_targetUrl l).

(** What one run of the link loop does to the state. *)
Definition linkLoopEffect (cfg : CrawlConfig) (item : FrontierItem) (retryCount : Z)
    (links : list LinkInfo) (st st' : CrawlState) : Prop :=
  exists emitted kept added,
    results st' = results st ++ emitted
    /\ queue st' = queue st ++ added
    /\ visited st' = list_to_set (item_url <$> added) ∪ visited st
    /\ kept `sublist_of` links
    /\ Forall2 (resultOf item retryCount) emitted kept
    /\ Forall (fun it => item_depth it = item_depth item + 1
                         /\ numLtb (ofInt (item_depth item)) (maxDepth (cfg_body cfg)) = true
                         /\ item_sourceUrl it = None
                         /\ (item_url it ∉ visited st)
                         /\ exists l, l ∈ kept /\ li_targetUrl l = item_url it) added
    /\ NoDup (item_url <$> added)
    /\ (cfg_maxUrls cfg <> JNaN ->
        capped (cfg_maxUrls cfg) (Z.of_nat (length (results st))) ->
        capped (cfg_maxUrls cfg) (Z.of_nat (length (results st'))))
    /\ (length added <= length emitted)%nat.

(** What one turn of the [while] loop does to the state, when it takes
    [item] off the queue: either the page fails and its one result is the
    page error, or the results are those of links of the page, and the
    items joining the queue are targets of such results. *)
Definition pageEffect (cfg : CrawlConfig) (item : FrontierItem) (st st' : CrawlState) : Prop :=
  exists emitted added,
    results st' = results st ++ emitted
    /\ queue st' = tail (queue st) ++ added
    /\ visited st' = list_to_set (item_url <$> added) ∪ visited st
    /\ (((exists e, emitted = [errorResult item e]) /\ added = [])
        \/ Forall (fun r => sourceUrl r = item_url item /\ depth r = item_depth item
                            /\ isPageError r = false) emitted)
    /\ Forall (fun it => item_depth it = item_depth item + 1
                         /\ numLtb (ofInt (item_depth item)) (maxDepth (cfg_body cfg)) = true
                         /\ item_sourceUrl it = None
                         /\ (item_url it ∉ visited st)
                         /\ exists r, r ∈ emitted /\ isPageError r = false
                                      /\ targetUrl r = item_url it) added
    /\ NoDup (item_url <$> added)
    /\ (length added <= length emitted)%nat.

(** What holds of every state the loop goes through.  [gate] is the check
    the seeds went through. *)
Record CrawlInv (gate : string -> bool) (cfg : CrawlConfig) (st : CrawlState) : Prop := {
  inv_result_depth :
    Forall (fun r => capped (maxDepth (cfg_body cfg)) (depth r)) (results st);
  inv_queue_depth :
    Forall (fun it => capped (maxDepth (cfg_body cfg)) (item_depth it)) (queue st);
  inv_queue_source : Forall (fun it => item_sourceUrl it = None) (queue st);
  inv_queue_nodup : NoDup (item_url <$> queue st);
  inv_queue_visited : Forall (fun it => item_url it ∈ visited st) (queue st);
  inv_result_visited :
    Forall (fun r => sourceUrl r ∈ visited st /\ sourceUrl r ∉ (item_url <$> queue st))
      (results st);
  inv_error_shape :
    Forall (fun r => isPageError r = true ->
                     status r = 0 /\ is_Some (error r) /\ targetUrl r = sourceUrl r
                     /\ redirectChain r = "") (results st);
  inv_error_alone :
    Forall (fun e => isPageError e = true ->
                     List.filter (fun r => String.eqb (sourceUrl r) (sourceUrl e)) (results st)
                     = [e]) (results st);
  inv_queue_origin :
    Forall (fun it => gate (item_url it) = true
                      \/ exists r, r ∈ results st /\ isPageError r = false
                                   /\ targetUrl r = item_url it) (queue st);
  inv_result_origin :
    Forall (fun r => gate (sourceUrl r) = true
                     \/ exists r', r' ∈ results st /\ isPageError r' = false
                                   /\ targetUrl r' = sourceUrl r) (results st)
}.

(** Every result on the stream is one of [results], in the same order. *)
Definition streamed (st : CrawlState) : Prop :=
  written (trace (env st)) `sublist_of` results st.

(** [u] passed the check on seeds, or is the target of a link result. *)
Definition discovered (gate : string -> bool) (st : CrawlState) (u : string) : Prop :=
  gate u = true
  \/ exists r, r ∈ results st /\ isPageError r = false /\ targetUrl r = u.

(** Every page fetched so far was a checked seed or a discovered link. *)
Definition fetchesAccounted (gate : string -> bool) (st : CrawlState) : Prop :=
  Forall (discovered gate st) (fetchedPages (trace (env st))).

End CrawlVocabulary.

(** A platform to run the handlers on: the web answers from a table, given
    the number of requests made before, the method and the URL; the client
    stays connected; cheerio answers from tables; a regular expression is
    a literal to be found in the subject. *)
Module Scripted.

Definition web (site : nat -> Method -> string -> Outcome Response) : Platform :=
  {| World := nat;
     fetch := fun m url _ n => (site n m url, S n);
     elapse := fun _ n => n;
     streamClosed := fun _ => false |}.

Definition cheerio (locs : string -> list string) (anchors : string -> list Anchor)
    : CheerioApi :=
  {| select_loc := locs; select_anchors := anchors |}.

Definition literals : RegExpApi :=
  {| RegExp := string; new_RegExp := Some; test := fun re subject => includes subject re |}.

Definition ok (body : string) : Outcome Response :=
  Returned {| resp_status := 200; resp_location := None; resp_text := Returned body |}.

Definition answer (code : Z) : Outcome Response :=
  Returned {| resp_status := code; resp_location := None; resp_text := Returned "" |}.

Definition link (href : string) : Anchor :=
  {| a_href := href; a_rel := None; a_text := "" |}.

End Scripted.

(** The answers to the GET requests of a stretch of trace, in order. *)
Definition getAnswers (t : list Event) : list (Outcome Response) :=
  omap (fun ev => match ev with EvFetch GET _ a => Some a | _ => None end) t.

(** An answer that makes [fetchWithRetry] try again while attempts remain:
    a status of 500 or more, or a thrown failure. *)
Definition retryable (a : Outcome Response) : bool :=
  match a with
  | Returned response => 500 <=? resp_status response
  | Threw _ => true
  end.

(** The page fetches and the sleeps of a stretch of trace, in order. *)
Inductive Pace : Type :=
  | Fetched (url : string)
  | Slept (ms : JNum).

Definition pacing (t : list Event) : list Pace :=
  omap (fun ev => match ev with
                  | EvFetch GET url _ => Some (Fetched url)
                  | EvSleep ms => Some (Slept ms)
                  | _ => None
                  end) t.

(** The URLs requested in a stretch of trace, with the method. *)
Definition requests (t : list Event) : list (Method * string) :=
  omap (fun ev => match ev with EvFetch m url _ => Some (m, url) | _ => None end) t.

Section RedirectRuns.
Context `{URLApi} `{Platform}.

(** The next [n] HEAD requests, starting at [url] in world [w] and each
    following the last one's [Location], are all answered by a redirect
    that [getRedirectChain] follows. *)
Fixpoint redirectsFor (n : nat) (url : string) (w : World) : bool :=
  match n with
  | O => true
  | S n' =>
      match fetch HEAD url (headInit 10000) w with
      | (Returned response, w') =>
          (300 <=? resp_status response) && (resp_status response <? 400)
          && match resp_location response with
             | Some location =>
                 truthy location
                 && match new_URL location (Some url) with
                    | Some next => redirectsFor n' (href next) w'
                    | None => false
                    end
             | None => false
             end
      | (Threw _, _) => false
      end
  end.

(** The step [next] of a chain is where the answer to the request [ev]
    sent the loop: [ev] was answered by a response whose [Location], read
    against the URL requested, is the URL of [next]. *)
Definition follows (ev : Event) (next : RedirectStep) : Prop :=
  exists url response location target,
    ev = EvFetch HEAD url (Returned response)
    /\ resp_location response = Some location
    /\ new_URL location (Some url) = Some target
    /\ rs_url next = href target.
End RedirectRuns.

(* ===================================================================== *)
(** * The vocabulary of the properties of the other endpoints *)
(* ===================================================================== *)

(** The host names [isAllowedUrl] refuses, lower-cased. *)
Definition blockedHost (h : string) : Prop :=
  h ∈ ["localhost"; "127.0.0.1"; "::1"; "0.0.0.0"]
  \/ (exists name, h = name +:+ ".localhost")
  \/ (exists rest, h = "10." +:+ rest)
  \/ (exists rest, h = "192.168." +:+ rest)
  \/ (exists rest, h = "169.254." +:+ rest)
  \/ (exists n rest, 16 <= n <= 31 /\ h = "172." +:+ pretty n +:+ "." +:+ rest).

(** A step of a redirect chain that was followed. *)
Definition isRedirect (step : RedirectStep) : Prop := 300 <= rs_status step < 400.

(** The request that put [step] on the chain. *)
Definition answeredBy (ev : Event) (step : RedirectStep) : Prop :=
  exists response, ev = EvFetch HEAD (rs_url step) (Returned response)
                   /\ resp_status response = rs_status step.

(** What [fetchWithRetry] does when its attempts, numbered from [attempt],
    are answered by [answers]: a GET per answer and, after every answer
    but the last, a sleep of 1000 ms times the number of attempts made. *)
Fixpoint retrySchedule (url : string) (attempt : Z) (answers : list (Outcome Response))
    : list Event :=
  match answers with
  | [] => []
  | [a] => [EvFetch GET url a]
  | a :: rest => EvFetch GET url a :: EvSleep (backoff attempt) :: retrySchedule url (attempt + 1) rest
  end.

(** The pause [fetchWithRetry] makes after its last attempt, the attempt
    with the index [attempt]: the loop pauses after an answer that calls
    for another attempt while [attempt < retries], also when no attempt
    follows because [attempt + 1 <= retries] fails, as it does for a
    retry count that is no whole number. *)
Definition lastPause (retryCount : JNum) (attempt : Z) (answers : list (Outcome Response))
    : list Event :=
  match last answers with
  | Some a =>
      if retryable a && numLtb (ofInt attempt) retryCount
      then [EvSleep (backoff attempt)] else []
  | None => []
  end.

(** [c] is no white space. *)
Definition nonSpace (c : ascii) : bool := negb (isSpace c).

(** [c] is a slash. *)
Definition isSlash (c : ascii) : bool := Ascii.eqb c "/".

(** [c] is no comma. *)
Definition notComma (c : ascii) : bool := negb (Ascii.eqb c ",").

(** [path] is the entry [prefix] without its trailing slashes, or lies
    under it. *)
Definition covers (prefix path : string) : Prop :=
  path = stripTrailingSlashes prefix
  \/ exists rest, path = stripTrailingSlashes prefix +:+ "/" +:+ rest.

(** No character of [s] is a separator. *)
Definition unbroken (isSep : ascii -> bool) (s : string) : bool :=
  Lite.allChars (fun c => negb (isSep c)) s.

(** A character of a time stamp's fields: none of [T], [:] and [.]. *)
Definition stampChar (c : ascii) : bool :=
  negb (Ascii.eqb c "T" || Ascii.eqb c ":" || Ascii.eqb c ".").

(** A character that can stand in a file name made by [sanitizeFilename]. *)
Definition isSafeChar (c : ascii) : bool := isFilenameChar c || Ascii.eqb c "_".

(** [s] begins with an underscore. *)
Definition headUnderscore (s : string) : bool :=
  match s with String c _ => Ascii.eqb c "_" | EmptyString => false end.

(** After at most [n] checks that can cost [worst] points together: so
    many issues at most, each of them paid with 2 to 15 points. *)
Definition audited (n : nat) (worst : Z) (a : Audit) : Prop :=
  (length a.1 <= n)%nat
  /\ 100 - worst <= a.2
  /\ 2 * Z.of_nat (length a.1) <= 100 - a.2 <= 15 * Z.of_nat (length a.1).

(** The number of headings with the tag [tag]. *)
Definition tagCount (tag : string) (headings : list HeadingInfo) : Z :=
  Z.of_nat (length (List.filter (fun h => String.eqb (hd_tag h) tag) headings)).

(** Every heading carries its rank among the headings of its tag. *)
Definition ranked (headings : list HeadingInfo) : Prop :=
  forall i h, headings !! i = Some h -> hd_count h = tagCount (hd_tag h) (take (S i) headings).

(** A HEAD request. *)
Definition isHeadRequest (ev : Event) : Prop := exists url answer, ev = EvFetch HEAD url answer.

(** The status [checkLinkStatus] reads off an answer. *)
Definition statusOf (answer : Outcome Response) : Z :=
  match answer with
  | Returned response => resp_status response
  | Threw _ => 0
  end.

(** The link [b] was reported for a request among [heads]. *)
Definition probed (heads : list Event) (b : BrokenLink) : Prop :=
  exists answer, EvFetch HEAD (bl_href b) answer ∈ heads /\ bl_status b = statusOf answer.

(** The URLs of the HEAD requests of a stretch of trace. *)
Definition headRequests (t : list Event) : list string :=
  omap (fun ev => match ev with EvFetch HEAD url _ => Some url | _ => None end) t.

(** The contents of the tags of [elements] that set the property [key]:
    those whose attribute, with the first [prefix] taken out, is [key],
    and whose content is not empty. *)
Definition metaValues (prefix key : string) (elements : list (option string * option string))
    : list string :=
  omap (fun element : option string * option string =>
          match element.1, element.2 with
          | Some a, Some c =>
              if String.eqb (removeFirst prefix a) key && truthy c then Some c else None
          | _, _ => None
          end) elements.

(** A size that is given is not zero; where a minimum is asked for, a
    size that is given and positive is not below it.  (A negative size is
    kept whatever the minimum.) *)
Definition sizeOk (min : Z) (size : option Z) : Prop :=
  forall v, size = Some v -> v <> 0 /\ (0 < min -> 0 < v -> min <= v).

(** The log after the messages [entries], from an empty log. *)
Definition logged (entries : list LogEntry) : list LogEntry :=
  foldl (fun logs e => addLog (log_timestamp e) (log_message e) (log_type e) logs) [] entries.

Section UrlVocabulary.
Context `{URLApi}.

(** The anchor a link of a page was read from. *)
Definition linkOfAnchor (baseUrl : string) (l : LinkInfo) (a : Anchor) : Prop :=
  truthy (a_href a) = true
  /\ skippedScheme (a_href a) = false
  /\ normalizeUrl (a_href a) (Some baseUrl) = Some (li_targetUrl l)
  /\ li_anchorText l = substring 0 200 (trim (a_text a))
  /\ li_rel l = words (default "" (a_rel a)).


(** [u] and [v] are URLs with the same host name. *)
Definition sameHost (u v : string) : Prop :=
  exists r s, new_URL u None = Some r /\ new_URL v None = Some s /\ hostname r = hostname s.

(** The pieces of a split that [parseUrls] keeps. *)
Definition keptPieces (pieces : list string) : list string :=
  List.filter isValidUrl (map trim pieces).

End UrlVocabulary.

(** One more law of the URL class: what [normalizeUrl] returns is an
    absolute URL, so it parses against any base that is a URL itself as
    it parses on its own. *)
Class URLBaseLaws `{URLApi} : Prop := {
  normalized_absolute : forall u b n c,
    normalizeUrl u b = Some n -> is_Some (new_URL c None) ->
    new_URL n (Some c) = new_URL n None
}.

Section RunVocabulary.
Context `{URLApi} `{CheerioApi} `{RegExpApi} `{Platform}.


(** The frontier items the [while] loop takes off the queue in its first
    [fuel] turns from [st], in order. *)
Fixpoint dequeued (fuel : nat) (cfg : CrawlConfig) (st : CrawlState) : list FrontierItem :=
  match fuel with
  | O => []
  | S fuel' =>
      if running cfg st then
        match queue st with
        | item :: _ =>
            item :: match crawlStep fuel' cfg st with
                    | Some st1 => dequeued fuel' cfg st1
                    | None => []
                    end
        | [] => []
        end
      else []
  end.

(** What a turn of the loop keeps, [spent] URLs having been taken off a
    queue that started with [seeds] of them: ten HEAD requests at most
    for every result, and a result at least for every URL that was put
    on the queue later. *)
Definition withinBudget (heads0 seeds spent : nat) (st : CrawlState) : Prop :=
  (length (headRequests (trace (env st))) <= heads0 + 10 * length (results st))%nat
  /\ (spent + length (queue st) <= seeds + length (results st))%nat.

End RunVocabulary.

(** The page fetches of a crawl that takes [taken] off the frontier and
    makes [ks] GET requests for each of them in turn. *)
Definition pageFetches (taken : list FrontierItem) (ks : list nat) : list string :=
  concat (zip_with (fun it k => repeat (item_url it) k) taken ks).

(** What a JSON-LD script adds to the list: the elements of an array,
    any other document as it is, nothing when it is empty or no JSON. *)
Definition jsonLdOf `{JsonApi} (content : option string) : list Json :=
  match content with
  | Some c =>
      if truthy c then
        match JSON_parse c with
        | Returned parsed => default [parsed] (asArray parsed)
        | Threw _ => []
        end
      else []
  | None => []
  end.

Section ImageVocabulary.
Context `{URLApi} `{ImageCheerio} `{ImagePlatform}.

(** What the passes keep true of the images found so far: their sources
    are pairwise different and have been seen, none is a [data:] URL,
    each passes the filter on formats and the filter on sizes. *)
Definition foundOk (formats : option (list string)) (minWidth minHeight : Z) (found : Found)
    : Prop :=
  NoDup (im_src <$> found.2)
  /\ Forall (fun im => im_src im ∈ found.1
                       /\ startsWith (im_src im) "data:" = false
                       /\ isValidImageFormat (im_src im) formats = true
                       /\ sizeOk minWidth (im_width im)
                       /\ sizeOk minHeight (im_height im)) found.2.

End ImageVocabulary.

(** [x] is not the character [c]. *)
Definition isNot (c x : ascii) : bool := negb (Ascii.eqb x c).

(** Sitemap detection as the specification words it, to compare with
    [isSitemap]: the body starts as an XML document and has a [urlset] or
    [sitemapindex] root. *)
Definition spec_isSitemap (body : string) : bool :=
  let trimmed := toLowerCase (trim body) in
  startsWith trimmed "<?xml"
  && (includes trimmed "<urlset" || includes trimmed "<sitemapindex").

Module Examples.

(** An XHTML page: an XML declaration, then HTML with one anchor. *)
Definition xhtmlPage : string :=
  "<?xml version='1.0'?><html><body><a href='https://example.com/x'>x</a></body></html>".

(** An HTML page that mentions [<urlset] in its text. *)
Definition htmlAboutSitemaps : string :=
  "<html><body><a href='https://example.com/y'>how to write a <urlset></a></body></html>".

(** A sitemap with two entries. *)
Definition sitemap : string :=
  "<?xml version='1.0'?><urlset><url><loc>https://example.com/a/</loc></url><url><loc> https://example.com/b </loc></url></urlset>".

Definition parser : CheerioApi :=
  Scripted.cheerio
    (fun body => if String.eqb body sitemap
                 then ["https://example.com/a/"; " https://example.com/b "] else [])
    (fun body => if String.eqb body xhtmlPage then [Scripted.link "https://example.com/x"]
                 else if String.eqb body htmlAboutSitemaps
                      then [Scripted.link "https://example.com/y"]
                 else []).

(** A site on which every request is answered [302] with
    [Location: /again]. *)
Definition redirectForever : Platform :=
  Scripted.web (fun _ _ _ =>
    Returned {| resp_status := 302; resp_location := Some "/again";
                resp_text := Returned "" |}).

Definition fresh `{Platform} (w : World) : Env :=
  {| world := w; trace := []; isClosed := false |}.

(** Settings with the retry count [r]. *)
Definition settingsOf (r : JNum) : RequestSettings :=
  {| timeout := ofInt 30; retries := r; proxy := None; headers := [] |}.


(** A server that answers every request with [500]. *)
Definition alwaysDown : Platform := Scripted.web (fun _ _ _ => Scripted.answer 500).


(** A small site.  [/a] links to [/b], to another host and to the
    loopback address; [/b] and [/empty] have no links; [/down] cannot be
    fetched; every HEAD request is answered [200]. *)
Definition pageA : string :=
  "<html><body><a href='/b'>b</a> <a href='https://other.com/c' rel='nofollow'>c</a> <a href='http://127.0.0.1/'>home</a></body></html>".

Definition site : Platform :=
  Scripted.web (fun _ m url =>
    match m with
    | HEAD => Scripted.answer 200
    | GET =>
        if String.eqb url "https://example.com/a" then Scripted.ok pageA
        else if String.eqb url "https://example.com/b" then Scripted.ok "<html></html>"
        else if String.eqb url "https://example.com/empty" then Scripted.ok "<html></html>"
        else if String.eqb url "https://example.com/down"
             then Threw (JsError "TypeError" "fetch failed")
        else Scripted.answer 404
    end).

Definition siteParser : CheerioApi :=
  Scripted.cheerio (fun _ => [])
    (fun body => if String.eqb body pageA
                 then [ {| a_href := "/b"; a_rel := None; a_text := "b" |};
                        {| a_href := "https://other.com/c"; a_rel := Some "nofollow"; a_text := "c" |};
                        {| a_href := "http://127.0.0.1/"; a_rel := None; a_text := "home" |} ]
                 else []).

(** A request with the defaults of the user interface and no retries. *)
Definition request (seeds : list string) (follow : bool) (depthCap : Z)
    (rate : option JNum) (filter : option string) : ScrapeLinksRequest :=
  {| urls := seeds; recursive := follow; maxUrls := Some (ofInt 100);
     maxDepth := ofInt depthCap;
     rateLimit := rate; sameDomainOnly := true; urlFilter := filter;
     pathInclude := None; pathExclude := None;
     settings := Some {| raw_timeout := Some (ofInt 30); raw_retries := Some (ofInt 0);
                         raw_proxy := None; raw_headers := [] |} |}.

(** The same request with the budget [budget] and the depth [depthCap],
    which need not be whole numbers. *)
Definition requestOf (seeds : list string) (budget depthCap : JNum) : ScrapeLinksRequest :=
  {| urls := seeds; recursive := true; maxUrls := Some budget; maxDepth := depthCap;
     rateLimit := Some (JFin 2); sameDomainOnly := true; urlFilter := None;
     pathInclude := None; pathExclude := None;
     settings := Some {| raw_timeout := Some (ofInt 30); raw_retries := Some (ofInt 0);
                         raw_proxy := None; raw_headers := [] |} |}.

Definition stream (fuel : nat) (body : ScrapeLinksRequest) : option CrawlState :=
  @scrapeLinksStream Lite.api siteParser Scripted.literals site fuel body (@fresh site 0%nat).

Definition legacy (fuel : nat) (body : ScrapeLinksRequest) : option CrawlState :=
  @scrapeLinksLegacy Lite.api siteParser Scripted.literals site fuel body (@fresh site 0%nat).

(** A filter of [n] characters, for [n] of 7 or more: [example] followed
    by dots.  No URL of the site matches it, as a literal or as a regular
    expression. *)
Definition filterOfLength (n : nat) : string :=
  "example" +:+ string_of_list_ascii (repeat "."%char (n - 7)).

End Examples.

(** Further platforms to run the handlers on. *)
Module Fixtures.


End Fixtures.

(* ===================================================================== *)
(** * Properties *)
(* ===================================================================== *)

(* --------------------------------------------------------------------- *)
(** ** Numbers *)

Lemma Qle_bool_false (p q : Q) : Qle_bool p q = false <-> (q < p)%Q.
Proof.
  split.
  - intros E. apply Qnot_le_lt. intros Hle. apply Qle_bool_iff in Hle. congruence.
  - intros Hlt. destruct (Qle_bool p q) eqn:E; [|reflexivity].
    apply Qle_bool_iff in E. exfalso. exact (Qlt_not_le _ _ Hlt E).
Qed.

Lemma numLtb_ofInt (a b : Z) : numLtb (ofInt a) (ofInt b) = (a <? b).
Proof.
  unfold numLtb, ofInt. destruct (Z.ltb_spec a b) as [Hlt|Hge].
  - apply negb_true_iff, Qle_bool_false. rewrite <- Zlt_Qlt. exact Hlt.
  - apply negb_false_iff, Qle_bool_iff. rewrite <- Zle_Qle. exact Hge.
Qed.

Lemma numLeb_ofInt (a b : Z) : numLeb (ofInt a) (ofInt b) = (a <=? b).
Proof.
  unfold numLeb, ofInt. destruct (Z.leb_spec a b) as [Hle|Hgt].
  - apply Qle_bool_iff. rewrite <- Zle_Qle. exact Hle.
  - apply Qle_bool_false. rewrite <- Zlt_Qlt. exact Hgt.
Qed.

Lemma numLtb_whole (x : JNum) (k n : Z) : wholeNum x k -> numLtb (ofInt n) x = (n <? k).
Proof.
  destruct x as [q| | |]; simpl; try contradiction. intros E.
  rewrite <- numLtb_ofInt. unfold numLtb, ofInt. f_equal.
  apply Qleb_comp; [exact E | reflexivity].
Qed.

Lemma numLeb_whole (x : JNum) (k n : Z) : wholeNum x k -> numLeb (ofInt n) x = (n <=? k).
Proof.
  destruct x as [q| | |]; simpl; try contradiction. intros E.
  rewrite <- numLeb_ofInt. unfold numLeb, ofInt.
  apply Qleb_comp; [reflexivity | exact E].
Qed.

Lemma wholeNum_ofInt (k : Z) : wholeNum (ofInt k) k.
Proof. simpl. reflexivity. Qed.

(** Of two numbers, neither of them NaN, one is below the other or they
    are equal. *)
Lemma numLeb_false (cap : JNum) (n : Z) :
  cap <> JNaN -> numLeb cap (ofInt n) = false -> numLtb (ofInt n) cap = true.
Proof.
  destruct cap as [q| | |]; simpl; try congruence; try discriminate.
  intros _ E. rewrite E. reflexivity.
Qed.

Lemma numLtb_not_NaN (x cap : JNum) : numLtb x cap = true -> cap <> JNaN.
Proof. intros E ->. destruct x; discriminate. Qed.

Lemma numLeb_next (n : Z) (x : JNum) :
  numLeb (ofInt (n + 1)) x = true -> numLtb (ofInt n) x = true.
Proof.
  destruct x as [q| | |]; simpl; try discriminate; try reflexivity.
  intros E. apply Qle_bool_iff in E. apply negb_true_iff, Qle_bool_false.
  eapply Qlt_le_trans; [|exact E]. rewrite <- Zlt_Qlt. lia.
Qed.

Lemma numLtb_numLeb (n : Z) (x : JNum) :
  numLtb (ofInt n) x = true -> numLeb (ofInt n) x = true.
Proof.
  destruct x as [q| | |]; simpl; try discriminate; try reflexivity.
  intros E. apply negb_true_iff, Qle_bool_false in E. apply Qle_bool_iff, Qlt_le_weak, E.
Qed.

Lemma numLtb_ceiling (n : Z) (q : Q) : numLtb (ofInt n) (JFin q) = true -> n < Qceiling q.
Proof.
  simpl. intros E. apply negb_true_iff, Qle_bool_false in E.
  rewrite Zlt_Qlt. eapply Qlt_le_trans; [exact E | apply Qle_ceiling].
Qed.

Lemma numLeb_floor (n : Z) (q : Q) : numLeb (ofInt n) (JFin q) = true -> n <= Qfloor q.
Proof.
  simpl. intros E. apply Qle_bool_iff in E.
  assert (n < Qfloor q + 1); [|lia].
  rewrite Zlt_Qlt. eapply Qle_lt_trans; [exact E | apply Qlt_floor].
Qed.

Lemma numLtb_mono (a b : Z) (x : JNum) :
  a <= b -> numLtb (ofInt b) x = true -> numLtb (ofInt a) x = true.
Proof.
  intros Hab. destruct x as [q| | |]; simpl; try discriminate; try reflexivity.
  intros E. apply negb_true_iff, Qle_bool_false in E. apply negb_true_iff, Qle_bool_false.
  eapply Qle_lt_trans; [|exact E]. rewrite <- Zle_Qle. exact Hab.
Qed.

Lemma numLeb_mono (a b : Z) (x : JNum) :
  a <= b -> numLeb (ofInt b) x = true -> numLeb (ofInt a) x = true.
Proof.
  intros Hab. destruct x as [q| | |]; simpl; try discriminate; try reflexivity.
  intros E. apply Qle_bool_iff in E. apply Qle_bool_iff.
  eapply Qle_trans; [|exact E]. rewrite <- Zle_Qle. exact Hab.
Qed.

Lemma numLtb_flip (x y : JNum) : numLtb x y = true -> numLeb y x = false.
Proof.
  destruct x as [p| | |], y as [q| | |]; simpl; try discriminate; try reflexivity.
  intros E. apply negb_true_iff in E. exact E.
Qed.

Lemma numLeb_above (a b : Z) (x : JNum) :
  a <= b -> numLeb (ofInt a) x = false -> numLeb (ofInt b) x = false.
Proof.
  intros Hab Ha. destruct (numLeb (ofInt b) x) eqn:Eb; [|reflexivity].
  rewrite (numLeb_mono a b x Hab Eb) in Ha. discriminate.
Qed.

Lemma capped_zero (cap : JNum) : capped cap 0.
Proof. left. lia. Qed.

Lemma capped_next (cap : JNum) (n : Z) : numLtb (ofInt n) cap = true -> capped cap (n + 1).
Proof. intros E. right. replace (n + 1 - 1) with n by lia. exact E. Qed.

Lemma capped_whole (cap : JNum) (k n : Z) : wholeNum cap k -> 0 <= k -> capped cap n -> n <= k.
Proof.
  intros Hk Hpos [Hn | Hlt]; [lia|].
  rewrite (numLtb_whole _ _ _ Hk) in Hlt. apply Z.ltb_lt in Hlt. lia.
Qed.

Lemma capped_ceiling (q : Q) (n : Z) : capped (JFin q) n -> n <= Z.max 0 (Qceiling q).
Proof. intros [Hn | Hlt]; [lia|]. apply numLtb_ceiling in Hlt. lia. Qed.

Lemma capped_mono (cap : JNum) (a b : Z) : a <= b -> capped cap b -> capped cap a.
Proof.
  intros Hab [Hb | Hlt]; [left; lia|].
  right. eapply numLtb_mono; [|exact Hlt]. lia.
Qed.

Lemma clamp_range (lo hi : Q) (x : JNum) :
  (lo <= hi)%Q -> x <> JNaN ->
  exists m, clamp (JFin lo) (JFin hi) x = JFin m /\ (lo <= m)%Q /\ (m <= hi)%Q.
Proof.
  intros Hle Hx. pose proof (proj2 (Qle_bool_iff lo hi) Hle) as Ele.
  destruct x as [q| | |]; [| | |congruence]; unfold clamp; simpl.
  - destruct (Qle_bool q lo) eqn:E1; simpl.
    + rewrite Ele. exists lo. split; [reflexivity|]. split; [apply Qle_refl | exact Hle].
    + apply Qle_bool_false in E1. destruct (Qle_bool q hi) eqn:E2.
      * exists q. split; [reflexivity|]. split; [apply Qlt_le_weak, E1 | apply Qle_bool_iff, E2].
      * exists hi. split; [reflexivity|]. split; [exact Hle | apply Qle_refl].
  - exists hi. split; [reflexivity|]. split; [exact Hle | apply Qle_refl].
  - rewrite Ele. exists lo. split; [reflexivity|]. split; [apply Qle_refl | exact Hle].
Qed.

Lemma clamp_NaN (lo hi : JNum) : clamp lo hi JNaN = JNaN.
Proof. reflexivity. Qed.

Lemma numOr_not_NaN (x : option JNum) (d : JNum) : d <> JNaN -> numOr x d <> JNaN.
Proof.
  intros Hd. unfold numOr. destruct x as [[q| | |]|]; simpl; try congruence.
  destruct (Qeq_bool q 0); congruence.
Qed.

Section StreamBudget.

Lemma streamMaxUrls_range (body : ScrapeLinksRequest) :
  exists m, streamMaxUrls body = JFin m /\ (1 <= m)%Q /\ (m <= 10000)%Q.
Proof.
  unfold streamMaxUrls. apply clamp_range; [discriminate|].
  apply numOr_not_NaN. discriminate.
Qed.


End StreamBudget.



(* --------------------------------------------------------------------- *)
(** ** Link extraction *)

Section ExtractionFacts.
Context `{URLApi} `{CheerioApi}.

Lemma eachLoc_Forall (P : LinkInfo -> Prop) baseUrl texts seen links :
  Forall P links ->
  (forall text n, text ∈ texts -> normalizeUrl (trim text) None = Some n ->
     P {| li_sourceUrl := baseUrl; li_targetUrl := n; li_anchorText := "";
          li_rel := []; li_isInternal := isInternalLink baseUrl n |}) ->
  Forall P (eachLoc baseUrl texts seen links).
Proof.
  revert seen links. induction texts as [|text rest IH]; intros seen links Hl Hnew; simpl.
  - exact Hl.
  - assert (Hrest : forall t n, t ∈ rest -> normalizeUrl (trim t) None = Some n ->
       P {| li_sourceUrl := baseUrl; li_targetUrl := n; li_anchorText := "";
            li_rel := []; li_isInternal := isInternalLink baseUrl n |}).
    { intros t n Ht. apply Hnew. right. exact Ht. }
    destruct (truthy (trim text)); simpl; [|auto].
    destruct (normalizeUrl (trim text) None) as [n|] eqn:En; [|auto].
    destruct (truthy n); simpl; [|auto].
    destruct (decide (n ∈ seen)); [auto|].
    apply IH; [|exact Hrest].
    apply Forall_app. split; [exact Hl|].
    constructor; [|constructor]. apply Hnew with (text := text); [left | exact En].
Qed.

Lemma eachLoc_keeps baseUrl texts seen links l :
  l ∈ links -> l ∈ eachLoc baseUrl texts seen links.
Proof.
  revert seen links. induction texts as [|text rest IH]; intros seen links Hl; simpl.
  - exact Hl.
  - destruct (truthy (trim text)); simpl; [|auto].
    destruct (normalizeUrl (trim text) None) as [n|]; [|auto].
    destruct (truthy n); simpl; [|auto].
    destruct (decide (n ∈ seen)); [auto|].
    apply IH. apply elem_of_app. left. exact Hl.
Qed.

Lemma eachLoc_complete baseUrl texts seen links :
  (forall n, n ∈ seen -> exists l, l ∈ links /\ li_targetUrl l = n) ->
  forall text n, text ∈ texts -> truthy (trim text) = true ->
    normalizeUrl (trim text) None = Some n -> truthy n = true ->
    exists l, l ∈ eachLoc baseUrl texts seen links /\ li_targetUrl l = n.
Proof.
  revert seen links. induction texts as [|t rest IH]; intros seen links Hseen text n Hin Ht Hn Hn'.
  - inversion Hin.
  - simpl.
    assert (Hstep : forall m, m ∈ ({[ m ]} ∪ seen : gset string) -> True) by auto.
    apply elem_of_cons in Hin as [-> | Hin].
    + rewrite Ht, Hn, Hn'. simpl.
      destruct (decide (n ∈ seen)) as [Hs|Hs].
      * destruct (Hseen n Hs) as (l & Hl & <-).
        exists l. split; [apply eachLoc_keeps, Hl | reflexivity].
      * eexists. split; [apply eachLoc_keeps, elem_of_app; right; left | reflexivity].
    + destruct (truthy (trim t)); simpl; [|eauto].
      destruct (normalizeUrl (trim t) None) as [m|]; [|eauto].
      destruct (truthy m); simpl; [|eauto].
      destruct (decide (m ∈ seen)); [eauto|].
      eapply IH; eauto.
      intros k Hk. apply elem_of_union in Hk as [Hk | Hk].
      * apply elem_of_singleton in Hk as ->.
        eexists. split; [apply elem_of_app; right; left | reflexivity].
      * destruct (Hseen k Hk) as (l & Hl & <-).
        exists l. split; [apply elem_of_app; left; exact Hl | reflexivity].
Qed.

(** C6, as amended.  [extractLinks] reads a body as a sitemap exactly
    when the trimmed, lower-cased body starts with [<?xml] or contains
    [<urlset] or [<sitemapindex] anywhere, and as HTML anchors otherwise.
    In sitemap mode every link has an empty anchor text, no relation
    tokens and the normalized text of a [<loc>] element as its target,
    and every [<loc>] text that normalizes is the target of a link. *)
Theorem extractLinks_sitemap_mode (html baseUrl : string) :
  let trimmed := toLowerCase (trim html) in
  (isSitemap html = true <->
     startsWith trimmed "<?xml" = true \/ includes trimmed "<urlset" = true
     \/ includes trimmed "<sitemapindex" = true)
  /\ (isSitemap html = true ->
        extractLinks html baseUrl = extractLinksFromSitemap html baseUrl)
  /\ (isSitemap html = false ->
        extractLinks html baseUrl = extractLinksFromHtml html baseUrl)
  /\ Forall (fun l => li_anchorText l = "" /\ li_rel l = []
                /\ exists text, text ∈ select_loc html
                                /\ normalizeUrl (trim text) None = Some (li_targetUrl l))
        (extractLinksFromSitemap html baseUrl)
  /\ (forall text n, text ∈ select_loc html -> truthy (trim text) = true ->
        normalizeUrl (trim text) None = Some n -> truthy n = true ->
        exists l, l ∈ extractLinksFromSitemap html baseUrl /\ li_targetUrl l = n).
Proof.
  intros trimmed. repeat split.
  - unfold isSitemap. fold trimmed. intros E.
    apply orb_true_iff in E as [E|E]; [apply orb_true_iff in E as [E|E]|]; auto.
  - unfold isSitemap. fold trimmed. intros [E|[E|E]]; rewrite E;
      rewrite ?orb_true_r; reflexivity.
  - unfold extractLinks. intros ->. reflexivity.
  - unfold extractLinks. intros ->. reflexivity.
  - apply eachLoc_Forall; [constructor|].
    intros text n Hin Hn. simpl. eauto.
  - apply eachLoc_complete. intros n Hn. exfalso. set_solver.
Qed.
End ExtractionFacts.

(** A body the code reads as a sitemap although it is no sitemap in the
    specification's sense: an XHTML page loses its anchor, and so does an
    HTML page that mentions [<urlset]. *)
Lemma sitemap_mode_without_sitemap :
  let extract := @extractLinks Lite.api Examples.parser in
  let anchors := @extractLinksFromHtml Lite.api Examples.parser in
  spec_isSitemap Examples.xhtmlPage = false
  /\ extract Examples.xhtmlPage "https://example.com/" = []
  /\ anchors Examples.xhtmlPage "https://example.com/" <> []
  /\ spec_isSitemap Examples.htmlAboutSitemaps = false
  /\ extract Examples.htmlAboutSitemaps "https://example.com/" = []
  /\ anchors Examples.htmlAboutSitemaps "https://example.com/" <> [].
Proof. vm_compute. repeat split; discriminate. Qed.

Lemma extractLinks_sitemap_mode_witness :
  isSitemap Examples.sitemap = true
  /\ map li_targetUrl (@extractLinks Lite.api Examples.parser Examples.sitemap "https://example.com/")
     = ["https://example.com/a"; "https://example.com/b"].
Proof.
  pose proof (@extractLinks_sitemap_mode Lite.api Examples.parser
                Examples.sitemap "https://example.com/") as (_ & Hmode & _).
  split; [reflexivity|]. rewrite Hmode by reflexivity. vm_compute. reflexivity.
Defined.

(* --------------------------------------------------------------------- *)
(** ** Redirect chains *)

Section RedirectFacts.
Context `{URLApi} `{Platform}.

Lemma redirectsFor_fewer n url w :
  redirectsFor (S n) url w = true -> redirectsFor n url w = true.
Proof.
  revert url w. induction n as [|n IH]; intros url w; [reflexivity|].
  intros Hrun. change (redirectsFor (S (S n)) url w) with
    (match fetch HEAD url (headInit 10000) w with
     | (Returned response, w') =>
         (300 <=? resp_status response) && (resp_status response <? 400)
         && match resp_location response with
            | Some location =>
                truthy location
                && match new_URL location (Some url) with
                   | Some next => redirectsFor (S n) (href next) w'
                   | None => false
                   end
            | None => false
            end
     | (Threw _, _) => false
     end) in Hrun.
  simpl. destruct (fetch HEAD url (headInit 10000) w) as [[response|e] w']; [|discriminate].
  destruct ((300 <=? resp_status response) && (resp_status response <? 400)); [|discriminate].
  destruct (resp_location response) as [location|]; [|discriminate].
  destruct (truthy location); [|discriminate].
  destruct (new_URL location (Some url)) as [next|]; [|discriminate].
  simpl in *. apply IH, Hrun.
Qed.

Lemma redirectLoop_exhausted n chain url env :
  redirectsFor n url (world env) = true ->
  let run := redirectLoop n 10000 chain url env in
  ri_finalStatus (fst run) = 0
  /\ ri_error (fst run) = Some "Too many redirects"
  /\ exists more t,
       ri_chain (fst run) = chain ++ more
       /\ length more = n
       /\ trace (snd run) = trace env ++ t
       /\ Forall2 answeredBy t more
       /\ Forall isRedirect more
       /\ (forall step, head more = Some step -> rs_url step = url)
       /\ (forall i ev step, t !! i = Some ev -> more !! S i = Some step -> follows ev step).
Proof.
  revert chain url env. induction n as [|n IH]; intros chain url env Hrun.
  - simpl. split; [reflexivity|]. split; [reflexivity|].
    exists [], []. rewrite !app_nil_r.
    repeat split; try constructor; intros; discriminate.
  - simpl in Hrun. simpl. unfold doFetch.
    destruct (fetch HEAD url (headInit 10000) (world env)) as [[response|e] w'] eqn:Ef;
      [|discriminate].
    destruct ((300 <=? resp_status response) && (resp_status response <? 400)) eqn:E3xx;
      [|discriminate].
    destruct (resp_location response) as [location|] eqn:Eloc; [|discriminate].
    destruct (truthy location); [|discriminate].
    destruct (new_URL location (Some url)) as [next|] eqn:Enext; [|discriminate].
    simpl in Hrun.
    set (step := {| rs_url := url; rs_status := resp_status response |}).
    set (env1 := resume w' (EvFetch HEAD url (Returned response)) env).
    destruct (IH (chain ++ [step]) (href next) env1 Hrun)
      as (Hs & He & more & t & Hchain & Hlen & Htrace & Hans & Hred & Hhead & Hfollow).
    split; [exact Hs|]. split; [exact He|].
    exists (step :: more), (EvFetch HEAD url (Returned response) :: t).
    split; [rewrite Hchain, <- app_assoc; reflexivity|].
    split; [simpl; rewrite Hlen; reflexivity|].
    split; [rewrite Htrace; unfold env1; simpl; rewrite <- app_assoc; reflexivity|].
    split; [constructor; [exists response; split; reflexivity | exact Hans]|].
    split.
    { constructor; [|exact Hred].
      apply andb_true_iff in E3xx as [E1 E2]. apply Z.leb_le in E1. apply Z.ltb_lt in E2.
      split; assumption. }
    split; [intros s [= <-]; reflexivity|].
    intros [|i] ev s Hev Hs'; simpl in Hev, Hs'.
    + injection Hev as <-. exists url, response, location, next.
      repeat split; try assumption. apply Hhead. destruct more; [discriminate|].
      simpl in *. exact Hs'.
    + exact (Hfollow i ev s Hev Hs').
Qed.

(** C5.  When the resolution of a URL meets eleven redirect responses in
    a row, [getRedirectChain] gives final status 0, the error
    [Too many redirects] and a chain of ten steps, one for each hop it
    made: it sent ten HEAD requests and no eleventh; the steps are, in
    order, the URLs requested with the status each was answered with, a
    redirect every time; the first is the URL asked for, and each next
    one is the [Location] of the answer before, read against the URL
    that was requested. *)
Theorem getRedirectChain_too_many (url : string) (env : Env) :
  redirectsFor 11 url (world env) = true ->
  let run := getRedirectChain url env in
  ri_finalStatus (fst run) = 0
  /\ ri_error (fst run) = Some "Too many redirects"
  /\ length (ri_chain (fst run)) = 10%nat
  /\ (forall step, head (ri_chain (fst run)) = Some step -> rs_url step = url)
  /\ Forall isRedirect (ri_chain (fst run))
  /\ exists t,
       trace (snd run) = trace env ++ t
       /\ Forall2 answeredBy t (ri_chain (fst run))
       /\ (forall i ev step,
             t !! i = Some ev -> ri_chain (fst run) !! S i = Some step -> follows ev step).
Proof.
  intros Hrun. apply redirectsFor_fewer in Hrun.
  destruct (redirectLoop_exhausted 10 [] url env Hrun)
    as (Hs & He & more & t & Hchain & Hlen & Htrace & Hans & Hred & Hhead & Hfollow).
  change (getRedirectChain url env) with (redirectLoop 10 10000 [] url env). cbv zeta.
  change ([] ++ more) with more in Hchain. rewrite Hchain.
  split; [exact Hs|]. split; [exact He|]. split; [exact Hlen|].
  split; [exact Hhead|]. split; [exact Hred|].
  exists t. split; [exact Htrace|]. split; [exact Hans | exact Hfollow].
Qed.
End RedirectFacts.

Lemma getRedirectChain_too_many_witness :
  let env := @Examples.fresh Examples.redirectForever 0%nat in
  let run := @getRedirectChain Lite.api Examples.redirectForever
               "http://example.com/start" env in
  @redirectsFor Lite.api Examples.redirectForever 11 "http://example.com/start" 0%nat = true
  /\ ri_finalStatus (fst run) = 0
  /\ ri_error (fst run) = Some "Too many redirects"
  /\ length (ri_chain (fst run)) = 10%nat
  /\ Forall isRedirect (ri_chain (fst run)).
Proof.
  split; [vm_compute; reflexivity|].
  destruct (@getRedirectChain_too_many Lite.api Examples.redirectForever
              "http://example.com/start" (@Examples.fresh Examples.redirectForever 0%nat))
    as (Hs & He & Hlen & _ & Hred & _); [vm_compute; reflexivity|].
  repeat split; assumption.
Defined.

(* --------------------------------------------------------------------- *)
(** ** The retrying fetcher *)

(* Comparisons of numbers are left folded. *)
Arguments numLeb : simpl never.
Arguments numLtb : simpl never.




(** What a reading of the trace, event by event, makes of the schedule of
    [fetchWithRetry], when it skips the pauses. *)
Lemma omap_retrySchedule {A} (g : Event -> option A) url attempt answers :
  (forall ms, g (EvSleep ms) = None) ->
  omap g (retrySchedule url attempt answers) = omap (fun a => g (EvFetch GET url a)) answers.
Proof.
  intros Hsleep. revert attempt.
  induction answers as [|a [|b rest] IH]; intros attempt; [reflexivity..|].
  change (retrySchedule url attempt (a :: b :: rest))
    with ([EvFetch GET url a; EvSleep (backoff attempt)]
            ++ retrySchedule url (attempt + 1) (b :: rest)).
  rewrite omap_app, IH. simpl. rewrite Hsleep. destruct (g (EvFetch GET url a)); reflexivity.
Qed.

Lemma omap_lastPause {A} (g : Event -> option A) r attempt answers :
  (forall ms, g (EvSleep ms) = None) -> omap g (lastPause r attempt answers) = [].
Proof.
  intros Hsleep. unfold lastPause. destruct (last answers) as [a|]; [|reflexivity].
  destruct (retryable a && numLtb (ofInt attempt) r); [|reflexivity].
  simpl. rewrite Hsleep. reflexivity.
Qed.

Lemma omap_none {A B} (l : list A) : omap (fun _ => @None B) l = [].
Proof. induction l; simpl; auto. Qed.

Lemma omap_const {A B} (b : B) (l : list A) : omap (fun _ => Some b) l = repeat b (length l).
Proof. induction l as [|x l IH]; [reflexivity|]. cbn. f_equal. exact IH. Qed.

Section RetryFacts.
Context `{Platform}.

(** The loop ends when the fuel outlasts the retry count. *)
Lemma retryLoop_total fuel attempt lastError url settings env :
  numLeb (ofInt (attempt + Z.of_nat fuel)) (retries settings) = false ->
  is_Some (retryLoop fuel attempt lastError url settings env).
Proof.
  revert attempt lastError env. induction fuel as [|k IH]; intros attempt lastError env Hout.
  - cbn [retryLoop]. replace (attempt + Z.of_nat 0) with attempt in Hout by lia.
    rewrite Hout. eauto.
  - assert (Hnext : numLeb (ofInt (attempt + 1 + Z.of_nat k)) (retries settings) = false).
    { replace (attempt + 1 + Z.of_nat k) with (attempt + Z.of_nat (S k)) by lia. exact Hout. }
    cbn [retryLoop]. destruct (numLeb (ofInt attempt) (retries settings)); [|eauto].
    destruct (doFetch GET url (getInit settings) env) as [[response|e] env1].
    + destruct ((500 <=? resp_status response) && numLtb (ofInt attempt) (retries settings));
        [apply IH, Hnext | eauto].
    + destruct (numLtb (ofInt attempt) (retries settings)); apply IH, Hnext.
Qed.

(** What the loop comes to, entered with the attempt index [attempt]:
    the answers to its requests, its schedule, which attempts are made,
    and what comes out. *)
Lemma retryLoop_run fuel attempt lastError url settings env out env' :
  retryLoop fuel attempt lastError url settings env = Some (out, env') ->
  exists answers,
    trace env' = trace env ++ retrySchedule url attempt answers
                 ++ lastPause (retries settings)
                      (attempt + Z.of_nat (length answers) - 1) answers
    /\ (length answers <= fuel)%nat
    /\ (forall i a, answers !! i = Some a ->
          numLeb (ofInt (attempt + Z.of_nat i)) (retries settings) = true
          /\ ((S i < length answers)%nat
              <-> retryable a = true
                  /\ numLeb (ofInt (attempt + Z.of_nat i + 1)) (retries settings) = true))
    /\ match last answers with
       | Some (Returned response) =>
           if (500 <=? resp_status response)
              && numLtb (ofInt (attempt + Z.of_nat (length answers) - 1)) (retries settings)
           then out = Threw (JsError "Error"
                               ("Server error: " +:+ pretty (resp_status response)))
           else out = Returned (response, attempt + Z.of_nat (length answers) - 1)
       | Some (Threw e) => out = Threw (asError e)
       | None => numLeb (ofInt attempt) (retries settings) = false /\ out = Threw lastError
       end.
Proof.
  revert attempt lastError env out env'.
  induction fuel as [|k IH]; intros attempt lastError env out env'; cbn [retryLoop];
    destruct (numLeb (ofInt attempt) (retries settings)) eqn:Eguard.
  - discriminate.
  - intros [= <- <-]. exists []. simpl. rewrite app_nil_r.
    repeat split; auto; intros; discriminate.
  - (* one more attempt *)
    unfold doFetch.
    destruct (fetch GET url (getInit settings) (world env)) as [a w1] eqn:Ef.
    set (env1 := resume w1 (EvFetch GET url a) env).
    assert (Hone : forall out1,
              (retryable a && numLtb (ofInt attempt) (retries settings) = false) ->
              match a with
              | Returned response => out1 = Returned (response, attempt)
              | Threw e => out1 = Threw (asError e)
              end ->
              (retryable a = true ->
               numLeb (ofInt (attempt + 1)) (retries settings) = false) ->
              exists answers,
                trace env1 = trace env ++ retrySchedule url attempt answers
                             ++ lastPause (retries settings)
                                  (attempt + Z.of_nat (length answers) - 1) answers
                /\ (length answers <= S k)%nat
                /\ (forall i b, answers !! i = Some b ->
                      numLeb (ofInt (attempt + Z.of_nat i)) (retries settings) = true
                      /\ ((S i < length answers)%nat
                          <-> retryable b = true
                              /\ numLeb (ofInt (attempt + Z.of_nat i + 1)) (retries settings)
                                 = true))
                /\ match last answers with
                   | Some (Returned response) =>
                       if (500 <=? resp_status response)
                          && numLtb (ofInt (attempt + Z.of_nat (length answers) - 1))
                               (retries settings)
                       then out1 = Threw (JsError "Error"
                                            ("Server error: " +:+ pretty (resp_status response)))
                       else out1 = Returned (response, attempt + Z.of_nat (length answers) - 1)
                   | Some (Threw e) => out1 = Threw (asError e)
                   | None => true = false /\ out1 = Threw lastError
                   end).
    { intros out1 Hstop Hout Hlast. exists [a].
      replace (attempt + Z.of_nat (length [a]) - 1) with attempt by (simpl; lia).
      unfold lastPause. cbn [last retrySchedule]. rewrite Hstop. simpl.
      split; [reflexivity|]. split; [lia|]. split.
      - intros [|i] b Hb; simpl in Hb; [|destruct i; discriminate]. injection Hb as <-.
        replace (attempt + Z.of_nat 0) with attempt by lia.
        split; [exact Eguard|]. split; [simpl; lia|].
        intros [Hr Hnext]. rewrite (Hlast Hr) in Hnext. discriminate.
      - destruct a as [response|e]; [|exact Hout].
        simpl in Hstop. rewrite Hstop. exact Hout. }
    assert (Hmore : forall lastError1 env2 out1 env1',
              retryable a = true ->
              trace env2 = trace env1
                           ++ (if numLtb (ofInt attempt) (retries settings)
                               then [EvSleep (backoff attempt)] else []) ->
              lastError1 = match a with
                           | Returned response =>
                               JsError "Error"
                                 ("Server error: " +:+ pretty (resp_status response))
                           | Threw e => asError e
                           end ->
              (match a with
               | Returned _ => numLtb (ofInt attempt) (retries settings) = true
               | Threw _ => True
               end) ->
              retryLoop k (attempt + 1) lastError1 url settings env2 = Some (out1, env1') ->
              exists answers,
                trace env1' = trace env ++ retrySchedule url attempt answers
                              ++ lastPause (retries settings)
                                   (attempt + Z.of_nat (length answers) - 1) answers
                /\ (length answers <= S k)%nat
                /\ (forall i b, answers !! i = Some b ->
                      numLeb (ofInt (attempt + Z.of_nat i)) (retries settings) = true
                      /\ ((S i < length answers)%nat
                          <-> retryable b = true
                              /\ numLeb (ofInt (attempt + Z.of_nat i + 1)) (retries settings)
                                 = true))
                /\ match last answers with
                   | Some (Returned response) =>
                       if (500 <=? resp_status response)
                          && numLtb (ofInt (attempt + Z.of_nat (length answers) - 1))
                               (retries settings)
                       then out1 = Threw (JsError "Error"
                                            ("Server error: " +:+ pretty (resp_status response)))
                       else out1 = Returned (response, attempt + Z.of_nat (length answers) - 1)
                   | Some (Threw e) => out1 = Threw (asError e)
                   | None => true = false /\ out1 = Threw lastError
                   end).
    { intros lastError1 env2 out1 env1' Hra Henv2 Hlast1 Hbelow Hrec.
      destruct (IH _ _ _ _ _ Hrec) as (rest & Htrace & Hlen & Hidx & Hres).
      exists (a :: rest).
      assert (Hpause : forall b rest',
                rest = b :: rest' -> numLtb (ofInt attempt) (retries settings) = true).
      { intros b rest' ->. destruct (Hidx 0%nat b eq_refl) as [Hb _].
        apply numLeb_next. replace (attempt + 1 + Z.of_nat 0) with (attempt + 1) in Hb by lia.
        exact Hb. }
      split.
      { rewrite Htrace, Henv2. unfold env1, resume. cbn [trace].
        destruct rest as [|b rest'].
        - replace (attempt + Z.of_nat (length [a]) - 1) with attempt by (simpl; lia).
          unfold lastPause. cbn [last retrySchedule length]. rewrite Hra. simpl.
          rewrite <- !app_assoc. simpl.
          destruct (numLtb (ofInt attempt) (retries settings)); reflexivity.
        - rewrite (Hpause b rest' eq_refl).
          replace (attempt + Z.of_nat (length (a :: b :: rest')) - 1)
            with (attempt + 1 + Z.of_nat (length (b :: rest')) - 1)
            by (cbn [length]; lia).
          change (retrySchedule url attempt (a :: b :: rest'))
            with (EvFetch GET url a :: EvSleep (backoff attempt)
                    :: retrySchedule url (attempt + 1) (b :: rest')).
          unfold lastPause. change (last (a :: b :: rest')) with (last (b :: rest')).
          rewrite <- !app_assoc. reflexivity. }
      split; [simpl; lia|]. split.
      { intros [|i] b Hb; simpl in Hb.
        - injection Hb as <-. replace (attempt + Z.of_nat 0) with attempt by lia.
          split; [exact Eguard|]. destruct rest as [|c rest'].
          + split; [simpl; lia|]. intros [_ Hnext]. simpl in Hres.
            destruct Hres as [Hno _]. congruence.
          + split; [|simpl; lia]. intros _. split; [exact Hra|].
            destruct (Hidx 0%nat c eq_refl) as [Hc _].
            replace (attempt + 1 + Z.of_nat 0) with (attempt + 1) in Hc by lia. exact Hc.
        - destruct (Hidx i b Hb) as [Hle Hiff].
          replace (attempt + Z.of_nat (S i)) with (attempt + 1 + Z.of_nat i) by lia.
          split; [exact Hle|]. simpl. rewrite <- Hiff. lia. }
      rewrite last_cons. destruct (last rest) as [c|] eqn:El.
      - replace (attempt + Z.of_nat (length (a :: rest)) - 1)
          with (attempt + 1 + Z.of_nat (length rest) - 1) by (cbn [length]; lia).
        exact Hres.
      - apply last_None in El. subst rest. simpl in Hres. destruct Hres as [_ ->].
        replace (attempt + Z.of_nat (length [a]) - 1) with attempt by (simpl; lia).
        subst lastError1. destruct a as [response|e]; [|reflexivity].
        simpl in Hra. rewrite Hra, Hbelow. reflexivity. }
    destruct a as [response|e].
    + destruct ((500 <=? resp_status response) && numLtb (ofInt attempt) (retries settings))
        eqn:Eretry.
      * apply andb_true_iff in Eretry as [Es Eb]. intros Hrec.
        refine (Hmore _ _ _ _ Es _ eq_refl Eb Hrec).
        rewrite Eb. reflexivity.
      * intros [= <- <-]. apply Hone; [exact Eretry | reflexivity |].
        simpl. intros Es. rewrite Es in Eretry. simpl in Eretry.
        destruct (numLeb (ofInt (attempt + 1)) (retries settings)) eqn:En; [|reflexivity].
        apply numLeb_next in En. congruence.
    + destruct (numLtb (ofInt attempt) (retries settings)) eqn:Eb.
      * intros Hrec.
        refine (Hmore _ _ _ _ eq_refl _ eq_refl I Hrec).
        reflexivity.
      * intros Hrec.
        assert (En : numLeb (ofInt (attempt + 1)) (retries settings) = false).
        { destruct (numLeb (ofInt (attempt + 1)) (retries settings)) eqn:En; [|reflexivity].
          apply numLeb_next in En. congruence. }
        destruct k as [|k']; cbn [retryLoop] in Hrec; rewrite En in Hrec;
          injection Hrec as <- <-; (apply Hone; [reflexivity | reflexivity | auto]).
  - intros [= <- <-]. exists []. simpl. rewrite app_nil_r.
    repeat split; auto; try lia; intros; discriminate.
Qed.

Lemma fetchWithRetry_total fuel url settings env :
  numLeb (ofNat fuel) (retries settings) = false ->
  is_Some (fetchWithRetry fuel url settings env).
Proof. intros Hout. apply retryLoop_total. exact Hout. Qed.

End RetryFacts.


(** With a retry count of one half, the one attempt is the last: its 500
    is followed by the pause of 1000 ms all the same, and is then thrown
    as an error, not returned. *)
Lemma fractional_retries_pause_and_throw :
  let run := @fetchWithRetry Examples.alwaysDown 5 "http://example.com/"
               (Examples.settingsOf (JFin (1 # 2)))
               (@Examples.fresh Examples.alwaysDown 0%nat) in
  (fun r => @trace Examples.alwaysDown (snd r)) <$> run
  = Some [EvFetch GET "http://example.com/" (Scripted.answer 500); EvSleep (JFin 1000)]
  /\ fst <$> run = Some (Threw (JsError "Error" "Server error: 500")).
Proof. vm_compute. split; reflexivity. Qed.

(** With an infinite retry count against a server that always answers
    500 the loop never ends: no amount of fuel gives a result. *)
Lemma infinite_retries_never_return (fuel : nat) :
  @fetchWithRetry Examples.alwaysDown fuel "http://example.com/"
    (Examples.settingsOf JPosInf) (@Examples.fresh Examples.alwaysDown 0%nat) = None.
Proof.
  unfold fetchWithRetry.
  generalize (@Examples.fresh Examples.alwaysDown 0%nat). generalize JsNonError.
  generalize 0. induction fuel as [|k IH]; intros attempt lastError env; [reflexivity|].
  cbn [retryLoop]. change (numLeb (ofInt attempt) (retries (Examples.settingsOf JPosInf)))
    with true. cbv iota.
  unfold doFetch. cbn [fetch Examples.alwaysDown Scripted.web].
  change (numLtb (ofInt attempt) (retries (Examples.settingsOf JPosInf))) with true.
  cbn [Scripted.answer resp_status Z.leb Z.compare Pos.compare Pos.compare_cont andb].
  apply IH.
Qed.


(* --------------------------------------------------------------------- *)
(** ** Strings *)

Lemma append_cons (x : ascii) (a b : string) : String x a +:+ b = String x (a +:+ b).
Proof. reflexivity. Qed.

Lemma append_nil_l (b : string) : "" +:+ b = b.
Proof. reflexivity. Qed.

Lemma append_assoc (a b c : string) : (a +:+ b) +:+ c = a +:+ (b +:+ c).
Proof.
  induction a as [|x a IH]; [reflexivity|].
  rewrite !append_cons, IH. reflexivity.
Qed.

Lemma append_nil_r (a : string) : a +:+ "" = a.
Proof.
  induction a as [|x a IH]; [reflexivity|].
  rewrite append_cons, IH. reflexivity.
Qed.

Lemma snoc_inv (a b s : string) (c : ascii) :
  b <> EmptyString -> a +:+ b = s +:+ String c "" ->
  exists b', b = b' +:+ String c "" /\ s = a +:+ b'.
Proof.
  intros Hb. revert s. induction a as [|x a IH]; intros s E.
  - exists s. split; [exact E | reflexivity].
  - destruct s as [|y s]; rewrite !append_cons in E.
    + rewrite append_nil_l in E. injection E as _ E.
      destruct a; [contradiction | discriminate].
    + injection E as -> E. destruct (IH s E) as (b' & -> & ->).
      exists b'. split; reflexivity.
Qed.

Lemma endsWith_char (s : string) (c : ascii) :
  endsWith s (String c "") = true -> s = dropLast s +:+ String c "".
Proof.
  induction s as [|x s IH]; simpl; [discriminate|].
  intros E. apply orb_true_iff in E as [E|E].
  - destruct s as [|y s]; [|destruct (Ascii.eqb x c); discriminate].
    destruct (Ascii.eqb_spec x c) as [->|]; [reflexivity | discriminate].
  - destruct s as [|y s]; [discriminate|].
    change (dropLast (String x (String y s))) with (String x (dropLast (String y s))).
    rewrite append_cons. f_equal. apply IH, E.
Qed.

Lemma endsWith_snoc (s : string) (c : ascii) : endsWith (s +:+ String c "") (String c "") = true.
Proof.
  induction s as [|x s IH].
  - simpl. rewrite Ascii.eqb_refl. reflexivity.
  - rewrite append_cons. simpl. rewrite IH. apply orb_true_r.
Qed.

Lemma dropLast_snoc (s : string) (c : ascii) : dropLast (s +:+ String c "") = s.
Proof.
  induction s as [|x s IH]; [reflexivity|].
  rewrite append_cons. simpl. rewrite IH.
  destruct s; reflexivity.
Qed.

(* --------------------------------------------------------------------- *)
(** ** URL normalization *)

Section NormalizeFacts.
Context `{URLApi}.


End NormalizeFacts.


(* --------------------------------------------------------------------- *)
(** ** The plain URL class keeps the laws *)

Module LiteLaws.
Import Lite.

Ltac by_ascii :=
  let c := fresh "c" in
  intros c; destruct c as [[] [] [] [] [] [] [] []];
  vm_compute; intros; try reflexivity; try discriminate.

Ltac split_andb :=
  repeat match goal with
         | H : _ && _ = true |- _ => apply andb_true_iff in H as [? ?]
         end.

Lemma hostChar_no_hash : forall c, hostChar c = true -> isNot "#" c = true.
Proof. by_ascii. Qed.

Lemma hostChar_no_question : forall c, hostChar c = true -> isNot "?" c = true.
Proof. by_ascii. Qed.

Lemma hostChar_no_slash : forall c, hostChar c = true -> isNot "/" c = true.
Proof. by_ascii. Qed.

Lemma hostChar_lower : forall c, hostChar c = true -> lowerChar c = c.
Proof. by_ascii. Qed.

Lemma pathChar_no_hash : forall c, pathChar c = true -> isNot "#" c = true.
Proof. by_ascii. Qed.

Lemma pathChar_no_question : forall c, pathChar c = true -> isNot "?" c = true.
Proof. by_ascii. Qed.

Lemma queryChar_no_hash : forall c, queryChar c = true -> isNot "#" c = true.
Proof. by_ascii. Qed.

Lemma allChars_app (ok : ascii -> bool) (a b : string) :
  allChars ok (a +:+ b) = allChars ok a && allChars ok b.
Proof.
  induction a as [|x a IH]; [reflexivity|].
  rewrite append_cons. simpl. rewrite IH. apply andb_assoc.
Qed.

Lemma allChars_weaken (P Q : ascii -> bool) (s : string) :
  (forall c, P c = true -> Q c = true) -> allChars P s = true -> allChars Q s = true.
Proof.
  intros HPQ. induction s as [|x s IH]; simpl; [reflexivity|].
  intros E. apply andb_true_iff in E as [Ex Es].
  rewrite (HPQ x Ex), (IH Es). reflexivity.
Qed.

Lemma cut_hit (c : ascii) (a b : string) :
  allChars (isNot c) a = true -> cut c (a +:+ String c b) = (a, Some b).
Proof.
  induction a as [|x a IH]; intros E.
  - rewrite append_nil_l. simpl. rewrite Ascii.eqb_refl. reflexivity.
  - rewrite append_cons. simpl in *. apply andb_true_iff in E as [Ex Ea].
    unfold isNot in Ex. apply negb_true_iff in Ex. rewrite Ex, (IH Ea). reflexivity.
Qed.

Lemma cut_miss (c : ascii) (a : string) :
  allChars (isNot c) a = true -> cut c a = (a, None).
Proof.
  induction a as [|x a IH]; intros E; [reflexivity|].
  simpl in *. apply andb_true_iff in E as [Ex Ea].
  unfold isNot in Ex. apply negb_true_iff in Ex. rewrite Ex, (IH Ea). reflexivity.
Qed.

Lemma cut_optPart (c : ascii) (a : string) (o : option string) :
  allChars (isNot c) a = true -> cut c (a +:+ optPart (String c "") o) = (a, o).
Proof.
  intros E. destruct o as [q|]; simpl.
  - rewrite append_cons, append_nil_l. apply cut_hit, E.
  - rewrite append_nil_r. apply cut_miss, E.
Qed.

Lemma toLowerCase_host (h : string) : allChars hostChar h = true -> toLowerCase h = h.
Proof.
  induction h as [|x h IH]; simpl; [reflexivity|].
  intros E. apply andb_true_iff in E as [Ex Eh].
  rewrite (hostChar_lower x Ex), (IH Eh). reflexivity.
Qed.

Lemma noDotSegments_unslash (st : SegState) (p : string) :
  noDotSegments st (p +:+ "/") = true -> noDotSegments st p = true.
Proof.
  revert st. induction p as [|x p IH]; intros st.
  - rewrite append_nil_l. simpl. rewrite andb_true_r. auto.
  - rewrite append_cons. simpl. destruct (Ascii.eqb x "/").
    + intros E. apply andb_true_iff in E as [-> E]. apply IH, E.
    + apply IH.
Qed.

Lemma serialize_shape (r : Url) :
  serialize r
  = ((origin r +:+ u_path r) +:+ optPart "?" (u_query r)) +:+ optPart "#" (u_fragment r).
Proof. unfold serialize. rewrite !append_assoc. reflexivity. Qed.

Lemma origin_shape (r : Url) (rest : string) :
  origin r +:+ rest
  = schemeName (u_scheme r) +:+ String ":" (String "/" (String "/" (u_host r +:+ rest))).
Proof. unfold origin. rewrite !append_assoc, !append_cons, append_nil_l. reflexivity. Qed.

Lemma origin_path_clean (c : ascii) (r : Url) :
  c = "#"%char \/ c = "?"%char -> wf r = true ->
  allChars (isNot c) (origin r +:+ u_path r) = true.
Proof.
  intros Hc Hwf. unfold wf, hostOk, pathOk in Hwf. split_andb.
  rewrite origin_shape, allChars_app. simpl. rewrite allChars_app.
  destruct Hc as [-> | ->].
  - rewrite (allChars_weaken _ _ (u_host r) hostChar_no_hash) by assumption.
    rewrite (allChars_weaken _ _ (u_path r) pathChar_no_hash) by assumption.
    destruct (u_scheme r); reflexivity.
  - rewrite (allChars_weaken _ _ (u_host r) hostChar_no_question) by assumption.
    rewrite (allChars_weaken _ _ (u_path r) pathChar_no_question) by assumption.
    destruct (u_scheme r); reflexivity.
Qed.

Lemma parseAbsolute_wf (s : string) (r : Url) : parseAbsolute s = Some r -> wf r = true.
Proof.
  unfold parseAbsolute. intros E.
  repeat case_match; simplify_eq; assumption.
Qed.

Lemma parse_wf (s : string) (b : option string) (r : Url) : parse s b = Some r -> wf r = true.
Proof.
  unfold parse. intros E.
  repeat case_match; simplify_eq; eauto using parseAbsolute_wf.
Qed.

Lemma parseAbsolute_serialize (r : Url) : wf r = true -> parseAbsolute (serialize r) = Some r.
Proof.
  intros Hwf. pose proof Hwf as Hparts. unfold wf, hostOk, pathOk in Hparts. split_andb.
  unfold parseAbsolute. rewrite serialize_shape.
  rewrite cut_optPart.
  2:{ rewrite allChars_app, (origin_path_clean "#" r) by auto. simpl.
      destruct (u_query r) as [q|]; [|reflexivity].
      change (optPart "?" (Some q)) with (String "?" q). simpl.
      apply (allChars_weaken _ _ _ queryChar_no_hash). assumption. }
  rewrite cut_optPart by (apply origin_path_clean; auto).
  rewrite origin_shape, cut_hit by (destruct (u_scheme r); reflexivity).
  replace (parseScheme (toLowerCase (schemeName (u_scheme r)))) with (Some (u_scheme r))
    by (destruct (u_scheme r); reflexivity).
  destruct (u_path r) as [|c p] eqn:Epath; [discriminate|].
  assert (c = "/"%char) as ->.
  { unfold startsWith in *. simpl in *.
    destruct (Ascii.eqb_spec "/"%char c); [auto|].
    match goal with H : (if _ then _ else false) = true |- _ => revert H end.
    destruct c as [[] [] [] [] [] [] [] []]; simpl; try discriminate; auto. }
  rewrite cut_hit by (apply (allChars_weaken _ _ _ hostChar_no_slash); assumption).
  rewrite toLowerCase_host by assumption. simpl. rewrite <- Epath.
  replace {| u_scheme := u_scheme r; u_host := u_host r; u_path := u_path r;
             u_query := u_query r; u_fragment := u_fragment r |} with r by (destruct r; reflexivity).
  rewrite Hwf. reflexivity.
Qed.

Lemma parse_serialize (r : Url) : wf r = true -> parse (serialize r) None = Some r.
Proof. intros Hwf. unfold parse. rewrite (parseAbsolute_serialize r Hwf). reflexivity. Qed.
Lemma snoc_inj (a s : string) (c d : ascii) :
  a +:+ String c "" = s +:+ String d "" -> a = s /\ c = d.
Proof.
  revert s. induction a as [|x a IH]; intros [|y s] E;
    rewrite ?append_cons, ?append_nil_l in E.
  - injection E as ->. auto.
  - injection E as _ E. destruct s; discriminate.
  - injection E as _ E. destruct a; discriminate.
  - injection E as -> E. destruct (IH s E) as [-> ->]. auto.
Qed.

Lemma startsWith_cons (x : ascii) (s : string) :
  startsWith (String x s) "/" = Ascii.eqb x "/".
Proof.
  unfold startsWith. cbn [String.prefix].
  destruct (ascii_dec "/" x) as [<-|Hne]; [destruct s; reflexivity|].
  symmetry. apply Ascii.eqb_neq. congruence.
Qed.

Ltac norm_append :=
  repeat first [ rewrite append_assoc | rewrite append_cons
               | rewrite append_nil_l | rewrite append_nil_r ].

Lemma serialize_unslash (r : Url) (s : string) :
  wf r = true -> withoutFragment r = r -> serialize r = s +:+ "/" -> u_path r <> "/" ->
  exists r', parse s None = Some r' /\ withoutFragment r' = r' /\ serialize r' = s.
Proof.
  destruct r as [scheme host path query fragment]. unfold withoutFragment. simpl.
  intros Hwf [= <-] Eser Hroot.
  pose proof Hwf as Hparts. unfold wf, hostOk, pathOk in Hparts. simpl in Hparts. split_andb.
  assert (Hdone : forall r', wf r' = true -> u_fragment r' = None -> serialize r' = s ->
            exists r'', parse s None = Some r'' /\ withoutFragment r'' = r'' /\ serialize r'' = s).
  { intros r' Hwf' Hfrag <-. exists r'. split; [apply parse_serialize, Hwf'|].
    split; [|reflexivity]. destruct r'; simpl in *; subst; reflexivity. }
  set (front := schemeName scheme +:+ "://" +:+ host).
  destruct query as [q|].
  - assert (Eq : (front +:+ path +:+ "?") +:+ q = s +:+ "/").
    { rewrite <- Eser. unfold serialize, origin, optPart, front. simpl.
      norm_append. reflexivity. }
    destruct q as [|x q].
    + rewrite append_nil_r, <- !append_assoc in Eq. apply snoc_inj in Eq as [_ [=]].
    + apply snoc_inv in Eq as (q' & Eq & ->); [|discriminate].
      apply (Hdone {| u_scheme := scheme; u_host := host; u_path := path;
                      u_query := Some q'; u_fragment := None |}); [|reflexivity|].
      * unfold wf, hostOk, pathOk. simpl.
        match goal with H : optOk (Some _) = true |- _ =>
          rewrite Eq in H; unfold optOk in H; rewrite allChars_app in H;
          apply andb_true_iff in H as [Hq _] end.
        repeat (apply andb_true_iff; split); try assumption; reflexivity.
      * unfold serialize, origin, optPart, front. simpl. norm_append. reflexivity.
  - assert (Ep : front +:+ path = s +:+ "/").
    { rewrite <- Eser. unfold serialize, origin, optPart, front. simpl.
      norm_append. reflexivity. }
    apply snoc_inv in Ep as (path' & Epath & ->); [|intros ->; discriminate].
    apply (Hdone {| u_scheme := scheme; u_host := host; u_path := path';
                    u_query := None; u_fragment := None |}); [|reflexivity|].
    + unfold wf, hostOk, pathOk. simpl. subst path.
      match goal with H : allChars pathChar _ = true |- _ =>
        rewrite allChars_app in H; apply andb_true_iff in H as [Hp _] end.
      match goal with H : noDotSegments _ _ = true |- _ =>
        apply noDotSegments_unslash in H end.
      repeat (apply andb_true_iff; split); try assumption; try reflexivity.
      destruct path' as [|x path']; [exfalso; apply Hroot; reflexivity|].
      match goal with H : startsWith _ _ = true |- _ => revert H end.
      rewrite append_cons, !startsWith_cons. auto.
    + unfold serialize, origin, optPart, front. simpl. norm_append. reflexivity.
Qed.

Lemma laws : @URLLaws Lite.api.
Proof.
  constructor. intros u b n. unfold normalizeUrl. cbn [new_URL href pathname clearHash api].
  destruct (parse u b) as [p0|] eqn:Ep; [|discriminate].
  assert (Hwf : wf (withoutFragment p0) = true).
  { pose proof (parse_wf _ _ _ Ep) as Hp. unfold wf in *.
    cbn [withoutFragment u_host u_path u_query u_fragment]. split_andb.
    repeat match goal with E : _ = true |- _ => rewrite E; clear E end. reflexivity. }
  destruct (endsWith (serialize (withoutFragment p0)) "/") eqn:Eend; cbn [andb].
  - destruct (String.eqb_spec (u_path (withoutFragment p0)) "/") as [Eroot|Eroot]; cbn [negb];
      intros [= <-].
    + rewrite (parse_serialize _ Hwf). eauto.
    + destruct (serialize_unslash (withoutFragment p0)
                  (dropLast (serialize (withoutFragment p0))) Hwf eq_refl
                  (endsWith_char _ _ Eend) Eroot) as (r' & Er' & _).
      rewrite Er'. eauto.
  - intros [= <-]. rewrite (parse_serialize _ Hwf). eauto.
Qed.


Lemma base_laws : @URLBaseLaws Lite.api.
Proof.
  constructor. intros u b n c Hn _.
  destruct (@normalized_parses Lite.api laws u b n Hn) as [r Er].
  cbn [new_URL api] in *. unfold parse in *.
  destruct (parseAbsolute n); [reflexivity | discriminate Er].
Qed.
End LiteLaws.


(* --------------------------------------------------------------------- *)
(** ** The crawl loop *)

Section CrawlFacts.
Context `{URLApi} `{!URLLaws} `{CheerioApi} `{RegExpApi} `{Platform}.

Lemma normalized_parseable (u : string) (b : option string) (l : LinkInfo) :
  normalizeUrl u b = Some (li_targetUrl l) -> parseable l.
Proof. apply normalized_parses. Qed.

Lemma eachAnchor_parseable baseUrl elements seen links :
  Forall parseable links -> Forall parseable (eachAnchor baseUrl elements seen links).
Proof.
  revert seen links. induction elements as [|element rest IH]; intros seen links Hl; simpl.
  - exact Hl.
  - destruct (truthy (a_href element)); simpl; [|auto].
    destruct (skippedScheme (a_href element)); [auto|].
    destruct (normalizeUrl (a_href element) (Some baseUrl)) as [n|] eqn:En; [|auto].
    destruct (truthy n); simpl; [|auto].
    destruct (decide (n ∈ seen)); [auto|].
    apply IH, Forall_app. split; [exact Hl|].
    constructor; [|constructor]. eapply normalized_parseable. exact En.
Qed.

Lemma extractLinks_parseable (html baseUrl : string) :
  Forall parseable (extractLinks html baseUrl).
Proof.
  unfold extractLinks. destruct (isSitemap html).
  - apply eachLoc_Forall; [constructor|].
    intros text n _ Hn. eapply normalized_parseable. exact Hn.
  - apply eachAnchor_parseable. constructor.
Qed.
Lemma linkLoopEffect_stay cfg item retryCount links st :
  linkLoopEffect cfg item retryCount links st st.
Proof.
  exists [], [], []. rewrite !app_nil_r. simpl.
  repeat split; auto using sublist_nil_l, NoDup_nil_2. set_solver.
Qed.

Lemma linkLoopEffect_skip cfg item retryCount link links st st' :
  linkLoopEffect cfg item retryCount links st st' ->
  linkLoopEffect cfg item retryCount (link :: links) st st'.
Proof.
  intros (emitted & kept & added & ? & ? & ? & Hsub & ?).
  exists emitted, kept, added. repeat split; try tauto.
  apply sublist_cons, Hsub.
Qed.

(** The loop went on from [mid], where [link] had got its result [r] and
    the items [new] had joined the queue. *)
Lemma linkLoopEffect_more cfg item retryCount link links r new st mid st' :
  resultOf item retryCount r link ->
  results mid = results st ++ [r] ->
  queue mid = queue st ++ new ->
  visited mid = list_to_set (item_url <$> new) ∪ visited st ->
  atBudget cfg st = false ->
  Forall (fun it => item_depth it = item_depth item + 1
                    /\ numLtb (ofInt (item_depth item)) (maxDepth (cfg_body cfg)) = true
                    /\ item_sourceUrl it = None
                    /\ (item_url it ∉ visited st)
                    /\ li_targetUrl link = item_url it) new ->
  NoDup (item_url <$> new) ->
  (length new <= 1)%nat ->
  linkLoopEffect cfg item retryCount links mid st' ->
  linkLoopEffect cfg item retryCount (link :: links) st st'.
Proof.
  intros Hr Eres Equeue Evisited Hbudget Hnew Hdup Hone
    (emitted & kept & added & Eres' & Equeue' & Evisited' & Hsub & Hres & Hadded & Hdup'
     & Hcount & Hlen).
  exists (r :: emitted), (link :: kept), (new ++ added).
  split; [rewrite Eres', Eres, <- app_assoc; reflexivity|].
  split; [rewrite Equeue', Equeue, <- app_assoc; reflexivity|].
  split; [rewrite Evisited', Evisited, fmap_app; set_solver|].
  split; [apply sublist_skip, Hsub|].
  split; [constructor; assumption|].
  split.
  { apply Forall_app. split.
    - eapply Forall_impl; [exact Hnew|]. simpl. intros it (? & ? & ? & ? & ?).
      repeat split; auto. exists link. split; [left | assumption].
    - eapply Forall_impl; [exact Hadded|]. simpl. intros it (? & ? & ? & Hfresh & l & Hl & ?).
      repeat split; auto.
      + rewrite Evisited in Hfresh. set_solver.
      + exists l. split; [right; exact Hl | assumption]. }
  split.
  { rewrite fmap_app. apply NoDup_app. split; [exact Hdup|]. split; [|exact Hdup'].
    intros u Hu Hu'. apply list_elem_of_fmap in Hu' as (it & -> & Hit).
    rewrite Forall_forall in Hadded. destruct (Hadded it Hit) as (_ & _ & _ & Hfresh & _).
    apply Hfresh. rewrite Evisited. set_solver. }
  split.
  { intros Hnum _. apply Hcount; [exact Hnum|].
    rewrite Eres, length_app. simpl.
    replace (Z.of_nat (length (results st) + 1)) with (Z.of_nat (length (results st)) + 1)
      by lia.
    apply capped_next, numLeb_false; [exact Hnum | exact Hbudget]. }
  rewrite length_app. simpl. lia.
Qed.

Lemma linkLoop_spec cfg item retryCount links :
  Forall parseable links ->
  forall st out st',
    linkLoop cfg item retryCount links st = (out, st') ->
    out = Returned tt /\ linkLoopEffect cfg item retryCount links st st'.
Proof.
  induction 1 as [|link rest Hlink Hrest IH]; intros st out st' E; simpl in E.
  - injection E as <- <-. split; [reflexivity | apply linkLoopEffect_stay].
  - destruct (atBudget cfg st) eqn:Ebudget; simpl in E.
    { injection E as <- <-. split; [reflexivity | apply linkLoopEffect_stay]. }
    destruct (isClosed (env st)); simpl in E.
    { injection E as <- <-. split; [reflexivity | apply linkLoopEffect_stay]. }
    destruct (regexRejects cfg (li_targetUrl link)).
    { destruct (IH _ _ _ E) as [-> Heff]. split; [reflexivity | apply linkLoopEffect_skip, Heff]. }
    destruct (matchesPathFilter cfg (li_targetUrl link)); simpl in E.
    2:{ destruct (IH _ _ _ E) as [-> Heff]. split; [reflexivity | apply linkLoopEffect_skip, Heff]. }
    destruct (getRedirectChain (li_targetUrl link) (env st)) as [redirectInfo env1].
    assert (Hr : resultOf item retryCount (linkResult item link redirectInfo retryCount) link)
      by (exists redirectInfo; reflexivity).
    destruct Hlink as [target Etarget]. rewrite Etarget in E.
    match type of E with
    | (if ?c then _ else _) = _ => destruct c eqn:Efollow
    end.
    + apply andb_true_iff in Efollow as [Efollow Efresh].
      apply andb_true_iff in Efollow as [Efollow Edepth].
      apply negb_true_iff, bool_decide_eq_false in Efresh. simpl in Efresh.
      match type of E with
      | (if ?c then _ else _) = _ => destruct c
      end.
      * destruct (IH _ _ _ E) as [-> Heff]. split; [reflexivity|].
        eapply (linkLoopEffect_more _ _ _ _ _ _
                  [ {| item_url := li_targetUrl link; item_depth := item_depth item + 1;
                       item_sourceUrl := None |} ]); [exact Hr | .. | exact Heff];
          try reflexivity; try assumption.
        -- simpl. set_solver.
        -- constructor; [|constructor]. simpl. auto.
        -- simpl. apply NoDup_singleton.
      * destruct (IH _ _ _ E) as [-> Heff]. split; [reflexivity|].
        eapply (linkLoopEffect_more _ _ _ _ _ _ []); [exact Hr | .. | exact Heff];
          try reflexivity; try assumption.
        -- simpl. rewrite app_nil_r. reflexivity.
        -- simpl. set_solver.
        -- constructor.
        -- constructor.
        -- simpl. lia.
    + destruct (IH _ _ _ E) as [-> Heff]. split; [reflexivity|].
      eapply (linkLoopEffect_more _ _ _ _ _ _ []); [exact Hr | .. | exact Heff];
        try reflexivity; try assumption.
      * simpl. rewrite app_nil_r. reflexivity.
      * simpl. set_solver.
      * constructor.
      * constructor.
      * simpl. lia.
Qed.
(** What the [try] block of a page does before its link loop: the state
    is left alone but for the trace, which gets the rate-limit sleep if
    a result exists, the schedule of [fetchWithRetry] and, for a page
    that was read, the log line. *)
Lemma fetchPage_run fuel cfg item st page st2 :
  fetchPage fuel cfg item st = Some (page, st2) ->
  results st2 = results st /\ queue st2 = queue st /\ visited st2 = visited st
  /\ (forall retryCount links, page = Returned (retryCount, links) ->
        exists html, links = extractLinks html (item_url item))
  /\ exists answers post,
       trace (env st2)
       = trace (env st)
         ++ (if (0 <? length (results st))%nat then [EvSleep (cfg_delayMs cfg)] else [])
         ++ retrySchedule (item_url item) 0 answers
         ++ lastPause (retries (cfg_settings cfg)) (Z.of_nat (length answers) - 1) answers
         ++ post
       /\ (post = [] \/ exists message, post = [EvWrite "log" (PLog message "success")])
       /\ (length answers <= fuel)%nat
       /\ (forall i a, answers !! i = Some a ->
             numLeb (ofNat i) (retries (cfg_settings cfg)) = true)
       /\ (numLeb (ofInt 0) (retries (cfg_settings cfg)) = true -> answers <> []).
Proof.
  unfold fetchPage.
  set (st1 := if (0 <? length (results st))%nat then onEnv (sleep (cfg_delayMs cfg)) st else st).
  assert (E1 : results st1 = results st /\ queue st1 = queue st /\ visited st1 = visited st
               /\ trace (env st1)
                  = trace (env st)
                    ++ (if (0 <? length (results st))%nat
                        then [EvSleep (cfg_delayMs cfg)] else [])).
  { unfold st1. destruct (0 <? length (results st))%nat; simpl; rewrite ?app_nil_r; auto. }
  destruct E1 as (Eres & Equeue & Evisited & Etrace).
  destruct (fetchWithRetry fuel (item_url item) (cfg_settings cfg) (env st1))
    as [[fetched env2]|] eqn:Efetch; [|discriminate].
  unfold fetchWithRetry in Efetch.
  destruct (retryLoop_run _ _ _ _ _ _ _ _ Efetch) as (answers & Htrace & Hlen & Hidx & Hres).
  replace (0 + Z.of_nat (length answers) - 1) with (Z.of_nat (length answers) - 1)
    in Htrace by lia.
  assert (Hanswers : forall i a, answers !! i = Some a ->
            numLeb (ofNat i) (retries (cfg_settings cfg)) = true).
  { intros i a Ha. destruct (Hidx i a Ha) as [Hle _]. exact Hle. }
  assert (Hsome : numLeb (ofInt 0) (retries (cfg_settings cfg)) = true -> answers <> []).
  { intros Hguard ->. simpl in Hres. destruct Hres as [Hno _]. congruence. }
  assert (Hdone : forall post st3,
            results st3 = results st1 -> queue st3 = queue st1 -> visited st3 = visited st1 ->
            trace (env st3) = trace env2 ++ post ->
            post = [] \/ (exists message, post = [EvWrite "log" (PLog message "success")]) ->
            results st3 = results st /\ queue st3 = queue st /\ visited st3 = visited st
            /\ exists answers0 post0,
                 trace (env st3)
                 = trace (env st)
                   ++ (if (0 <? length (results st))%nat
                       then [EvSleep (cfg_delayMs cfg)] else [])
                   ++ retrySchedule (item_url item) 0 answers0
                   ++ lastPause (retries (cfg_settings cfg))
                        (Z.of_nat (length answers0) - 1) answers0
                   ++ post0
                 /\ (post0 = []
                     \/ exists message, post0 = [EvWrite "log" (PLog message "success")])
                 /\ (length answers0 <= fuel)%nat
                 /\ (forall i a, answers0 !! i = Some a ->
                       numLeb (ofNat i) (retries (cfg_settings cfg)) = true)
                 /\ (numLeb (ofInt 0) (retries (cfg_settings cfg)) = true -> answers0 <> [])).
  { intros post st3 E3r E3q E3v E3t Hpost.
    split; [congruence|]. split; [congruence|]. split; [congruence|].
    exists answers, post. split; [|auto].
    rewrite E3t, Htrace, Etrace, <- !app_assoc. reflexivity. }
  unfold readPage. destruct fetched as [[response retryCount]|e].
  - destruct (resp_text response) as [html|e]; intros [= <- <-].
    + match goal with
      | |- results ?s = _ /\ _ =>
          destruct (Hdone (if isClosed env2 then []
                           else [EvWrite "log"
                                   (PLog ("Found "
                                          +:+ pretty (length (extractLinks html (item_url item)))
                                          +:+ " links on " +:+ item_url item) "success")]) s)
            as (? & ? & ? & ?); [reflexivity | reflexivity | reflexivity | | |]
      end.
      * unfold onEnv, emit. cbn [env]. destruct (isClosed env2); cbn [trace];
          rewrite ?app_nil_r; reflexivity.
      * destruct (isClosed env2); eauto.
      * repeat split; try assumption. intros rc links [= <- <-]. eauto.
    + match goal with
      | |- results ?s = _ /\ _ =>
          destruct (Hdone [] s) as (? & ? & ? & ?); [reflexivity | reflexivity | reflexivity | | |]
      end.
      * cbn [onEnv env]. rewrite app_nil_r. reflexivity.
      * auto.
      * repeat split; try assumption. discriminate.
  - intros [= <- <-].
    match goal with
    | |- results ?s = _ /\ _ =>
        destruct (Hdone [] s) as (? & ? & ? & ?); [reflexivity | reflexivity | reflexivity | | |]
    end.
    + cbn [onEnv env]. rewrite app_nil_r. reflexivity.
    + auto.
    + repeat split; try assumption. discriminate.
Qed.

Lemma fetchPage_state fuel cfg item st page st2 :
  fetchPage fuel cfg item st = Some (page, st2) ->
  results st2 = results st /\ queue st2 = queue st /\ visited st2 = visited st
  /\ (forall retryCount links, page = Returned (retryCount, links) -> Forall parseable links).
Proof.
  intros Hpage. destruct (fetchPage_run _ _ _ _ _ _ Hpage) as (? & ? & ? & Hlinks & _).
  repeat split; try assumption.
  intros rc links Epage. destruct (Hlinks rc links Epage) as [html ->].
  apply extractLinks_parseable.
Qed.

Lemma resultOf_fields item retryCount r link :
  resultOf item retryCount r link ->
  sourceUrl r = item_url item /\ depth r = item_depth item /\ isPageError r = false
  /\ targetUrl r = li_targetUrl link.
Proof. intros [info ->]. repeat split. Qed.

Lemma linkLoopEffect_page cfg item retryCount links mid st st' :
  results mid = results st -> queue mid = tail (queue st) -> visited mid = visited st ->
  linkLoopEffect cfg item retryCount links mid st' ->
  pageEffect cfg item st st'.
Proof.
  intros Eres Equeue Evisited
    (emitted & kept & added & Eres' & Equeue' & Evisited' & Hsub & Hres & Hadded & Hdup
     & _ & Hlen).
  exists emitted, added. rewrite <- Eres, <- Equeue, <- Evisited.
  repeat split; auto.
  - right. apply Forall_forall. intros r Hr.
    destruct (proj1 (list_elem_of_lookup _ _) Hr) as [i Hi].
    destruct (Forall2_lookup_l _ _ _ _ _ Hres Hi) as (l & _ & Hrl).
    apply resultOf_fields in Hrl. tauto.
  - eapply Forall_impl; [exact Hadded|]. simpl.
    intros it (? & ? & ? & ? & l & Hl & Etarget). repeat split; auto.
    destruct (proj1 (list_elem_of_lookup _ _) Hl) as [i Hi].
    destruct (Forall2_lookup_r _ _ _ _ _ Hres Hi) as (r & Hr & Hrl).
    apply resultOf_fields in Hrl as (_ & _ & ? & Et).
    exists r. repeat split; [eapply list_elem_of_lookup_2; exact Hr | assumption | congruence].
Qed.

Lemma crawlStep_page fuel cfg item rest st st' :
  queue st = item :: rest -> crawlStep fuel cfg st = Some st' -> pageEffect cfg item st st'.
Proof.
  intros Equeue. unfold crawlStep. rewrite Equeue.
  destruct (passesFilters cfg (item_url item)).
  - unfold tryPage.
    destruct (fetchPage fuel cfg item (announce item (dequeue st))) as [[page st2]|] eqn:Epage;
      [|discriminate].
    apply fetchPage_state in Epage as (Eres & Eq & Ev & Hlinks). simpl in Eres, Eq, Ev.
    destruct page as [[retryCount links]|e].
    + destruct (linkLoop cfg item retryCount links st2) as [out st3] eqn:Eloop.
      destruct (linkLoop_spec cfg item retryCount links (Hlinks _ _ eq_refl) _ _ _ Eloop)
        as [-> Heff].
      intros [= <-]. eapply linkLoopEffect_page; eauto.
    + intros [= <-]. exists [errorResult item e], []. simpl. rewrite Eres, Eq, Ev, app_nil_r.
      repeat split; eauto using NoDup_nil_2. set_solver.
  - intros [= <-]. exists [], []. simpl. rewrite !app_nil_r.
    repeat split; eauto using NoDup_nil_2. set_solver.
Qed.

Lemma belowBudget_capped cfg (st : CrawlState) :
  belowBudget cfg st = true ->
  cfg_maxUrls cfg <> JNaN
  /\ capped (cfg_maxUrls cfg) (Z.of_nat (length (results st)))
  /\ capped (cfg_maxUrls cfg) (Z.of_nat (length (results st)) + 1).
Proof.
  unfold belowBudget, ofNat. intros Hlt.
  split; [exact (numLtb_not_NaN _ _ Hlt)|].
  pose proof (capped_next _ _ Hlt) as Hnext.
  split; [|exact Hnext]. eapply capped_mono; [|exact Hnext]. lia.
Qed.

Lemma crawlStep_budget fuel cfg st st' :
  running cfg st = true -> crawlStep fuel cfg st = Some st' ->
  capped (cfg_maxUrls cfg) (Z.of_nat (length (results st'))).
Proof.
  intros Hrun. unfold running in Hrun.
  apply andb_true_iff in Hrun as [Hrun _]. apply andb_true_iff in Hrun as [_ Hlt].
  apply belowBudget_capped in Hlt as (Hnum & Hnow & Hnext).
  unfold crawlStep. destruct (queue st) as [|item rest]; [intros [= <-]; exact Hnow|].
  destruct (passesFilters cfg (item_url item)); [|intros [= <-]; exact Hnow].
  unfold tryPage.
  destruct (fetchPage fuel cfg item (announce item (dequeue st))) as [[page st2]|] eqn:Epage;
    [|discriminate].
  apply fetchPage_state in Epage as (Eres & _ & _ & Hlinks). simpl in Eres.
  destruct page as [[retryCount links]|e].
  - destruct (linkLoop cfg item retryCount links st2) as [out st3] eqn:Eloop.
    destruct (linkLoop_spec cfg item retryCount links (Hlinks _ _ eq_refl) _ _ _ Eloop)
      as [-> (? & ? & ? & _ & _ & _ & _ & _ & _ & _ & Hcount & _)].
    intros [= <-]. apply (Hcount Hnum). rewrite Eres. exact Hnow.
  - intros [= <-]. simpl. rewrite length_app, Eres. simpl.
    replace (Z.of_nat (length (results st) + 1)) with (Z.of_nat (length (results st)) + 1)
      by lia.
    exact Hnext.
Qed.
Lemma filter_none {A} (p : A -> bool) (l : list A) :
  Forall (fun x => p x = false) l -> List.filter p l = [].
Proof.
  induction 1 as [|x l Hx _ IH]; simpl; [reflexivity|]. rewrite Hx. exact IH.
Qed.

Lemma errorResult_fields item e :
  item_sourceUrl item = None ->
  sourceUrl (errorResult item e) = item_url item
  /\ targetUrl (errorResult item e) = item_url item
  /\ depth (errorResult item e) = item_depth item
  /\ isPageError (errorResult item e) = true.
Proof. intros E. unfold errorResult. rewrite E. repeat split. Qed.

Lemma pageEffect_inv gate cfg item rest st st' :
  queue st = item :: rest ->
  CrawlInv gate cfg st -> pageEffect cfg item st st' -> CrawlInv gate cfg st'.
Proof.
  intros Equeue [Hrd Hqd Hqs Hqn Hqv Hrv Hes Hea Hqo Hro]
    (emitted & added & Eres & Eq & Ev & Hkind & Hadded & Hdup & _).
  rewrite Equeue in *. simpl in Eq.
  apply Forall_cons in Hqd as [Hd Hqd]. apply Forall_cons in Hqs as [Hs Hqs].
  apply Forall_cons in Hqv as [Hv Hqv]. apply Forall_cons in Hqo as [Ho Hqo].
  rewrite fmap_cons in Hqn. apply NoDup_cons in Hqn as [Hhead Hqn].
  rewrite Forall_forall in Hadded.
  assert (Hsource : Forall (fun r => sourceUrl r = item_url item
                                     /\ depth r = item_depth item) emitted).
  { destruct Hkind as [[[e ->] _] | Hlinks].
    - constructor; [|constructor]. destruct (errorResult_fields item e Hs); tauto.
    - eapply Forall_impl; [exact Hlinks|]. cbv beta. tauto. }
  assert (Hold : Forall (fun r => sourceUrl r <> item_url item) (results st)).
  { eapply Forall_impl; [exact Hrv|]. cbv beta. intros r [_ Hr] E. apply Hr.
    apply list_elem_of_fmap. exists item. split; [exact E | left]. }
  assert (Hfresh : forall it, it ∈ added -> item_url it ∉ visited st).
  { intros it Hit. destruct (Hadded it Hit); tauto. }
  assert (Hgrow : forall u, u ∈ visited st -> u ∈ visited st') by (rewrite Ev; set_solver).
  split.
  - rewrite Eres. apply Forall_app. split; [exact Hrd|].
    eapply Forall_impl; [exact Hsource|]. cbv beta. intros r [_ ->]. exact Hd.
  - rewrite Eq. apply Forall_app. split; [exact Hqd|].
    apply Forall_forall. intros it Hit. destruct (Hadded it Hit) as (-> & Hlt & _).
    apply capped_next, Hlt.
  - rewrite Eq. apply Forall_app. split; [exact Hqs|].
    apply Forall_forall. intros it Hit. destruct (Hadded it Hit); tauto.
  - rewrite Eq, fmap_app. apply NoDup_app. split; [exact Hqn|]. split; [|exact Hdup].
    intros u Hu Hu'. apply list_elem_of_fmap in Hu as (it & -> & Hit).
    apply list_elem_of_fmap in Hu' as (it' & E & Hit').
    apply (Hfresh it' Hit'). rewrite <- E.
    rewrite Forall_forall in Hqv. apply Hqv, Hit.
  - rewrite Eq. apply Forall_app. split.
    + eapply Forall_impl; [exact Hqv|]. cbv beta. auto.
    + apply Forall_forall. intros it Hit. rewrite Ev.
      apply elem_of_union_l, elem_of_list_to_set, list_elem_of_fmap. eauto.
  - rewrite Eres, Eq. apply Forall_app. split.
    + eapply Forall_impl; [exact Hrv|]. cbv beta. intros r [Hr Hr']. split; [auto|].
      rewrite fmap_app. intros Hin. apply elem_of_app in Hin as [Hin|Hin].
      * apply Hr'. apply list_elem_of_fmap in Hin as (it & E & Hit).
        apply list_elem_of_fmap. exists it. split; [exact E | right; exact Hit].
      * apply list_elem_of_fmap in Hin as (it & E & Hit).
        apply (Hfresh it Hit). rewrite <- E. exact Hr.
    + eapply Forall_impl; [exact Hsource|]. cbv beta. intros r [-> _]. split; [auto|].
      rewrite fmap_app. intros Hin. apply elem_of_app in Hin as [Hin|Hin].
      * exact (Hhead Hin).
      * apply list_elem_of_fmap in Hin as (it & E & Hit).
        apply (Hfresh it Hit). rewrite <- E. exact Hv.
  - rewrite Eres. apply Forall_app. split; [exact Hes|].
    destruct Hkind as [[[e ->] _] | Hlinks].
    + constructor; [|constructor]. intros _. unfold errorResult. rewrite Hs. simpl. eauto.
    + eapply Forall_impl; [exact Hlinks|]. cbv beta. intros r (_ & _ & E). congruence.
  - rewrite Eres. apply Forall_app. split.
    + rewrite Forall_forall in Hea, Hold |- *. intros e He Herr.
      rewrite List.filter_app, (Hea e He Herr), filter_none; [reflexivity|].
      eapply Forall_impl; [exact Hsource|]. cbv beta. intros r [-> _].
      apply String.eqb_neq. intros E. apply (Hold e He). congruence.
    + destruct Hkind as [[[e ->] _] | Hlinks].
      * constructor; [|constructor]. intros _.
        rewrite List.filter_app, filter_none.
        -- simpl. rewrite String.eqb_refl. reflexivity.
        -- eapply Forall_impl; [exact Hold|]. cbv beta. intros r Hr.
           apply String.eqb_neq. destruct (errorResult_fields item e Hs) as [-> _]. exact Hr.
      * eapply Forall_impl; [exact Hlinks|]. cbv beta. intros r (_ & _ & E). congruence.
  - rewrite Eq. apply Forall_app. split.
    + eapply Forall_impl; [exact Hqo|]. cbv beta.
      intros it [Hg | (r & Hr & ?)]; [left; exact Hg | right].
      exists r. rewrite Eres. split; [apply elem_of_app; left; exact Hr | assumption].
    + apply Forall_forall. intros it Hit.
      destruct (Hadded it Hit) as (_ & _ & _ & _ & r & Hr & ?).
      right. exists r. rewrite Eres. split; [apply elem_of_app; right; exact Hr | assumption].
  - rewrite Eres. apply Forall_app. split.
    + eapply Forall_impl; [exact Hro|]. cbv beta.
      intros r0 [Hg | (r & Hr & ?)]; [left; exact Hg | right].
      exists r. split; [apply elem_of_app; left; exact Hr | assumption].
    + eapply Forall_impl; [exact Hsource|]. cbv beta. intros r0 [-> _].
      destruct Ho as [Hg | (r & Hr & ?)]; [left; exact Hg | right].
      exists r. split; [apply elem_of_app; left; exact Hr | assumption].
Qed.
Lemma seedLoop_inv gate seeds visited0 queue0 :
  Forall (fun it => item_depth it = 0 /\ item_sourceUrl it = None
                    /\ gate (item_url it) = true /\ item_url it ∈ visited0) queue0 ->
  NoDup (item_url <$> queue0) ->
  let '(visited1, queue1) := seedLoop gate seeds visited0 queue0 in
  Forall (fun it => item_depth it = 0 /\ item_sourceUrl it = None
                    /\ gate (item_url it) = true /\ item_url it ∈ visited1) queue1
  /\ NoDup (item_url <$> queue1).
Proof.
  revert visited0 queue0. induction seeds as [|url rest IH]; intros visited0 queue0 Hq Hdup; simpl.
  - auto.
  - destruct (normalizeUrl url None) as [normalized|]; [|apply IH; assumption].
    destruct (truthy normalized && negb (bool_decide (normalized ∈ visited0)) && gate normalized)
      eqn:Etake; [|apply IH; assumption].
    apply andb_true_iff in Etake as [Etake Hgate].
    apply andb_true_iff in Etake as [_ Hfresh].
    apply negb_true_iff, bool_decide_eq_false in Hfresh.
    apply IH.
    + apply Forall_app. split.
      * eapply Forall_impl; [exact Hq|]. cbv beta. intros it (? & ? & ? & ?).
        repeat split; auto. set_solver.
      * constructor; [|constructor]. simpl. repeat split; auto. set_solver.
    + rewrite fmap_app. apply NoDup_app. split; [exact Hdup|]. split; [|apply NoDup_singleton].
      intros u Hu Hu'. apply list_elem_of_fmap in Hu as (it & -> & Hit).
      apply list_elem_of_singleton in Hu'. simpl in Hu'.
      rewrite Forall_forall in Hq. destruct (Hq it Hit) as (_ & _ & _ & Hv).
      apply Hfresh. rewrite <- Hu'. exact Hv.
Qed.

Lemma startCrawl_seeds gate cfg env0 :
  Forall (fun it => item_depth it = 0 /\ item_sourceUrl it = None
                    /\ gate (item_url it) = true
                    /\ item_url it ∈ visited (startCrawl gate cfg env0))
    (queue (startCrawl gate cfg env0))
  /\ NoDup (item_url <$> queue (startCrawl gate cfg env0))
  /\ results (startCrawl gate cfg env0) = [].
Proof.
  unfold startCrawl.
  pose proof (seedLoop_inv gate (urls (cfg_body cfg)) ∅ [] (Forall_nil_2 _) (NoDup_nil_2)) as Hs.
  destruct (seedLoop gate (urls (cfg_body cfg)) ∅ []) as [visited0 queue0].
  simpl. tauto.
Qed.

Lemma startCrawl_inv gate cfg env0 : CrawlInv gate cfg (startCrawl gate cfg env0).
Proof.
  destruct (startCrawl_seeds gate cfg env0) as (Hq & Hdup & Eres).
  split; rewrite ?Eres; try (constructor; fail); try exact Hdup.
  all: eapply Forall_impl; [exact Hq|]; cbv beta; intros it (Hd & Hs & Hg & Hv); auto.
  rewrite Hd. apply capped_zero.
Qed.

Lemma turns_inv gate cfg st st' :
  turns cfg st st' -> CrawlInv gate cfg st -> CrawlInv gate cfg st'.
Proof.
  induction 1 as [st | k st st1 st' Hrun Hstep _ IH]; intros Hinv; [exact Hinv|].
  apply IH. unfold running in Hrun.
  destruct (queue st) as [|item rest] eqn:Equeue; [discriminate|].
  eapply pageEffect_inv; [exact Equeue | exact Hinv |].
  eapply crawlStep_page; [exact Equeue | exact Hstep].
Qed.

Lemma turns_budget cfg st st' :
  turns cfg st st' ->
  capped (cfg_maxUrls cfg) (Z.of_nat (length (results st))) ->
  capped (cfg_maxUrls cfg) (Z.of_nat (length (results st'))).
Proof.
  induction 1 as [st | k st st1 st' Hrun Hstep _ IH]; intros Hle; [exact Hle|].
  apply IH. eapply crawlStep_budget; eassumption.
Qed.

Lemma crawlLoop_turns fuel cfg st st' :
  crawlLoop fuel cfg st = Some st' -> turns cfg st st' /\ running cfg st' = false.
Proof.
  revert st. induction fuel as [|fuel IH]; intros st; simpl.
  - destruct (running cfg st) eqn:Erun; [discriminate|].
    intros [= <-]. split; [constructor | exact Erun].
  - destruct (running cfg st) eqn:Erun.
    + destruct (crawlStep fuel cfg st) as [st1|] eqn:Estep; [|discriminate].
      intros E. destruct (IH _ E) as [Ht Hstop]. split; [|exact Hstop].
      eapply turns_next; eassumption.
    + intros [= <-]. split; [constructor | exact Erun].
Qed.

Lemma runCrawl_turns fuel gate cfg env0 st :
  runCrawl fuel gate cfg env0 = Some st ->
  exists last, turns cfg (startCrawl gate cfg env0) last
               /\ running cfg last = false
               /\ results st = results last /\ queue st = queue last
               /\ visited st = visited last.
Proof.
  unfold runCrawl. destruct (crawlLoop fuel cfg (startCrawl gate cfg env0)) as [last|] eqn:E;
    [|discriminate].
  intros [= <-]. destruct (crawlLoop_turns _ _ _ _ E) as [Ht Hstop].
  exists last. repeat split; assumption.
Qed.
(** *** What reaches the stream *)

Lemma written_snoc (t : list Event) (ev : Event) :
  written (t ++ [ev])
  = written t ++ match ev with EvWrite _ (PResult r) => [r] | _ => [] end.
Proof.
  unfold written. rewrite omap_app. simpl.
  destruct ev as [| | ? []|]; simpl; rewrite ?app_nil_r; reflexivity.
Qed.

Lemma written_sleep ms (env1 : Env) : written (trace (sleep ms env1)) = written (trace env1).
Proof. unfold sleep. simpl. rewrite written_snoc, app_nil_r. reflexivity. Qed.

Lemma written_doFetch m url init (env1 : Env) :
  written (trace (snd (doFetch m url init env1))) = written (trace env1).
Proof.
  unfold doFetch. destruct (fetch m url init (world env1)) as [r w]. simpl.
  rewrite written_snoc, app_nil_r. reflexivity.
Qed.

Lemma written_emit_log name message type (env1 : Env) :
  written (trace (emit name (PLog message type) env1)) = written (trace env1).
Proof.
  unfold emit. destruct (isClosed env1); [reflexivity|]. simpl.
  rewrite written_snoc, app_nil_r. reflexivity.
Qed.

Lemma written_redirectLoop remaining timeoutMs chain url (env1 : Env) :
  written (trace (snd (redirectLoop remaining timeoutMs chain url env1))) = written (trace env1).
Proof.
  revert chain url env1. induction remaining as [|k IH]; intros chain url env1; simpl; [reflexivity|].
  pose proof (written_doFetch HEAD url (headInit timeoutMs) env1) as Hfetch.
  destruct (doFetch HEAD url (headInit timeoutMs) env1) as [[response|e] env2]; simpl in *;
    [|exact Hfetch].
  destruct ((300 <=? resp_status response) && (resp_status response <? 400)); [|exact Hfetch].
  destruct (resp_location response) as [location|]; [|exact Hfetch].
  destruct (truthy location); [|exact Hfetch].
  destruct (new_URL location (Some url)) as [next|]; [|exact Hfetch].
  rewrite IH. exact Hfetch.
Qed.

Lemma written_fetchPage fuel cfg item st page st2 :
  fetchPage fuel cfg item st = Some (page, st2) ->
  written (trace (env st2)) = written (trace (env st)).
Proof.
  intros Hpage.
  destruct (fetchPage_run _ _ _ _ _ _ Hpage) as (_ & _ & _ & _ & answers & post & -> & Hpost & _).
  unfold written. rewrite !omap_app, omap_retrySchedule, omap_lastPause by reflexivity.
  rewrite omap_none.
  destruct (0 <? length (results st))%nat; destruct Hpost as [-> | [message ->]]; simpl;
    rewrite ?app_nil_r; reflexivity.
Qed.

Lemma streamed_push r (st : CrawlState) (env1 : Env) :
  streamed st -> written (trace env1) = written (trace (env st)) ->
  streamed (onEnv (fun _ => emit "result" (PResult r) env1) (pushResult r st)).
Proof.
  unfold streamed, emit. intros Hst Hsame. simpl.
  destruct (isClosed env1); simpl.
  - rewrite Hsame. apply sublist_inserts_r, Hst.
  - rewrite written_snoc, Hsame. apply sublist_app; [exact Hst | reflexivity].
Qed.

Lemma streamed_same (st st' : CrawlState) :
  streamed st -> results st' = results st ->
  written (trace (env st')) = written (trace (env st)) -> streamed st'.
Proof. unfold streamed. intros Hst -> ->. exact Hst. Qed.

Lemma linkLoop_streamed cfg item retryCount links st :
  streamed st -> streamed (snd (linkLoop cfg item retryCount links st)).
Proof.
  revert st. induction links as [|link rest IH]; intros st Hst; simpl; [exact Hst|].
  destruct (atBudget cfg st || isClosed (env st)); [exact Hst|].
  destruct (regexRejects cfg (li_targetUrl link)); [apply IH, Hst|].
  destruct (matchesPathFilter cfg (li_targetUrl link)); simpl; [|apply IH, Hst].
  pose proof (written_redirectLoop 10 10000 [] (li_targetUrl link) (env st)) as Hhead.
  change (redirectLoop 10 10000 [] (li_targetUrl link) (env st))
    with (getRedirectChain (li_targetUrl link) (env st)) in Hhead.
  destruct (getRedirectChain (li_targetUrl link) (env st)) as [redirectInfo env1].
  simpl in Hhead.
  pose proof (streamed_push (linkResult item link redirectInfo retryCount) st env1 Hst Hhead)
    as Hpushed.
  match goal with
  | |- context [if ?c then _ else _] => destruct c
  end.
  - destruct (new_URL (li_targetUrl link) None) as [target|]; [|exact Hpushed].
    match goal with
    | |- context [if ?c then _ else _] => destruct c
    end; apply IH; (eapply streamed_same; [exact Hpushed | reflexivity |]);
      simpl; apply written_sleep.
  - apply IH. eapply streamed_same; [exact Hpushed | reflexivity |].
    simpl. apply written_sleep.
Qed.

Lemma fetchPage_streamed fuel cfg item st page st2 :
  streamed st -> fetchPage fuel cfg item st = Some (page, st2) -> streamed st2.
Proof.
  intros Hst Hpage. eapply streamed_same; [exact Hst | |].
  - apply fetchPage_state in Hpage. tauto.
  - eapply written_fetchPage. exact Hpage.
Qed.

Lemma crawlStep_streamed fuel cfg st st' :
  streamed st -> crawlStep fuel cfg st = Some st' -> streamed st'.
Proof.
  intros Hst. unfold crawlStep. destruct (queue st) as [|item rest]; [intros [= <-]; exact Hst|].
  assert (Hdq : streamed (dequeue st)) by exact Hst.
  destruct (passesFilters cfg (item_url item)); [|intros [= <-]; exact Hdq].
  assert (Han : streamed (announce item (dequeue st))).
  { eapply streamed_same; [exact Hdq | reflexivity |]. unfold announce, emit. simpl.
    repeat match goal with
           | |- context [if ?c then _ else _] => destruct c; simpl
           end; rewrite ?written_snoc, ?app_nil_r; reflexivity. }
  unfold tryPage.
  destruct (fetchPage fuel cfg item (announce item (dequeue st))) as [[page st2]|] eqn:Epage;
    [|discriminate].
  pose proof (fetchPage_streamed _ _ _ _ _ _ Han Epage) as Hpage.
  destruct page as [[retryCount links]|e].
  - pose proof (linkLoop_streamed cfg item retryCount links st2 Hpage) as Hloop.
    destruct (linkLoop cfg item retryCount links st2) as [[[]|e] st3]; simpl in Hloop;
      intros [= <-].
    + exact Hloop.
    + unfold catchPage. eapply streamed_same;
        [apply (streamed_push (errorResult item e) st3 (env st3) Hloop eq_refl) | reflexivity |].
      simpl. apply written_emit_log.
  - intros [= <-]. unfold catchPage. eapply streamed_same;
      [apply (streamed_push (errorResult item e) st2 (env st2) Hpage eq_refl) | reflexivity |].
    simpl. apply written_emit_log.
Qed.

(** From a stream on which no result has been written yet, a crawl writes
    only results it has recorded, in the order it recorded them. *)
Lemma runCrawl_streamed fuel gate cfg env0 st :
  written (trace env0) = [] -> runCrawl fuel gate cfg env0 = Some st -> streamed st.
Proof.
  intros Hfresh. unfold runCrawl.
  destruct (crawlLoop fuel cfg (startCrawl gate cfg env0)) as [last|] eqn:Eloop; [|discriminate].
  intros [= <-].
  assert (Hstart : streamed (startCrawl gate cfg env0)).
  { unfold streamed, startCrawl.
    destruct (seedLoop gate (urls (cfg_body cfg)) ∅ []) as [visited0 queue0].
    cbn [env results].
    rewrite written_emit_log. change (trace (listen env0)) with (trace env0).
    rewrite Hfresh. constructor. }
  assert (Hlast : streamed last).
  { destruct (crawlLoop_turns _ _ _ _ Eloop) as [Hturns _].
    clear Eloop. induction Hturns as [|k st st1 st' _ Hstep _ IH]; [exact Hstart|].
    apply IH. eapply crawlStep_streamed; eassumption. }
  unfold streamed, finishCrawl, emit in *. simpl.
  repeat match goal with
         | |- context [if ?c then _ else _] => destruct c; simpl
         end; rewrite ?written_snoc, ?app_nil_r; exact Hlast.
Qed.

(** *** Which pages are fetched *)

Lemma fetchedPages_snoc (t : list Event) (ev : Event) :
  fetchedPages (t ++ [ev])
  = fetchedPages t ++ match ev with EvFetch GET url _ => [url] | _ => [] end.
Proof.
  unfold fetchedPages. rewrite omap_app. simpl.
  destruct ev as [|[]| |]; simpl; rewrite ?app_nil_r; reflexivity.
Qed.

Lemma fetchedPages_sleep ms (env1 : Env) :
  fetchedPages (trace (sleep ms env1)) = fetchedPages (trace env1).
Proof. unfold sleep. simpl. rewrite fetchedPages_snoc, app_nil_r. reflexivity. Qed.

Lemma fetchedPages_emit name data (env1 : Env) :
  fetchedPages (trace (emit name data env1)) = fetchedPages (trace env1).
Proof.
  unfold emit. destruct (isClosed env1); [reflexivity|]. simpl.
  rewrite fetchedPages_snoc, app_nil_r. reflexivity.
Qed.

Lemma fetchedPages_redirectLoop remaining timeoutMs chain url (env1 : Env) :
  fetchedPages (trace (snd (redirectLoop remaining timeoutMs chain url env1)))
  = fetchedPages (trace env1).
Proof.
  revert chain url env1. induction remaining as [|k IH]; intros chain url env1; simpl; [reflexivity|].
  assert (Hfetch : fetchedPages (trace (snd (doFetch HEAD url (headInit timeoutMs) env1)))
                   = fetchedPages (trace env1)).
  { unfold doFetch. destruct (fetch HEAD url (headInit timeoutMs) (world env1)) as [r w]. simpl.
    rewrite fetchedPages_snoc, app_nil_r. reflexivity. }
  destruct (doFetch HEAD url (headInit timeoutMs) env1) as [[response|e] env2]; simpl in *;
    [|exact Hfetch].
  destruct ((300 <=? resp_status response) && (resp_status response <? 400)); [|exact Hfetch].
  destruct (resp_location response) as [location|]; [|exact Hfetch].
  destruct (truthy location); [|exact Hfetch].
  destruct (new_URL location (Some url)) as [next|]; [|exact Hfetch].
  rewrite IH. exact Hfetch.
Qed.

(** The GET requests of a page: some number of requests to its URL, as
    many as the retry count and the fuel allow. *)
Lemma fetchPage_fetchedPages fuel cfg item st page st2 :
  fetchPage fuel cfg item st = Some (page, st2) ->
  exists k, (k <= fuel)%nat
            /\ attemptsFit (retries (cfg_settings cfg)) k
            /\ fetchedPages (trace (env st2))
               = fetchedPages (trace (env st)) ++ repeat (item_url item) k.
Proof.
  intros Hpage.
  destruct (fetchPage_run _ _ _ _ _ _ Hpage)
    as (_ & _ & _ & _ & answers & post & -> & Hpost & Hlen & Hidx & _).
  exists (length answers). split; [exact Hlen|]. split.
  { intros i Hi. destruct (lookup_lt_is_Some_2 answers i Hi) as [a Ha]. exact (Hidx i a Ha). }
  unfold fetchedPages. rewrite !omap_app, omap_retrySchedule, omap_lastPause by reflexivity.
  rewrite (omap_const (item_url item)).
  destruct (0 <? length (results st))%nat; destruct Hpost as [-> | [message ->]]; simpl;
    rewrite ?app_nil_r; reflexivity.
Qed.

Lemma discovered_grows gate (st st' : CrawlState) u :
  (forall r, r ∈ results st -> r ∈ results st') -> discovered gate st u -> discovered gate st' u.
Proof. intros Hsub [Hg | (r & Hr & ?)]; [left; exact Hg | right; eauto]. Qed.

Lemma fetchesAccounted_same gate (st st' : CrawlState) :
  fetchesAccounted gate st ->
  (forall r, r ∈ results st -> r ∈ results st') ->
  fetchedPages (trace (env st')) = fetchedPages (trace (env st)) ->
  fetchesAccounted gate st'.
Proof.
  unfold fetchesAccounted. intros Hst Hsub ->.
  eapply Forall_impl; [exact Hst|]. intros u. apply discovered_grows, Hsub.
Qed.

Lemma linkLoop_fetches gate cfg item retryCount links st :
  fetchesAccounted gate st ->
  fetchesAccounted gate (snd (linkLoop cfg item retryCount links st)).
Proof.
  revert st. induction links as [|link rest IH]; intros st Hst; simpl; [exact Hst|].
  destruct (atBudget cfg st || isClosed (env st)); [exact Hst|].
  destruct (regexRejects cfg (li_targetUrl link)); [apply IH, Hst|].
  destruct (matchesPathFilter cfg (li_targetUrl link)); simpl; [|apply IH, Hst].
  pose proof (fetchedPages_redirectLoop 10 10000 [] (li_targetUrl link) (env st)) as Hhead.
  change (redirectLoop 10 10000 [] (li_targetUrl link) (env st))
    with (getRedirectChain (li_targetUrl link) (env st)) in Hhead.
  destruct (getRedirectChain (li_targetUrl link) (env st)) as [redirectInfo env1].
  simpl in Hhead.
  set (r := linkResult item link redirectInfo retryCount).
  assert (Hkeep : forall (st' : CrawlState),
            results st' = results st ++ [r] ->
            fetchedPages (trace (env st')) = fetchedPages (trace env1) ->
            fetchesAccounted gate st').
  { intros st' Eres Etrace. eapply fetchesAccounted_same; [exact Hst | |congruence].
    intros r0 Hr0. rewrite Eres. apply elem_of_app. left. exact Hr0. }
  match goal with
  | |- context [if ?c then _ else _] => destruct c
  end.
  - destruct (new_URL (li_targetUrl link) None) as [target|].
    + match goal with
      | |- context [if ?c then _ else _] => destruct c
      end; apply IH, Hkeep; try reflexivity;
        unfold onEnv, enqueue, pushResult; cbn [env];
        rewrite fetchedPages_sleep, fetchedPages_emit; reflexivity.
    + simpl. apply Hkeep; [reflexivity|]. cbn [env]. apply fetchedPages_emit.
  - apply IH, Hkeep; [reflexivity|].
    unfold onEnv, pushResult; cbn [env].
    rewrite fetchedPages_sleep, fetchedPages_emit. reflexivity.
Qed.

Lemma fetchPage_fetches gate fuel cfg item st page st2 :
  fetchesAccounted gate st -> discovered gate st (item_url item) ->
  fetchPage fuel cfg item st = Some (page, st2) -> fetchesAccounted gate st2.
Proof.
  intros Hst Hitem Hpage.
  destruct (fetchPage_fetchedPages _ _ _ _ _ _ Hpage) as (k & _ & _ & Etrace).
  apply fetchPage_state in Hpage as (Eres & _).
  unfold fetchesAccounted. rewrite Etrace. apply Forall_app. split.
  - eapply Forall_impl; [exact Hst|]. intros u. apply discovered_grows. congruence.
  - apply Forall_forall. intros u Hu. apply list_elem_of_In, repeat_spec in Hu. subst u.
    eapply discovered_grows; [|exact Hitem]. congruence.
Qed.

Lemma crawlStep_fetches gate fuel cfg item rest st st' :
  queue st = item :: rest -> CrawlInv gate cfg st ->
  fetchesAccounted gate st -> crawlStep fuel cfg st = Some st' -> fetchesAccounted gate st'.
Proof.
  intros Equeue Hinv Hst.
  assert (Hitem : discovered gate st (item_url item)).
  { pose proof (inv_queue_origin _ _ _ Hinv) as Ho. rewrite Equeue in Ho.
    apply Forall_cons in Ho as [Ho _]. exact Ho. }
  unfold crawlStep. rewrite Equeue.
  assert (Hdq : fetchesAccounted gate (dequeue st)) by exact Hst.
  destruct (passesFilters cfg (item_url item)); [|intros [= <-]; exact Hdq].
  assert (Han : fetchesAccounted gate (announce item (dequeue st))).
  { eapply fetchesAccounted_same; [exact Hdq | auto |]. unfold announce. simpl.
    rewrite !fetchedPages_emit. reflexivity. }
  unfold tryPage.
  assert (Hcatch : forall e (st2 : CrawlState),
            fetchesAccounted gate st2 -> fetchesAccounted gate (catchPage item e st2)).
  { intros e st2 Hst2. eapply fetchesAccounted_same; [exact Hst2 | |].
    - intros r Hr. simpl. apply elem_of_app. left. exact Hr.
    - unfold catchPage. simpl. rewrite !fetchedPages_emit. reflexivity. }
  destruct (fetchPage fuel cfg item (announce item (dequeue st))) as [[page st2]|] eqn:Epage;
    [|discriminate].
  pose proof (fetchPage_fetches gate _ _ _ _ _ _ Han Hitem Epage) as Hpage.
  destruct page as [[retryCount links]|e].
  - pose proof (linkLoop_fetches gate cfg item retryCount links st2 Hpage) as Hloop.
    destruct (linkLoop cfg item retryCount links st2) as [[[]|e] st3]; simpl in Hloop;
      intros [= <-]; auto.
  - intros [= <-]. auto.
Qed.

(** From a trace without page fetches, a crawl fetches only pages that
    were a checked seed or the target of a link it emitted a result for. *)
Lemma runCrawl_fetches fuel gate cfg env0 st :
  fetchedPages (trace env0) = [] -> runCrawl fuel gate cfg env0 = Some st ->
  fetchesAccounted gate st.
Proof.
  intros Hfresh. unfold runCrawl.
  destruct (crawlLoop fuel cfg (startCrawl gate cfg env0)) as [last|] eqn:Eloop; [|discriminate].
  intros [= <-].
  assert (Hstart : fetchesAccounted gate (startCrawl gate cfg env0)).
  { unfold fetchesAccounted, startCrawl.
    destruct (seedLoop gate (urls (cfg_body cfg)) ∅ []) as [visited0 queue0]. cbn [env].
    rewrite fetchedPages_emit. change (trace (listen env0)) with (trace env0).
    rewrite Hfresh. constructor. }
  assert (Hlast : fetchesAccounted gate last).
  { destruct (crawlLoop_turns _ _ _ _ Eloop) as [Hturns _]. clear Eloop.
    pose proof (startCrawl_inv gate cfg env0) as Hinv.
    induction Hturns as [|k st st1 st' Hrun Hstep Hturns IH]; [exact Hstart|].
    unfold running in Hrun. destruct (queue st) as [|item rest] eqn:Equeue; [discriminate|].
    apply IH.
    - eapply crawlStep_fetches; eassumption.
    - eapply pageEffect_inv; [exact Equeue | exact Hinv |].
      eapply crawlStep_page; eassumption. }
  eapply fetchesAccounted_same; [exact Hlast | auto |].
  unfold finishCrawl. simpl. rewrite fetchedPages_snoc, app_nil_r, !fetchedPages_emit.
  reflexivity.
Qed.

(** When the rate-limit sleep happens: a page fetch is preceded by a sleep
    of [delayMs] exactly when a result has been recorded before; while
    there is none, the GET request comes first. *)
Lemma fetchPage_pacing fuel cfg item st page st2 :
  numLeb (ofInt 0) (retries (cfg_settings cfg)) = true ->
  fetchPage fuel cfg item st = Some (page, st2) ->
  exists a t,
    trace (env st2)
    = trace (env st)
      ++ (if (0 <? length (results st))%nat then [EvSleep (cfg_delayMs cfg)] else [])
      ++ EvFetch GET (item_url item) a :: t.
Proof.
  intros Hguard Hpage.
  destruct (fetchPage_run _ _ _ _ _ _ Hpage)
    as (_ & _ & _ & _ & answers & post & -> & _ & _ & _ & Hsome).
  destruct answers as [|a rest]; [exfalso; apply (Hsome Hguard); reflexivity|].
  exists a. destruct rest as [|b rest]; eexists; reflexivity.
Qed.

(** The length guard on the regex filter: the streaming handler compiles
    a non-empty filter of at most 200 characters and drops a longer one;
    the older handler compiles every non-empty filter. *)
Lemma urlFilter_guard (body : ScrapeLinksRequest) (f : string) :
  urlFilter body = Some f -> truthy f = true ->
  ((String.length f <= 200)%nat -> streamUrlFilter body = new_RegExp f)
  /\ ((200 < String.length f)%nat -> streamUrlFilter body = None)
  /\ legacyUrlFilter body = new_RegExp f.
Proof.
  intros Ef Hf. unfold streamUrlFilter, legacyUrlFilter. rewrite Ef, Hf. simpl.
  repeat split.
  - intros Hle. apply Nat.leb_le in Hle. rewrite Hle. reflexivity.
  - intros Hgt. apply Nat.leb_gt in Hgt. rewrite Hgt. reflexivity.
Qed.

Lemma belowBudget_atBudget cfg (st st2 : CrawlState) :
  belowBudget cfg st = true -> results st2 = results st -> atBudget cfg st2 = false.
Proof. unfold belowBudget, atBudget. intros Hlt ->. apply numLtb_flip, Hlt. Qed.

(** Which links of a page get a result: those that pass the filters, in
    their order, up to the one at which the budget is reached or the
    client is gone. *)
Lemma linkLoop_kept cfg item retryCount links :
  Forall parseable links ->
  forall st out st',
    linkLoop cfg item retryCount links st = (out, st') ->
    exists emitted kept,
      results st' = results st ++ emitted
      /\ Forall2 (resultOf item retryCount) emitted kept
      /\ kept `prefix_of` List.filter (passing cfg) links
      /\ (kept = List.filter (passing cfg) links
          \/ atBudget cfg st' = true \/ isClosed (env st') = true)
      /\ (atBudget cfg st = false -> isClosed (env st) = false ->
          List.filter (passing cfg) links <> [] -> emitted <> []).
Proof.
  induction 1 as [|link rest Hlink Hrest IH]; intros st out st' E; simpl in E.
  - injection E as <- <-. exists [], []. rewrite app_nil_r.
    split; [reflexivity|]. split; [constructor|]. split; [apply prefix_nil|].
    split; [left; reflexivity | intros _ _ Hne; exfalso; apply Hne; reflexivity].
  - destruct (atBudget cfg st) eqn:Ebudget; simpl in E.
    { injection E as <- <-. exists [], []. rewrite app_nil_r.
      split; [reflexivity|]. split; [constructor|]. split; [apply prefix_nil|].
      split; [auto | discriminate]. }
    destruct (isClosed (env st)) eqn:Eclosed; simpl in E.
    { injection E as <- <-. exists [], []. rewrite app_nil_r.
      split; [reflexivity|]. split; [constructor|]. split; [apply prefix_nil|].
      split; [auto | discriminate]. }
    assert (Hskip : passing cfg link = false ->
              linkLoop cfg item retryCount rest st = (out, st') ->
              exists emitted kept,
                results st' = results st ++ emitted
                /\ Forall2 (resultOf item retryCount) emitted kept
                /\ kept `prefix_of` List.filter (passing cfg) (link :: rest)
                /\ (kept = List.filter (passing cfg) (link :: rest)
                    \/ atBudget cfg st' = true \/ isClosed (env st') = true)
                /\ (false = false -> false = false ->
                    List.filter (passing cfg) (link :: rest) <> [] -> emitted <> [])).
    { intros Epass Eloop. simpl. rewrite Epass.
      destruct (IH _ _ _ Eloop) as (emitted & kept & ? & ? & ? & ? & Hsome).
      exists emitted, kept. repeat split; auto. }
    destruct (regexRejects cfg (li_targetUrl link)) eqn:Eregex.
    { apply Hskip; [|exact E]. unfold passing, passesFilters. rewrite Eregex. reflexivity. }
    destruct (matchesPathFilter cfg (li_targetUrl link)) eqn:Epath; simpl in E.
    2:{ apply Hskip; [|exact E]. unfold passing, passesFilters. rewrite Eregex, Epath.
        reflexivity. }
    assert (Epass : passing cfg link = true).
    { unfold passing, passesFilters. rewrite Eregex, Epath. reflexivity. }
    destruct (getRedirectChain (li_targetUrl link) (env st)) as [redirectInfo env1].
    set (r := linkResult item link redirectInfo retryCount) in *.
    assert (Hkeep : forall mid,
              results mid = results st ++ [r] ->
              linkLoop cfg item retryCount rest mid = (out, st') ->
              exists emitted kept,
                results st' = results st ++ emitted
                /\ Forall2 (resultOf item retryCount) emitted kept
                /\ kept `prefix_of` List.filter (passing cfg) (link :: rest)
                /\ (kept = List.filter (passing cfg) (link :: rest)
                    \/ atBudget cfg st' = true \/ isClosed (env st') = true)
                /\ (false = false -> false = false ->
                    List.filter (passing cfg) (link :: rest) <> [] -> emitted <> [])).
    { intros mid Emid Eloop. simpl. rewrite Epass.
      destruct (IH _ _ _ Eloop) as (emitted & kept & Eres & Hres & Hpre & Hall & _).
      exists (r :: emitted), (link :: kept).
      split; [rewrite Eres, Emid, <- app_assoc; reflexivity|].
      split; [constructor; [exists redirectInfo; reflexivity | exact Hres]|].
      split; [apply prefix_cons, Hpre|].
      split; [|discriminate].
      destruct Hall as [-> | Hstop]; auto. }
    destruct Hlink as [target Etarget]. rewrite Etarget in E.
    match type of E with
    | (if ?c then _ else _) = _ => destruct c
    end.
    + match type of E with
      | (if ?c then _ else _) = _ => destruct c
      end; apply (Hkeep _ eq_refl E) || (eapply Hkeep; [|exact E]; reflexivity).
    + eapply Hkeep; [|exact E]. reflexivity.
Qed.

(** What a turn of the loop does to the results: nothing for a filtered
    page, the page error for a page that fails, and for a page that was
    read the results of its links that pass the filters, in their order,
    all of them unless the budget is reached or the client is gone; the
    first of them always, if the client is there when the page has been
    read. *)
Lemma crawlStep_account fuel cfg item rest st st' :
  queue st = item :: rest -> running cfg st = true -> crawlStep fuel cfg st = Some st' ->
  if passesFilters cfg (item_url item) then
    match fetchPage fuel cfg item (announce item (dequeue st)) with
    | Some (Threw e, _) => results st' = results st ++ [errorResult item e]
    | Some (Returned (retryCount, links), st2) =>
        exists emitted kept,
          results st' = results st ++ emitted
          /\ Forall2 (resultOf item retryCount) emitted kept
          /\ kept `prefix_of` List.filter (passing cfg) links
          /\ (kept = List.filter (passing cfg) links
              \/ atBudget cfg st' = true \/ isClosed (env st') = true)
          /\ (isClosed (env st2) = false -> List.filter (passing cfg) links <> [] ->
              emitted <> [])
    | None => False
    end
  else results st' = results st.
Proof.
  intros Equeue Hrun. unfold running in Hrun.
  apply andb_true_iff in Hrun as [Hrun _]. apply andb_true_iff in Hrun as [_ Hbelow].
  unfold crawlStep. rewrite Equeue.
  destruct (passesFilters cfg (item_url item)); [|intros [= <-]; reflexivity].
  unfold tryPage.
  destruct (fetchPage fuel cfg item (announce item (dequeue st))) as [[page st2]|] eqn:Epage;
    [|discriminate].
  apply fetchPage_state in Epage as (Eres & _ & _ & Hlinks). simpl in Eres.
  destruct page as [[retryCount links]|e].
  - destruct (linkLoop cfg item retryCount links st2) as [out st3] eqn:Eloop.
    destruct (linkLoop_spec cfg item retryCount links (Hlinks _ _ eq_refl) _ _ _ Eloop)
      as [-> _].
    destruct (linkLoop_kept cfg item retryCount links (Hlinks _ _ eq_refl) _ _ _ Eloop)
      as (emitted & kept & Eres' & Hres & Hpre & Hall & Hsome).
    intros [= <-]. exists emitted, kept. rewrite Eres', Eres.
    repeat split; auto.
    intros Hopen. apply Hsome; [|exact Hopen].
    eapply belowBudget_atBudget; [exact Hbelow | exact Eres].
  - intros [= <-]. simpl. rewrite Eres. reflexivity.
Qed.

Lemma crawlStep_total fuel cfg st :
  numLeb (ofNat fuel) (retries (cfg_settings cfg)) = false -> is_Some (crawlStep fuel cfg st).
Proof.
  intros Hfuel. unfold crawlStep. destruct (queue st) as [|item rest]; [eauto|].
  destruct (passesFilters cfg (item_url item)); [|eauto].
  unfold tryPage, fetchPage.
  match goal with
  | |- context [fetchWithRetry fuel ?u ?s ?e] =>
      destruct (fetchWithRetry_total fuel u s e Hfuel) as [[fetched env2] ->]
  end.
  match goal with
  | |- context [readPage ?c ?i ?f ?s] => destruct (readPage c i f s) as [[[rc links]|e] st2]
  end; [|eauto].
  destruct (linkLoop cfg item rc links st2) as [[[]|e] st3]; eauto.
Qed.

(** The loop ends within the turns that the seeds and the budget allow,
    given fuel beyond the retry count for the fetches. *)
Lemma crawlLoop_total cfg q r fuel st :
  cfg_maxUrls cfg = JFin q ->
  numLeb (ofNat r) (retries (cfg_settings cfg)) = false ->
  (length (queue st) + 2 * Z.to_nat (Qceiling q - Z.of_nat (length (results st))) + r
   < fuel)%nat ->
  is_Some (crawlLoop fuel cfg st).
Proof.
  intros Em Hr. revert st. induction fuel as [|fuel IH]; intros st Hfuel; [lia|].
  simpl. destruct (running cfg st) eqn:Erun; [|eauto].
  destruct (crawlStep_total fuel cfg st) as [st1 Estep].
  { eapply numLeb_above; [|exact Hr]. lia. }
  rewrite Estep. apply IH.
  pose proof (crawlStep_budget fuel cfg st st1 Erun Estep) as Hbudget.
  rewrite Em in Hbudget. apply capped_ceiling in Hbudget.
  unfold running, belowBudget in Erun. rewrite Em in Erun.
  apply andb_true_iff in Erun as [Erun _]. apply andb_true_iff in Erun as [Hqueue Hlt].
  apply numLtb_ceiling in Hlt.
  destruct (queue st) as [|item rest] eqn:Equeue; [discriminate|].
  destruct (crawlStep_page fuel cfg item rest st st1 Equeue Estep)
    as (emitted & added & Eres & Eq & _ & _ & _ & _ & Hlen).
  rewrite Equeue in Eq. simpl in Eq.
  rewrite Eres in Hbudget |- *. rewrite Eq. rewrite !length_app in *. simpl in Hfuel. lia.
Qed.

Lemma seedLoop_length gate seeds visited0 queue0 :
  (length (snd (seedLoop gate seeds visited0 queue0)) <= length queue0 + length seeds)%nat.
Proof.
  revert visited0 queue0. induction seeds as [|url rest IH]; intros visited0 queue0; simpl; [lia|].
  destruct (normalizeUrl url None) as [normalized|];
    [destruct (truthy normalized && negb (bool_decide (normalized ∈ visited0)) && gate normalized)|].
  - etransitivity; [apply IH|]. rewrite length_app. simpl. lia.
  - etransitivity; [apply IH|]. lia.
  - etransitivity; [apply IH|]. lia.
Qed.

(** The streaming handler never makes more than six attempts at a page. *)
Lemma stream_retries_bound (body : ScrapeLinksRequest) :
  numLeb (ofNat 6) (retries (streamSettings body)) = false.
Proof.
  unfold streamSettings. cbn [retries].
  generalize (nullish (settings body ≫= raw_retries) (ofInt 1)). intros x.
  assert (Hx : x = JNaN \/ x <> JNaN) by (destruct x; auto; right; discriminate).
  destruct Hx as [-> | Hx]; [reflexivity|].
  destruct (clamp_range (inject_Z 0) (inject_Z 5) x) as (m & Em & _ & Hm);
    [discriminate | exact Hx |].
  change (clamp (ofInt 0) (ofInt 5) x) with (clamp (JFin (inject_Z 0)) (JFin (inject_Z 5)) x).
  rewrite Em. unfold numLeb, ofNat, ofInt. apply Qle_bool_false.
  eapply Qle_lt_trans; [exact Hm|]. reflexivity.
Qed.

(** Every run of the streaming handler ends: fuel beyond the number of
    seeds plus twice the budget, and six for the attempts at a page, is
    never used up. *)
Lemma scrapeLinksStream_total (body : ScrapeLinksRequest) (env0 : Env) (fuel : nat) :
  (length (urls body) + 2 * Z.to_nat (numCeiling (streamMaxUrls body)) + 6 < fuel)%nat ->
  is_Some (scrapeLinksStream fuel body env0).
Proof.
  intros Hfuel. unfold scrapeLinksStream, runCrawl.
  destruct (streamMaxUrls_range body) as (m & Em & _ & _).
  rewrite Em in Hfuel. cbn [numCeiling] in Hfuel.
  destruct (crawlLoop_total (streamConfig body) m 6 fuel
              (startCrawl isAllowedUrl (streamConfig body) env0))
    as [st ->]; [exact Em | apply stream_retries_bound | | simpl; eauto].
  pose proof (seedLoop_length isAllowedUrl (urls body) ∅ []) as Hseeds.
  unfold startCrawl. cbn [cfg_body streamConfig].
  destruct (seedLoop isAllowedUrl (urls body) ∅ []) as [visited0 queue0].
  simpl in *. lia.
Qed.

Lemma crawl_budget_only (fuel : nat) (gate : string -> bool) (cfg : CrawlConfig)
    (env0 : Env) (st : CrawlState) :
  runCrawl fuel gate cfg env0 = Some st ->
  capped (cfg_maxUrls cfg) (Z.of_nat (length (results st))).
Proof.
  intros Hrun.
  destruct (runCrawl_turns _ _ _ _ _ Hrun) as (last & Hturns & _ & -> & _ & _).
  eapply turns_budget; [exact Hturns|].
  destruct (startCrawl_seeds gate cfg env0) as (_ & _ & ->). apply capped_zero.
Qed.

(** C1, as amended.  In every execution of the crawl loop that ends, of
    either handler: the number of results recorded is zero or less than
    maxUrls + 1, every result has depth zero or a depth less than
    maxDepth + 1, and so has every item that is ever on the frontier, so
    no other is fetched.  For a maxUrls and a maxDepth that are whole
    numbers and not negative that is: at most maxUrls results, none of
    them deeper than maxDepth, and no item deeper than maxDepth on the
    frontier.  The results emitted on the stream are among the recorded
    ones. *)
Theorem crawl_within_budget_and_depth (fuel : nat) (gate : string -> bool)
    (cfg : CrawlConfig) (env0 : Env) (st : CrawlState) :
  runCrawl fuel gate cfg env0 = Some st ->
  capped (cfg_maxUrls cfg) (Z.of_nat (length (results st)))
  /\ Forall (fun r => capped (maxDepth (cfg_body cfg)) (depth r)) (results st)
  /\ (forall mid, turns cfg (startCrawl gate cfg env0) mid ->
        Forall (fun it => capped (maxDepth (cfg_body cfg)) (item_depth it)) (queue mid))
  /\ (forall m, wholeNum (cfg_maxUrls cfg) m -> 0 <= m ->
        Z.of_nat (length (results st)) <= m)
  /\ (forall d, wholeNum (maxDepth (cfg_body cfg)) d -> 0 <= d ->
        Forall (fun r => depth r <= d) (results st)
        /\ forall mid, turns cfg (startCrawl gate cfg env0) mid ->
             Forall (fun it => item_depth it <= d) (queue mid))
  /\ (written (trace env0) = [] -> written (trace (env st)) `sublist_of` results st).
Proof.
  intros Hrun.
  pose proof (crawl_budget_only fuel gate cfg env0 st Hrun) as Hcount.
  pose proof (fun Hfresh => runCrawl_streamed fuel gate cfg env0 st Hfresh Hrun) as Hstream.
  destruct (runCrawl_turns _ _ _ _ _ Hrun) as (last & Hturns & _ & Eres & _ & _).
  rewrite Eres in *.
  pose proof (turns_inv gate _ _ _ Hturns (startCrawl_inv gate cfg env0)) as Hinv.
  assert (Hqueue : forall mid, turns cfg (startCrawl gate cfg env0) mid ->
            Forall (fun it => capped (maxDepth (cfg_body cfg)) (item_depth it)) (queue mid)).
  { intros mid Hmid.
    exact (inv_queue_depth _ _ _ (turns_inv gate _ _ _ Hmid (startCrawl_inv gate cfg env0))). }
  split; [exact Hcount|]. split; [exact (inv_result_depth _ _ _ Hinv)|].
  split; [exact Hqueue|]. split; [|split].
  - intros m Hm Hpos. exact (capped_whole _ _ _ Hm Hpos Hcount).
  - intros d Hd Hpos. split.
    + eapply Forall_impl; [exact (inv_result_depth _ _ _ Hinv)|]. cbv beta.
      intros r Hr. exact (capped_whole _ _ _ Hd Hpos Hr).
    + intros mid Hmid. eapply Forall_impl; [exact (Hqueue mid Hmid)|]. cbv beta.
      intros it Hit. exact (capped_whole _ _ _ Hd Hpos Hit).
  - intros Hfresh. rewrite <- Eres. exact (Hstream Hfresh).
Qed.

(** C2, as amended.  In a crawl of the streaming handler that runs to
    completion, a page whose fetch fails is accounted for by exactly one
    result, which has status 0, carries the failure's message and names
    the page as source and target; a page that was read yields one result
    for each of its links that pass the filters, in their order, all of
    them unless the budget is reached or the client is gone, and the
    first of them in any case if the client is there when the page has
    been read; a filtered page yields nothing.  So the results are not
    one per fetch attempt.  Their number is zero or less than
    maxUrls + 1, which is at most maxUrls when the effective maxUrls is a
    whole number; and the results written to the stream are among
    them. *)
Theorem stream_results_accounting (fuel : nat) (body : ScrapeLinksRequest)
    (env0 : Env) (st : CrawlState) :
  scrapeLinksStream fuel body env0 = Some st ->
  (forall k mid item rest next,
      turns (streamConfig body) (startCrawl isAllowedUrl (streamConfig body) env0) mid ->
      running (streamConfig body) mid = true ->
      queue mid = item :: rest ->
      crawlStep k (streamConfig body) mid = Some next ->
      if passesFilters (streamConfig body) (item_url item) then
        match fetchPage k (streamConfig body) item (announce item (dequeue mid)) with
        | Some (Threw e, _) => results next = results mid ++ [errorResult item e]
        | Some (Returned (retryCount, links), st2) =>
            exists emitted kept,
              results next = results mid ++ emitted
              /\ Forall2 (resultOf item retryCount) emitted kept
              /\ kept `prefix_of` List.filter (passing (streamConfig body)) links
              /\ (kept = List.filter (passing (streamConfig body)) links
                  \/ atBudget (streamConfig body) next = true
                  \/ isClosed (env next) = true)
              /\ (isClosed (env st2) = false ->
                  List.filter (passing (streamConfig body)) links <> [] -> emitted <> [])
        | None => False
        end
      else results next = results mid)
  /\ Forall (fun e => isPageError e = true ->
                      status e = 0 /\ is_Some (error e) /\ targetUrl e = sourceUrl e
                      /\ List.filter (fun r => String.eqb (sourceUrl r) (sourceUrl e)) (results st)
                         = [e])
       (results st)
  /\ capped (streamMaxUrls body) (Z.of_nat (length (results st)))
  /\ (forall m, wholeNum (streamMaxUrls body) m -> Z.of_nat (length (results st)) <= m)
  /\ (written (trace env0) = [] -> written (trace (env st)) `sublist_of` results st).
Proof.
  intros Hrun. unfold scrapeLinksStream in Hrun.
  pose proof (fun Hfresh => runCrawl_streamed fuel _ _ env0 st Hfresh Hrun) as Hstream.
  pose proof (crawl_budget_only fuel isAllowedUrl (streamConfig body) env0 st Hrun) as Hcount.
  destruct (runCrawl_turns _ _ _ _ _ Hrun) as (last & Hturns & _ & Eres & _ & _).
  split; [|split; [|split; [exact Hcount | split; [|exact Hstream]]]].
  - intros k mid item rest next _ Hmid Equeue Hstep.
    exact (crawlStep_account _ _ _ _ _ _ Equeue Hmid Hstep).
  - pose proof (turns_inv isAllowedUrl _ _ _ Hturns (startCrawl_inv _ _ env0)) as Hinv.
    rewrite Eres. apply Forall_forall. intros e He Herr.
    pose proof (inv_error_shape _ _ _ Hinv) as Hshape.
    pose proof (inv_error_alone _ _ _ Hinv) as Halone.
    rewrite Forall_forall in Hshape, Halone.
    destruct (Hshape e He Herr) as (? & ? & ? & _). auto.
  - intros m Hm. destruct (streamMaxUrls_range body) as (q & Eq & Hq & _).
    apply (capped_whole _ _ _ Hm); [|exact Hcount].
    rewrite Eq in Hm. simpl in Hm. rewrite Zle_Qle. rewrite <- Hm.
    eapply Qle_trans; [|exact Hq]. discriminate.
Qed.

(** C3, as amended.  In the streaming handler a seed the gate rejects is
    never put on the frontier.  A URL the gate rejects is fetched as a
    page, is the source of a result or is the page of a page error only
    if a result emitted for a link has it as target, that is, only if a
    fetched page links to it.  As the target of a link found on a fetched
    page it does appear. *)
Theorem stream_gate_on_seeds (fuel : nat) (body : ScrapeLinksRequest)
    (env0 : Env) (st : CrawlState) :
  scrapeLinksStream fuel body env0 = Some st ->
  Forall (fun it => isAllowedUrl (item_url it) = true)
    (queue (startCrawl isAllowedUrl (streamConfig body) env0))
  /\ Forall (fun r => discovered isAllowedUrl st (sourceUrl r)) (results st)
  /\ Forall (fun r => isPageError r = true -> targetUrl r = sourceUrl r) (results st)
  /\ (fetchedPages (trace env0) = [] ->
      Forall (discovered isAllowedUrl st) (fetchedPages (trace (env st)))).
Proof.
  intros Hrun. unfold scrapeLinksStream in Hrun.
  pose proof (fun Hfresh => runCrawl_fetches fuel _ _ env0 st Hfresh Hrun) as Hfetches.
  destruct (runCrawl_turns _ _ _ _ _ Hrun) as (last & Hturns & _ & Eres & _ & _).
  pose proof (turns_inv isAllowedUrl _ _ _ Hturns (startCrawl_inv _ _ env0)) as Hinv.
  split; [|split; [|split]].
  - destruct (startCrawl_seeds isAllowedUrl (streamConfig body) env0) as (Hq & _).
    eapply Forall_impl; [exact Hq|]. cbv beta. tauto.
  - rewrite Eres. eapply Forall_impl; [apply (inv_result_origin _ _ _ Hinv)|]. cbv beta.
    intros r Hr. unfold discovered. rewrite Eres. exact Hr.
  - rewrite Eres. eapply Forall_impl; [apply (inv_error_shape _ _ _ Hinv)|]. cbv beta. tauto.
  - exact Hfetches.
Qed.

End CrawlFacts.

(* --------------------------------------------------------------------- *)
(** ** The outbound gate, in words *)

Lemma startsWith_app (s p : string) :
  startsWith s p = true <-> exists rest, s = p +:+ rest.
Proof.
  unfold startsWith. revert s. induction p as [|c p IH]; intros s.
  - destruct s; simpl; split; eauto.
  - destruct s as [|d s]; simpl.
    + split; [discriminate | intros [rest E]; discriminate].
    + destruct (ascii_dec c d) as [->|Hne].
      * rewrite IH. split; intros [rest E]; exists rest.
        -- rewrite append_cons. f_equal. exact E.
        -- rewrite append_cons in E. injection E as E. exact E.
      * split; [discriminate|]. intros [rest E]. rewrite append_cons in E. congruence.
Qed.

(** [c] is the character [lit], or the goal (a test on a string that has
    [c] where the pattern has [lit]) holds by computation. *)
Ltac char_is c lit :=
  destruct (Ascii.eqb_spec c lit) as [->|?];
  [| destruct c as [[] [] [] [] [] [] [] []]; first [discriminate | contradiction] ].

Lemma digit_of_code (c : ascii) (n : nat) : nat_of_ascii c = n -> c = ascii_of_nat n.
Proof. intros <-. symmetry. apply ascii_nat_embedding. Qed.

Lemma isPrivate172_range (h : string) :
  isPrivate172 h = true
  <-> exists n rest, 16 <= n <= 31 /\ h = "172." +:+ pretty n +:+ "." +:+ rest.
Proof.
  split.
  - destruct h as [|c1 h]; [discriminate|]. char_is c1 "1"%char.
    destruct h as [|c2 h]; [discriminate|]. char_is c2 "7"%char.
    destruct h as [|c3 h]; [discriminate|]. char_is c3 "2"%char.
    destruct h as [|c4 h]; [discriminate|]. char_is c4 "."%char.
    destruct h as [|c5 [|c6 [|c7 rest]]]; try discriminate.
    char_is c7 "."%char.
    change (isPrivate172 _) with
      ((Ascii.eqb c5 "1" && (54 <=? nat_of_ascii c6)%nat && (nat_of_ascii c6 <=? 57)%nat)
       || (Ascii.eqb c5 "2" && isDigit c6)
       || (Ascii.eqb c5 "3" && (Ascii.eqb c6 "0" || Ascii.eqb c6 "1"))).
    intros E. unfold isDigit in E.
    assert (Hcases :
      (c5 = "1"%char /\ (54 <= nat_of_ascii c6 <= 57)%nat)
      \/ (c5 = "2"%char /\ (48 <= nat_of_ascii c6 <= 57)%nat)
      \/ (c5 = "3"%char /\ (48 <= nat_of_ascii c6 <= 49)%nat)).
    { repeat (apply orb_true_iff in E as [E|E]); apply andb_true_iff in E as [E1 E2].
      - left. apply andb_true_iff in E1 as [E0 E1].
        apply Ascii.eqb_eq in E0. apply Nat.leb_le in E1, E2. auto.
      - right. left. apply Ascii.eqb_eq in E1. apply andb_true_iff in E2 as [E2 E3].
        apply Nat.leb_le in E2, E3. auto.
      - right. right. apply Ascii.eqb_eq in E1. split; [exact E1|].
        apply orb_true_iff in E2 as [E2|E2]; apply Ascii.eqb_eq in E2; subst c6; vm_compute; lia. }
    assert (Hdigit : forall k, nat_of_ascii c6 = k -> c6 = ascii_of_nat k)
      by (intros k; apply digit_of_code).
    destruct Hcases as [[-> Hc] | [[-> Hc] | [-> Hc]]].
    + assert (Hk : (nat_of_ascii c6 = 54 \/ nat_of_ascii c6 = 55 \/ nat_of_ascii c6 = 56
                   \/ nat_of_ascii c6 = 57)%nat) by lia.
      destruct Hk as [Hk|[Hk|[Hk|Hk]]]; rewrite (Hdigit _ Hk);
        [exists 16 | exists 17 | exists 18 | exists 19]; exists rest; (split; [lia | reflexivity]).
    + assert (Hk : (nat_of_ascii c6 = 48 \/ nat_of_ascii c6 = 49 \/ nat_of_ascii c6 = 50
                   \/ nat_of_ascii c6 = 51 \/ nat_of_ascii c6 = 52 \/ nat_of_ascii c6 = 53
                   \/ nat_of_ascii c6 = 54 \/ nat_of_ascii c6 = 55 \/ nat_of_ascii c6 = 56
                   \/ nat_of_ascii c6 = 57)%nat) by lia.
      destruct Hk as [Hk|[Hk|[Hk|[Hk|[Hk|[Hk|[Hk|[Hk|[Hk|Hk]]]]]]]]]; rewrite (Hdigit _ Hk);
        [exists 20 | exists 21 | exists 22 | exists 23 | exists 24 | exists 25 | exists 26
         | exists 27 | exists 28 | exists 29]; exists rest; (split; [lia | reflexivity]).
    + assert (Hk : (nat_of_ascii c6 = 48 \/ nat_of_ascii c6 = 49)%nat) by lia.
      destruct Hk as [Hk|Hk]; rewrite (Hdigit _ Hk);
        [exists 30 | exists 31]; exists rest; (split; [lia | reflexivity]).
  - intros (n & rest & Hn & ->).
    assert (Hk : n = 16 \/ n = 17 \/ n = 18 \/ n = 19 \/ n = 20 \/ n = 21 \/ n = 22 \/ n = 23
                 \/ n = 24 \/ n = 25 \/ n = 26 \/ n = 27 \/ n = 28 \/ n = 29 \/ n = 30
                 \/ n = 31) by lia.
    repeat (destruct Hk as [->|Hk]; [reflexivity|]). subst n. reflexivity.
Qed.

Lemma endsWith_app (s p : string) :
  endsWith s p = true <-> exists front, s = front +:+ p.
Proof.
  induction s as [|c s IH]; cbn [endsWith].
  - rewrite orb_false_r, String.eqb_eq. split.
    + intros ->. exists EmptyString. reflexivity.
    + intros [[|x front] E]; [rewrite append_nil_l in E; auto|].
      rewrite append_cons in E. discriminate.
  - rewrite orb_true_iff, String.eqb_eq, IH. split.
    + intros [<- | [front ->]]; [exists EmptyString; reflexivity|].
      exists (String c front). rewrite append_cons. reflexivity.
    + intros [[|x front] E].
      * left. rewrite append_nil_l in E. auto.
      * right. rewrite append_cons in E. injection E as -> ->. eauto.
Qed.

Section ValidatorFacts.
Context `{URLApi}.

Lemma blockedHost_test (h : string) :
  blockedHost h
  <-> (String.eqb h "localhost" || String.eqb h "127.0.0.1" || String.eqb h "::1"
       || endsWith h ".localhost" || startsWith h "10." || startsWith h "192.168."
       || isPrivate172 h || startsWith h "169.254." || String.eqb h "0.0.0.0") = true.
Proof.
  unfold blockedHost.
  rewrite <- (isPrivate172_range h), <- !(startsWith_app h), <- (endsWith_app h).
  rewrite !elem_of_cons, elem_of_nil, <- !String.eqb_eq, !orb_true_iff. tauto.
Qed.

(** The test [b] holds, and the host is refused, or it fails. *)
Ltac blocked b :=
  destruct b; cbn [orb negb];
  [split; [discriminate | intros [_ Hn]; exfalso; apply Hn; reflexivity] |].

(** X1.  [isAllowedUrl] lets a URL through exactly when it parses, its
    protocol is [http:] or [https:], and its lower-cased host name is
    none of [localhost], [127.0.0.1], [::1] and [0.0.0.0], does not end
    in [.localhost], and does not start with [10.], [192.168.],
    [169.254.] or [172.n.] for an [n] from 16 to 31.  [filterAllowedUrls]
    keeps the URLs of a list that pass, in their order, and all of them;
    filtering a second time changes nothing. *)
Theorem isAllowedUrl_spec (url : string) :
  (isAllowedUrl url = true
   <-> exists parsed, new_URL url None = Some parsed
        /\ (protocol parsed = "http:" \/ protocol parsed = "https:")
        /\ ~ blockedHost (toLowerCase (hostname parsed)))
  /\ (forall urls, Forall (fun u => isAllowedUrl u = true) (filterAllowedUrls urls)
                   /\ sublist (filterAllowedUrls urls) urls
                   /\ filterAllowedUrls (filterAllowedUrls urls) = filterAllowedUrls urls
                   /\ (forall u, u ∈ urls -> isAllowedUrl u = true -> u ∈ filterAllowedUrls urls)).
Proof.
  split.
  - unfold isAllowedUrl. destruct (new_URL url None) as [parsed|].
    2:{ split; [discriminate | intros (p & E & _); discriminate]. }
    set (h := toLowerCase (hostname parsed)).
    assert (Hgoal :
      (if negb (String.eqb (protocol parsed) "http:" || String.eqb (protocol parsed) "https:")
       then false
       else if String.eqb h "localhost" || String.eqb h "127.0.0.1" || String.eqb h "::1"
       then false
       else if endsWith h ".localhost" then false
       else if startsWith h "10." then false
       else if startsWith h "192.168." then false
       else if isPrivate172 h then false
       else if startsWith h "169.254." then false
       else if String.eqb h "0.0.0.0" then false else true) = true
      <-> (protocol parsed = "http:" \/ protocol parsed = "https:") /\ ~ blockedHost h).
    { rewrite blockedHost_test, <- !String.eqb_eq.
      destruct (String.eqb (protocol parsed) "http:"), (String.eqb (protocol parsed) "https:");
        cbn [orb negb]; try (split; [discriminate | intros [[E|E] _]; discriminate]);
        blocked (String.eqb h "localhost"); blocked (String.eqb h "127.0.0.1");
        blocked (String.eqb h "::1"); blocked (endsWith h ".localhost");
        blocked (startsWith h "10."); blocked (startsWith h "192.168.");
        blocked (isPrivate172 h); blocked (startsWith h "169.254.");
        blocked (String.eqb h "0.0.0.0"); intuition discriminate. }
    rewrite Hgoal. split.
    + intros E. exists parsed. split; [reflexivity | exact E].
    + intros (p & [= <-] & E). exact E.
  - intros urls. unfold filterAllowedUrls. split; [|split; [|split]].
    + apply Forall_forall. intros u Hu. apply list_elem_of_In, filter_In in Hu. tauto.
    + induction urls as [|u urls IH]; simpl; [constructor|].
      destruct (isAllowedUrl u); [apply sublist_skip | apply sublist_cons]; exact IH.
    + induction urls as [|u urls IH]; simpl; [reflexivity|].
      destruct (isAllowedUrl u) eqn:E; [simpl; rewrite E, IH; reflexivity | exact IH].
    + intros u Hu E. apply list_elem_of_In, filter_In. split; [apply list_elem_of_In, Hu | exact E].
Qed.

End ValidatorFacts.

(* --------------------------------------------------------------------- *)
(** ** The links of a page *)

Lemma rev_app_append (s1 s2 : string) : String.rev_app s1 s2 = String.rev s1 +:+ s2.
Proof.
  unfold String.rev. revert s2. induction s1 as [|c s1 IH]; intros s2; [reflexivity|].
  simpl. rewrite IH, (IH (String c "")), append_assoc. reflexivity.
Qed.

Lemma rev_cons (c : ascii) (s : string) : String.rev (String c s) = String.rev s +:+ String c "".
Proof. unfold String.rev at 1. simpl. apply rev_app_append. Qed.

Lemma rev_snoc (s : string) (c : ascii) : String.rev (s +:+ String c "") = String c (String.rev s).
Proof.
  induction s as [|x s IH]; [reflexivity|].
  rewrite append_cons, !rev_cons, IH. reflexivity.
Qed.

Lemma rev_involutive (s : string) : String.rev (String.rev s) = s.
Proof.
  induction s as [|c s IH]; [reflexivity|]. rewrite rev_cons, rev_snoc, IH. reflexivity.
Qed.

Lemma allChars_rev (ok : ascii -> bool) (s : string) :
  Lite.allChars ok (String.rev s) = Lite.allChars ok s.
Proof.
  induction s as [|c s IH]; [reflexivity|].
  rewrite rev_cons, LiteLaws.allChars_app, IH. simpl. rewrite andb_true_r. apply andb_comm.
Qed.

Lemma truthy_rev (s : string) : truthy (String.rev s) = truthy s.
Proof.
  destruct s as [|c s]; [reflexivity|]. rewrite rev_cons.
  destruct (String.rev s); reflexivity.
Qed.

Lemma substring_length_le (n : nat) (s : string) :
  (String.length (substring 0 n s) <= n)%nat.
Proof.
  revert s. induction n as [|n IH]; intros [|c s]; simpl; try lia.
  specialize (IH s). lia.
Qed.

Lemma wordsAux_tokens (s acc : string) :
  Lite.allChars nonSpace acc = true ->
  Forall (fun tok => truthy tok = true /\ Lite.allChars nonSpace tok = true) (wordsAux s acc).
Proof.
  revert acc. induction s as [|c s IH]; intros acc Hacc; simpl.
  - destruct (truthy acc) eqn:Et; constructor; [|constructor].
    rewrite truthy_rev, allChars_rev. auto.
  - destruct (isSpace c) eqn:Ec.
    + apply Forall_app. split; [|apply IH; reflexivity].
      destruct (truthy acc) eqn:Et; constructor; [|constructor].
      rewrite truthy_rev, allChars_rev. auto.
    + apply IH. simpl. unfold nonSpace at 1. rewrite Ec. exact Hacc.
Qed.

Lemma words_tokens (s : string) :
  Forall (fun tok => truthy tok = true /\ Lite.allChars nonSpace tok = true) (words s).
Proof. apply wordsAux_tokens. reflexivity. Qed.

Section ExtractionShape.
Context `{URLApi} `{CheerioApi}.

Lemma eachAnchor_Forall (P : LinkInfo -> Prop) baseUrl elements seen links :
  Forall P links ->
  (forall l a, a ∈ elements -> linkOfAnchor baseUrl l a ->
     li_sourceUrl l = baseUrl -> truthy (li_targetUrl l) = true ->
     li_isInternal l = isInternalLink baseUrl (li_targetUrl l) -> P l) ->
  Forall P (eachAnchor baseUrl elements seen links).
Proof.
  revert seen links. induction elements as [|a rest IH]; intros seen links Hl Hnew; simpl.
  - exact Hl.
  - assert (Hrest : forall l b, b ∈ rest -> linkOfAnchor baseUrl l b ->
       li_sourceUrl l = baseUrl -> truthy (li_targetUrl l) = true ->
       li_isInternal l = isInternalLink baseUrl (li_targetUrl l) -> P l).
    { intros l b Hb. apply Hnew. right. exact Hb. }
    destruct (truthy (a_href a)) eqn:Eh; simpl; [|auto].
    destruct (skippedScheme (a_href a)) eqn:Es; [auto|].
    destruct (normalizeUrl (a_href a) (Some baseUrl)) as [n|] eqn:En; [|auto].
    destruct (truthy n) eqn:Et; simpl; [|auto].
    destruct (decide (n ∈ seen)); [auto|].
    apply IH; [|exact Hrest].
    apply Forall_app. split; [exact Hl|].
    constructor; [|constructor].
    apply Hnew with (a := a); [left | | reflexivity | exact Et | reflexivity].
    repeat split; assumption.
Qed.

Lemma eachAnchor_NoDup baseUrl elements seen links :
  NoDup (li_targetUrl <$> links) ->
  (forall l, l ∈ links -> li_targetUrl l ∈ seen) ->
  NoDup (li_targetUrl <$> eachAnchor baseUrl elements seen links).
Proof.
  revert seen links. induction elements as [|a rest IH]; intros seen links Hnd Hseen; simpl.
  - exact Hnd.
  - destruct (truthy (a_href a)); simpl; [|auto].
    destruct (skippedScheme (a_href a)); [auto|].
    destruct (normalizeUrl (a_href a) (Some baseUrl)) as [n|]; [|auto].
    destruct (truthy n); simpl; [|auto].
    destruct (decide (n ∈ seen)) as [|Hn]; [auto|].
    apply IH.
    + rewrite fmap_app. apply NoDup_app. split; [exact Hnd|]. split; [|apply NoDup_singleton].
      intros x Hx Hx'. apply list_elem_of_fmap in Hx as (l & -> & Hl).
      simpl in Hx'. apply list_elem_of_singleton in Hx'. apply Hn. rewrite <- Hx'. apply Hseen, Hl.
    + intros l Hl. apply elem_of_app in Hl as [Hl|Hl].
      * apply elem_of_union. right. apply Hseen, Hl.
      * apply list_elem_of_singleton in Hl as ->. simpl. apply elem_of_union. left.
        apply elem_of_singleton. reflexivity.
Qed.

Lemma eachLoc_NoDup baseUrl texts seen links :
  NoDup (li_targetUrl <$> links) ->
  (forall l, l ∈ links -> li_targetUrl l ∈ seen) ->
  NoDup (li_targetUrl <$> eachLoc baseUrl texts seen links).
Proof.
  revert seen links. induction texts as [|text rest IH]; intros seen links Hnd Hseen; simpl.
  - exact Hnd.
  - destruct (truthy (trim text)); simpl; [|auto].
    destruct (normalizeUrl (trim text) None) as [n|]; [|auto].
    destruct (truthy n); simpl; [|auto].
    destruct (decide (n ∈ seen)) as [|Hn]; [auto|].
    apply IH.
    + rewrite fmap_app. apply NoDup_app. split; [exact Hnd|]. split; [|apply NoDup_singleton].
      intros x Hx Hx'. apply list_elem_of_fmap in Hx as (l & -> & Hl).
      simpl in Hx'. apply list_elem_of_singleton in Hx'. apply Hn. rewrite <- Hx'. apply Hseen, Hl.
    + intros l Hl. apply elem_of_app in Hl as [Hl|Hl].
      * apply elem_of_union. right. apply Hseen, Hl.
      * apply list_elem_of_singleton in Hl as ->. simpl. apply elem_of_union. left.
        apply elem_of_singleton. reflexivity.
Qed.

Lemma eachAnchor_keeps baseUrl elements seen links l :
  l ∈ links -> l ∈ eachAnchor baseUrl elements seen links.
Proof.
  revert seen links. induction elements as [|a rest IH]; intros seen links Hl; simpl.
  - exact Hl.
  - destruct (truthy (a_href a)); simpl; [|auto].
    destruct (skippedScheme (a_href a)); [auto|].
    destruct (normalizeUrl (a_href a) (Some baseUrl)) as [n|]; [|auto].
    destruct (truthy n); simpl; [|auto].
    destruct (decide (n ∈ seen)); [auto|].
    apply IH. apply elem_of_app. left. exact Hl.
Qed.

Lemma eachAnchor_complete baseUrl elements seen links :
  (forall n, n ∈ seen -> exists l, l ∈ links /\ li_targetUrl l = n) ->
  forall a n, a ∈ elements -> truthy (a_href a) = true -> skippedScheme (a_href a) = false ->
    normalizeUrl (a_href a) (Some baseUrl) = Some n -> truthy n = true ->
    exists l, l ∈ eachAnchor baseUrl elements seen links /\ li_targetUrl l = n.
Proof.
  revert seen links.
  induction elements as [|b rest IH]; intros seen links Hseen a n Hin Ha Hs Hn Hn'.
  - inversion Hin.
  - simpl. apply elem_of_cons in Hin as [-> | Hin].
    + rewrite Ha, Hs, Hn, Hn'. simpl.
      destruct (decide (n ∈ seen)) as [Hk|Hk].
      * destruct (Hseen n Hk) as (l & Hl & <-).
        exists l. split; [apply eachAnchor_keeps, Hl | reflexivity].
      * eexists. split; [apply eachAnchor_keeps, elem_of_app; right; left | reflexivity].
    + destruct (truthy (a_href b)); simpl; [|eauto].
      destruct (skippedScheme (a_href b)); [eauto|].
      destruct (normalizeUrl (a_href b) (Some baseUrl)) as [m|]; [|eauto].
      destruct (truthy m); simpl; [|eauto].
      destruct (decide (m ∈ seen)); [eauto|].
      eapply IH; eauto.
      intros k Hk. apply elem_of_union in Hk as [Hk | Hk].
      * apply elem_of_singleton in Hk as ->.
        eexists. split; [apply elem_of_app; right; left | reflexivity].
      * destruct (Hseen k Hk) as (l & Hl & <-).
        exists l. split; [apply elem_of_app; left; exact Hl | reflexivity].
Qed.

Lemma eachLoc_Forall_truthy (P : LinkInfo -> Prop) baseUrl texts seen links :
  Forall P links ->
  (forall n, truthy n = true ->
     P {| li_sourceUrl := baseUrl; li_targetUrl := n; li_anchorText := "";
          li_rel := []; li_isInternal := isInternalLink baseUrl n |}) ->
  Forall P (eachLoc baseUrl texts seen links).
Proof.
  intros Hl Hnew. revert seen links Hl.
  induction texts as [|text rest IH]; intros seen links Hl; simpl; [exact Hl|].
  destruct (truthy (trim text)); simpl; [|auto].
  destruct (normalizeUrl (trim text) None) as [n|]; [|auto].
  destruct (truthy n) eqn:En; simpl; [|auto].
  destruct (decide (n ∈ seen)); [auto|].
  apply IH. apply Forall_app. split; [exact Hl|]. constructor; [auto | constructor].
Qed.

Lemma eachAnchor_length baseUrl elements seen links :
  (length (eachAnchor baseUrl elements seen links) <= length links + length elements)%nat.
Proof.
  revert seen links. induction elements as [|a rest IH]; intros seen links; simpl; [lia|].
  assert (Hskip : (length (eachAnchor baseUrl rest seen links)
                   <= length links + S (length rest))%nat) by (specialize (IH seen links); lia).
  destruct (truthy (a_href a)); simpl; [|exact Hskip].
  destruct (skippedScheme (a_href a)); [exact Hskip|].
  destruct (normalizeUrl (a_href a) (Some baseUrl)) as [n|]; [|exact Hskip].
  destruct (truthy n); simpl; [|exact Hskip].
  destruct (decide (n ∈ seen)); [exact Hskip|].
  etransitivity; [apply IH|]. rewrite length_app. simpl. lia.
Qed.

Lemma eachLoc_length baseUrl texts seen links :
  (length (eachLoc baseUrl texts seen links) <= length links + length texts)%nat.
Proof.
  revert seen links. induction texts as [|t rest IH]; intros seen links; simpl; [lia|].
  assert (Hskip : (length (eachLoc baseUrl rest seen links)
                   <= length links + S (length rest))%nat) by (specialize (IH seen links); lia).
  destruct (truthy (trim t)); simpl; [|exact Hskip].
  destruct (normalizeUrl (trim t) None) as [n|]; [|exact Hskip].
  destruct (truthy n); simpl; [|exact Hskip].
  destruct (decide (n ∈ seen)); [exact Hskip|].
  etransitivity; [apply IH|]. rewrite length_app. simpl. lia.
Qed.

(** X2.  What [extractLinks] returns.  In both modes the targets are
    pairwise different and non-empty, every link has the page as its
    source and the flag [isInternalLink] gives for its target, and there
    are no more links than matched elements.  On a page that is not a
    sitemap every link comes from an anchor whose [href] is non-empty,
    has none of the skipped schemes and normalises to the target; its
    text is the anchor's, trimmed and cut to 200 characters; its [rel] is
    the attribute's tokens, none empty or with white space; and every
    such anchor has a link for its target. *)
Theorem extractLinks_links (html baseUrl : string) :
  let links := extractLinks html baseUrl in
  NoDup (li_targetUrl <$> links)
  /\ Forall (fun l => li_sourceUrl l = baseUrl
                      /\ truthy (li_targetUrl l) = true
                      /\ li_isInternal l = isInternalLink baseUrl (li_targetUrl l)) links
  /\ (length links <= if isSitemap html then length (select_loc html)
                      else length (select_anchors html))%nat
  /\ (isSitemap html = false ->
      Forall (fun l => (String.length (li_anchorText l) <= 200)%nat
                       /\ Forall (fun tok => truthy tok = true
                                             /\ Lite.allChars nonSpace tok = true) (li_rel l)
                       /\ exists a, a ∈ select_anchors html /\ linkOfAnchor baseUrl l a) links
      /\ (forall a n, a ∈ select_anchors html -> truthy (a_href a) = true ->
            skippedScheme (a_href a) = false ->
            normalizeUrl (a_href a) (Some baseUrl) = Some n -> truthy n = true ->
            exists l, l ∈ links /\ li_targetUrl l = n)).
Proof.
  intros links. subst links. unfold extractLinks.
  destruct (isSitemap html); unfold extractLinksFromSitemap, extractLinksFromHtml.
  - split; [|split; [|split]]; [| | |discriminate].
    + apply eachLoc_NoDup; [constructor|]. intros l Hl. inversion Hl.
    + apply eachLoc_Forall_truthy; [constructor|]. intros n Hn. auto.
    + apply (eachLoc_length baseUrl (select_loc html) ∅ []).
  - split; [|split; [|split]].
    + apply eachAnchor_NoDup; [constructor|]. intros l Hl. inversion Hl.
    + apply eachAnchor_Forall; [constructor|]. intros l a _ _ Hsrc Ht Hint. auto.
    + apply (eachAnchor_length baseUrl (select_anchors html) ∅ []).
    + intros _. split.
      * apply eachAnchor_Forall; [constructor|].
        intros l a Ha Hlink Hsrc Ht Hint.
        destruct Hlink as (Hh & Hs & Hn & Htext & Hrel).
        split; [rewrite Htext; apply substring_length_le|].
        split; [rewrite Hrel; apply words_tokens|].
        exists a. split; [exact Ha|]. repeat split; assumption.
      * apply eachAnchor_complete. intros n Hn. exfalso. set_solver.
Qed.

End ExtractionShape.

(* --------------------------------------------------------------------- *)
(** ** The shape of a redirect chain and its requests *)

Section RedirectShape.
Context `{URLApi} `{Platform}.

Lemma redirectLoop_shape remaining timeoutMs chain0 cur env :
  let run := redirectLoop remaining timeoutMs chain0 cur env in
  exists more t extra,
    ri_chain (fst run) = chain0 ++ more
    /\ trace (snd run) = trace env ++ t ++ extra
    /\ (length more <= remaining)%nat
    /\ (length (t ++ extra) <= remaining)%nat
    /\ Forall2 answeredBy t more
    /\ (forall step, head more = Some step -> rs_url step = cur)
    /\ (extra = []
        \/ exists e, extra = [EvFetch HEAD (ri_finalUrl (fst run)) (Threw e)]
                     /\ ri_error (fst run) = Some (redirectErrorMsg e))
    /\ match ri_error (fst run) with
       | None =>
           exists pre, more = pre ++ [ {| rs_url := ri_finalUrl (fst run);
                                          rs_status := ri_finalStatus (fst run) |} ]
                       /\ Forall isRedirect pre
       | Some _ => ri_finalStatus (fst run) = 0 /\ Forall isRedirect more
       end.
Proof.
  revert chain0 cur env. induction remaining as [|k IH]; intros chain0 cur env.
  - exists [], [], []. simpl. rewrite !app_nil_r.
    repeat split; auto; try lia; try discriminate; try constructor.
  - simpl. unfold doFetch.
    destruct (fetch HEAD cur (headInit timeoutMs) (world env)) as [[response|e] w1] eqn:Ef.
    + set (step := {| rs_url := cur; rs_status := resp_status response |}).
      set (env1 := resume w1 (EvFetch HEAD cur (Returned response)) env).
      assert (Hterminal :
        let run := ({| ri_chain := chain0 ++ [step]; ri_finalUrl := cur;
                       ri_finalStatus := resp_status response; ri_error := None |}, env1) in
        exists more t extra,
          ri_chain (fst run) = chain0 ++ more
          /\ trace (snd run) = trace env ++ t ++ extra
          /\ (length more <= S k)%nat
          /\ (length (t ++ extra) <= S k)%nat
          /\ Forall2 answeredBy t more
          /\ (forall s, head more = Some s -> rs_url s = cur)
          /\ (extra = []
              \/ exists e, extra = [EvFetch HEAD (ri_finalUrl (fst run)) (Threw e)]
                           /\ ri_error (fst run) = Some (redirectErrorMsg e))
          /\ match ri_error (fst run) with
             | None =>
                 exists pre, more = pre ++ [ {| rs_url := ri_finalUrl (fst run);
                                                rs_status := ri_finalStatus (fst run) |} ]
                             /\ Forall isRedirect pre
             | Some _ => ri_finalStatus (fst run) = 0 /\ Forall isRedirect more
             end).
      { exists [step], [EvFetch HEAD cur (Returned response)], []. simpl.
        split; [reflexivity|]. split; [reflexivity|]. split; [lia|]. split; [lia|].
        split; [constructor; [exists response; split; reflexivity | constructor]|].
        split; [intros s [= <-]; reflexivity|]. split; [left; reflexivity|].
        exists []. split; [reflexivity | constructor]. }
      destruct ((300 <=? resp_status response) && (resp_status response <? 400)) eqn:E3xx;
        [|exact Hterminal].
      destruct (resp_location response) as [location|]; [|exact Hterminal].
      destruct (truthy location); [|exact Hterminal].
      assert (Hstep : isRedirect step).
      { apply andb_true_iff in E3xx as [E1 E2]. apply Z.leb_le in E1. apply Z.ltb_lt in E2.
        split; assumption. }
      destruct (new_URL location (Some cur)) as [next|].
      * destruct (IH (chain0 ++ [step]) (href next) env1)
          as (more & t & extra & Hchain & Htrace & Hlen & Hlent & Hans & Hhead & Hextra & Hres).
        exists (step :: more), (EvFetch HEAD cur (Returned response) :: t), extra.
        split; [rewrite Hchain, <- app_assoc; reflexivity|].
        split; [rewrite Htrace; simpl; rewrite <- app_assoc; reflexivity|].
        split; [simpl; lia|]. split; [simpl; lia|].
        split; [constructor; [exists response; split; reflexivity | exact Hans]|].
        split; [intros s [= <-]; reflexivity|]. split; [exact Hextra|].
        destruct (ri_error (fst (redirectLoop k timeoutMs (chain0 ++ [step]) (href next) env1))).
        -- destruct Hres as (Hs & Hall). split; [exact Hs | constructor; assumption].
        -- destruct Hres as (pre & Hmore & Hpre).
           exists (step :: pre). split; [rewrite Hmore; reflexivity | constructor; auto].
      * exists [step], [EvFetch HEAD cur (Returned response)], []. simpl.
        split; [reflexivity|]. split; [reflexivity|]. split; [lia|]. split; [lia|].
        split; [constructor; [exists response; split; reflexivity | constructor]|].
        split; [intros s [= <-]; reflexivity|]. split; [left; reflexivity|].
        split; [reflexivity|]. constructor; [exact Hstep | constructor].
    + exists [], [], [EvFetch HEAD cur (Threw e)]. simpl. rewrite app_nil_r.
      split; [reflexivity|]. split; [reflexivity|]. split; [lia|]. split; [lia|].
      split; [constructor|]. split; [intros s Hs; discriminate Hs|].
      split; [right; exists e; split; reflexivity|]. split; [reflexivity | constructor].
Qed.

(** X3.  The chain [getRedirectChain] gives, for any bound on the
    redirects.  It has at most [maxRedirects] steps and starts at the URL
    asked for; every step but the last is a redirect (a status from 300
    to 399).  Without an error the last step is the final URL with the
    final status; with an error the final status is 0 and every step of
    the chain is a redirect. *)
Theorem getRedirectChain_shape (url : string) (maxRedirects : nat) (timeoutMs : Z) (env : Env) :
  let info := fst (getRedirectChainWith url maxRedirects timeoutMs env) in
  (length (ri_chain info) <= maxRedirects)%nat
  /\ (forall step, head (ri_chain info) = Some step -> rs_url step = url)
  /\ (forall i step, ri_chain info !! i = Some step -> (S i < length (ri_chain info))%nat ->
        isRedirect step)
  /\ match ri_error info with
     | None => last (ri_chain info)
               = Some {| rs_url := ri_finalUrl info; rs_status := ri_finalStatus info |}
     | Some _ => ri_finalStatus info = 0 /\ Forall isRedirect (ri_chain info)
     end.
Proof.
  intros info. unfold getRedirectChainWith in info.
  destruct (redirectLoop_shape maxRedirects timeoutMs [] url env)
    as (more & t & extra & Hchain & _ & Hlen & _ & _ & Hhead & _ & Hres).
  fold info in Hchain, Hres. simpl in Hchain. rewrite Hchain.
  split; [exact Hlen|]. split; [exact Hhead|].
  destruct (ri_error info).
  - destruct Hres as (Hs & Hall). split; [|split; assumption].
    intros i step Hi _. eapply Forall_lookup_1; eauto.
  - destruct Hres as (pre & -> & Hpre). split; [|apply last_snoc].
    intros i step Hi Hlt. rewrite length_app in Hlt. simpl in Hlt.
    rewrite lookup_app_l in Hi by lia. eapply Forall_lookup_1; eauto.
Qed.

(** X4.  What [getRedirectChain] does on the network: one HEAD request
    for each step of the chain, to the URL of the step and answered with
    its status, in the order of the chain; then at most one more, a
    request to the final URL that threw, whose message is the error; at
    most [maxRedirects] requests in all, and nothing else. *)
Theorem getRedirectChain_requests (url : string) (maxRedirects : nat) (timeoutMs : Z)
    (env : Env) :
  let run := getRedirectChainWith url maxRedirects timeoutMs env in
  exists t extra,
    trace (snd run) = trace env ++ t ++ extra
    /\ Forall2 answeredBy t (ri_chain (fst run))
    /\ (extra = []
        \/ exists e, extra = [EvFetch HEAD (ri_finalUrl (fst run)) (Threw e)]
                     /\ ri_error (fst run) = Some (redirectErrorMsg e))
    /\ (length (t ++ extra) <= maxRedirects)%nat.
Proof.
  intros run. unfold getRedirectChainWith in run.
  destruct (redirectLoop_shape maxRedirects timeoutMs [] url env)
    as (more & t & extra & Hchain & Htrace & _ & Hlen & Hans & _ & Hextra & _).
  fold run in Hchain, Htrace, Hextra. simpl in Hchain. rewrite Hchain.
  exists t, extra. auto.
Qed.

End RedirectShape.

(* --------------------------------------------------------------------- *)
(** ** The schedule of [fetchWithRetry] *)

Section RetrySchedule.
Context `{Platform}.

Lemma retrySchedule_cons url attempt a b rest :
  retrySchedule url attempt (a :: b :: rest)
  = EvFetch GET url a :: EvSleep (backoff attempt) :: retrySchedule url (attempt + 1) (b :: rest).
Proof. reflexivity. Qed.

(** The schedule of a call that returns, and what a retry count that is a
    whole number adds to it. *)
Lemma fetchWithRetry_scheduled (fuel : nat) (url : string) (settings : RequestSettings)
    (env : Env) out env' :
  fetchWithRetry fuel url settings env = Some (out, env') ->
  exists answers,
    trace env' = trace env ++ retrySchedule url 0 answers
                 ++ lastPause (retries settings) (Z.of_nat (length answers) - 1) answers
    /\ (length answers <= fuel)%nat
    /\ attemptsFit (retries settings) (length answers)
    /\ (answers = [] <-> numLeb (ofInt 0) (retries settings) = false)
    /\ (forall k, wholeNum (retries settings) k ->
          (length answers <= Z.to_nat (k + 1))%nat
          /\ lastPause (retries settings) (Z.of_nat (length answers) - 1) answers = []).
Proof.
  intros Erun. unfold fetchWithRetry in Erun.
  destruct (retryLoop_run _ _ _ _ _ _ _ _ Erun) as (answers & Htrace & Hfuel & Hidx & Hres).
  exists answers. split; [exact Htrace|]. split; [exact Hfuel|].
  assert (Hfit : attemptsFit (retries settings) (length answers)).
  { intros i Hi. destruct (lookup_lt_is_Some_2 answers i Hi) as [a Ha].
    destruct (Hidx i a Ha) as [Hle _]. exact Hle. }
  split; [exact Hfit|]. split.
  { split.
    - intros ->. simpl in Hres. apply Hres.
    - intros Hnone. destruct answers as [|a rest]; [reflexivity|].
      specialize (Hfit 0%nat ltac:(simpl; lia)).
      change (ofNat 0) with (ofInt 0) in Hfit. congruence. }
  intros k Hk.
  destruct (last answers) as [a|] eqn:El.
  2:{ apply last_None in El. subst answers. split; [simpl; lia | reflexivity]. }
  unfold lastPause. rewrite El.
  apply last_Some in El as [front ->]. rewrite length_app. simpl.
  destruct (Hidx (length front) a) as [Hle Hiff].
  { rewrite lookup_app_r, Nat.sub_diag by lia. reflexivity. }
  rewrite (numLeb_whole _ _ _ Hk) in Hle. apply Z.leb_le in Hle.
  split; [lia|].
  destruct (retryable a) eqn:Ea; [|reflexivity]. simpl.
  rewrite (numLtb_whole _ _ _ Hk).
  destruct (Z.of_nat (length front + 1) - 1 <? k) eqn:Elt; [|reflexivity].
  exfalso. apply Z.ltb_lt in Elt.
  rewrite length_app in Hiff. simpl in Hiff.
  assert (S (length front) < length front + 1)%nat; [|lia].
  apply Hiff. split; [reflexivity|].
  rewrite (numLeb_whole _ _ _ Hk). apply Z.leb_le. lia.
Qed.

(** X5.  The schedule of [fetchWithRetry].  A call that returns has made
    GET requests to the one URL and, after every attempt that another
    follows, a pause of 1000 ms times the number of attempts made so far;
    after the last attempt there is one more such pause exactly when that
    attempt failed (a status of 500 or more, or a thrown failure) and its
    index is below [retries]; nothing else.  The attempt with index [i]
    is made only if [i <= retries], and there is none only when
    [0 <= retries] does not hold.  With a retry count that is a whole
    number there are at most [retries + 1] attempts and no pause after
    the last.  A call that does not return within the fuel has a retry
    count of at least the fuel. *)
Theorem fetchWithRetry_schedule (fuel : nat) (url : string) (settings : RequestSettings)
    (env : Env) :
  match fetchWithRetry fuel url settings env with
  | Some (out, env') =>
      exists answers,
        trace env' = trace env ++ retrySchedule url 0 answers
                     ++ lastPause (retries settings) (Z.of_nat (length answers) - 1) answers
        /\ attemptsFit (retries settings) (length answers)
        /\ (answers = [] <-> numLeb (ofInt 0) (retries settings) = false)
        /\ (forall k, wholeNum (retries settings) k ->
              (length answers <= Z.to_nat (k + 1))%nat
              /\ lastPause (retries settings) (Z.of_nat (length answers) - 1) answers = [])
  | None => numLeb (ofNat fuel) (retries settings) = true
  end.
Proof.
  destruct (fetchWithRetry fuel url settings env) as [[out env']|] eqn:Erun.
  - destruct (fetchWithRetry_scheduled _ _ _ _ _ _ Erun)
      as (answers & Htrace & _ & Hfit & Hnone & Hwhole).
    exists answers. auto.
  - destruct (numLeb (ofNat fuel) (retries settings)) eqn:Eout; [reflexivity|].
    destruct (fetchWithRetry_total fuel url settings env Eout) as [r Er]. congruence.
Qed.

Lemma streamSettings_retries_cases (body : ScrapeLinksRequest) :
  retries (streamSettings body) = JNaN /\ (settings body ≫= raw_retries) = Some JNaN
  \/ exists m, retries (streamSettings body) = JFin m /\ (0 <= m)%Q /\ (m <= 5)%Q.
Proof.
  unfold streamSettings. cbn [retries]. unfold nullish.
  destruct (settings body ≫= raw_retries) as [x|]; simpl.
  - assert (Hx : x = JNaN \/ x <> JNaN) by (destruct x; auto; right; discriminate).
    destruct Hx as [-> | Hx]; [left; split; reflexivity|].
    right. apply (clamp_range (inject_Z 0) (inject_Z 5) x); [discriminate | exact Hx].
  - right. apply (clamp_range (inject_Z 0) (inject_Z 5) (ofInt 1)); discriminate.
Qed.

Lemma streamSettings_timeout_cases (body : ScrapeLinksRequest) :
  timeout (streamSettings body) = JNaN /\ (settings body ≫= raw_timeout) = Some JNaN
  \/ exists m, timeout (streamSettings body) = JFin m /\ (1 <= m)%Q /\ (m <= 120)%Q.
Proof.
  unfold streamSettings. cbn [timeout]. unfold nullish.
  destruct (settings body ≫= raw_timeout) as [x|]; simpl.
  - assert (Hx : x = JNaN \/ x <> JNaN) by (destruct x; auto; right; discriminate).
    destruct Hx as [-> | Hx]; [left; split; reflexivity|].
    right. apply (clamp_range (inject_Z 1) (inject_Z 120) x); [discriminate | exact Hx].
  - right. apply (clamp_range (inject_Z 1) (inject_Z 120) (ofInt 30)); discriminate.
Qed.

(** X6.  The streaming handler fetches with a timeout between 1 and
    120 seconds (30 when the request gives none) and a retry count
    between 0 and 5 (1 when the request gives none), neither of them
    necessarily a whole number; a timeout or a retry count that the
    request gives as NaN stays NaN.  So a page fetch of the streaming
    handler always returns, given fuel for six attempts: it makes at most
    six attempts, on the schedule above, and at least one unless the
    retry count is NaN, in which case it makes none. *)
Theorem stream_fetch_settings (body : ScrapeLinksRequest) (url : string) (env : Env)
    (fuel : nat) :
  let s := streamSettings body in
  (timeout s = JNaN /\ (settings body ≫= raw_timeout) = Some JNaN
   \/ exists m, timeout s = JFin m /\ (1 <= m)%Q /\ (m <= 120)%Q)
  /\ (retries s = JNaN /\ (settings body ≫= raw_retries) = Some JNaN
      \/ exists m, retries s = JFin m /\ (0 <= m)%Q /\ (m <= 5)%Q)
  /\ ((settings body ≫= raw_timeout) = None -> timeout s = ofInt 30)
  /\ ((settings body ≫= raw_retries) = None -> retries s = ofInt 1)
  /\ ((6 <= fuel)%nat ->
      exists out env' answers,
        fetchWithRetry fuel url s env = Some (out, env')
        /\ trace env' = trace env ++ retrySchedule url 0 answers
                        ++ lastPause (retries s) (Z.of_nat (length answers) - 1) answers
        /\ (length answers <= 6)%nat
        /\ (answers = [] <-> retries s = JNaN)).
Proof.
  intros s.
  pose proof (streamSettings_retries_cases body) as Hr. fold s in Hr.
  split; [apply streamSettings_timeout_cases|]. split; [exact Hr|].
  split; [unfold s, streamSettings; simpl; intros ->; reflexivity|].
  split; [unfold s, streamSettings; simpl; intros ->; reflexivity|].
  intros Hfuel.
  assert (Hsix : numLeb (ofNat 6) (retries s) = false).
  { destruct Hr as [[-> _] | (m & -> & _ & Hm)]; [reflexivity|].
    unfold numLeb, ofNat, ofInt. apply Qle_bool_false.
    eapply Qle_lt_trans; [exact Hm|]. reflexivity. }
  destruct (fetchWithRetry_total fuel url s env) as [[out env'] Erun].
  { unfold ofNat. eapply numLeb_above; [|exact Hsix]. lia. }
  destruct (fetchWithRetry_scheduled _ _ _ _ _ _ Erun)
    as (answers & Htrace & _ & Hfit & Hnone & _).
  exists out, env', answers. split; [exact Erun|]. split; [exact Htrace|]. split.
  - destruct (le_lt_dec (length answers) 6) as [Hle | Hgt]; [exact Hle|].
    specialize (Hfit 6%nat Hgt). congruence.
  - rewrite Hnone. destruct Hr as [[-> _] | (m & -> & Hm & _)]; [split; reflexivity|].
    split; [|discriminate]. intros Hzero. exfalso.
    unfold numLeb, ofInt in Hzero. apply Qle_bool_false in Hzero.
    apply (Qlt_not_le _ _ Hzero). exact Hm.
Qed.

End RetrySchedule.

(* --------------------------------------------------------------------- *)
(** ** The path filters *)

Lemma allChars_trimStart (ok : ascii -> bool) (s : string) :
  Lite.allChars ok s = true -> Lite.allChars ok (trimStart s) = true.
Proof.
  induction s as [|c s IH]; [auto|]. intros E. simpl.
  destruct (isSpace c); [|exact E]. simpl in E. apply andb_true_iff in E as [_ E]. auto.
Qed.

Lemma allChars_trim (ok : ascii -> bool) (s : string) :
  Lite.allChars ok s = true -> Lite.allChars ok (trim s) = true.
Proof.
  intros E. unfold trim. rewrite allChars_rev. apply allChars_trimStart.
  rewrite allChars_rev. apply allChars_trimStart, E.
Qed.

Lemma rev_append (a b : string) : String.rev (a +:+ b) = String.rev b +:+ String.rev a.
Proof.
  induction a as [|c a IH].
  - rewrite append_nil_l. simpl. rewrite append_nil_r. reflexivity.
  - rewrite append_cons, !rev_cons, IH, append_assoc. reflexivity.
Qed.

Lemma dropSlashesStart_split (s : string) :
  exists run, s = run +:+ dropSlashesStart s /\ Lite.allChars isSlash run = true.
Proof.
  induction s as [|c s (run & E & Hrun)]; [exists EmptyString; auto|].
  destruct (Ascii.eqb_spec c "/") as [->|Hc].
  - exists (String "/" run). split; [|exact Hrun].
    rewrite append_cons. cbn [dropSlashesStart]. f_equal. exact E.
  - exists EmptyString. split; [|reflexivity]. rewrite append_nil_l.
    destruct c as [[] [] [] [] [] [] [] []]; first [reflexivity | contradiction].
Qed.

Lemma dropSlashesStart_head (s : string) : startsWith (dropSlashesStart s) "/" = false.
Proof.
  induction s as [|c s IH]; [reflexivity|].
  destruct (Ascii.eqb_spec c "/") as [->|Hc]; [exact IH|].
  destruct c as [[] [] [] [] [] [] [] []]; first [reflexivity | contradiction].
Qed.

Lemma stripTrailingSlashes_split (s : string) :
  exists run, s = stripTrailingSlashes s +:+ run /\ Lite.allChars isSlash run = true.
Proof.
  unfold stripTrailingSlashes.
  destruct (dropSlashesStart_split (String.rev s)) as (run & E & Hrun).
  exists (String.rev run). split; [|rewrite allChars_rev; exact Hrun].
  rewrite <- rev_append, <- E, rev_involutive. reflexivity.
Qed.

Lemma stripTrailingSlashes_end (s : string) : endsWith (stripTrailingSlashes s) "/" = false.
Proof.
  destruct (endsWith (stripTrailingSlashes s) "/") eqn:E; [|reflexivity].
  apply endsWith_app in E as [front E]. unfold stripTrailingSlashes in E.
  apply (f_equal String.rev) in E. rewrite rev_involutive, rev_snoc in E.
  pose proof (dropSlashesStart_head (String.rev s)) as Hhead. rewrite E in Hhead.
  assert (Ht : startsWith (String "/" (String.rev front)) "/" = true)
    by (apply startsWith_app; exists (String.rev front); reflexivity).
  congruence.
Qed.

Lemma allSlashes_end (s : string) :
  Lite.allChars isSlash s = true -> s <> EmptyString -> endsWith s "/" = true.
Proof.
  induction s as [|c s IH]; [contradiction|]. intros Hs _. simpl in Hs.
  apply andb_true_iff in Hs as [Hc Hs]. apply Ascii.eqb_eq in Hc as ->.
  cbn [endsWith]. destruct s as [|d s]; [reflexivity|].
  rewrite IH by (auto; discriminate). apply orb_true_r.
Qed.

Lemma stripTrailingSlashes_slashes (run : string) :
  Lite.allChars isSlash run = true -> stripTrailingSlashes run = EmptyString.
Proof.
  intros Hrun. destruct (stripTrailingSlashes_split run) as (tail & E & _).
  pose proof (stripTrailingSlashes_end run) as Hend.
  destruct (stripTrailingSlashes run) as [|c p] eqn:Ep; [reflexivity|].
  rewrite E, LiteLaws.allChars_app in Hrun. apply andb_true_iff in Hrun as [Hp _].
  rewrite allSlashes_end in Hend by (auto; discriminate). discriminate.
Qed.

Lemma splitOn_clean (sep : ascii) (s acc : string) :
  Lite.allChars (fun c => negb (Ascii.eqb c sep)) acc = true ->
  Forall (fun piece => Lite.allChars (fun c => negb (Ascii.eqb c sep)) piece = true)
         (splitOn sep s acc).
Proof.
  revert acc. induction s as [|c s IH]; intros acc Hacc; simpl.
  - constructor; [rewrite allChars_rev; exact Hacc | constructor].
  - destruct (Ascii.eqb c sep) eqn:Ec.
    + constructor; [rewrite allChars_rev; exact Hacc | apply IH; reflexivity].
    + apply IH. simpl. rewrite Ec. exact Hacc.
Qed.

Section PathFilterFacts.
Context `{URLApi} `{CheerioApi} `{RegExpApi} `{Platform}.

Lemma underPath_covers (path prefix : string) :
  underPath path prefix = true <-> covers prefix path.
Proof.
  unfold underPath, covers. rewrite orb_true_iff, String.eqb_eq, startsWith_app.
  split; (intros [E | [rest E]]; [left; exact E | right; exists rest]).
  - rewrite E, append_assoc. reflexivity.
  - rewrite E, append_assoc. reflexivity.
Qed.

Lemma existsb_covers (path : string) (entries : list string) :
  existsb (underPath path) entries = true
  <-> exists entry, entry ∈ entries /\ covers entry path.
Proof.
  rewrite existsb_exists. split; intros (entry & Hin & Hc); exists entry.
  - split; [apply list_elem_of_In, Hin | apply underPath_covers, Hc].
  - split; [apply list_elem_of_In, Hin | apply underPath_covers, Hc].
Qed.

(** X7.  The path filters.  A URL that does not parse passes.  A URL
    that parses passes exactly when no exclude entry covers its path and,
    if there are include entries, one of them covers it; so an exclude
    wins over an include.  An entry covers the path that equals it, and
    the paths under it, once its trailing slashes are dropped; so an
    entry made of slashes only covers every path.  The entries of a
    filter field are its pieces between commas, trimmed, the empty ones
    left out. *)
Theorem matchesPathFilter_spec (cfg : CrawlConfig) (url : string) :
  (new_URL url None = None -> matchesPathFilter cfg url = true)
  /\ (forall u, new_URL url None = Some u ->
        (matchesPathFilter cfg url = true
         <-> (forall ex, ex ∈ cfg_pathExcludes cfg -> ~ covers ex (pathname u))
             /\ (cfg_pathIncludes cfg = []
                 \/ exists inc, inc ∈ cfg_pathIncludes cfg /\ covers inc (pathname u))))
  /\ (forall prefix,
        endsWith (stripTrailingSlashes prefix) "/" = false
        /\ exists run, prefix = stripTrailingSlashes prefix +:+ run
                       /\ Lite.allChars isSlash run = true)
  /\ (forall run path, Lite.allChars isSlash run = true -> covers run (String "/" path))
  /\ (forall field, Forall (fun entry => entry <> EmptyString
                                         /\ Lite.allChars notComma entry = true)
                           (pathList field)).
Proof.
  split; [|split; [|split; [|split]]].
  - intros E. unfold matchesPathFilter. rewrite E. reflexivity.
  - intros u E. unfold matchesPathFilter. rewrite E.
    destruct (existsb (underPath (pathname u)) (cfg_pathExcludes cfg)) eqn:Eex.
    + split; [discriminate|]. intros [Hex _]. exfalso.
      apply existsb_covers in Eex as (ex & Hin & Hc). exact (Hex ex Hin Hc).
    + assert (Hex : forall ex, ex ∈ cfg_pathExcludes cfg -> ~ covers ex (pathname u)).
      { intros ex Hin Hc.
        assert (Ht : existsb (underPath (pathname u)) (cfg_pathExcludes cfg) = true)
          by (apply existsb_covers; eauto).
        congruence. }
      destruct (cfg_pathIncludes cfg) as [|inc incs] eqn:Einc.
      * simpl. split; auto.
      * change (0 <? length (inc :: incs))%nat with true. cbv iota.
        rewrite existsb_covers. split.
        -- intros Hc. split; [exact Hex | right; exact Hc].
        -- intros [_ [Hnil | Hc]]; [discriminate | exact Hc].
  - intros prefix. split; [apply stripTrailingSlashes_end | apply stripTrailingSlashes_split].
  - intros run path Hrun. right. exists path.
    rewrite stripTrailingSlashes_slashes by exact Hrun. reflexivity.
  - intros field. unfold pathList. destruct field as [s|]; [|constructor].
    destruct (truthy s); [|constructor].
    apply Forall_forall. intros entry Hin.
    apply list_elem_of_In, filter_In in Hin as [Hin Ht].
    split; [intros ->; discriminate|].
    apply in_map_iff in Hin as (piece & <- & Hpiece).
    apply allChars_trim.
    pose proof (splitOn_clean "," s EmptyString eq_refl) as Hall.
    eapply Forall_forall in Hall; [exact Hall | apply list_elem_of_In, Hpiece].
Qed.

End PathFilterFacts.

(* --------------------------------------------------------------------- *)
(** ** Runs of the crawl: termination, the client, the scope *)

Section FuelFacts.
Context `{Platform}.

(** More fuel does not change what a fetch comes to. *)
Lemma retryLoop_more_fuel fuel fuel' attempt lastError url settings env r :
  retryLoop fuel attempt lastError url settings env = Some r -> (fuel <= fuel')%nat ->
  retryLoop fuel' attempt lastError url settings env = Some r.
Proof.
  revert fuel' attempt lastError env.
  induction fuel as [|k IH]; intros fuel' attempt lastError env; cbn [retryLoop].
  - destruct (numLeb (ofInt attempt) (retries settings)) eqn:Eguard; [discriminate|].
    intros E _. destruct fuel'; cbn [retryLoop]; rewrite Eguard; exact E.
  - destruct (numLeb (ofInt attempt) (retries settings)) eqn:Eguard.
    + intros E Hle. destruct fuel' as [|k']; [lia|]. cbn [retryLoop]. rewrite Eguard.
      destruct (doFetch GET url (getInit settings) env) as [[response|e] env1].
      * destruct ((500 <=? resp_status response) && numLtb (ofInt attempt) (retries settings));
          [apply IH; [exact E | lia] | exact E].
      * destruct (numLtb (ofInt attempt) (retries settings)); (apply IH; [exact E | lia]).
    + intros E _. destruct fuel'; cbn [retryLoop]; rewrite Eguard; exact E.
Qed.



Lemma attemptsFit_whole (r : JNum) (k : Z) (n : nat) :
  wholeNum r k -> attemptsFit r n -> (n <= Z.to_nat (k + 1))%nat.
Proof.
  intros Hk Hfit. destruct n as [|n]; [lia|].
  specialize (Hfit n ltac:(lia)). unfold ofNat in Hfit.
  rewrite (numLeb_whole _ _ _ Hk) in Hfit. apply Z.leb_le in Hfit. lia.
Qed.

End FuelFacts.

Lemma headRequests_snoc (t : list Event) (ev : Event) :
  headRequests (t ++ [ev])
  = headRequests t ++ match ev with EvFetch HEAD url _ => [url] | _ => [] end.
Proof.
  unfold headRequests. rewrite omap_app. simpl.
  destruct ev as [|[]| |]; simpl; rewrite ?app_nil_r; reflexivity.
Qed.

Section LoopFacts.
Context `{URLApi} `{CheerioApi} `{RegExpApi} `{Platform}.

Lemma crawlStep_more_fuel fuel fuel' cfg st st' :
  crawlStep fuel cfg st = Some st' -> (fuel <= fuel')%nat -> crawlStep fuel' cfg st = Some st'.
Proof.
  intros E Hle. unfold crawlStep, tryPage, fetchPage, fetchWithRetry in *.
  destruct (queue st) as [|item rest]; [exact E|].
  destruct (passesFilters cfg (item_url item)); [|exact E].
  match type of E with
  | context [retryLoop fuel ?a ?l ?u ?s ?e] =>
      destruct (retryLoop fuel a l u s e) as [r|] eqn:Er; [|discriminate];
      rewrite (retryLoop_more_fuel _ fuel' _ _ _ _ _ _ Er Hle)
  end.
  exact E.
Qed.

Lemma crawlLoop_more_fuel fuel fuel' cfg st st' :
  crawlLoop fuel cfg st = Some st' -> (fuel <= fuel')%nat -> crawlLoop fuel' cfg st = Some st'.
Proof.
  revert fuel' st. induction fuel as [|fuel IH]; intros fuel' st; simpl.
  - destruct (running cfg st) eqn:Erun; [discriminate|]. intros [= <-] _.
    destruct fuel'; simpl; rewrite Erun; reflexivity.
  - destruct (running cfg st) eqn:Erun.
    + intros Hloop Hle. destruct fuel' as [|fuel']; [lia|]. simpl. rewrite Erun.
      destruct (crawlStep fuel cfg st) as [st1|] eqn:Estep; [|discriminate].
      rewrite (crawlStep_more_fuel _ fuel' _ _ _ Estep) by lia.
      apply IH; [exact Hloop | lia].
    + intros [= <-] _. destruct fuel'; simpl; rewrite Erun; reflexivity.
Qed.

Lemma crawlLoop_idle fuel cfg st :
  running cfg st = false -> crawlLoop fuel cfg st = Some st.
Proof. intros Erun. destruct fuel; simpl; rewrite Erun; reflexivity. Qed.




Lemma headRequests_sleep ms (env1 : Env) :
  headRequests (trace (sleep ms env1)) = headRequests (trace env1).
Proof. unfold sleep. simpl. rewrite headRequests_snoc, app_nil_r. reflexivity. Qed.

Lemma headRequests_emit name data (env1 : Env) :
  headRequests (trace (emit name data env1)) = headRequests (trace env1).
Proof.
  unfold emit. destruct (isClosed env1); [reflexivity|]. simpl.
  rewrite headRequests_snoc, app_nil_r. reflexivity.
Qed.

Lemma fetchPage_heads fuel cfg item st page st2 :
  fetchPage fuel cfg item st = Some (page, st2) ->
  headRequests (trace (env st2)) = headRequests (trace (env st)).
Proof.
  intros Hpage.
  destruct (fetchPage_run _ _ _ _ _ _ Hpage) as (_ & _ & _ & _ & answers & post & -> & Hpost & _).
  unfold headRequests. rewrite !omap_app, omap_retrySchedule, omap_lastPause by reflexivity.
  rewrite omap_none.
  destruct (0 <? length (results st))%nat; destruct Hpost as [-> | [message ->]]; simpl;
    rewrite ?app_nil_r; reflexivity.
Qed.

Lemma fetchedPages_finishCrawl (st : CrawlState) :
  fetchedPages (trace (env (finishCrawl st))) = fetchedPages (trace (env st)).
Proof.
  unfold finishCrawl, onEnv. simpl.
  rewrite fetchedPages_snoc, app_nil_r, !fetchedPages_emit. reflexivity.
Qed.

Lemma fetchedPages_startCrawl gate cfg (env0 : Env) :
  fetchedPages (trace (env (startCrawl gate cfg env0))) = fetchedPages (trace env0).
Proof.
  unfold startCrawl. destruct (seedLoop gate (urls (cfg_body cfg)) ∅ []) as [visited0 queue0].
  cbn [env]. rewrite fetchedPages_emit. reflexivity.
Qed.

Lemma linkLoop_fetchedPages cfg item retryCount links st :
  fetchedPages (trace (env (snd (linkLoop cfg item retryCount links st))))
  = fetchedPages (trace (env st)).
Proof.
  revert st. induction links as [|link rest IH]; intros st; simpl; [reflexivity|].
  destruct (atBudget cfg st || isClosed (env st)); [reflexivity|].
  destruct (regexRejects cfg (li_targetUrl link)); [apply IH|].
  destruct (matchesPathFilter cfg (li_targetUrl link)); simpl; [|apply IH].
  pose proof (fetchedPages_redirectLoop 10 10000 [] (li_targetUrl link) (env st)) as Hhead.
  change (redirectLoop 10 10000 [] (li_targetUrl link) (env st))
    with (getRedirectChain (li_targetUrl link) (env st)) in Hhead.
  destruct (getRedirectChain (li_targetUrl link) (env st)) as [redirectInfo env1].
  simpl in Hhead.
  match goal with
  | |- context [if ?c then _ else _] => destruct c
  end.
  - destruct (new_URL (li_targetUrl link) None) as [target|].
    + match goal with
      | |- context [if ?c then _ else _] => destruct c
      end; rewrite IH; unfold onEnv, enqueue, pushResult; cbn [env];
        rewrite fetchedPages_sleep, fetchedPages_emit; exact Hhead.
    + simpl. rewrite fetchedPages_emit. exact Hhead.
  - rewrite IH. unfold onEnv, pushResult; cbn [env].
    rewrite fetchedPages_sleep, fetchedPages_emit. exact Hhead.
Qed.

(** The GET requests of a turn of the loop: some number of requests for
    the page it takes off the queue, each with an index the retry count
    allows. *)
Lemma crawlStep_fetchedPages fuel cfg item rest st st' :
  queue st = item :: rest -> crawlStep fuel cfg st = Some st' ->
  exists k, attemptsFit (retries (cfg_settings cfg)) k
            /\ fetchedPages (trace (env st'))
               = fetchedPages (trace (env st)) ++ repeat (item_url item) k.
Proof.
  intros Equeue. unfold crawlStep. rewrite Equeue.
  destruct (passesFilters cfg (item_url item)).
  2:{ intros [= <-]. exists 0%nat. simpl. rewrite app_nil_r.
      split; [intros i Hi; lia | reflexivity]. }
  unfold tryPage.
  destruct (fetchPage fuel cfg item (announce item (dequeue st))) as [[page st2]|] eqn:Epage;
    [|discriminate].
  destruct (fetchPage_fetchedPages _ _ _ _ _ _ Epage) as (k & _ & Hk & Hpage).
  assert (Ean : fetchedPages (trace (env (announce item (dequeue st))))
                = fetchedPages (trace (env st))).
  { unfold announce. simpl. rewrite !fetchedPages_emit. reflexivity. }
  rewrite Ean in Hpage.
  destruct page as [[retryCount links]|e].
  - pose proof (linkLoop_fetchedPages cfg item retryCount links st2) as Hloop.
    destruct (linkLoop cfg item retryCount links st2) as [[[]|e] st3]; simpl in Hloop;
      intros [= <-]; exists k; (split; [exact Hk|]).
    + congruence.
    + unfold catchPage. simpl. rewrite !fetchedPages_emit. congruence.
  - intros [= <-]. exists k. split; [exact Hk|].
    unfold catchPage. simpl. rewrite !fetchedPages_emit. congruence.
Qed.

Lemma crawlLoop_fetched fuel cfg st st' :
  crawlLoop fuel cfg st = Some st' ->
  exists ks, length ks = length (dequeued fuel cfg st)
             /\ Forall (attemptsFit (retries (cfg_settings cfg))) ks
             /\ fetchedPages (trace (env st'))
                = fetchedPages (trace (env st)) ++ pageFetches (dequeued fuel cfg st) ks.
Proof.
  revert st. induction fuel as [|fuel IH]; intros st; simpl.
  - destruct (running cfg st); [discriminate|]. intros [= <-].
    exists []. unfold pageFetches. simpl. rewrite app_nil_r. auto.
  - destruct (running cfg st) eqn:Erun.
    + unfold running in Erun. destruct (queue st) as [|item rest] eqn:Equeue; [discriminate|].
      destruct (crawlStep fuel cfg st) as [st1|] eqn:Estep; [|discriminate].
      intros Hloop. destruct (IH _ Hloop) as (ks & Hlen & Hks & Hfetched).
      destruct (crawlStep_fetchedPages fuel cfg item rest st st1 Equeue Estep)
        as (k & Hk & Hstep).
      exists (k :: ks). split; [simpl; lia|]. split; [constructor; assumption|].
      rewrite Hfetched, Hstep. unfold pageFetches. simpl. rewrite <- app_assoc. reflexivity.
    + intros [= <-]. exists []. unfold pageFetches. simpl. rewrite app_nil_r. auto.
Qed.

End LoopFacts.

Section CrawlRuns.
Context `{URLApi} `{!URLLaws} `{CheerioApi} `{RegExpApi} `{Platform}.

(** X8.  Provided the URL class parses what [normalizeUrl] returns,
    every run of the streaming handler ends, within a number of turns of
    its [while] loop that the request bounds: the number of seeds plus
    twice the budget, rounded up; the fetch of a page ends within six
    attempts.  The final state does not depend on the fuel. *)
Theorem stream_crawl_terminates (body : ScrapeLinksRequest) (env0 : Env) :
  exists st, forall fuel,
    (length (urls body) + 2 * Z.to_nat (numCeiling (streamMaxUrls body)) + 6 < fuel)%nat ->
    scrapeLinksStream fuel body env0 = Some st.
Proof.
  set (bound := (length (urls body) + 2 * Z.to_nat (numCeiling (streamMaxUrls body)) + 6)%nat).
  destruct (scrapeLinksStream_total body env0 (S bound)) as [st Est]; [unfold bound; lia|].
  exists st. intros fuel Hfuel. unfold scrapeLinksStream, runCrawl in *.
  destruct (crawlLoop (S bound) (streamConfig body)
              (startCrawl isAllowedUrl (streamConfig body) env0)) as [last|] eqn:Eloop;
    [|discriminate].
  rewrite (crawlLoop_more_fuel _ fuel _ _ _ Eloop) by (fold bound in Hfuel; lia).
  exact Est.
Qed.

End CrawlRuns.

Section Gone.
Context `{URLApi} `{CheerioApi} `{RegExpApi} `{Platform}.
Hypothesis gone : forall w, streamClosed w = true.





End Gone.

Section Connected.
Context `{URLApi} `{!URLLaws} `{CheerioApi} `{RegExpApi} `{Platform}.
Hypothesis connected : forall w, streamClosed w = false.











End Connected.

Section DequeuedFacts.
Context `{URLApi} `{!URLLaws} `{CheerioApi} `{RegExpApi} `{Platform}.

Lemma dequeued_fresh fuel cfg st :
  NoDup (item_url <$> queue st) ->
  Forall (fun it => item_url it ∈ visited st) (queue st) ->
  NoDup (item_url <$> dequeued fuel cfg st)
  /\ Forall (fun it => item_url it ∈ (item_url <$> queue st) \/ item_url it ∉ visited st)
       (dequeued fuel cfg st).
Proof.
  revert st. induction fuel as [|fuel IH]; intros st Hnd Hvis; simpl.
  { split; constructor. }
  destruct (running cfg st); [|split; constructor].
  destruct (queue st) as [|item rest] eqn:Equeue; [split; constructor|].
  destruct (crawlStep fuel cfg st) as [st1|] eqn:Estep.
  2:{ split.
      - rewrite fmap_cons. apply NoDup_cons. split; [apply not_elem_of_nil | constructor].
      - constructor; [left; rewrite fmap_cons; left | constructor]. }
  destruct (crawlStep_page fuel cfg item rest st st1 Equeue Estep)
    as (emitted & added & _ & Eq & Ev & _ & Hadded & Hnd' & _).
  rewrite Equeue in Eq. simpl in Eq.
  rewrite fmap_cons in Hnd. apply NoDup_cons in Hnd as [Hitem Hrest].
  apply Forall_cons in Hvis as [Hitemv Hrestv].
  assert (Hfresh : forall u, u ∈ (item_url <$> added) -> u ∉ visited st).
  { intros u Hu. apply list_elem_of_fmap in Hu as (it & -> & Hit).
    eapply Forall_forall in Hadded; [|exact Hit]. apply Hadded. }
  destruct (IH st1) as [IHnd IHall].
  { rewrite Eq, fmap_app. apply NoDup_app. split; [exact Hrest|]. split; [|exact Hnd'].
    intros u Hu Hu'. apply (Hfresh u Hu').
    apply list_elem_of_fmap in Hu as (it & -> & Hit).
    eapply Forall_forall in Hrestv; [|exact Hit]. exact Hrestv. }
  { rewrite Eq, Ev. apply Forall_app. split.
    - eapply Forall_impl; [exact Hrestv|]. intros it Hit. apply elem_of_union. right. exact Hit.
    - apply Forall_forall. intros it Hit. apply elem_of_union. left.
      apply elem_of_list_to_set, list_elem_of_fmap. exists it. auto. }
  split.
  - rewrite fmap_cons. apply NoDup_cons. split; [|exact IHnd].
    intros Hin. apply list_elem_of_fmap in Hin as (it & Eit & Hit).
    eapply Forall_forall in IHall; [|exact Hit].
    rewrite Eq, Ev, fmap_app in IHall. rewrite <- Eit in IHall.
    destruct IHall as [Hq | Hv].
    + apply elem_of_app in Hq as [Hq|Hq]; [exact (Hitem Hq) | exact (Hfresh _ Hq Hitemv)].
    + apply Hv. apply elem_of_union. right. exact Hitemv.
  - constructor; [left; rewrite fmap_cons; left|].
    eapply Forall_impl; [exact IHall|]. intros it [Hq | Hv].
    + rewrite Eq, fmap_app in Hq. apply elem_of_app in Hq as [Hq|Hq].
      * left. rewrite fmap_cons. right. exact Hq.
      * right. apply Hfresh, Hq.
    + right. intros Hin. apply Hv. rewrite Ev. apply elem_of_union. right. exact Hin.
Qed.

End DequeuedFacts.

Section Scope.
Context `{URLApi} `{!URLLaws} `{!URLBaseLaws} `{CheerioApi} `{RegExpApi} `{Platform}.

Lemma sameHost_trans (u v w : string) : sameHost u v -> sameHost v w -> sameHost u w.
Proof.
  intros (r & s & Er & Es & Ehost) (s' & t & Es' & Et & Ehost').
  exists r, t. rewrite Es in Es'. injection Es' as <-. split; [exact Er|]. split; [exact Et|].
  congruence.
Qed.

Lemma normalized_sameHost (n : string) :
  (exists u b, normalizeUrl u b = Some n) -> sameHost n n.
Proof.
  intros (u & b & Hn). destruct (normalized_parses u b n Hn) as [r Er].
  exists r, r. auto.
Qed.

(** A link that [isInternalLink] calls internal points to the host of the
    page it was found on. *)
Lemma internal_sameHost (base target u : string) (b : option string) :
  normalizeUrl u b = Some target -> isInternalLink base target = true -> sameHost base target.
Proof.
  intros Hn Hint. unfold isInternalLink in Hint.
  destruct (new_URL base None) as [rb|] eqn:Eb; [|discriminate].
  rewrite (normalized_absolute u b target base Hn) in Hint by (rewrite Eb; eauto).
  destruct (new_URL target None) as [t|] eqn:Et; [|discriminate].
  apply String.eqb_eq in Hint. exists rb, t. auto.
Qed.

Lemma extractLinks_internal (html baseUrl : string) :
  Forall (fun l => li_isInternal l = true -> sameHost baseUrl (li_targetUrl l))
    (extractLinks html baseUrl).
Proof.
  unfold extractLinks. destruct (isSitemap html).
  - apply eachLoc_Forall; [constructor|]. intros text n _ Hn. simpl.
    apply (internal_sameHost _ _ _ _ Hn).
  - apply eachAnchor_Forall; [constructor|]. intros l a _ (_ & _ & Hn & _) _ _ -> Hint.
    apply (internal_sameHost _ _ _ _ Hn Hint).
Qed.

Lemma linkLoop_queue (P : string -> Prop) cfg item retryCount links st :
  Forall (fun it => P (item_url it)) (queue st) ->
  Forall (fun l => recursive (cfg_body cfg) = true -> li_isInternal l = true ->
                   P (li_targetUrl l)) links ->
  Forall (fun it => P (item_url it)) (queue (snd (linkLoop cfg item retryCount links st))).
Proof.
  revert st. induction links as [|link rest IH]; intros st Hst Hlinks; simpl; [exact Hst|].
  apply Forall_cons in Hlinks as [Hlink Hrest].
  destruct (atBudget cfg st || isClosed (env st)); [exact Hst|].
  destruct (regexRejects cfg (li_targetUrl link)); [apply IH; assumption|].
  destruct (matchesPathFilter cfg (li_targetUrl link)); simpl; [|apply IH; assumption].
  destruct (getRedirectChain (li_targetUrl link) (env st)) as [redirectInfo env1].
  destruct (recursive (cfg_body cfg)) eqn:Erec; simpl; [|apply IH; assumption].
  destruct (li_isInternal link) eqn:Eint; simpl; [|apply IH; assumption].
  match goal with
  | |- context [if ?c then _ else _] => destruct c
  end; [|apply IH; assumption].
  destruct (new_URL (li_targetUrl link) None) as [target|]; [|exact Hst].
  match goal with
  | |- context [if ?c then _ else _] => destruct c
  end; apply IH; try assumption.
  simpl. apply Forall_app. split; [exact Hst|]. constructor; [|constructor].
  simpl. apply Hlink; reflexivity.
Qed.

Lemma crawlStep_queue (P : string -> Prop) fuel cfg item rest st st' :
  queue st = item :: rest ->
  Forall (fun it => P (item_url it)) (queue st) ->
  (forall html, Forall (fun l => recursive (cfg_body cfg) = true -> li_isInternal l = true ->
                                 P (li_targetUrl l)) (extractLinks html (item_url item))) ->
  crawlStep fuel cfg st = Some st' ->
  Forall (fun it => P (item_url it)) (queue st').
Proof.
  intros Equeue Hq Hlinks. unfold crawlStep. rewrite Equeue.
  rewrite Equeue in Hq. apply Forall_cons in Hq as [_ Hrest].
  destruct (passesFilters cfg (item_url item));
    [|intros [= <-]; simpl; rewrite Equeue; exact Hrest].
  unfold tryPage.
  destruct (fetchPage fuel cfg item (announce item (dequeue st))) as [[page st2]|] eqn:Epage;
    [|discriminate].
  destruct (fetchPage_run _ _ _ _ _ _ Epage) as (_ & Eq & _ & Hpage & _).
  simpl in Eq. rewrite Equeue in Eq. simpl in Eq.
  destruct page as [[retryCount links]|e].
  - destruct (Hpage _ _ eq_refl) as [html ->].
    pose proof (linkLoop_queue P cfg item retryCount (extractLinks html (item_url item)) st2)
      as Hloop.
    rewrite Eq in Hloop. specialize (Hloop Hrest (Hlinks html)).
    destruct (linkLoop cfg item retryCount (extractLinks html (item_url item)) st2)
      as [[[]|e] st3]; simpl in Hloop; intros [= <-]; exact Hloop.
  - intros [= <-]. simpl. rewrite Eq. exact Hrest.
Qed.

Lemma seedLoop_normalized gate seeds visited0 queue0 :
  Forall (fun it => exists u, normalizeUrl u None = Some (item_url it)) queue0 ->
  Forall (fun it => exists u, normalizeUrl u None = Some (item_url it))
    (snd (seedLoop gate seeds visited0 queue0)).
Proof.
  revert visited0 queue0. induction seeds as [|url rest IH]; intros visited0 queue0 Hq; simpl;
    [exact Hq|].
  destruct (normalizeUrl url None) as [normalized|] eqn:En; [|apply IH, Hq].
  destruct (truthy normalized && negb (bool_decide (normalized ∈ visited0)) && gate normalized);
    [|apply IH, Hq].
  apply IH. apply Forall_app. split; [exact Hq|]. constructor; [|constructor]. simpl. eauto.
Qed.

(** What a crawl keeps to, for a set [P] of URLs that holds the queued
    seeds and every internal link of a page in it. *)
Lemma runCrawl_scope (P : string -> Prop) fuel gate cfg env0 st :
  Forall (fun it => P (item_url it)) (queue (startCrawl gate cfg env0)) ->
  (forall u html, P u ->
     Forall (fun l => recursive (cfg_body cfg) = true -> li_isInternal l = true ->
                      P (li_targetUrl l)) (extractLinks html u)) ->
  fetchedPages (trace env0) = [] -> runCrawl fuel gate cfg env0 = Some st ->
  Forall P (fetchedPages (trace (env st))).
Proof.
  intros Hseeds Hclosed Hfresh. unfold runCrawl.
  destruct (crawlLoop fuel cfg (startCrawl gate cfg env0)) as [last|] eqn:Eloop; [|discriminate].
  intros [= <-].
  assert (Hstart : Forall P (fetchedPages (trace (env (startCrawl gate cfg env0))))).
  { rewrite fetchedPages_startCrawl, Hfresh. constructor. }
  assert (Hlast : Forall P (fetchedPages (trace (env last)))).
  { destruct (crawlLoop_turns _ _ _ _ Eloop) as [Hturns _]. clear Eloop.
    induction Hturns as [|k s s1 s' Hrun Hstep Hturns IH]; [exact Hstart|].
    unfold running in Hrun. destruct (queue s) as [|item rest] eqn:Equeue; [discriminate|].
    assert (Hitem : P (item_url item)).
    { apply Forall_cons in Hseeds as [Hitem _]. exact Hitem. }
    apply IH.
    - eapply crawlStep_queue; [exact Equeue | rewrite Equeue; exact Hseeds
                               | intros html; apply Hclosed, Hitem | exact Hstep].
    - destruct (crawlStep_fetchedPages k cfg item rest s s1 Equeue Hstep) as (n & _ & ->).
      apply Forall_app. split; [exact Hstart|].
      apply Forall_forall. intros u Hu. apply list_elem_of_In, repeat_spec in Hu. subst u.
      exact Hitem. }
  rewrite fetchedPages_finishCrawl. exact Hlast.
Qed.

(** X11.  Provided the URL class parses what [normalizeUrl] returns,
    and parses it against a base as it does on its own: a crawl stays on
    the hosts of its seeds.  Every page it fetches has the host name of a
    seed that was put on the queue, whether or not [sameDomainOnly] is
    set; and without [recursive] it fetches queued seeds only. *)
Theorem crawl_scope (fuel : nat) (gate : string -> bool) (cfg : CrawlConfig)
    (env0 : Env) (st : CrawlState) :
  fetchedPages (trace env0) = [] -> runCrawl fuel gate cfg env0 = Some st ->
  let seeds := item_url <$> queue (startCrawl gate cfg env0) in
  Forall (fun u => exists s, s ∈ seeds /\ sameHost s u) (fetchedPages (trace (env st)))
  /\ (recursive (cfg_body cfg) = false ->
      Forall (fun u => u ∈ seeds) (fetchedPages (trace (env st)))).
Proof.
  intros Hfresh Hrun seeds. split.
  - apply (runCrawl_scope _ fuel gate cfg env0 st); [| |exact Hfresh|exact Hrun].
    + apply Forall_forall. intros it Hit. exists (item_url it).
      split; [apply list_elem_of_fmap; eauto|].
      apply normalized_sameHost.
      pose proof (seedLoop_normalized gate (urls (cfg_body cfg)) ∅ [] (Forall_nil_2 _)) as Hn.
      unfold startCrawl in Hit.
      destruct (seedLoop gate (urls (cfg_body cfg)) ∅ []) as [visited0 queue0]. simpl in *.
      eapply Forall_forall in Hn as [u Hu]; [|exact Hit]. eauto.
    + intros u html (s & Hs & Hhost).
      eapply Forall_impl; [apply extractLinks_internal|]. intros l Hl _ Hint.
      exists s. split; [exact Hs|]. eapply sameHost_trans; [exact Hhost | apply Hl, Hint].
  - intros Hrec.
    apply (runCrawl_scope _ fuel gate cfg env0 st); [| |exact Hfresh|exact Hrun].
    + apply Forall_forall. intros it Hit. apply list_elem_of_fmap. eauto.
    + intros u html _. apply Forall_forall. intros l _ Hrec'. congruence.
Qed.

End Scope.

Section Order.
Context `{URLApi} `{!URLLaws} `{CheerioApi} `{RegExpApi} `{Platform}.

(** X12.  Provided the URL class parses what [normalizeUrl] returns:
    no URL is taken off the frontier twice, and the pages are fetched in
    the order they are taken off.  The GET requests of a crawl are, for
    each item in turn, some number of requests to its URL (none for a
    filtered item, one more for each retry), the index of each of them
    at most [retries]; that is at most [retries + 1] requests for an
    item when [retries] is a whole number. *)
Theorem crawl_visits_each_once (fuel : nat) (gate : string -> bool) (cfg : CrawlConfig)
    (env0 : Env) :
  let taken := dequeued fuel cfg (startCrawl gate cfg env0) in
  NoDup (item_url <$> taken)
  /\ forall st, runCrawl fuel gate cfg env0 = Some st ->
       exists ks, length ks = length taken
                  /\ Forall (attemptsFit (retries (cfg_settings cfg))) ks
                  /\ (forall k, wholeNum (retries (cfg_settings cfg)) k ->
                        Forall (fun n => (n <= Z.to_nat (k + 1))%nat) ks)
                  /\ fetchedPages (trace (env st))
                     = fetchedPages (trace env0) ++ pageFetches taken ks.
Proof.
  intros taken. split.
  - destruct (startCrawl_seeds gate cfg env0) as (Hseeds & Hnd & _).
    apply dequeued_fresh; [exact Hnd|].
    eapply Forall_impl; [exact Hseeds|]. intros it (_ & _ & _ & Hv). exact Hv.
  - intros st. unfold runCrawl.
    destruct (crawlLoop fuel cfg (startCrawl gate cfg env0)) as [last|] eqn:Eloop; [|discriminate].
    intros [= <-]. destruct (crawlLoop_fetched _ _ _ _ Eloop) as (ks & Hlen & Hks & Hfetched).
    exists ks. split; [exact Hlen|]. split; [exact Hks|]. split.
    + intros k Hk. eapply Forall_impl; [exact Hks|]. intros n. apply attemptsFit_whole, Hk.
    + rewrite fetchedPages_finishCrawl, Hfetched, fetchedPages_startCrawl. reflexivity.
Qed.

End Order.

Section LegacyRuns.
Context `{URLApi} `{!URLLaws} `{CheerioApi} `{RegExpApi} `{Platform}.

(** X13.  The older handler takes its budget and its retry count as
    the request gives them.  Provided the URL class parses what
    [normalizeUrl] returns: with a budget that is a finite number and a
    retry count that some whole number [r] exceeds (any but +Infinity),
    every run ends, within the number of seeds plus twice the budget,
    rounded up, turns of the loop, a fetch taking [r] attempts at most;
    and with a budget that is missing, no number or not positive the loop
    is never entered: the handler reports its seeds and the end of the
    crawl, and fetches nothing. *)
Theorem legacy_crawl_terminates (body : ScrapeLinksRequest) (env0 : Env) :
  (forall q r,
     maxUrls body = Some (JFin q) ->
     numLeb (ofNat r) (retries (legacySettings body)) = false ->
     exists st, forall fuel,
       (length (urls body) + 2 * Z.to_nat (Qceiling q) + r < fuel)%nat ->
       scrapeLinksLegacy fuel body env0 = Some st)
  /\ ((maxUrls body = None \/ maxUrls body = Some JNaN \/ maxUrls body = Some JNegInf
       \/ exists q, maxUrls body = Some (JFin q) /\ (q <= 0)%Q) ->
      forall fuel,
        exists st, scrapeLinksLegacy fuel body env0 = Some st
                   /\ st = finishCrawl (startCrawl (fun _ => true) (legacyConfig body) env0)
                   /\ results st = []
                   /\ fetchedPages (trace (env st)) = fetchedPages (trace env0)).
Proof.
  set (st0 := startCrawl (fun _ => true) (legacyConfig body) env0).
  assert (Hres : results st0 = []).
  { unfold st0, startCrawl. destruct (seedLoop _ _ _ _). reflexivity. }
  split.
  - intros q r Em Hr.
    set (bound := (length (urls body) + 2 * Z.to_nat (Qceiling q) + r)%nat).
    destruct (crawlLoop_total (legacyConfig body) q r (S bound) st0) as [last Elast].
    { cbn [cfg_maxUrls legacyConfig]. rewrite Em. reflexivity. }
    { exact Hr. }
    { pose proof (seedLoop_length (fun _ => true) (urls body) ∅ []) as Hseeds.
      rewrite Hres. unfold st0, startCrawl, bound. cbn [cfg_body legacyConfig].
      destruct (seedLoop _ _ _ _) as [visited0 queue0]. simpl in *.
      rewrite Z.sub_0_r. lia. }
    exists (finishCrawl last). intros fuel Hfuel. unfold scrapeLinksLegacy, runCrawl. fold st0.
    rewrite (crawlLoop_more_fuel _ fuel _ _ _ Elast) by (fold bound in Hfuel; lia).
    reflexivity.
  - intros Hm fuel.
    assert (Hidle : running (legacyConfig body) st0 = false).
    { unfold running, belowBudget. cbn [cfg_maxUrls legacyConfig]. rewrite Hres.
      assert (Hcap : numLtb (ofNat (length (@nil LinkResult))) (default JNaN (maxUrls body))
                     = false).
      { destruct Hm as [-> | [-> | [-> | (q & -> & Hq)]]]; try reflexivity.
        unfold numLtb, ofNat, ofInt, default. simpl.
        apply negb_false_iff, Qle_bool_iff. exact Hq. }
      rewrite Hcap, andb_false_r. reflexivity. }
    exists (finishCrawl st0). unfold scrapeLinksLegacy, runCrawl. fold st0.
    rewrite (crawlLoop_idle _ _ _ Hidle).
    split; [reflexivity|]. split; [reflexivity|].
    split; [exact Hres|]. rewrite fetchedPages_finishCrawl. apply fetchedPages_startCrawl.
Qed.

End LegacyRuns.

Lemma pageFetches_length (taken : list FrontierItem) (ks : list nat) (bound : nat) :
  length ks = length taken -> Forall (fun k => (k <= bound)%nat) ks ->
  (length (pageFetches taken ks) <= bound * length taken)%nat.
Proof.
  unfold pageFetches. revert ks. induction taken as [|it taken IH]; intros [|k ks] Hlen Hks;
    simpl in *; try lia.
  apply Forall_cons in Hks as [Hk Hks]. rewrite length_app, repeat_length.
  specialize (IH ks ltac:(lia) Hks). lia.
Qed.

Section RequestBudget.
Context `{URLApi} `{!URLLaws} `{CheerioApi} `{RegExpApi} `{Platform}.

Lemma headRequests_redirectLoop remaining timeoutMs chain url (env1 : Env) :
  (length (headRequests (trace (snd (redirectLoop remaining timeoutMs chain url env1))))
   <= length (headRequests (trace env1)) + remaining)%nat.
Proof.
  revert chain url env1. induction remaining as [|k IH]; intros chain url env1; simpl; [lia|].
  assert (Hfetch : (length (headRequests (trace (snd (doFetch HEAD url (headInit timeoutMs) env1))))
                    <= length (headRequests (trace env1)) + 1)%nat).
  { unfold doFetch. destruct (fetch HEAD url (headInit timeoutMs) (world env1)) as [r w]. simpl.
    rewrite headRequests_snoc, length_app. simpl. lia. }
  destruct (doFetch HEAD url (headInit timeoutMs) env1) as [[response|e] env2]; simpl in *;
    [|lia].
  destruct ((300 <=? resp_status response) && (resp_status response <? 400)); [|simpl; lia].
  destruct (resp_location response) as [location|]; [|simpl; lia].
  destruct (truthy location); [|simpl; lia].
  destruct (new_URL location (Some url)) as [next|]; [|simpl; lia].
  etransitivity; [apply IH|]. lia.
Qed.

Lemma linkLoop_withinBudget heads0 seeds spent cfg item retryCount links st :
  withinBudget heads0 seeds spent st ->
  withinBudget heads0 seeds spent (snd (linkLoop cfg item retryCount links st)).
Proof.
  revert st. induction links as [|link rest IH]; intros st Hst; simpl; [exact Hst|].
  destruct (atBudget cfg st || isClosed (env st)); [exact Hst|].
  destruct (regexRejects cfg (li_targetUrl link)); [apply IH, Hst|].
  destruct (matchesPathFilter cfg (li_targetUrl link)); simpl; [|apply IH, Hst].
  pose proof (headRequests_redirectLoop 10 10000 [] (li_targetUrl link) (env st)) as Hhead.
  change (redirectLoop 10 10000 [] (li_targetUrl link) (env st))
    with (getRedirectChain (li_targetUrl link) (env st)) in Hhead.
  destruct (getRedirectChain (li_targetUrl link) (env st)) as [redirectInfo env1].
  simpl in Hhead. destruct Hst as [Hheads Hqueue].
  set (r := linkResult item link redirectInfo retryCount).
  assert (Hpushed : forall q v,
            (length q <= S (length (queue st)))%nat ->
            forall pause : Env -> Env,
              (forall e, headRequests (trace (pause e)) = headRequests (trace e)) ->
              withinBudget heads0 seeds spent
                {| results := results st ++ [r]; visited := v; queue := q;
                   env := pause (emit "result" (PResult r) env1) |}).
  { intros q v Hq pause Hpause. split; cbn [env results queue].
    - rewrite Hpause, headRequests_emit, length_app. simpl. lia.
    - rewrite length_app. simpl. lia. }
  match goal with
  | |- context [if ?c then _ else _] => destruct c
  end.
  - destruct (new_URL (li_targetUrl link) None) as [target|].
    + match goal with
      | |- context [if ?c then _ else _] => destruct c
      end; apply IH.
      * unfold onEnv, enqueue, pushResult; cbn [env results queue visited].
        apply (Hpushed _ _) with (pause := sleep (numDiv (cfg_delayMs cfg) (JFin 2)));
          [rewrite length_app; simpl; lia | apply headRequests_sleep].
      * unfold onEnv, pushResult; cbn [env results queue visited].
        apply (Hpushed _ _) with (pause := sleep (numDiv (cfg_delayMs cfg) (JFin 2)));
          [lia | apply headRequests_sleep].
    + simpl. unfold onEnv, pushResult; cbn [env results queue visited].
      apply (Hpushed _ _) with (pause := fun e => e); [lia | reflexivity].
  - apply IH. unfold onEnv, pushResult; cbn [env results queue visited].
    apply (Hpushed _ _) with (pause := sleep (numDiv (cfg_delayMs cfg) (JFin 2)));
      [lia | apply headRequests_sleep].
Qed.

Lemma crawlStep_withinBudget heads0 seeds spent fuel cfg item rest st st' :
  queue st = item :: rest ->
  withinBudget heads0 seeds spent st -> crawlStep fuel cfg st = Some st' ->
  withinBudget heads0 seeds (S spent) st'.
Proof.
  intros Equeue [Hheads Hqueue]. unfold crawlStep. rewrite Equeue. rewrite Equeue in Hqueue.
  simpl in Hqueue.
  assert (Hdeq : withinBudget heads0 seeds (S spent) (dequeue st)).
  { split; unfold dequeue; cbn [env results queue]; [exact Hheads|]. rewrite Equeue. simpl. lia. }
  destruct (passesFilters cfg (item_url item)); [|intros [= <-]; exact Hdeq].
  assert (Hann : withinBudget heads0 seeds (S spent) (announce item (dequeue st))).
  { destruct Hdeq as [Hh Hq]. split; unfold announce, onEnv; cbn [env results queue] in *.
    - rewrite !headRequests_emit. exact Hh.
    - exact Hq. }
  assert (Hcatch : forall e st2, withinBudget heads0 seeds (S spent) st2 ->
                                 withinBudget heads0 seeds (S spent) (catchPage item e st2)).
  { intros e st2 [Hh Hq]. split; unfold catchPage, onEnv, pushResult; cbn [env results queue].
    - rewrite !headRequests_emit, length_app. simpl. lia.
    - rewrite length_app. simpl. lia. }
  unfold tryPage.
  destruct (fetchPage fuel cfg item (announce item (dequeue st))) as [[page st2]|] eqn:Epage;
    [|discriminate].
  pose proof (fetchPage_heads _ _ _ _ _ _ Epage) as Hpage.
  apply fetchPage_state in Epage as (Eres & Equ & _ & _).
  assert (Hst2 : withinBudget heads0 seeds (S spent) st2).
  { destruct Hann as [Hh Hq]. split; [rewrite Hpage, Eres | rewrite Equ, Eres]; assumption. }
  destruct page as [[retryCount links]|e].
  - pose proof (linkLoop_withinBudget heads0 seeds (S spent) cfg item retryCount links st2 Hst2)
      as Hloop.
    destruct (linkLoop cfg item retryCount links st2) as [[[]|e] st3]; simpl in Hloop;
      intros [= <-]; auto.
  - intros [= <-]. auto.
Qed.

Lemma crawlLoop_withinBudget fuel cfg st st' heads0 seeds spent :
  crawlLoop fuel cfg st = Some st' ->
  withinBudget heads0 seeds spent st ->
  withinBudget heads0 seeds (spent + length (dequeued fuel cfg st)) st'.
Proof.
  revert st spent. induction fuel as [|fuel IH]; intros st spent; simpl.
  - destruct (running cfg st); [discriminate|]. intros [= <-].
    rewrite Nat.add_0_r. auto.
  - destruct (running cfg st) eqn:Erun.
    + unfold running in Erun. destruct (queue st) as [|item rest] eqn:Equeue; [discriminate|].
      destruct (crawlStep fuel cfg st) as [st1|] eqn:Estep; [|discriminate].
      intros Hloop Hst. simpl.
      replace (spent + S (length (dequeued fuel cfg st1)))%nat
        with (S spent + length (dequeued fuel cfg st1))%nat by lia.
      apply (IH _ _ Hloop).
      apply (crawlStep_withinBudget _ _ _ fuel cfg item rest st st1 Equeue Hst Estep).
    + intros [= <-]. rewrite Nat.add_0_r. auto.
Qed.

(** X14.  Provided the URL class parses what [normalizeUrl] returns,
    the requests of a crawl are bounded by the request.  There are at
    most ten HEAD requests for each result; the number of results is zero
    or less than the budget plus one, which is at most the budget when
    that is a whole number; there are no more seeds on the queue than
    URLs in the request, and at most as many pages taken off the queue as
    seeds and results together; each page is fetched with GET requests
    whose indices are at most [retries], which is [retries + 1] requests
    at most when [retries] is a whole number. *)
Theorem crawl_request_budget (fuel : nat) (gate : string -> bool) (cfg : CrawlConfig)
    (env0 : Env) (st : CrawlState) :
  trace env0 = [] ->
  runCrawl fuel gate cfg env0 = Some st ->
  let seeds := length (queue (startCrawl gate cfg env0)) in
  let taken := dequeued fuel cfg (startCrawl gate cfg env0) in
  (seeds <= length (urls (cfg_body cfg)))%nat
  /\ (length (headRequests (trace (env st))) <= 10 * length (results st))%nat
  /\ capped (cfg_maxUrls cfg) (Z.of_nat (length (results st)))
  /\ (forall m, wholeNum (cfg_maxUrls cfg) m -> 0 <= m ->
        (length (results st) <= Z.to_nat m)%nat)
  /\ (length taken <= seeds + length (results st))%nat
  /\ (exists ks, length ks = length taken
                 /\ Forall (attemptsFit (retries (cfg_settings cfg))) ks
                 /\ fetchedPages (trace (env st)) = pageFetches taken ks)
  /\ (forall k, wholeNum (retries (cfg_settings cfg)) k ->
        (length (fetchedPages (trace (env st))) <= Z.to_nat (k + 1) * length taken)%nat).
Proof.
  intros Hfresh Hrun seeds taken.
  pose proof (crawl_budget_only fuel gate cfg env0 st Hrun) as Hresults.
  unfold runCrawl in Hrun.
  destruct (crawlLoop fuel cfg (startCrawl gate cfg env0)) as [last|] eqn:Eloop; [|discriminate].
  injection Hrun as <-.
  assert (Hstart : withinBudget 0 seeds 0 (startCrawl gate cfg env0)
                   /\ fetchedPages (trace (env (startCrawl gate cfg env0))) = []
                   /\ (seeds <= length (urls (cfg_body cfg)))%nat).
  { pose proof (seedLoop_length gate (urls (cfg_body cfg)) ∅ []) as Hseeds.
    rewrite fetchedPages_startCrawl.
    unfold seeds, withinBudget, startCrawl in *.
    destruct (seedLoop gate (urls (cfg_body cfg)) ∅ []) as [visited0 queue0].
    cbn [env results queue snd] in *.
    rewrite headRequests_emit. change (trace (listen env0)) with (trace env0).
    rewrite Hfresh. simpl in *. repeat split; lia. }
  destruct Hstart as (Hstart & Hnone & Hseeds).
  destruct (crawlLoop_withinBudget _ _ _ _ _ _ _ Eloop Hstart) as [Hheads Htaken].
  destruct (crawlLoop_fetched _ _ _ _ Eloop) as (ks & Hlen & Hks & Hfetched).
  fold taken in Htaken, Hlen, Hfetched.
  assert (Hfinish : headRequests (trace (env (finishCrawl last))) = headRequests (trace (env last))
                    /\ results (finishCrawl last) = results last).
  { unfold finishCrawl, onEnv. cbn [env results trace].
    rewrite headRequests_snoc, !app_nil_r, !headRequests_emit. auto. }
  destruct Hfinish as (Eheads & Eres).
  rewrite fetchedPages_finishCrawl, Eheads, Eres in *. rewrite Hnone in Hfetched.
  simpl in Hfetched.
  split; [exact Hseeds|]. split; [simpl in Hheads; lia|]. split; [exact Hresults|].
  split.
  { intros m Hm Hpos. pose proof (capped_whole _ _ _ Hm Hpos Hresults). lia. }
  split; [lia|]. split; [exists ks; auto|].
  intros k Hk. rewrite Hfetched. apply pageFetches_length; [exact Hlen|].
  eapply Forall_impl; [exact Hks|]. intros n. apply attemptsFit_whole, Hk.
Qed.

End RequestBudget.

(* --------------------------------------------------------------------- *)
(** ** The guard on output paths and the names of saved files *)

Lemma append_inv_l (a b c : string) : a +:+ b = a +:+ c -> b = c.
Proof.
  induction a as [|x a IH]; [auto|]. rewrite !append_cons. intros [= E]. auto.
Qed.

Section PathGuardFacts.
Context `{PathApi}.

(** X15.  The guard on output paths lets a path through exactly when it
    resolves to the output folder or to a path below it, and gives back
    the resolved path; a path that merely continues the folder's name (a
    sibling such as [output2]) is refused; the endpoint that opens a
    folder applies the same test to every non-empty path. *)
Theorem assertWithinOutput_spec (path : string) :
  (forall r, assertWithinOutput path = Returned r
     <-> r = path_resolve [path]
         /\ (r = OUTPUT_ROOT \/ exists rest, r = OUTPUT_ROOT +:+ "/" +:+ rest))
  /\ (forall suffix,
        path_resolve [path] = OUTPUT_ROOT +:+ suffix -> suffix <> "" ->
        startsWith suffix "/" = false ->
        assertWithinOutput path = Threw (JsError "Error" "Path must be within output directory"))
  /\ (forall r, openPathTarget (Some path) = Ok r
        <-> truthy path = true /\ assertWithinOutput path = Returned r).
Proof.
  assert (Hspec : forall r, assertWithinOutput path = Returned r
     <-> r = path_resolve [path]
         /\ (r = OUTPUT_ROOT \/ exists rest, r = OUTPUT_ROOT +:+ "/" +:+ rest)).
  { intros r. unfold assertWithinOutput.
    destruct (String.eqb_spec (path_resolve [path]) OUTPUT_ROOT) as [Eroot|Eroot]; simpl.
    - split; [intros [= <-]; auto | intros [-> _]; reflexivity].
    - destruct (startsWith (path_resolve [path]) (OUTPUT_ROOT +:+ "/")) eqn:Esub; simpl.
      + apply startsWith_app in Esub as [rest Erest]. rewrite append_assoc in Erest.
        split; [intros [= <-]; eauto | intros [-> _]; reflexivity].
      + split; [discriminate|]. intros [-> [E | [rest E]]]; [contradiction|].
        exfalso. assert (Hs : startsWith (path_resolve [path]) (OUTPUT_ROOT +:+ "/") = true).
        { apply startsWith_app. exists rest. rewrite append_assoc. exact E. }
        congruence. }
  split; [exact Hspec|]. split.
  - intros suffix Eres Hne Hslash. unfold assertWithinOutput.
    destruct (String.eqb_spec (path_resolve [path]) OUTPUT_ROOT) as [Eroot|Eroot]; simpl.
    + exfalso. apply Hne. apply (append_inv_l OUTPUT_ROOT). rewrite append_nil_r. congruence.
    + destruct (startsWith (path_resolve [path]) (OUTPUT_ROOT +:+ "/")) eqn:Esub; [|reflexivity].
      exfalso. apply startsWith_app in Esub as [rest Erest].
      rewrite append_assoc, Eres in Erest. apply append_inv_l in Erest. subst suffix.
      assert (Hs : startsWith ("/" +:+ rest) "/" = true) by (apply startsWith_app; eauto).
      congruence.
  - intros r. unfold openPathTarget, assertWithinOutput. fold OUTPUT_ROOT.
    destruct (truthy path); simpl; [|split; [discriminate | intros [[=] _]]].
    destruct (String.eqb (path_resolve [path]) OUTPUT_ROOT),
             (startsWith (path_resolve [path]) (OUTPUT_ROOT +:+ "/")); simpl;
      split; try discriminate; try (intros [= <-]; auto); try (intros [_ [= <-]]; auto);
      intros [_ [=]].
Qed.

End PathGuardFacts.

(* --------------------------------------------------------------------- *)

Lemma replaceChars_app bad by_ (a b : string) :
  replaceChars bad by_ (a +:+ b) = replaceChars bad by_ a +:+ replaceChars bad by_ b.
Proof. induction a as [|c a IH]; [reflexivity|]. rewrite append_cons. simpl. rewrite IH. reflexivity. Qed.

Lemma replaceChars_clean bad by_ (s : string) :
  Lite.allChars (fun c => negb (bad c)) s = true -> replaceChars bad by_ s = s.
Proof.
  induction s as [|c s IH]; [reflexivity|]. simpl. intros E.
  apply andb_true_iff in E as [Ec Es]. apply negb_true_iff in Ec. rewrite Ec, IH by exact Es.
  reflexivity.
Qed.

Lemma replaceChars_gone bad by_ (s : string) :
  bad by_ = false -> Lite.allChars (fun c => negb (bad c)) (replaceChars bad by_ s) = true.
Proof.
  intros Hby. induction s as [|c s IH]; [reflexivity|]. simpl. rewrite IH, andb_true_r.
  destruct (bad c) eqn:Ec; [rewrite Hby | rewrite Ec]; reflexivity.
Qed.

Lemma replaceChars_length bad by_ (s : string) :
  String.length (replaceChars bad by_ s) = String.length s.
Proof. induction s as [|c s IH]; simpl; congruence. Qed.

Lemma replaceFirst_hit c by_ (a b : string) :
  Lite.allChars (isNot c) a = true ->
  replaceFirst c by_ (a +:+ String c b) = a +:+ String by_ b.
Proof.
  induction a as [|x a IH]; simpl.
  - intros _. rewrite append_nil_l. simpl. rewrite Ascii.eqb_refl. reflexivity.
  - intros E. apply andb_true_iff in E as [Ex Ea]. unfold isNot in Ex.
    apply negb_true_iff in Ex. rewrite !append_cons. simpl. rewrite Ex, IH by exact Ea.
    reflexivity.
Qed.

Lemma replaceFirst_keeps (ok : ascii -> bool) c by_ (s : string) :
  ok by_ = true -> Lite.allChars ok s = true -> Lite.allChars ok (replaceFirst c by_ s) = true.
Proof.
  intros Hby. induction s as [|x s IH]; [reflexivity|]. simpl. intros E.
  apply andb_true_iff in E as [Ex Es].
  destruct (Ascii.eqb x c); simpl; [rewrite Hby, Es | rewrite Ex, IH by exact Es]; reflexivity.
Qed.

Lemma substring_app_exact (a b : string) : substring 0 (String.length a) (a +:+ b) = a.
Proof.
  induction a as [|c a IH].
  - destruct b; reflexivity.
  - rewrite append_cons. simpl. rewrite IH. reflexivity.
Qed.

Lemma substring_keeps (ok : ascii -> bool) (n : nat) (s : string) :
  Lite.allChars ok s = true -> Lite.allChars ok (substring 0 n s) = true.
Proof.
  revert s. induction n as [|n IH]; intros [|c s]; simpl; auto.
  intros E. apply andb_true_iff in E as [Ec Es]. rewrite Ec, IH by exact Es. reflexivity.
Qed.

Lemma length_append (a b : string) :
  String.length (a +:+ b) = (String.length a + String.length b)%nat.
Proof. induction a as [|c a IH]; [reflexivity|]. rewrite append_cons. simpl. rewrite IH. reflexivity. Qed.

(** X16.  The name [getTimestamp] gives has at most 19 characters and
    neither [:] nor [.]; on a reading [date T hh : mm : ss . rest] of the
    clock, with a date of ten characters, it is [date _ hh - mm - ss]. *)
Theorem getTimestamp_shape (iso : string) :
  (String.length (getTimestamp iso) <= 19)%nat
  /\ Lite.allChars (fun c => negb (Ascii.eqb c ":" || Ascii.eqb c ".")) (getTimestamp iso) = true
  /\ (forall date hh mm ss rest,
        iso = date +:+ "T" +:+ hh +:+ ":" +:+ mm +:+ ":" +:+ ss +:+ "." +:+ rest ->
        String.length date = 10%nat -> String.length hh = 2%nat ->
        String.length mm = 2%nat -> String.length ss = 2%nat ->
        Lite.allChars stampChar (date +:+ hh +:+ mm +:+ ss) = true ->
        getTimestamp iso = date +:+ "_" +:+ hh +:+ "-" +:+ mm +:+ "-" +:+ ss).
Proof.
  split; [apply substring_length_le|]. split.
  - unfold getTimestamp, sliceTo. apply substring_keeps, replaceFirst_keeps; [reflexivity|].
    apply replaceChars_gone. reflexivity.
  - intros date hh mm ss rest -> Hd Hh Hm Hs Hclean. unfold getTimestamp, sliceTo.
    rewrite !LiteLaws.allChars_app in Hclean.
    apply andb_true_iff in Hclean as [Hcd Hclean].
    apply andb_true_iff in Hclean as [Hch Hclean].
    apply andb_true_iff in Hclean as [Hcm Hcs].
    assert (Hkeep : forall s, Lite.allChars stampChar s = true ->
              replaceChars (fun c => Ascii.eqb c ":" || Ascii.eqb c ".") "-" s = s
              /\ Lite.allChars (isNot "T") s = true).
    { intros s Hs'. split.
      - apply replaceChars_clean. revert Hs'. apply LiteLaws.allChars_weaken.
        intros c. unfold stampChar. destruct (Ascii.eqb c "T"); simpl; [discriminate | auto].
      - revert Hs'. apply LiteLaws.allChars_weaken.
        intros c. unfold stampChar, isNot. destruct (Ascii.eqb c "T"); simpl; [discriminate | auto]. }
    destruct (Hkeep _ Hcd) as [Ed Td], (Hkeep _ Hch) as [Eh _], (Hkeep _ Hcm) as [Em _],
             (Hkeep _ Hcs) as [Es _].
    rewrite !replaceChars_app, Ed, Eh, Em, Es.
    change (replaceChars _ "-" "T") with "T"%string.
    change (replaceChars _ "-" ":") with "-"%string.
    change (replaceChars _ "-" ".") with "-"%string.
    change ("T" +:+ ?x) with (String "T" x).
    rewrite replaceFirst_hit by exact Td.
    set (tail := replaceChars _ "-" rest).
    set (name := date +:+ "_" +:+ hh +:+ "-" +:+ mm +:+ "-" +:+ ss).
    assert (Ename : date +:+ String "_" (hh +:+ "-" +:+ mm +:+ "-" +:+ ss +:+ "-" +:+ tail)
                    = name +:+ "-" +:+ tail).
    { unfold name. rewrite !append_assoc. reflexivity. }
    assert (Elen : String.length name = 19%nat).
    { unfold name. rewrite !length_append, Hd, Hh, Hm, Hs. reflexivity. }
    rewrite Ename, <- Elen. apply substring_app_exact.
Qed.

Lemma replaceChars_safe (s : string) :
  Lite.allChars isSafeChar (replaceChars (fun c => negb (isFilenameChar c)) "_" s) = true.
Proof.
  induction s as [|c s IH]; [reflexivity|]. simpl. rewrite IH, andb_true_r.
  unfold isSafeChar. destruct (isFilenameChar c) eqn:Ec; simpl; [rewrite Ec|]; reflexivity.
Qed.

Lemma collapseUnderscores_keeps (ok : ascii -> bool) (s : string) :
  Lite.allChars ok s = true -> Lite.allChars ok (collapseUnderscores s) = true.
Proof.
  induction s as [|c s IH]; [reflexivity|]. intros E. simpl in E.
  apply andb_true_iff in E as [Ec Es]. specialize (IH Es).
  simpl. destruct s as [|c' s']; [simpl; rewrite Ec; reflexivity|].
  destruct (Ascii.eqb c "_" && Ascii.eqb c' "_"); [exact IH|].
  change (Lite.allChars ok (String c (collapseUnderscores (String c' s'))) = true).
  simpl Lite.allChars at 1. rewrite Ec. exact IH.
Qed.

Lemma prefix_cons (a b : ascii) (p s : string) :
  String.prefix (String a p) (String b s) = Ascii.eqb a b && String.prefix p s.
Proof.
  cbn [String.prefix]. destruct (ascii_dec a b) as [->|Hne].
  - rewrite Ascii.eqb_refl. reflexivity.
  - destruct (Ascii.eqb_spec a b); [contradiction | reflexivity].
Qed.

Lemma prefix_nil (s : string) : String.prefix "" s = true.
Proof. destruct s; reflexivity. Qed.

Lemma includes_cons (c : ascii) (s p : string) :
  includes (String c s) p = String.prefix p (String c s) || includes s p.
Proof. reflexivity. Qed.

Lemma includes_double (c : ascii) (s : string) :
  includes (String c s) "__" = (Ascii.eqb c "_" && headUnderscore s) || includes s "__".
Proof.
  rewrite includes_cons, prefix_cons. f_equal. rewrite (Ascii.eqb_sym "_" c). f_equal.
  destruct s as [|c' s']; [reflexivity|].
  rewrite prefix_cons, prefix_nil, andb_true_r. apply Ascii.eqb_sym.
Qed.

Lemma collapseUnderscores_single (s : string) :
  includes (collapseUnderscores s) "__" = false
  /\ (headUnderscore (collapseUnderscores s) = true -> headUnderscore s = true).
Proof.
  induction s as [|c s [IHno IHhead]]; [split; [reflexivity | discriminate]|].
  destruct s as [|c' s'].
  - split; [|intros Hh; exact Hh]. cbn [collapseUnderscores]. rewrite includes_double.
    cbn [headUnderscore includes String.prefix]. rewrite andb_false_r. reflexivity.
  - change (collapseUnderscores (String c (String c' s')))
      with (if Ascii.eqb c "_" && Ascii.eqb c' "_" then collapseUnderscores (String c' s')
            else String c (collapseUnderscores (String c' s'))).
    destruct (Ascii.eqb c "_" && Ascii.eqb c' "_") eqn:Eboth.
    + split; [exact IHno|]. intros _. apply andb_true_iff in Eboth as [Ec _]. exact Ec.
    + split; [|intros Hh; exact Hh]. rewrite includes_double, IHno, orb_false_r.
      destruct (Ascii.eqb c "_") eqn:Ec; [|reflexivity]. cbn [andb] in Eboth |- *.
      destruct (headUnderscore (collapseUnderscores (String c' s'))) eqn:Eh; [|reflexivity].
      specialize (IHhead eq_refl). cbn [headUnderscore] in IHhead. congruence.
Qed.

Lemma substring_single (n : nat) (s : string) :
  includes s "__" = false -> includes (substring 0 n s) "__" = false.
Proof.
  revert s. induction n as [|n IH]; intros [|c s]; auto.
  rewrite includes_double. intros E. apply orb_false_iff in E as [Ehead Erest].
  simpl substring. rewrite includes_double, (IH s Erest), orb_false_r.
  destruct (Ascii.eqb c "_"); [|reflexivity]. cbn [andb] in Ehead |- *.
  destruct n, s; auto.
Qed.

Section SaveResultsFacts.
Context `{URLApi}.

(** X17.  A file name made by [sanitizeFilename] has at most 100
    characters, all of them letters, digits, [.], [-] or [_] (so no path
    separator), and never two underscores in a row; for a string that is
    no URL it is [unknown]. *)
Theorem sanitizeFilename_safe (url : string) :
  (String.length (sanitizeFilename url) <= 100)%nat
  /\ Lite.allChars isSafeChar (sanitizeFilename url) = true
  /\ includes (sanitizeFilename url) "/" = false
  /\ includes (sanitizeFilename url) "__" = false
  /\ (new_URL url None = None -> sanitizeFilename url = "unknown").
Proof.
  assert (Hsafe : Lite.allChars isSafeChar (sanitizeFilename url) = true).
  { unfold sanitizeFilename. destruct (new_URL url None) as [parsed|]; [|reflexivity].
    apply substring_keeps, collapseUnderscores_keeps, replaceChars_safe. }
  split; [|split; [exact Hsafe|split; [|split]]].
  - unfold sanitizeFilename. destruct (new_URL url None) as [parsed|]; [|simpl; lia].
    apply substring_length_le.
  - revert Hsafe. generalize (sanitizeFilename url). intros s.
    induction s as [|c s IH]; [reflexivity|]. intros E. cbn [Lite.allChars] in E.
    apply andb_true_iff in E as [Ec Es]. rewrite includes_cons, (IH Es), orb_false_r.
    rewrite prefix_cons, prefix_nil, andb_true_r.
    destruct (Ascii.eqb_spec "/" c) as [<-|]; [discriminate Ec | reflexivity].
  - unfold sanitizeFilename. destruct (new_URL url None) as [parsed|]; [|reflexivity].
    apply substring_single, collapseUnderscores_single.
  - unfold sanitizeFilename. intros ->. reflexivity.
Qed.

End SaveResultsFacts.

Lemma uniqueFrom_spec (seen : gset string) (xs : list string) :
  NoDup (uniqueFrom seen xs)
  /\ (forall x, x ∈ uniqueFrom seen xs <-> x ∈ xs /\ x ∉ seen)
  /\ uniqueFrom seen xs `sublist_of` xs.
Proof.
  revert seen. induction xs as [|x rest IH]; intros seen; simpl.
  - split; [constructor|]. split; [|constructor]. intros y. split; [inversion 1 | intros [Hy _]; inversion Hy].
  - destruct (decide (x ∈ seen)) as [Hx|Hx].
    + destruct (IH seen) as (Hnd & Hin & Hsub). split; [exact Hnd|]. split.
      * intros y. rewrite Hin. split; [intros [Hy Hs]; split; [right|]; auto|].
        intros [Hy Hs]. apply elem_of_cons in Hy as [->|Hy]; [contradiction | auto].
      * apply sublist_cons, Hsub.
    + destruct (IH ({[ x ]} ∪ seen)) as (Hnd & Hin & Hsub). split; [|split].
      * constructor; [|exact Hnd]. rewrite Hin. intros [_ Hs]. apply Hs. set_solver.
      * intros y. rewrite elem_of_cons, Hin. split.
        -- intros [->|[Hy Hs]]; [split; [left | exact Hx] | split; [right; exact Hy | set_solver]].
        -- intros [Hy Hs]. apply elem_of_cons in Hy as [->|Hy]; [left; reflexivity|].
           destruct (decide (y = x)) as [->|Hne]; [left; reflexivity|]. right. split; [exact Hy|].
           set_solver.
      * apply sublist_skip, Hsub.
Qed.

Lemma uniqueFrom_snoc (seen : gset string) (xs : list string) (x : string) :
  uniqueFrom seen (xs ++ [x])
  = uniqueFrom seen xs ++ (if decide (x ∈ seen \/ x ∈ xs) then [] else [x]).
Proof.
  revert seen. induction xs as [|y rest IH]; intros seen; simpl.
  - destruct (decide (x ∈ seen)) as [Hx|Hx].
    + rewrite decide_True by auto. reflexivity.
    + rewrite decide_False; [reflexivity|]. intros [?|Hin]; [contradiction | inversion Hin].
  - destruct (decide (y ∈ seen)) as [Hy|Hy]; rewrite IH.
    + f_equal. apply decide_ext. rewrite elem_of_cons. split; [intros [?|?]; auto|].
      intros [?|[->|?]]; auto.
    + simpl. f_equal. f_equal. apply decide_ext. rewrite elem_of_cons, elem_of_union, elem_of_singleton.
      tauto.
Qed.

Lemma uniqueFrom_fixed (seen : gset string) (xs : list string) :
  NoDup xs -> (forall x, x ∈ xs -> x ∉ seen) -> uniqueFrom seen xs = xs.
Proof.
  revert seen. induction xs as [|x rest IH]; intros seen Hnd Hseen; [reflexivity|]. simpl.
  apply NoDup_cons in Hnd as [Hx Hrest].
  rewrite decide_False by (apply Hseen; left). f_equal. apply IH; [exact Hrest|].
  intros y Hy. rewrite elem_of_union, elem_of_singleton. intros [->|Hs]; [contradiction|].
  apply (Hseen y); [right; exact Hy | exact Hs].
Qed.

Lemma filter_truthy_In (xs : list string) (x : string) :
  x ∈ List.filter truthy xs <-> x ∈ xs /\ x <> "".
Proof.
  rewrite !list_elem_of_In, filter_In. unfold truthy.
  destruct (String.eqb_spec x ""); simpl; intuition congruence.
Qed.

Lemma filter_sublist {A} (p : A -> bool) (l : list A) : List.filter p l `sublist_of` l.
Proof.
  induction l as [|x l IH]; [constructor|]. simpl.
  destruct (p x); [apply sublist_skip | apply sublist_cons]; exact IH.
Qed.

Lemma omap_id_Some {A} (l : list A) : omap id (Some <$> l) = l.
Proof. induction l as [|x l IH]; [reflexivity|]. simpl. f_equal. exact IH. Qed.

(** X18.  The lines of the text file of a links export: every
    non-empty target of a result, once; a result adds a line exactly when
    its target is there, is not empty and was not met before, so the
    lines are in the order of first appearance; exporting the lines again
    changes nothing. *)
Theorem uniqueLinks_spec (targets : list (option string)) :
  NoDup (uniqueLinks targets)
  /\ (forall u, u ∈ uniqueLinks targets <-> Some u ∈ targets /\ u <> "")
  /\ uniqueLinks targets `sublist_of` omap id targets
  /\ (forall t, uniqueLinks (targets ++ [t])
                = uniqueLinks targets
                  ++ match t with
                     | Some u => if decide (u = "" \/ Some u ∈ targets) then [] else [u]
                     | None => []
                     end)
  /\ uniqueLinks (Some <$> uniqueLinks targets) = uniqueLinks targets.
Proof.
  unfold uniqueLinks.
  destruct (uniqueFrom_spec ∅ (List.filter truthy (omap id targets))) as (Hnd & Hin & Hsub).
  assert (Hmem : forall u, u ∈ omap id targets <-> Some u ∈ targets).
  { intros u. rewrite list_elem_of_omap. split.
    - intros (o & Ho & Eo). destruct o; simpl in Eo; [|discriminate]. congruence.
    - intros Hu. exists (Some u). auto. }
  assert (Hiff : forall u, u ∈ uniqueFrom ∅ (List.filter truthy (omap id targets))
                           <-> Some u ∈ targets /\ u <> "").
  { intros u. rewrite Hin, filter_truthy_In, Hmem. set_solver. }
  split; [exact Hnd|]. split; [exact Hiff|]. split; [|split].
  - etransitivity; [exact Hsub | apply filter_sublist].
  - intros [u|]; rewrite omap_app, List.filter_app; simpl; [|rewrite !app_nil_r; reflexivity].
    unfold truthy at 2. destruct (String.eqb_spec u "") as [->|Hu]; simpl.
    + rewrite !app_nil_r. reflexivity.
    + rewrite uniqueFrom_snoc. f_equal. apply decide_ext.
      rewrite filter_truthy_In, Hmem. set_solver.
  - rewrite omap_id_Some. set (out := uniqueFrom ∅ (List.filter truthy (omap id targets))) in *.
    assert (Hall : List.filter truthy out = out).
    { assert (Htrue : Forall (fun u => truthy u = true) out).
      { apply Forall_forall. intros u Hu. apply Hiff in Hu as [_ Hu].
        unfold truthy. destruct (String.eqb_spec u ""); [contradiction | reflexivity]. }
      clear -Htrue. induction Htrue as [|u l Hu _ IH]; [reflexivity|].
      simpl. rewrite Hu, IH. reflexivity. }
    rewrite Hall. apply uniqueFrom_fixed; [exact Hnd | set_solver].
Qed.

(* --------------------------------------------------------------------- *)
(** ** scrape-html *)

Lemma mapM_imap_Some {R} (task : nat -> string -> option R) (out : nat -> string -> R)
    (l : list string) :
  (forall k url, l !! k = Some url -> task k url = Some (out k url)) ->
  mapM id (imap task l) = Some (imap out l).
Proof.
  intros Hall. apply mapM_Some_2. revert task out Hall.
  induction l as [|x l IH]; intros task out Hall; [constructor|].
  cbn [imap]. constructor; [exact (Hall 0%nat x eq_refl)|].
  apply IH. intros k url Hk. exact (Hall (S k) url Hk).
Qed.

Lemma mapM_imap_None {R} (task : nat -> string -> option R) (l : list string) k url :
  l !! k = Some url -> task k url = None -> mapM id (imap task l) = None.
Proof.
  intros Hk Hnone. apply mapM_None_2, Exists_exists. exists None. split; [|reflexivity].
  apply (list_elem_of_lookup_2 _ k). rewrite list_lookup_imap, Hk. simpl.
  rewrite Hnone. reflexivity.
Qed.

(** With a batch size of one or more, and tasks that all come back, the
    loop ends within as many turns as there are URLs left, and its
    results are those of the tasks of the remaining URLs, in order. *)
Lemma batchLoop_spec {R} (size fuel i : nat) (task : nat -> string -> option R)
    (out : nat -> string -> R) (urls : list string) (results : list R) :
  (0 < size)%nat -> (length urls - i <= fuel)%nat ->
  (forall k url, urls !! k = Some url -> task k url = Some (out k url)) ->
  batchLoop size fuel i task urls results
  = Some (results ++ imap (fun k url => out (i + k)%nat url) (drop i urls)).
Proof.
  intros Hsize Hfuel Hall. revert i results Hfuel.
  induction fuel as [|fuel IH]; intros i results Hfuel.
  - simpl. destruct (Nat.ltb_spec i (length urls)); [lia|].
    rewrite drop_ge by lia. simpl. rewrite app_nil_r. reflexivity.
  - simpl. destruct (Nat.ltb_spec i (length urls)) as [Hlt|Hge].
    + rewrite (mapM_imap_Some _ (fun k url => out (i + k)%nat url)).
      2:{ intros k url Hk. unfold slice in Hk. apply lookup_take_Some in Hk as [Hk _].
          rewrite lookup_drop in Hk. apply Hall, Hk. }
      rewrite IH by lia. f_equal. rewrite <- app_assoc. f_equal.
      unfold slice. replace (i + size - i)%nat with size by lia.
      set (rest := drop i urls).
      rewrite <- (take_drop size rest) at 2. rewrite imap_app. unfold rest. rewrite drop_drop.
      f_equal.
      destruct (Nat.le_gt_cases (i + size) (length urls)) as [Hfull|Hshort].
      * rewrite length_take, length_drop. replace (size `min` (length urls - i))%nat with size by lia.
        apply imap_ext. intros k url _. simpl. f_equal. lia.
      * rewrite (drop_ge urls (i + size)) by lia. reflexivity.
    + rewrite drop_ge by lia. simpl. rewrite app_nil_r. reflexivity.
Qed.

(** A task that never comes back keeps the loop from ending. *)
Lemma batchLoop_stuck {R} (size fuel i : nat) (task : nat -> string -> option R)
    (urls : list string) (results : list R) (k : nat) (url : string) :
  (0 < size)%nat -> urls !! k = Some url -> task k url = None -> (i <= k)%nat ->
  batchLoop size fuel i task urls results = None.
Proof.
  intros Hsize Hk Hnone. pose proof (lookup_lt_Some _ _ _ Hk) as Hlen.
  revert i results. induction fuel as [|fuel IH]; intros i results Hi.
  - simpl. destruct (Nat.ltb_spec i (length urls)); [reflexivity | lia].
  - simpl. destruct (Nat.ltb_spec i (length urls)); [|lia].
    destruct (mapM id (imap (fun k0 url0 => task (i + k0)%nat url0) (slice i (i + size) urls)))
      as [batchResults|] eqn:Ebatch; [|reflexivity].
    apply IH. destruct (Nat.le_gt_cases (i + size) k) as [Hle|Hgt]; [exact Hle|]. exfalso.
    rewrite (mapM_imap_None _ _ (k - i) url) in Ebatch; [discriminate| |].
    + unfold slice. apply lookup_take_Some. split; [|lia].
      rewrite lookup_drop. replace (i + (k - i))%nat with k by lia. exact Hk.
    + replace (i + (k - i))%nat with k by lia. exact Hnone.
Qed.

Section ScrapeHtmlFacts.
Context `{URLApi} `{SelectorApi}.

Lemma scrapeHtmlTask_shape cssSelector url fetched :
  let r := scrapeHtmlTask cssSelector url fetched in
  sh_url r = url
  /\ sh_size r = String.length (sh_html r)
  /\ match sh_error r with
     | Some _ => sh_status r = 0 /\ sh_html r = "" /\ sh_contentType r = "error"
                 /\ sh_retryCount r = None
     | None => exists page retryCount html,
                 fetched = Returned (page, retryCount)
                 /\ sh_status r = resp_status (hf_response page)
                 /\ sh_retryCount r = Some retryCount
                 /\ resp_text (hf_response page) = Returned html
                 /\ applySelector cssSelector html = Returned (sh_html r)
     end.
Proof.
  unfold scrapeHtmlTask.
  destruct fetched as [[page retryCount]|e]; [|simpl; repeat split; reflexivity].
  destruct (resp_text (hf_response page)) as [body|e] eqn:Etext;
    [|simpl; repeat split; reflexivity].
  destruct (applySelector cssSelector body) as [html|e] eqn:Esel;
    [|simpl; repeat split; reflexivity].
  simpl. split; [reflexivity|]. split; [reflexivity|]. exists page, retryCount, body.
  repeat split; auto.
Qed.

(** X19.  [scrape-html] answers 400 to a body without [urls].
    Otherwise, if the fetch of every URL that the outbound gate lets
    through comes back, the handler ends and gives exactly one result for
    each of these URLs, in the order of the request, and none for the
    others: in each result [size] is the length of [html]; a failed task
    has status 0, an empty [html] and the content type [error]; a task
    that did not fail carries the retry count of the fetch.  If the fetch
    of one of these URLs never comes back (its retry loop does not end),
    the handler never answers. *)
Theorem scrapeHtml_results (body : ScrapeHtmlRequest)
    (fetched : nat -> string -> RequestSettings -> option (Outcome (HtmlFetched * Z))) :
  match shr_urls body with
  | None => forall fuel, scrapeHtml fuel body fetched = Some (HttpError 400 "urls array required")
  | Some urls0 =>
      let urls := filterAllowedUrls urls0 in
      let settings := plainSettings (shr_settings body) in
      ((forall i url, urls !! i = Some url -> is_Some (fetched i url settings)) ->
       exists results,
         (forall fuel, (length urls0 <= fuel)%nat ->
            scrapeHtml fuel body fetched = Some (Ok results))
         /\ sh_url <$> results = urls
         /\ Forall (fun r =>
              isAllowedUrl (sh_url r) = true
              /\ sh_size r = String.length (sh_html r)
              /\ match sh_error r with
                 | Some _ => sh_status r = 0 /\ sh_html r = "" /\ sh_contentType r = "error"
                             /\ sh_retryCount r = None
                 | None => is_Some (sh_retryCount r)
                 end) results)
      /\ (forall i url, urls !! i = Some url -> fetched i url settings = None ->
            forall fuel, scrapeHtml fuel body fetched = None)
  end.
Proof.
  unfold scrapeHtml. destruct (shr_urls body) as [urls0|]; [|reflexivity].
  set (urls := filterAllowedUrls urls0). set (settings := plainSettings (shr_settings body)).
  set (cssSelector := match shr_cssSelector body with Some s => trim s | None => "" end).
  assert (Hlen : (length urls <= length urls0)%nat).
  { unfold urls, filterAllowedUrls. apply filter_length_le. }
  split.
  - intros Hall.
    set (out := fun (i : nat) (url : string) =>
                  scrapeHtmlTask cssSelector url
                    (default (Threw JsNonError) (fetched i url settings))).
    exists (imap out urls). split; [|split].
    + intros fuel Hfuel. rewrite (batchLoop_spec _ _ _ _ out); [reflexivity | lia | lia |].
      intros k url Hk. destruct (Hall k url Hk) as [page Hpage]. unfold out.
      rewrite Hpage. reflexivity.
    + rewrite fmap_imap. etransitivity; [|apply (list_fmap_id urls)].
      rewrite <- imap_const. apply imap_ext. intros i url _.
      apply (scrapeHtmlTask_shape cssSelector url).
    + apply Forall_forall. intros r Hr. apply list_elem_of_lookup in Hr as [i Hi].
      rewrite list_lookup_imap in Hi.
      destruct (urls !! i) as [url|] eqn:Eurl; [|discriminate]. injection Hi as <-.
      destruct (scrapeHtmlTask_shape cssSelector url
                  (default (Threw JsNonError) (fetched i url settings))) as (Eu & Esize & Hres).
      split; [|split; [exact Esize|]].
      * unfold out. rewrite Eu. apply list_elem_of_lookup_2 in Eurl.
        unfold urls, filterAllowedUrls in Eurl. apply list_elem_of_In, filter_In in Eurl. tauto.
      * unfold out. destruct (sh_error _); [exact Hres|].
        destruct Hres as (page & retryCount & html & _ & _ & -> & _). eauto.
  - intros i url Hi Hnone fuel.
    rewrite (batchLoop_stuck 5 fuel 0 _ urls [] i url); [reflexivity | lia | exact Hi | | lia].
    rewrite Hnone. reflexivity.
Qed.

End ScrapeHtmlFacts.

(* --------------------------------------------------------------------- *)
(** ** The audit of a page *)

Lemma audited_report n worst cost issue penalty a :
  audited n worst a -> 2 <= penalty <= 15 -> penalty <= cost ->
  audited (S n) (worst + cost) (report issue penalty a).
Proof.
  intros (Hn & Hw & Hp) Hpen Hcost. unfold audited, report. simpl.
  rewrite length_app. simpl. lia.
Qed.

Lemma audited_skip n worst cost a :
  audited n worst a -> 0 <= cost -> audited (S n) (worst + cost) a.
Proof. intros (Hn & Hw & Hp) Hcost. unfold audited. lia. Qed.

Lemma auditTitle_audited n worst text a :
  audited n worst a -> audited (S n) (worst + 15) (auditTitle text a).
Proof.
  intros Ha. unfold auditTitle.
  repeat match goal with
         | |- context [if ?c then _ else _] => destruct c
         end; try (apply audited_report; [exact Ha | lia | lia]).
  apply audited_skip; [exact Ha | lia].
Qed.

Lemma auditDescription_audited n worst text a :
  audited n worst a -> audited (S n) (worst + 10) (auditDescription text a).
Proof.
  intros Ha. unfold auditDescription.
  repeat match goal with
         | |- context [if ?c then _ else _] => destruct c
         end; try (apply audited_report; [exact Ha | lia | lia]).
  apply audited_skip; [exact Ha | lia].
Qed.

Lemma auditH1_audited n worst h1Count a :
  audited n worst a -> audited (S n) (worst + 10) (auditH1 h1Count a).
Proof.
  intros Ha. unfold auditH1.
  repeat match goal with
         | |- context [if ?c then _ else _] => destruct c
         end; try (apply audited_report; [exact Ha | lia | lia]).
  apply audited_skip; [exact Ha | lia].
Qed.

Lemma auditImages_audited n worst k a :
  audited n worst a -> audited (S n) (worst + 10) (auditImages k a).
Proof.
  intros Ha. unfold auditImages. destruct (Z.ltb_spec 0 k).
  - apply audited_report; [exact Ha | lia | lia].
  - apply audited_skip; [exact Ha | lia].
Qed.

Lemma auditBroken_audited n worst broken a :
  audited n worst a -> audited (S n) (worst + 15) (auditBroken broken a).
Proof.
  intros Ha. unfold auditBroken. destruct (Nat.ltb_spec 0 (length broken)).
  - apply audited_report; [exact Ha | lia | lia].
  - apply audited_skip; [exact Ha | lia].
Qed.

Section SeoAuditFacts.
Context `{URLApi} `{AuditCheerio} `{ClockApi}.

Lemma auditPage_score url checkLinks response loadTime html env r env' :
  auditPage url checkLinks response loadTime html env = (Returned r, env') ->
  sa_error r = None
  /\ 24 <= sa_score r <= 100
  /\ (length (sa_issues r) <= 9)%nat
  /\ 2 * Z.of_nat (length (sa_issues r)) <= 100 - sa_score r
     <= 15 * Z.of_nat (length (sa_issues r))
  /\ (checkLinks = false -> sa_brokenLinks r = [] /\ 39 <= sa_score r).
Proof.
  unfold auditPage.
  set (a0 := ([], 100) : Audit).
  assert (Ha0 : audited 0 0 a0) by (unfold audited, a0; simpl; lia).
  pose proof (auditTitle_audited _ _ (trim (q_title html)) _ Ha0) as H1'.
  set (a1 := auditTitle (trim (q_title html)) a0) in *.
  pose proof (auditDescription_audited _ _
                (strOr (trim <$> q_attr html MetaDescription "content") "") _ H1') as H2'.
  set (a2 := auditDescription _ a1) in *.
  set (a3 := match orNull (q_attr html LinkCanonical "href") with
             | Some _ => a2
             | None => report "Kein Canonical-Tag gefunden" 5 a2
             end).
  assert (H3' : audited 3 (0 + 15 + 10 + 5) a3).
  { unfold a3. destruct (orNull _);
      [apply audited_skip | apply audited_report]; auto; lia. }
  destruct (eachHeading (q_headings html) ∅ []) as [headingCounts headings].
  pose proof (auditH1_audited _ _ (intOr (headingCounts !! "h1") 0) _ H3') as H4'.
  set (a4 := auditH1 _ a3) in *.
  pose proof (auditImages_audited _ _ (countWithoutAlt (q_imageAlts html)) _ H4') as H5'.
  set (a5 := auditImages _ a4) in *.
  destruct (new_URL url None) as [baseUrl|]; [|discriminate].
  destruct (eachLink url baseUrl (q_anchors html) 0 0) as [internalLinks externalLinks].
  set (checked := if checkLinks then _ else _).
  assert (H6' : audited 6 (0 + 15 + 10 + 5 + 10 + 10 + 15) checked.1.2
                /\ (checkLinks = false ->
                    checked.1.1 = [] /\ audited 5 (0 + 15 + 10 + 5 + 10 + 10) checked.1.2)).
  { unfold checked. destruct checkLinks.
    - destruct (checkEach url baseUrl (take 20 (q_anchors html)) [] env) as [broken env1].
      simpl. split; [apply auditBroken_audited, H5' | discriminate].
    - simpl. split; [apply audited_skip; [exact H5' | lia] | auto]. }
  destruct checked as [[brokenLinks a6] env1]. simpl in H6'. destruct H6' as [H6' Hno].
  set (a7 := if (0 <? q_count html MetaViewport)%nat then a6
             else report "Kein Viewport-Meta-Tag" 5 a6).
  set (a8 := if (0 <? q_count html ScriptJsonLd)%nat then a7
             else report "Kein JSON-LD Schema gefunden" 3 a7).
  set (a9 := if (0 <? q_count html MetaOpenGraph)%nat then a8
             else report "Keine Open Graph Tags" 3 a8).
  assert (Hrest : forall n worst, audited n worst a6 ->
            audited (S (S (S n))) (worst + 5 + 3 + 3) a9).
  { intros n worst Ha6.
    assert (Ha7 : audited (S n) (worst + 5) a7).
    { unfold a7. destruct (0 <? q_count html MetaViewport)%nat;
        [apply audited_skip | apply audited_report]; auto; lia. }
    assert (Ha8 : audited (S (S n)) (worst + 5 + 3) a8).
    { unfold a8. destruct (0 <? q_count html ScriptJsonLd)%nat;
        [apply audited_skip | apply audited_report]; auto; lia. }
    unfold a9. destruct (0 <? q_count html MetaOpenGraph)%nat;
      [apply audited_skip | apply audited_report]; auto; lia. }
  intros [= <- <-]. simpl.
  destruct (Hrest _ _ H6') as (Hn & Hw & Hp).
  split; [reflexivity|]. split; [lia|]. split; [exact Hn|]. split; [lia|].
  intros Hoff. destruct (Hno Hoff) as [-> Ha6]. split; [reflexivity|].
  destruct (Hrest _ _ Ha6) as (_ & Hw' & _). lia.
Qed.

(** The retry loop of the audit moves the world as [retryLoop] does. *)
Lemma auditRetryLoop_env fuel attempt lastError url settings env :
  snd <$> auditRetryLoop fuel attempt lastError url settings env
  = snd <$> retryLoop fuel attempt lastError url settings env.
Proof.
  revert attempt lastError env.
  induction fuel as [|k IH]; intros attempt lastError env; cbn [auditRetryLoop retryLoop];
    destruct (numLeb (ofInt attempt) (retries settings)); try reflexivity.
  destruct (doFetch GET url (getInit settings) env) as [[response|e] env1].
  - destruct ((500 <=? resp_status response) && numLtb (ofInt attempt) (retries settings));
      [apply IH | reflexivity].
  - destruct (numLtb (ofInt attempt) (retries settings)); apply IH.
Qed.

Lemma auditFetchWithRetry_env fuel url settings env fetched env1 :
  auditFetchWithRetry fuel url settings env = Some (fetched, env1) ->
  exists out, fetchWithRetry fuel url settings env = Some (out, env1).
Proof.
  intros E. unfold auditFetchWithRetry, fetchWithRetry in *.
  pose proof (auditRetryLoop_env fuel 0 JsNonError url settings env) as Henv.
  rewrite E in Henv.
  destruct (retryLoop fuel 0 JsNonError url settings env) as [[out env2]|];
    [|discriminate]. injection Henv as <-. eauto.
Qed.

(** An audit comes back unless the fuel is within the retry count. *)
Lemma auditUrl_returns fuel url checkLinks settings env :
  match auditUrl fuel url checkLinks settings env with
  | Some run => exists fetched env1, run = auditFetched url checkLinks fetched env1
  | None => numLeb (ofNat fuel) (retries settings) = true
  end.
Proof.
  unfold auditUrl.
  destruct (auditFetchWithRetry fuel url settings env) as [[fetched env1]|] eqn:E; [eauto|].
  destruct (numLeb (ofNat fuel) (retries settings)) eqn:Eout; [reflexivity|].
  destruct (fetchWithRetry_total fuel url settings env Eout) as [[out env2] Er].
  pose proof (auditRetryLoop_env fuel 0 JsNonError url settings env) as Henv.
  unfold auditFetchWithRetry in E. unfold fetchWithRetry in Er. rewrite E, Er in Henv.
  discriminate.
Qed.

(** X20.  The score of an audit.  A page that could be fetched and
    read scores between 24 and 100 (39 and more when links are not
    checked), has at most nine issues, and loses between 2 and 15 points
    for each of them, so its score is 100 exactly when there is no issue;
    an audit that failed scores 0, with status 0 and no issue. *)
Theorem auditUrl_score (fuel : nat) (url : string) (checkLinks : bool)
    (settings : RequestSettings) (env : Env) :
  (forall fetched env1,
     let r := fst (auditFetched url checkLinks fetched env1) in
     sa_url r = url
     /\ match sa_error r with
        | Some _ => sa_score r = 0 /\ sa_issues r = [] /\ sa_status r = 0
        | None =>
            24 <= sa_score r <= 100
            /\ (length (sa_issues r) <= 9)%nat
            /\ 2 * Z.of_nat (length (sa_issues r)) <= 100 - sa_score r
               <= 15 * Z.of_nat (length (sa_issues r))
            /\ (sa_score r = 100 <-> sa_issues r = [])
            /\ (checkLinks = false -> sa_brokenLinks r = [] /\ 39 <= sa_score r)
        end)
  /\ match auditUrl fuel url checkLinks settings env with
     | Some run => exists fetched env1, run = auditFetched url checkLinks fetched env1
     | None => numLeb (ofNat fuel) (retries settings) = true
     end.
Proof.
  split; [|apply auditUrl_returns].
  intros fetched env1. unfold auditFetched.
  destruct fetched as [[response loadTime]|e]; [|simpl; auto].
  destruct (resp_text response) as [html|e]; [|simpl; auto].
  destruct (auditPage url checkLinks response loadTime html env1) as [[r|e] env2] eqn:Epage;
    [|simpl; auto].
  simpl. destruct (auditPage_score _ _ _ _ _ _ _ _ Epage) as (-> & Hs & Hn & Hp & Hoff).
  split.
  - revert Epage. unfold auditPage.
    destruct (eachHeading (q_headings html) ∅ []), (new_URL url None); [|discriminate].
    destruct (eachLink _ _ _ _ _). destruct (if checkLinks then _ else _) as [[? ?] ?].
    intros [= <- _]. reflexivity.
  - split; [exact Hs|]. split; [exact Hn|]. split; [exact Hp|]. split; [|exact Hoff].
    split; [intros E; destruct (sa_issues r); [reflexivity | simpl in Hp; lia]|].
    intros E. rewrite E in Hp. simpl in Hp. lia.
Qed.

End SeoAuditFacts.

Lemma tagCount_snoc tag headings h :
  tagCount tag (headings ++ [h])
  = tagCount tag headings + (if String.eqb (hd_tag h) tag then 1 else 0).
Proof.
  unfold tagCount. rewrite List.filter_app, length_app. simpl.
  destruct (String.eqb (hd_tag h) tag); simpl; lia.
Qed.

Lemma tagCount_nonneg tag headings : 0 <= tagCount tag headings.
Proof. unfold tagCount. lia. Qed.

Lemma eachHeading_ranked elements headingCounts headings :
  (forall tag, intOr (headingCounts !! tag) 0 = tagCount tag headings) ->
  ranked headings ->
  let '(counts, hs) := eachHeading elements headingCounts headings in
  (forall tag, intOr (counts !! tag) 0 = tagCount tag hs)
  /\ ranked hs
  /\ length hs = (length headings + length elements)%nat.
Proof.
  revert headingCounts headings.
  induction elements as [|[tagName text] rest IH]; intros headingCounts headings Hcounts Hranked.
  - simpl. repeat split; auto.
  - simpl. set (tag := toLowerCase tagName).
    set (n := intOr (headingCounts !! tag) 0 + 1).
    set (h := {| hd_tag := tag; hd_text := substring 0 100 (trim text); hd_count := n |}).
    specialize (IH (<[tag := n]> headingCounts) (headings ++ [h])).
    assert (Hn : n = tagCount tag headings + 1) by (unfold n; rewrite Hcounts; reflexivity).
    destruct (eachHeading rest (<[tag := n]> headingCounts) (headings ++ [h])) as [counts hs].
    destruct IH as (Hc & Hr & Hl).
    + intros t. rewrite tagCount_snoc. simpl.
      destruct (String.eqb_spec tag t) as [<-|Hne].
      * rewrite lookup_insert_eq. unfold intOr.
        pose proof (tagCount_nonneg tag headings).
        destruct n eqn:En; lia.
      * rewrite lookup_insert_ne by exact Hne. rewrite Hcounts. lia.
    + intros i h' Hi. destruct (Nat.lt_ge_cases i (length headings)) as [Hlt|Hge].
      * rewrite lookup_app_l in Hi by exact Hlt.
        rewrite take_app_le by lia. apply Hranked, Hi.
      * rewrite lookup_app_r in Hi by exact Hge.
        destruct (i - length headings)%nat eqn:Ei; [|destruct n0; discriminate].
        injection Hi as <-. rewrite take_ge by (rewrite length_app; simpl; lia).
        rewrite tagCount_snoc. simpl. rewrite String.eqb_refl. exact Hn.
    + repeat split; auto. rewrite Hl, length_app. simpl. lia.
Qed.

Section HeadingFacts.
Context `{URLApi} `{AuditCheerio} `{ClockApi}.

(** X21.  The headings of an audit: each carries its rank among the
    headings of its tag, counted from 1 in document order; [h1Count] is
    the number of [h1] headings, and [hasMultipleH1] says that there are
    two or more. *)
Theorem auditUrl_headings (fuel : nat) (url : string) (checkLinks : bool)
    (settings : RequestSettings) (env : Env) :
  (forall fetched env1,
     let r := fst (auditFetched url checkLinks fetched env1) in
     ranked (sa_headings r)
     /\ sa_h1Count r = tagCount "h1" (sa_headings r)
     /\ (sa_hasMultipleH1 r = true <-> 2 <= tagCount "h1" (sa_headings r)))
  /\ match auditUrl fuel url checkLinks settings env with
     | Some run => exists fetched env1, run = auditFetched url checkLinks fetched env1
     | None => numLeb (ofNat fuel) (retries settings) = true
     end.
Proof.
  split; [|apply auditUrl_returns].
  intros fetched env1.
  assert (Hfail : forall e, let r := auditFailure url e in
            ranked (sa_headings r) /\ sa_h1Count r = tagCount "h1" (sa_headings r)
            /\ (sa_hasMultipleH1 r = true <-> 2 <= tagCount "h1" (sa_headings r))).
  { intros e. simpl. split; [intros i h Hi; discriminate Hi|]. split; [reflexivity|].
    unfold tagCount. simpl. split; [discriminate | lia]. }
  unfold auditFetched.
  destruct fetched as [[response loadTime]|e]; [|apply Hfail].
  destruct (resp_text response) as [html|e]; [|apply Hfail].
  destruct (auditPage url checkLinks response loadTime html env1) as [[r|e] env2] eqn:Epage;
    [|apply Hfail].
  simpl. revert Epage. unfold auditPage.
  pose proof (eachHeading_ranked (q_headings html) ∅ []) as Hh.
  destruct (eachHeading (q_headings html) ∅ []) as [counts hs].
  destruct Hh as (Hc & Hr & _).
  { intros tag. rewrite lookup_empty. reflexivity. }
  { intros i h Hi. discriminate Hi. }
  destruct (new_URL url None); [|discriminate].
  destruct (eachLink _ _ _ _ _). destruct (if checkLinks then _ else _) as [[? ?] ?].
  intros [= <- _]. simpl. split; [exact Hr|]. split; [apply Hc|].
  rewrite Hc. rewrite Z.ltb_lt. lia.
Qed.

End HeadingFacts.

Section AuditRequests.
Context `{URLApi} `{AuditCheerio} `{ClockApi}.

Lemma probed_later (ev : Event) (heads : list Event) (b : BrokenLink) :
  probed heads b -> probed (ev :: heads) b.
Proof. intros (answer & Hin & Hs). exists answer. split; [right; exact Hin | exact Hs]. Qed.

Lemma checkEach_requests url baseUrl links broken env :
  exists heads found,
    trace (snd (checkEach url baseUrl links broken env)) = trace env ++ heads
    /\ fst (checkEach url baseUrl links broken env) = broken ++ found
    /\ (length heads <= length links)%nat
    /\ Forall isHeadRequest heads
    /\ (length found <= length heads)%nat
    /\ Forall (fun b => bl_isBroken b = true /\ (400 <= bl_status b \/ bl_status b = 0)
                        /\ probed heads b) found.
Proof.
  revert broken env. induction links as [|[hrefAttr text] rest IH]; intros broken env.
  - exists [], []. simpl. rewrite !app_nil_r. repeat split; auto.
  - assert (Hskip : exists heads found,
              trace (snd (checkEach url baseUrl rest broken env)) = trace env ++ heads
              /\ fst (checkEach url baseUrl rest broken env) = broken ++ found
              /\ (length heads <= length ((hrefAttr, text) :: rest))%nat
              /\ Forall isHeadRequest heads
              /\ (length found <= length heads)%nat
              /\ Forall (fun b => bl_isBroken b = true /\ (400 <= bl_status b \/ bl_status b = 0)
                                  /\ probed heads b) found).
    { destruct (IH broken env) as (heads & found & Ht & Hf & Hlen & Hheads & Hcount & Hall).
      exists heads, found. simpl. repeat split; auto. }
    cbn [checkEach]. destruct (skippedHref hrefAttr); [exact Hskip|].
    destruct (new_URL (default "" hrefAttr) (Some url)) as [linkUrl|]; [|exact Hskip].
    unfold checkLinkStatus, doFetch.
    destruct (fetch HEAD (href linkUrl) {| fi_timeoutMs := ofInt 5000; fi_headers := [] |}
                (world env)) as [answer w1].
    set (env1 := resume w1 (EvFetch HEAD (href linkUrl) answer) env).
    set (status := match answer with Returned response => resp_status response | Threw _ => 0 end).
    set (ev := EvFetch HEAD (href linkUrl) answer).
    assert (Hev : isHeadRequest ev) by (exists (href linkUrl), answer; reflexivity).
    destruct ((400 <=? status) || (status =? 0)) eqn:Ebroken.
    + match goal with
      | |- context [checkEach url baseUrl rest (broken ++ [?b]) env1] =>
          destruct (IH (broken ++ [b]) env1)
            as (heads & found & Ht & Hf & Hlen & Hheads & Hcount & Hall);
          exists (ev :: heads), (b :: found)
      end.
      subst env1. rewrite Ht, Hf. unfold resume. cbn [trace]. rewrite <- !app_assoc. simpl.
      split; [reflexivity|]. split; [reflexivity|]. split; [lia|].
      split; [constructor; assumption|]. split; [lia|].
      constructor.
      * simpl. split; [reflexivity|]. split.
        -- apply orb_true_iff in Ebroken as [E|E]; [left; apply Z.leb_le, E | right; apply Z.eqb_eq, E].
        -- exists answer. split; [left | reflexivity].
      * eapply Forall_impl; [exact Hall|]. cbv beta.
        intros b (Hb & Hs & Hp). split; [exact Hb|]. split; [exact Hs|].
        apply probed_later, Hp.
    + destruct (IH broken env1) as (heads & found & Ht & Hf & Hlen & Hheads & Hcount & Hall).
      exists (ev :: heads), found.
      subst env1. rewrite Ht, Hf. unfold resume. cbn [trace]. rewrite <- !app_assoc. simpl.
      split; [reflexivity|]. split; [reflexivity|]. split; [lia|].
      split; [constructor; assumption|]. split; [lia|].
      eapply Forall_impl; [exact Hall|]. cbv beta.
      intros b (Hb & Hs & Hp). split; [exact Hb|]. split; [exact Hs|].
      apply probed_later, Hp.
Qed.

Lemma auditPage_requests url checkLinks response loadTime html env :
  exists heads,
    trace (snd (auditPage url checkLinks response loadTime html env)) = trace env ++ heads
    /\ (length heads <= 20)%nat
    /\ Forall isHeadRequest heads
    /\ (checkLinks = false -> heads = [])
    /\ forall r, fst (auditPage url checkLinks response loadTime html env) = Returned r ->
         (length (sa_brokenLinks r) <= length heads)%nat
         /\ Forall (fun b => bl_isBroken b = true /\ (400 <= bl_status b \/ bl_status b = 0)
                             /\ probed heads b) (sa_brokenLinks r).
Proof.
  unfold auditPage.
  destruct (eachHeading (q_headings html) ∅ []) as [headingCounts headings].
  destruct (new_URL url None) as [baseUrl|].
  2:{ exists []. simpl. rewrite app_nil_r. split; [reflexivity|]. split; [lia|].
      split; [constructor|]. split; [reflexivity|]. intros r Hr. discriminate Hr. }
  destruct (eachLink url baseUrl (q_anchors html) 0 0) as [internalLinks externalLinks].
  destruct checkLinks.
  - destruct (checkEach_requests url baseUrl (take 20 (q_anchors html)) [] env)
      as (heads & found & Ht & Hf & Hlen & Hheads & Hcount & Hall).
    destruct (checkEach url baseUrl (take 20 (q_anchors html)) [] env) as [brokenLinks env1].
    simpl in Ht, Hf. subst brokenLinks. exists heads. simpl.
    split; [exact Ht|]. split; [rewrite length_take in Hlen; lia|].
    split; [exact Hheads|]. split; [discriminate|].
    intros r [= <-]. simpl. split; [exact Hcount | exact Hall].
  - exists []. simpl. rewrite app_nil_r. split; [reflexivity|]. split; [lia|].
    split; [constructor|]. split; [reflexivity|].
    intros r [= <-]. simpl. split; [lia | constructor].
Qed.

(** X22.  What an audit that comes back has done on the network: the
    GET requests for the page, on the schedule of [fetchWithRetry] (the
    index of each of them at most [retries], with a pause of 1000 ms
    times the number of attempts made after each attempt that another
    follows, and after the last one too when it failed and its index is
    below [retries]); then one HEAD request for each link that is
    checked, at most twenty, and none when links are not checked; nothing
    else.  With a retry count that is a whole number there are at most
    [retries + 1] GET requests and no pause after the last.  A link is
    reported as broken only for such a HEAD request, with the status it
    gave (0 when it threw), which is 0 or at least 400.  An audit that
    does not come back within the fuel has a retry count of at least the
    fuel. *)
Theorem auditUrl_requests (fuel : nat) (url : string) (checkLinks : bool)
    (settings : RequestSettings) (env : Env) :
  match auditUrl fuel url checkLinks settings env with
  | None => numLeb (ofNat fuel) (retries settings) = true
  | Some (r, env') =>
      exists answers heads,
        trace env'
        = trace env ++ retrySchedule url 0 answers
          ++ lastPause (retries settings) (Z.of_nat (length answers) - 1) answers ++ heads
        /\ attemptsFit (retries settings) (length answers)
        /\ (forall k, wholeNum (retries settings) k ->
              (length answers <= Z.to_nat (k + 1))%nat
              /\ lastPause (retries settings) (Z.of_nat (length answers) - 1) answers = [])
        /\ (length heads <= 20)%nat
        /\ Forall isHeadRequest heads
        /\ (checkLinks = false -> heads = [])
        /\ (length (sa_brokenLinks r) <= length heads)%nat
        /\ Forall (fun b => bl_isBroken b = true /\ (400 <= bl_status b \/ bl_status b = 0)
                            /\ probed heads b) (sa_brokenLinks r)
  end.
Proof.
  pose proof (auditUrl_returns fuel url checkLinks settings env) as Hret.
  unfold auditUrl in *.
  destruct (auditFetchWithRetry fuel url settings env) as [[fetched env1]|] eqn:E;
    [clear Hret | exact Hret].
  destruct (auditFetchWithRetry_env _ _ _ _ _ _ E) as [out Eout].
  destruct (fetchWithRetry_scheduled _ _ _ _ _ _ Eout)
    as (answers & Ht & _ & Hfit & _ & Hwhole).
  assert (Hnone : forall e,
            exists answers heads,
              trace env1
              = trace env ++ retrySchedule url 0 answers
                ++ lastPause (retries settings) (Z.of_nat (length answers) - 1) answers ++ heads
              /\ attemptsFit (retries settings) (length answers)
              /\ (forall k, wholeNum (retries settings) k ->
                    (length answers <= Z.to_nat (k + 1))%nat
                    /\ lastPause (retries settings) (Z.of_nat (length answers) - 1) answers = [])
              /\ (length heads <= 20)%nat
              /\ Forall isHeadRequest heads
              /\ (checkLinks = false -> heads = [])
              /\ (length (sa_brokenLinks (auditFailure url e)) <= length heads)%nat
              /\ Forall (fun b => bl_isBroken b = true
                                  /\ (400 <= bl_status b \/ bl_status b = 0)
                                  /\ probed heads b) (sa_brokenLinks (auditFailure url e))).
  { intros e. exists answers, []. rewrite app_nil_r.
    split; [exact Ht|]. split; [exact Hfit|]. split; [exact Hwhole|].
    split; [simpl; lia|]. split; [constructor|]. split; [reflexivity|].
    split; [simpl; lia | constructor]. }
  unfold auditFetched.
  destruct fetched as [[response loadTime]|e]; [|apply Hnone].
  destruct (resp_text response) as [html|e]; [|apply Hnone].
  destruct (auditPage_requests url checkLinks response loadTime html env1)
    as (heads & Hh & Hn & Hheads & Hoff & Hbroken).
  destruct (auditPage url checkLinks response loadTime html env1) as [[r|e] env2];
    cbn [fst snd] in *.
  - exists answers, heads. destruct (Hbroken r eq_refl) as [Hcount Hall].
    split; [rewrite Hh, Ht, <- !app_assoc; reflexivity|].
    split; [exact Hfit|]. split; [exact Hwhole|]. auto.
  - exists answers, heads.
    split; [rewrite Hh, Ht, <- !app_assoc; reflexivity|].
    split; [exact Hfit|]. split; [exact Hwhole|].
    split; [exact Hn|]. split; [exact Hheads|]. split; [exact Hoff|].
    split; [simpl; lia | constructor].
Qed.

End AuditRequests.

(* --------------------------------------------------------------------- *)
(** ** The structured data of a page *)

Lemma removeFirst_eq (needle s : string) :
  removeFirst needle s
  = if String.prefix needle s then sliceFrom (String.length needle) s
    else match s with
         | EmptyString => EmptyString
         | String c s' => String c (removeFirst needle s')
         end.
Proof. destruct s; reflexivity. Qed.

Lemma sliceFrom_app (a b : string) : sliceFrom (String.length a) (a +:+ b) = b.
Proof.
  induction a as [|c a IH]; [destruct b; reflexivity|].
  rewrite append_cons. simpl. exact IH.
Qed.

Lemma removeFirst_prefix (needle rest : string) : removeFirst needle (needle +:+ rest) = rest.
Proof.
  rewrite removeFirst_eq.
  assert (E : startsWith (needle +:+ rest) needle = true) by (apply startsWith_app; eauto).
  unfold startsWith in E. rewrite E. apply sliceFrom_app.
Qed.

Lemma metaValues_snoc prefix key elements element :
  metaValues prefix key (elements ++ [element])
  = metaValues prefix key elements ++ metaValues prefix key [element].
Proof. unfold metaValues. apply omap_app. Qed.

Section ScrapeJsonFacts.
Context `{URLApi} `{JsonApi} `{MetaCheerio} `{AuditCheerio}.

Lemma eachJsonLd_concat scripts jsonLd :
  eachJsonLd scripts jsonLd = jsonLd ++ concat (jsonLdOf <$> scripts).
Proof.
  revert jsonLd. induction scripts as [|content rest IH]; intros jsonLd; simpl.
  - rewrite app_nil_r. reflexivity.
  - destruct content as [c|]; simpl; [|apply IH].
    destruct (truthy c); simpl; [|apply IH].
    destruct (JSON_parse c) as [parsed|e]; simpl; [|apply IH].
    destruct (asArray parsed) as [items|]; simpl; rewrite IH, <- app_assoc; reflexivity.
Qed.

Lemma eachMeta_lookup prefix elements obj key :
  eachMeta prefix elements obj !! key
  = if decide (key = "" \/ key = "__proto__") then obj !! key
    else match last (metaValues prefix key elements) with
         | Some v => Some v
         | None => obj !! key
         end.
Proof.
  destruct (decide (key = "" \/ key = "__proto__")) as [Hk|Hk].
  - revert obj. induction elements as [|[attr content] rest IH]; intros obj; [reflexivity|].
    cbn [eachMeta].
    destruct attr as [a|]; cbn [fmap option_fmap option_map]; [|apply IH].
    destruct content as [c|]; [|apply IH].
    destruct (truthy (removeFirst prefix a)) eqn:Ep; cbn [andb]; [|apply IH].
    destruct (truthy c); [|apply IH].
    rewrite IH. unfold setProperty.
    destruct (String.eqb_spec (removeFirst prefix a) "__proto__") as [Ea|Ea]; [reflexivity|].
    rewrite lookup_insert_ne; [reflexivity|].
    intros <-. destruct Hk as [Hk|Hk]; [|contradiction].
    rewrite Hk in Ep. discriminate.
  - revert obj. induction elements as [|[attr content] rest IH]; intros obj; [reflexivity|].
    cbn [eachMeta]. unfold metaValues. cbn [omap list_omap fst snd].
    fold (metaValues prefix key rest).
    destruct attr as [a|]; cbn [fmap option_fmap option_map]; [|apply IH].
    destruct content as [c|]; [|apply IH].
    destruct (truthy c) eqn:Ec; [|rewrite !andb_false_r; apply IH].
    rewrite !andb_true_r.
    destruct (truthy (removeFirst prefix a)) eqn:Ep.
    + rewrite IH. unfold setProperty.
      destruct (String.eqb_spec (removeFirst prefix a) key) as [Ekey|Ekey].
      * rewrite Ekey.
        destruct (String.eqb_spec key "__proto__") as [Ea|Ea]; [exfalso; auto|].
        rewrite lookup_insert_eq.
        destruct (metaValues prefix key rest) as [|v vs] eqn:Evs; [reflexivity|].
        change (last (c :: v :: vs)) with (last (v :: vs)).
        destruct (last (v :: vs)) as [w|] eqn:El; [reflexivity|].
        apply last_None in El. discriminate.
      * destruct (String.eqb_spec (removeFirst prefix a) "__proto__") as [Ea|Ea];
          [reflexivity|].
        rewrite lookup_insert_ne by exact Ekey. reflexivity.
    + destruct (String.eqb_spec (removeFirst prefix a) key) as [Ekey|Ekey]; [|apply IH].
      exfalso. apply Hk. left. rewrite <- Ekey.
      unfold truthy in Ep. apply negb_false_iff, String.eqb_eq in Ep. exact Ep.
Qed.

Lemma scrapeJsonTask_shape url fetched :
  let r := scrapeJsonTask url fetched in
  sj_url r = url
  /\ match sj_error r with
     | Some _ => sj_status r = 0 /\ sj_jsonLd r = [] /\ sj_openGraph r = ∅
                 /\ sj_twitterCard r = ∅
     | None => exists response html,
                 fetched = Returned response /\ resp_text response = Returned html
                 /\ sj_status r = resp_status response
     end.
Proof.
  unfold scrapeJsonTask. destruct fetched as [response|e]; [|simpl; auto].
  destruct (resp_text response) as [html|e] eqn:Etext; [|simpl; auto].
  simpl. split; [reflexivity|]. exists response, html. auto.
Qed.

(** X23.  The handler of structured data answers 400 to a body
    without [urls].  Otherwise, if the fetch of every URL that the
    outbound gate lets through comes back, it ends and gives one result
    for each of these URLs, in the order of the request: the result of
    the task of that URL; and if the fetch of one of them never comes
    back, the handler never answers.  A failed task has status 0 and no
    data.  For a page that was read, a key of [openGraph] (and of
    [twitterCard]) has the content of the last tag that names it and has
    a content; the empty key and [__proto__] are never set; [jsonLd]
    lists the documents of the scripts in page order, an array by its
    elements, and skips a script that is empty or no JSON.  The key of a
    tag is what follows the prefix. *)
Theorem scrapeJson_results (body : ScrapeJsonRequest)
    (fetched : nat -> string -> RequestSettings -> option (Outcome Response)) :
  match sjr_urls body with
  | None => forall fuel, scrapeJson fuel body fetched = Some (HttpError 400 "urls array required")
  | Some urls0 =>
      let urls := filterAllowedUrls urls0 in
      let settings := jsonSettings (sjr_settings body) in
      ((forall i url, urls !! i = Some url -> is_Some (fetched i url settings)) ->
       exists results,
         (forall fuel, (length urls0 <= fuel)%nat ->
            scrapeJson fuel body fetched = Some (Ok results))
         /\ sj_url <$> results = urls
         /\ (forall i r, results !! i = Some r ->
               exists page, fetched i (sj_url r) settings = Some page
                            /\ r = scrapeJsonTask (sj_url r) page)
         /\ Forall (fun r => forall msg, sj_error r = Some msg ->
                      sj_status r = 0 /\ sj_jsonLd r = [] /\ sj_openGraph r = ∅
                      /\ sj_twitterCard r = ∅) results)
      /\ (forall i url, urls !! i = Some url -> fetched i url settings = None ->
            forall fuel, scrapeJson fuel body fetched = None)
  end
  /\ (forall url response html key,
        resp_text response = Returned html ->
        let r := scrapeJsonTask url (Returned response) in
        sj_error r = None
        /\ sj_status r = resp_status response
        /\ sj_openGraph r !! key
           = (if decide (key = "" \/ key = "__proto__") then None
              else last (metaValues "og:" key (q_ogMetas html)))
        /\ sj_twitterCard r !! key
           = (if decide (key = "" \/ key = "__proto__") then None
              else last (metaValues "twitter:" key (q_twitterMetas html)))
        /\ sj_jsonLd r = concat (jsonLdOf <$> q_jsonLdScripts html))
  /\ (forall prefix rest, removeFirst prefix (prefix +:+ rest) = rest).
Proof.
  split; [|split].
  - unfold scrapeJson. destruct (sjr_urls body) as [urls0|]; [|reflexivity].
    set (urls := filterAllowedUrls urls0). set (settings := jsonSettings (sjr_settings body)).
    assert (Hlen : (length urls <= length urls0)%nat).
    { unfold urls, filterAllowedUrls. apply filter_length_le. }
    split.
    + intros Hall.
      set (out := fun (i : nat) (url : string) =>
                    scrapeJsonTask url (default (Threw JsNonError) (fetched i url settings))).
      exists (imap out urls). split; [|split; [|split]].
      * intros fuel Hfuel. rewrite (batchLoop_spec _ _ _ _ out); [reflexivity | lia | lia |].
        intros k url Hk. destruct (Hall k url Hk) as [page Hpage]. unfold out.
        rewrite Hpage. reflexivity.
      * rewrite fmap_imap. etransitivity; [|apply (list_fmap_id urls)].
        rewrite <- imap_const. apply imap_ext. intros i url _.
        apply (scrapeJsonTask_shape url).
      * intros i r Hi. rewrite list_lookup_imap in Hi.
        destruct (urls !! i) as [url|] eqn:Eurl; [|discriminate]. injection Hi as <-.
        unfold out. destruct (Hall i url Eurl) as [page Hpage]. rewrite Hpage. simpl.
        destruct (scrapeJsonTask_shape url page) as (-> & _). eauto.
      * apply Forall_forall. intros r Hr. apply list_elem_of_lookup in Hr as [i Hi].
        rewrite list_lookup_imap in Hi.
        destruct (urls !! i) as [url|] eqn:Eurl; [|discriminate]. injection Hi as <-.
        intros msg Hmsg. unfold out in *.
        destruct (scrapeJsonTask_shape url
                    (default (Threw JsNonError) (fetched i url settings))) as (_ & Hres).
        rewrite Hmsg in Hres. exact Hres.
    + intros i url Hi Hnone fuel.
      rewrite (batchLoop_stuck 5 fuel 0 _ urls [] i url); [reflexivity | lia | exact Hi | | lia].
      rewrite Hnone. reflexivity.
  - intros url response html key Etext r. subst r. unfold scrapeJsonTask. rewrite Etext.
    cbn [sj_error sj_status sj_openGraph sj_twitterCard sj_jsonLd].
    split; [reflexivity|]. split; [reflexivity|].
    rewrite !eachMeta_lookup, eachJsonLd_concat, !lookup_empty.
    split; [|split; [|reflexivity]].
    + destruct (decide _); [reflexivity|]. destruct (last _); reflexivity.
    + destruct (decide _); [reflexivity|]. destruct (last _); reflexivity.
  - apply removeFirst_prefix.
Qed.

End ScrapeJsonFacts.

(* --------------------------------------------------------------------- *)
(** ** The images of a page *)

Section ImageFacts.
Context `{URLApi} `{ImageCheerio} `{ImagePlatform}.

Lemma sizeOk_nonZero (min : Z) (n : option Z) :
  tooSmall min n = false -> sizeOk min (nonZero n).
Proof.
  intros Hsmall v Hv. destruct n as [n|]; [|discriminate].
  assert (n = v /\ v <> 0) as [-> Hnz] by (destruct n; simpl in Hv; [discriminate | | ]; split; congruence).
  split; [exact Hnz|]. intros Hmin Hpos. simpl in Hsmall.
  destruct (Z.ltb_spec 0 min); [|lia]. destruct (Z.ltb_spec 0 v); [|lia].
  destruct (Z.ltb_spec v min); [discriminate | lia].
Qed.

Lemma sizeOk_unknown (min : Z) : sizeOk min None.
Proof. intros v Hv. discriminate. Qed.

Lemma foundOk_seen formats minWidth minHeight src seenUrls images :
  foundOk formats minWidth minHeight (seenUrls, images) -> foundOk formats minWidth minHeight ({[ src ]} ∪ seenUrls, images).
Proof.
  intros [Hnd Hall]. split; [exact Hnd|]. simpl in *.
  eapply Forall_impl; [exact Hall|]. cbv beta. intros im (Hin & Hrest).
  split; [set_solver | exact Hrest].
Qed.

Lemma foundOk_push formats minWidth minHeight im seenUrls images :
  foundOk formats minWidth minHeight (seenUrls, images) ->
  im_src im ∉ seenUrls -> startsWith (im_src im) "data:" = false ->
  isValidImageFormat (im_src im) formats = true ->
  sizeOk minWidth (im_width im) -> sizeOk minHeight (im_height im) ->
  foundOk formats minWidth minHeight ({[ im_src im ]} ∪ seenUrls, images ++ [im]).
Proof.
  intros [Hnd Hall] Hnew Hd Hf Hw Hh. simpl in *. split; simpl.
  - rewrite fmap_app. apply NoDup_app. split; [exact Hnd|]. split; [|apply NoDup_singleton].
    intros src Hsrc Hin. apply list_elem_of_fmap in Hsrc as (im' & -> & Him').
    simpl in Hin. apply list_elem_of_singleton in Hin.
    rewrite Forall_forall in Hall. destruct (Hall im' Him') as (Hseen & _).
    rewrite Hin in Hseen. contradiction.
  - apply Forall_app. split.
    + eapply Forall_impl; [exact Hall|]. cbv beta. intros im' (Hin & Hrest).
      split; [set_solver | exact Hrest].
    + constructor; [|constructor]. split; [set_solver | auto].
Qed.

Lemma eachImg_ok url formats minWidth minHeight elements found :
  foundOk formats minWidth minHeight found ->
  foundOk formats minWidth minHeight (eachImg url formats minWidth minHeight elements found).
Proof.
  revert found. induction elements as [|el rest IH]; intros [seenUrls images] Hok; [exact Hok|].
  cbn [eachImg].
  destruct (orNull (orElse (img_src el) (orElse (img_dataSrc el) (img_lazySrc el))))
    as [src|]; [|apply IH, Hok].
  destruct (startsWith (resolveUrl url src) "data:") eqn:Ed; [apply IH, Hok|].
  destruct (bool_decide (resolveUrl url src ∈ seenUrls)) eqn:Es; [apply IH, Hok|].
  apply bool_decide_eq_false in Es. cbn [orb].
  destruct (isValidImageFormat (resolveUrl url src) formats) eqn:Ef; cbn [negb];
    [|apply IH, foundOk_seen, Hok].
  destruct (tooSmall minWidth _) eqn:Ew; [apply IH, foundOk_seen, Hok|].
  destruct (tooSmall minHeight _) eqn:Eh; [apply IH, foundOk_seen, Hok|].
  apply IH.
  match goal with
  | |- foundOk _ _ _ (_, _ ++ [?im]) =>
      apply (foundOk_push formats minWidth minHeight im);
        [exact Hok | exact Es | exact Ed | exact Ef
        | apply sizeOk_nonZero, Ew | apply sizeOk_nonZero, Eh]
  end.
Qed.

Lemma pushPlain_ok url formats minWidth minHeight src found :
  foundOk formats minWidth minHeight found -> foundOk formats minWidth minHeight (pushPlain url formats src found).
Proof.
  destruct found as [seenUrls images]. intros Hok. unfold pushPlain.
  destruct (startsWith (resolveUrl url src) "data:") eqn:Ed; [exact Hok|].
  destruct (bool_decide (resolveUrl url src ∈ seenUrls)) eqn:Es; [exact Hok|].
  apply bool_decide_eq_false in Es. cbn [negb andb].
  destruct (isValidImageFormat (resolveUrl url src) formats) eqn:Ef; [|exact Hok].
  match goal with
  | |- foundOk _ _ _ (_, _ ++ [?im]) =>
      apply (foundOk_push formats minWidth minHeight im);
        [exact Hok | exact Es | exact Ed | exact Ef
        | apply sizeOk_unknown | apply sizeOk_unknown]
  end.
Qed.

Lemma eachStyled_ok url formats minWidth minHeight elements found :
  foundOk formats minWidth minHeight found -> foundOk formats minWidth minHeight (eachStyled url formats elements found).
Proof.
  revert found. induction elements as [|style rest IH]; intros found Hok; [exact Hok|].
  cbn [eachStyled]. destruct (styleUrl (strOr style "")) as [m|]; [|apply IH, Hok].
  destruct (truthy m); [apply IH, pushPlain_ok, Hok | apply IH, Hok].
Qed.

Lemma eachSource_ok url formats minWidth minHeight sources found :
  foundOk formats minWidth minHeight found -> foundOk formats minWidth minHeight (eachSource url formats sources found).
Proof.
  revert found. induction sources as [|src rest IH]; intros found Hok; [exact Hok|].
  cbn [eachSource]. destruct (truthy src); cbn [negb];
    [apply IH, pushPlain_ok, Hok | apply IH, Hok].
Qed.

Lemma eachSrcset_ok url formats minWidth minHeight elements found :
  foundOk formats minWidth minHeight found -> foundOk formats minWidth minHeight (eachSrcset url formats elements found).
Proof.
  revert found. induction elements as [|srcset rest IH]; intros found Hok; [exact Hok|].
  cbn [eachSrcset]. apply IH, eachSource_ok, Hok.
Qed.

(** X24.  The images found on a page: no source twice and no
    [data:] URL; every source passes the filter on formats, which lets
    everything through when no format is asked for; a width or height
    that is given is not zero, and a width or height that is given and
    positive is not below the minimum asked for, when that is positive.
    (The filter on sizes compares positive sizes only: an image with a
    negative width or height is kept whatever the minimum.) *)
Theorem collectImages_spec (url : string) (formats : option (list string))
    (minWidth minHeight : Z) (html : string) :
  let images := collectImages url formats minWidth minHeight html in
  NoDup (im_src <$> images)
  /\ Forall (fun im => startsWith (im_src im) "data:" = false
                       /\ isValidImageFormat (im_src im) formats = true
                       /\ sizeOk minWidth (im_width im)
                       /\ sizeOk minHeight (im_height im)) images
  /\ ((formats = None \/ formats = Some []) -> forall src, isValidImageFormat src formats = true).
Proof.
  intros images. subst images. unfold collectImages.
  assert (Hok : foundOk formats minWidth minHeight
                  (eachSrcset url formats (q_srcsets html)
                     (eachStyled url formats (q_styled html)
                        (eachImg url formats minWidth minHeight (q_imgs html) (∅, []))))).
  { apply eachSrcset_ok, eachStyled_ok, eachImg_ok. split; constructor. }
  destruct Hok as [Hnd Hall]. split; [exact Hnd|]. split.
  - eapply Forall_impl; [exact Hall|]. cbv beta. tauto.
  - intros [-> | ->] src; reflexivity.
Qed.

End ImageFacts.

(* --------------------------------------------------------------------- *)
(** ** The user interface *)

Lemma splitRuns_unbroken isSep s acc inRun :
  unbroken isSep acc = true ->
  Forall (fun piece => unbroken isSep piece = true) (splitRuns isSep s acc inRun).
Proof.
  revert acc inRun. induction s as [|c s IH]; intros acc inRun Hacc; simpl.
  - constructor; [|constructor]. unfold unbroken. rewrite allChars_rev. exact Hacc.
  - destruct (isSep c) eqn:Ec.
    + destruct inRun; [apply IH; reflexivity|].
      constructor; [unfold unbroken; rewrite allChars_rev; exact Hacc | apply IH; reflexivity].
    + apply IH. unfold unbroken. simpl. rewrite Ec. exact Hacc.
Qed.

Lemma splitRuns_single isSep s acc inRun :
  unbroken isSep s = true -> splitRuns isSep s acc inRun = [String.rev acc +:+ s].
Proof.
  revert acc inRun. induction s as [|c s IH]; intros acc inRun Hs; simpl.
  - rewrite append_nil_r. reflexivity.
  - unfold unbroken in Hs. simpl in Hs. apply andb_true_iff in Hs as [Hc Hs].
    apply negb_true_iff in Hc. rewrite Hc, IH by exact Hs.
    rewrite rev_cons, append_assoc. reflexivity.
Qed.

Section ParseUrlsFacts.
Context `{URLApi}.

Lemma keptPieces_run isSep s :
  keptPieces (splitRuns isSep s EmptyString true)
  = keptPieces (splitRuns isSep s EmptyString false).
Proof.
  destruct s as [|c s]; [reflexivity|]. simpl. destruct (isSep c); reflexivity.
Qed.

Lemma keptPieces_cons piece pieces :
  keptPieces (piece :: pieces) = keptPieces [piece] ++ keptPieces pieces.
Proof.
  unfold keptPieces. cbn [map List.filter].
  destruct (isValidUrl (trim piece)); reflexivity.
Qed.

Lemma keptPieces_app isSep a c b acc inRun :
  isSep c = true -> (inRun = true -> acc = EmptyString) ->
  keptPieces (splitRuns isSep (a +:+ String c b) acc inRun)
  = keptPieces (splitRuns isSep a acc inRun) ++ keptPieces (splitRuns isSep b EmptyString false).
Proof.
  intros Hc. revert acc inRun. induction a as [|x a IH]; intros acc inRun Hrun.
  - rewrite append_nil_l. cbn [splitRuns]. rewrite Hc. rewrite <- keptPieces_run.
    destruct inRun; [rewrite (Hrun eq_refl); reflexivity|].
    apply keptPieces_cons.
  - rewrite append_cons. cbn [splitRuns]. destruct (isSep x).
    + destruct inRun.
      * apply IH. reflexivity.
      * rewrite keptPieces_cons, IH by reflexivity.
        rewrite (keptPieces_cons _ (splitRuns isSep a _ _)), app_assoc. reflexivity.
    + apply IH. discriminate.
Qed.

(** X25.  What [parseUrls] reads from the input box.  Every entry is a
    non-empty string without a line break or a comma that the URL class
    accepts, hence one that [normalizeUrl] accepts as a seed; the text
    before and after a separator is read independently; and a text
    without separator gives its trimmed form, if that is a URL. *)
Theorem parseUrls_spec (input : string) :
  Forall (fun u => u <> EmptyString
                   /\ unbroken isUrlSeparator u = true
                   /\ is_Some (new_URL u None)
                   /\ is_Some (normalizeUrl u None)) (parseUrls input)
  /\ (forall a b c, input = a +:+ String c b -> isUrlSeparator c = true ->
        parseUrls input = parseUrls a ++ parseUrls b)
  /\ (unbroken isUrlSeparator input = true ->
      parseUrls input = if isValidUrl (trim input) then [trim input] else []).
Proof.
  split; [|split].
  - apply Forall_forall. intros u Hu. unfold parseUrls in Hu.
    apply list_elem_of_In, filter_In in Hu as [Hu Hvalid].
    apply in_map_iff in Hu as (piece & <- & Hpiece).
    unfold isValidUrl in Hvalid.
    destruct (truthy (trim piece)) eqn:Et; [|discriminate]. simpl in Hvalid.
    destruct (new_URL (trim piece) None) as [r|] eqn:Er; [|discriminate].
    split; [intros E; rewrite E in Et; discriminate|]. split.
    + apply allChars_trim.
      pose proof (splitRuns_unbroken isUrlSeparator input EmptyString false eq_refl) as Hall.
      eapply Forall_forall in Hall; [exact Hall | apply list_elem_of_In, Hpiece].
    + split; [eauto|]. unfold normalizeUrl. rewrite Er. eauto.
  - intros a b c -> Hc. apply (keptPieces_app isUrlSeparator a c b); [exact Hc | discriminate].
  - intros Hone. unfold parseUrls. rewrite splitRuns_single by exact Hone. reflexivity.
Qed.

End ParseUrlsFacts.

Lemma addLog_entry (e : LogEntry) (logs : list LogEntry) :
  addLog (log_timestamp e) (log_message e) (log_type e) logs
  = if (100 <=? length logs)%nat then tail (logs ++ [e]) else logs ++ [e].
Proof.
  unfold addLog. destruct e as [t m ty]. cbn [log_timestamp log_message log_type].
  rewrite length_app. cbn [length].
  destruct (Nat.ltb_spec 100 (length logs + 1)), (Nat.leb_spec 100 (length logs));
    try lia; reflexivity.
Qed.

Lemma logged_last_hundred (entries : list LogEntry) :
  logged entries = drop (length entries - 100) entries.
Proof.
  unfold logged. induction entries as [|e entries IH] using rev_ind; [reflexivity|].
  rewrite foldl_app. cbn [foldl]. rewrite IH, addLog_entry, length_drop, length_app.
  cbn [length].
  destruct (Nat.leb_spec 100 (length entries - (length entries - 100))) as [Hfull|Hroom].
  - assert (Hlen : (100 <= length entries)%nat) by lia.
    replace (length entries + 1 - 100)%nat with (S (length entries - 100)) by lia.
    rewrite <- drop_app_le by lia.
    generalize (entries ++ [e]). intros l. generalize (length entries - 100)%nat. intros n.
    revert l. induction n as [|n IHn]; intros [|x l]; simpl; auto.
  - replace (length entries - 100)%nat with 0%nat by lia.
    replace (length entries + 1 - 100)%nat with 0%nat by lia. reflexivity.
Qed.

(** X26.  The log keeps the last hundred messages: a message is
    appended, and the oldest entry is dropped when there are more than a
    hundred. *)
Theorem addLog_keeps_last_hundred (entries : list LogEntry) (e : LogEntry) :
  logged (entries ++ [e])
  = addLog (log_timestamp e) (log_message e) (log_type e) (logged entries)
  /\ logged entries = drop (length entries - 100) entries
  /\ (length (logged entries) <= 100)%nat
  /\ last (logged (entries ++ [e])) = Some e.
Proof.
  split; [unfold logged; rewrite foldl_app; reflexivity|].
  split; [apply logged_last_hundred|].
  split; [rewrite logged_last_hundred, length_drop; lia|].
  rewrite logged_last_hundred, length_app. simpl.
  destruct (Nat.le_gt_cases (length entries + 1) 100) as [Hle|Hgt].
  - replace (length entries + 1 - 100)%nat with 0%nat by lia. simpl. apply last_snoc.
  - rewrite drop_app_le by lia. apply last_snoc.
Qed.

(* --------------------------------------------------------------------- *)

(** X27.  The selection of rows: toggling a row twice changes nothing;
    [toggleSelectAll] selects every row, or none when all were selected,
    and leaves an empty table alone; and while the selected rows are
    rows of the table, [allSelected] says that all of them are. *)
Theorem selection_spec (total : nat) (selectedRows : gset nat) (index : nat) :
  toggleRow index (toggleRow index selectedRows) = selectedRows
  /\ (index ∈ toggleRow index selectedRows <-> index ∉ selectedRows)
  /\ toggleSelectAll (Some 0%nat) selectedRows = selectedRows
  /\ toggleSelectAll None selectedRows = selectedRows
  /\ ((0 < total)%nat ->
      toggleSelectAll (Some total) selectedRows
      = if allSelected (Some total) selectedRows then ∅ else set_seq 0 total)
  /\ ((0 < total)%nat -> allSelected (Some total) (set_seq 0 total) = true)
  /\ (selectedRows ⊆ set_seq 0 total ->
      (allSelected (Some total) selectedRows = true
       <-> (0 < total)%nat /\ selectedRows = set_seq 0 total)).
Proof.
  split; [|split; [|split; [|split; [|split; [|split]]]]].
  - unfold toggleRow. destruct (bool_decide_reflect (index ∈ selectedRows)) as [Hin|Hout].
    + rewrite bool_decide_eq_false_2 by set_solver.
      apply set_eq. intros x. destruct (decide (x = index)); set_solver.
    + rewrite bool_decide_eq_true_2 by set_solver. set_solver.
  - unfold toggleRow. destruct (bool_decide_reflect (index ∈ selectedRows)); set_solver.
  - reflexivity.
  - reflexivity.
  - intros Hpos. unfold toggleSelectAll. destruct total; [lia | reflexivity].
  - intros Hpos. unfold allSelected. rewrite size_set_seq.
    destruct total; [lia|]. simpl. rewrite Nat.eqb_refl. reflexivity.
  - intros Hsub. unfold allSelected. split.
    + intros E. apply andb_true_iff in E as [E Hsize]. apply andb_true_iff in E as [_ Hpos].
      apply Nat.ltb_lt in Hpos. apply Nat.eqb_eq in Hsize. split; [exact Hpos|].
      apply set_subseteq_size_eq; [exact Hsub|]. rewrite size_set_seq. lia.
    + intros [Hpos ->]. rewrite size_set_seq, Nat.eqb_refl.
      destruct total; [lia | reflexivity].
Qed.

(* --------------------------------------------------------------------- *)

Lemma countIf_split {A} (p : A -> bool) (xs : list A) :
  (countIf p xs + countIf (fun x => negb (p x)) xs = length xs)%nat.
Proof.
  unfold countIf. induction xs as [|x xs IH]; [reflexivity|]. simpl.
  destruct (p x); simpl; lia.
Qed.

(** X28.  The statistics of the links table.  There are none for a
    table without rows.  Every result is counted as internal or as
    external, and under at most one of the five status counters: under
    exactly one unless its status is negative or between 1 and 199; the
    rows shown as [status-ok] and [status-redirect] are those counted as
    2xx and 3xx. *)
Theorem linkStats_spec (rs : list LinkResult) :
  (linkStats (Some rs) = None <-> rs = [])
  /\ forall s, linkStats (Some rs) = Some s ->
       ls_total s = length rs
       /\ (ls_internal s + ls_external s = ls_total s)%nat
       /\ (ls_status200 s + ls_status3xx s + ls_status4xx s + ls_status5xx s + ls_errors s
           + countIf (fun r => (status r <? 0)%Z || ((0 <? status r)%Z && (status r <? 200)%Z)) rs
           = ls_total s)%nat
       /\ ls_status200 s
          = countIf (fun r => String.eqb (getStatusClass (status r)) "status-ok") rs
       /\ ls_status3xx s
          = countIf (fun r => String.eqb (getStatusClass (status r)) "status-redirect") rs.
Proof.
  split; [destruct rs; simpl; split; congruence|].
  intros s Hs.
  assert (Es : s = {| ls_total := length rs;
              ls_status200 := countIf (fun r => (200 <=? status r) && (status r <? 300)) rs;
              ls_status3xx := countIf (fun r => (300 <=? status r) && (status r <? 400)) rs;
              ls_status4xx := countIf (fun r => (400 <=? status r) && (status r <? 500)) rs;
              ls_status5xx := countIf (fun r => 500 <=? status r) rs;
              ls_errors := countIf (fun r => status r =? 0) rs;
              ls_internal := countIf (fun r => isInternalType r) rs;
              ls_external := countIf (fun r => negb (isInternalType r)) rs |}).
  { destruct rs; [discriminate|]. injection Hs as <-. reflexivity. }
  subst s. clear Hs.
  cbn [ls_total ls_internal ls_external ls_status200 ls_status3xx
       ls_status4xx ls_status5xx ls_errors].
  split; [reflexivity|]. split; [apply countIf_split|].
  unfold countIf, getStatusClass.
  induction rs as [|r rs (IH & IH2 & IH3)]; [repeat split; reflexivity|].
  cbn [List.filter].
  destruct (Z.leb_spec 200 (status r)); destruct (Z.ltb_spec (status r) 300);
    try (exfalso; lia);
    destruct (Z.leb_spec 300 (status r)); try (exfalso; lia);
    destruct (Z.ltb_spec (status r) 400); try (exfalso; lia);
    destruct (Z.leb_spec 400 (status r)); try (exfalso; lia);
    destruct (Z.ltb_spec (status r) 500); try (exfalso; lia);
    destruct (Z.leb_spec 500 (status r)); try (exfalso; lia);
    destruct (Z.eqb_spec (status r) 0); try (exfalso; lia);
    destruct (Z.ltb_spec (status r) 0); try (exfalso; lia);
    destruct (Z.ltb_spec 0 (status r)); try (exfalso; lia);
    destruct (Z.ltb_spec (status r) 200); try (exfalso; lia);
    cbn [andb orb negb String.eqb Ascii.eqb Bool.eqb length]; repeat split; lia.
Qed.

(* --------------------------------------------------------------------- *)
(** ** Runs of the handlers on the small site *)

#[local] Existing Instance Lite.api.
#[local] Existing Instance LiteLaws.laws.
#[local] Existing Instance Examples.siteParser.
#[local] Existing Instance Scripted.literals.
#[local] Existing Instance Examples.site.

(** What the gate rejects and what it lets through. *)
Lemma gate_examples :
  map isAllowedUrl
    ["http://127.0.0.1/"; "http://localhost/"; "http://app.localhost/"; "http://10.0.0.8/";
     "http://192.168.1.1/"; "http://172.16.0.1/"; "http://172.31.255.1/";
     "http://169.254.169.254/latest"; "http://0.0.0.0/"; "ftp://example.com/";
     "not a url"]
  = [false; false; false; false; false; false; false; false; false; false; false]
  /\ map isAllowedUrl ["https://example.com/a"; "http://172.15.0.1/"; "http://172.32.0.1/"]
     = [true; true; true].
Proof. split; vm_compute; reflexivity. Qed.

(** A recursive crawl of the small site: [/a] is fetched, its three links
    are checked, and only the internal one is fetched in turn, at depth 1,
    after the rate-limit sleep. *)
Lemma recursive_run :
  let body := Examples.request ["https://example.com/a"] true 2 (Some (JFin 2)) None in
  (fun st => (requests (trace (env st)), map depth (results st), size (visited st)))
    <$> Examples.stream 10 body
  = Some ([(GET, "https://example.com/a"); (HEAD, "https://example.com/b");
           (HEAD, "https://other.com/c"); (HEAD, "http://127.0.0.1/");
           (GET, "https://example.com/b")],
          [0; 0; 0], 2%nat).
Proof. vm_compute. reflexivity. Qed.

Lemma crawl_within_budget_and_depth_witness :
  let body := Examples.request ["https://example.com/a"] true 2 (Some (JFin 2)) None in
  exists st,
    Examples.stream 10 body = Some st
    /\ wholeNum (streamMaxUrls body) 100 /\ wholeNum (maxDepth body) 2
    /\ Z.of_nat (length (results st)) <= 100
    /\ Forall (fun r => depth r <= 2) (results st).
Proof.
  intros body.
  destruct (Examples.stream 10 body) as [st|] eqn:E; [|vm_compute in E; discriminate].
  exists st. split; [reflexivity|].
  assert (Hbudget : wholeNum (streamMaxUrls body) 100) by (vm_compute; reflexivity).
  assert (Hcap : wholeNum (maxDepth body) 2) by (vm_compute; reflexivity).
  split; [exact Hbudget|]. split; [exact Hcap|].
  destruct (@crawl_within_budget_and_depth _ LiteLaws.laws Examples.siteParser
              Scripted.literals Examples.site 10 isAllowedUrl (streamConfig body)
              (@Examples.fresh Examples.site 0%nat) st E)
    as (_ & _ & _ & Hcount & Hdepth & _).
  split; [apply (Hcount 100 Hbudget); lia|].
  destruct (Hdepth 2 Hcap) as [Hresults _]; [lia | exact Hresults].
Defined.

(** With [maxDepth = -1] the seed is still fetched at depth 0, and the
    results of its links carry depth 0, which is above maxDepth. *)
Lemma negative_maxDepth_is_exceeded :
  let body := Examples.request ["https://example.com/a"] false (-1) (Some (JFin 2)) None in
  maxDepth body = ofInt (-1)
  /\ (fun st => map depth (results st)) <$> Examples.stream 10 body = Some [0; 0; 0].
Proof. split; vm_compute; reflexivity. Qed.

(** With [maxUrls = 2.5], which the clamp to [1, 10000] keeps, the crawl
    records and writes three results: the third is added while
    [2 < 2.5]. *)
Lemma fractional_maxUrls_is_exceeded :
  let body := Examples.requestOf ["https://example.com/a"] (JFin (5 # 2)) (ofInt 2) in
  streamMaxUrls body = JFin (5 # 2)
  /\ (fun st => (length (results st), length (written (trace (env st)))))
       <$> Examples.stream 10 body
     = Some (3, 3)%nat.
Proof. split; vm_compute; reflexivity. Qed.

(** With [maxDepth = 0.5] the internal link of the seed page is put on
    the frontier at depth 1, while [0 < 0.5], and is fetched. *)
Lemma fractional_maxDepth_is_exceeded :
  let body := Examples.requestOf ["https://example.com/a"] (ofInt 100) (JFin (1 # 2)) in
  let cfg := @streamConfig Lite.api Scripted.literals body in
  maxDepth body = JFin (1 # 2)
  /\ map (fun it => (item_url it, item_depth it))
       (dequeued 10 cfg (startCrawl isAllowedUrl cfg (@Examples.fresh Examples.site 0%nat)))
     = [("https://example.com/a", 0); ("https://example.com/b", 1)]
  /\ fetchedPages <$> ((fun st => trace (env st)) <$> Examples.stream 10 body)
     = Some ["https://example.com/a"; "https://example.com/b"].
Proof. repeat split; vm_compute; reflexivity. Qed.

Lemma stream_results_accounting_witness :
  let body := Examples.request ["https://example.com/down"; "https://example.com/a"]
                false 2 (Some (JFin 2)) None in
  exists st,
    Examples.stream 10 body = Some st
    /\ Z.of_nat (length (results st)) <= 100
    /\ Forall (fun e => isPageError e = true -> status e = 0) (results st).
Proof.
  intros body.
  destruct (Examples.stream 10 body) as [st|] eqn:E; [|vm_compute in E; discriminate].
  exists st. split; [reflexivity|].
  destruct (@stream_results_accounting _ LiteLaws.laws Examples.siteParser
              Scripted.literals Examples.site 10 body (@Examples.fresh Examples.site 0%nat) st E)
    as (_ & Herrors & _ & Hcount & _).
  split; [apply (Hcount 100); vm_compute; reflexivity|].
  eapply Forall_impl; [exact Herrors|]. cbv beta. intros e He Herr. apply (He Herr).
Defined.

(** One page fetched and three results; one page fetched and no result;
    two pages fetched, one of them failing, and one result. *)
Lemma results_are_not_one_per_fetch :
  let count body :=
    (fun st => (length (getAnswers (@trace Examples.site (env st))), length (results st)))
      <$> Examples.stream 10 body in
  count (Examples.request ["https://example.com/a"] false 2 (Some (JFin 2)) None)
    = Some (1, 3)%nat
  /\ count (Examples.request ["https://example.com/empty"] false 2 (Some (JFin 2)) None)
     = Some (1, 0)%nat
  /\ count (Examples.request ["https://example.com/empty"; "https://example.com/down"]
              false 2 (Some (JFin 2)) None)
     = Some (2, 1)%nat.
Proof. repeat split; vm_compute; reflexivity. Qed.

Lemma stream_gate_on_seeds_witness :
  let body := Examples.request ["http://127.0.0.1/"; "https://example.com/a"]
                false 2 (Some (JFin 2)) None in
  exists st,
    Examples.stream 10 body = Some st
    /\ Forall (fun r => discovered isAllowedUrl st (sourceUrl r)) (results st)
    /\ Forall (discovered isAllowedUrl st) (fetchedPages (trace (env st))).
Proof.
  intros body.
  destruct (Examples.stream 10 body) as [st|] eqn:E; [|vm_compute in E; discriminate].
  exists st. split; [reflexivity|].
  destruct (@stream_gate_on_seeds _ LiteLaws.laws Examples.siteParser
              Scripted.literals Examples.site 10 body (@Examples.fresh Examples.site 0%nat) st E)
    as (_ & Horigin & _ & Hfetches).
  split; [exact Horigin | apply Hfetches; reflexivity].
Defined.

(** The loopback address is rejected as a seed, and comes back as the
    target of a result, and of a HEAD request, because the allowed seed
    links to it. *)
Lemma rejected_seed_is_a_link_target :
  let body := Examples.request ["http://127.0.0.1/"; "https://example.com/a"]
                false 2 (Some (JFin 2)) None in
  @isAllowedUrl Lite.api "http://127.0.0.1/" = false
  /\ (fun st => map (fun r => (sourceUrl r, targetUrl r)) (results st))
       <$> Examples.stream 10 body
     = Some [("https://example.com/a", "https://example.com/b");
             ("https://example.com/a", "https://other.com/c");
             ("https://example.com/a", "http://127.0.0.1/")]
  /\ (fun st => requests (@trace Examples.site (env st))) <$> Examples.stream 10 body
     = Some [(GET, "https://example.com/a"); (HEAD, "https://example.com/b");
             (HEAD, "https://other.com/c"); (HEAD, "http://127.0.0.1/")].
Proof. repeat split; vm_compute; reflexivity. Qed.

(** The older handler has no gate: it fetches the loopback seed itself. *)
Lemma legacy_fetches_rejected_seed :
  let body := Examples.request ["http://127.0.0.1/"] false 2 (Some (JFin 2)) None in
  (fun st => requests (@trace Examples.site (env st))) <$> Examples.legacy 10 body
  = Some [(GET, "http://127.0.0.1/")].
Proof. vm_compute. reflexivity. Qed.

(** C7.  Two seeds, the first a page without links: the second page is
    fetched with no sleep before it, because no result exists yet.  The
    only sleeps of the run are the half-interval ones after the results of
    the second page. *)
Theorem no_sleep_after_page_without_results :
  let body := Examples.request ["https://example.com/empty"; "https://example.com/a"]
                false 3 (Some (JFin 2)) None in
  streamDelayMs body = JFin (1000 / 2)
  /\ (fun st => pacing (@trace Examples.site (env st))) <$> Examples.stream 10 body
     = Some [Fetched "https://example.com/empty"; Fetched "https://example.com/a";
             Slept (JFin (1000 / 2 / 2)); Slept (JFin (1000 / 2 / 2));
             Slept (JFin (1000 / 2 / 2))].
Proof. split; vm_compute; reflexivity. Qed.

(** C8.  The streaming handler compiles and applies a filter of 200
    characters and ignores one of 201; the older handler compiles and
    applies the filter of 201 characters, and no page is fetched. *)
Theorem filter_length_guard_missing_in_legacy :
  let body n := Examples.request ["https://example.com/a"] false 3 (Some (JFin 2))
                  (Some (Examples.filterOfLength n)) in
  let fetched run := (fun st => (requests (@trace Examples.site (env st)), length (results st)))
                       <$> run in
  String.length (Examples.filterOfLength 200) = 200%nat
  /\ @streamUrlFilter Scripted.literals (body 200%nat) = Some (Examples.filterOfLength 200)
  /\ fetched (Examples.stream 10 (body 200%nat)) = Some ([], 0%nat)
  /\ String.length (Examples.filterOfLength 201) = 201%nat
  /\ @streamUrlFilter Scripted.literals (body 201%nat) = None
  /\ fetched (Examples.stream 10 (body 201%nat))
     = Some ([(GET, "https://example.com/a"); (HEAD, "https://example.com/b");
              (HEAD, "https://other.com/c"); (HEAD, "http://127.0.0.1/")], 3%nat)
  /\ @legacyUrlFilter Scripted.literals (body 201%nat) = Some (Examples.filterOfLength 201)
  /\ fetched (Examples.legacy 10 (body 201%nat)) = Some ([], 0%nat).
Proof. repeat split; vm_compute; reflexivity. Qed.



(* --------------------------------------------------------------------- *)
(** ** Runs for the properties of whole crawls *)

Lemma stream_crawl_terminates_witness :
  let body := Examples.request ["https://example.com/a"] true 2 (Some (JFin 2)) None in
  exists st, forall fuel, (207 < fuel)%nat -> Examples.stream fuel body = Some st.
Proof.
  intros body.
  destruct (@stream_crawl_terminates Lite.api LiteLaws.laws Examples.siteParser
              Scripted.literals Examples.site body (@Examples.fresh Examples.site 0%nat))
    as [st Hst].
  exists st. intros fuel Hfuel. apply Hst. exact Hfuel.
Defined.



Lemma crawl_scope_witness :
  let body := Examples.request ["https://example.com/a"] true 2 (Some (JFin 2)) None in
  exists st,
    Examples.stream 10 body = Some st
    /\ Forall (fun u => exists s, s ∈ ["https://example.com/a"] /\ sameHost s u)
         (fetchedPages (trace (env st))).
Proof.
  intros body.
  destruct (Examples.stream 10 body) as [st|] eqn:E; [|vm_compute in E; discriminate].
  exists st. split; [reflexivity|].
  destruct (@crawl_scope Lite.api LiteLaws.laws LiteLaws.base_laws Examples.siteParser
              Scripted.literals Examples.site 10 isAllowedUrl (streamConfig body)
              (@Examples.fresh Examples.site 0%nat) st eq_refl E)
    as (Hhosts & _).
  exact Hhosts.
Defined.

Lemma crawl_visits_each_once_witness :
  let body := Examples.request ["https://example.com/a"] true 2 (Some (JFin 2)) None in
  let cfg := @streamConfig Lite.api Scripted.literals body in
  NoDup (item_url <$> dequeued 10 cfg
                        (startCrawl isAllowedUrl cfg (@Examples.fresh Examples.site 0%nat))).
Proof.
  intros body cfg.
  exact (proj1 (@crawl_visits_each_once Lite.api LiteLaws.laws Examples.siteParser
                  Scripted.literals Examples.site 10 isAllowedUrl cfg
                  (@Examples.fresh Examples.site 0%nat))).
Defined.

Lemma legacy_crawl_terminates_witness :
  let body := Examples.request ["https://example.com/a"] true 2 (Some (JFin 2)) None in
  exists st, forall fuel, (202 < fuel)%nat -> Examples.legacy fuel body = Some st.
Proof.
  intros body.
  destruct (@legacy_crawl_terminates Lite.api LiteLaws.laws Examples.siteParser
              Scripted.literals Examples.site body (@Examples.fresh Examples.site 0%nat))
    as [Hends _].
  destruct (Hends (inject_Z 100) 1%nat eq_refl eq_refl) as [st Hst].
  exists st. intros fuel Hfuel. apply Hst. exact Hfuel.
Defined.

Lemma crawl_request_budget_witness :
  let body := Examples.request ["https://example.com/a"] true 2 (Some (JFin 2)) None in
  exists st,
    Examples.stream 10 body = Some st
    /\ (length (headRequests (trace (env st))) <= 10 * length (results st))%nat
    /\ (length (results st) <= 100)%nat.
Proof.
  intros body.
  destruct (Examples.stream 10 body) as [st|] eqn:E; [|vm_compute in E; discriminate].
  exists st. split; [reflexivity|].
  destruct (@crawl_request_budget Lite.api LiteLaws.laws Examples.siteParser Scripted.literals
              Examples.site 10 isAllowedUrl (streamConfig body)
              (@Examples.fresh Examples.site 0%nat) st eq_refl E)
    as (_ & Hheads & _ & Hresults & _).
  split; [exact Hheads|].
  apply (Hresults 100); [vm_compute; reflexivity | lia].
Defined.
